(** * Wuffs f64conv: decimal <-> IEEE 754 binary64 conversion

    A shallow embedding of [internal/cgen/base/f64conv-submodule.c] and the
    properties of it that the library's specification states.

    Conventions of the embedding:
    - the C prefix [wuffs_base__private_implementation__] (and [wuffs_base__]
      for the public entry points) is dropped from every name;
    - [uint8_t], [uint32_t], [uint64_t] and [int32_t] values are integers of
      [Z]; arithmetic that can leave the type's range is wrapped explicitly
      with [u8], [u32], [u64] (reduction modulo a power of two) and [i32]
      (two's complement);
    - the [digits] array of a high precision decimal is a [list Z], read with
      [digit_get] and written in place with [digit_set];
    - a byte slice is a [list Z]; a pointer walking over the slice is the
      suffix of the list that remains to be read;
    - a [double] is its 64-bit IEEE 754 bit pattern;
    - a [wuffs_base__status] is its [repr] field: [None] for the NULL pointer
      and [Some msg] for an error message. *)

From Stdlib Require Import ZArith Lia Bool String Ascii.
From Stdlib Require Import Floats.SpecFloat.
From stdpp Require Import base list.

Local Open Scope Z_scope.

(** ** Fixed width integers *)

Definition u8 (x : Z) : Z := x mod 2 ^ 8.
Definition u32 (x : Z) : Z := x mod 2 ^ 32.
Definition u64 (x : Z) : Z := x mod 2 ^ 64.
Definition i32 (x : Z) : Z := (x + 2 ^ 31) mod 2 ^ 32 - 2 ^ 31.
Definition i64 (x : Z) : Z := (x + 2 ^ 63) mod 2 ^ 64 - 2 ^ 63.

Definition UINT64_MAX : Z := 2 ^ 64 - 1.

(** Shifts of a [uint64_t] by a variable count. C leaves a count of 64 or
    more undefined; the model does what the 64-bit targets do and takes the
    count modulo 64. *)
Definition shl64 (x n : Z) : Z := u64 (Z.shiftl x (n mod 64)).
Definition shr64 (x n : Z) : Z := Z.shiftr x (n mod 64).

(** ** Bytes and characters *)

Definition byte_of_ascii (c : ascii) : Z := Z.of_N (N_of_ascii c).

Fixpoint bytes_of_string (s : string) : list Z :=
  match s with
  | EmptyString => []
  | String c s' => byte_of_ascii c :: bytes_of_string s'
  end.

Definition ch (s : string) : Z :=
  match s with
  | String c _ => byte_of_ascii c
  | EmptyString => 0
  end.

Arguments ch : simpl never.

(** ** Status values

    The two error messages below are declared in another file of the base
    library; only their identity matters here. *)

Definition status : Type := option string.

(** Modelled from the spec: [wuffs_base__error__bad_receiver], the status for
    a NULL receiver, declared outside this file. *)
Definition error__bad_receiver : string := "#base: bad receiver".

(** Modelled from the spec: [wuffs_base__error__bad_argument], the status for
    malformed input, declared outside this file. *)
Definition error__bad_argument : string := "#base: bad argument".

Definition error__mpb_failed : string := "#base: mpb__parse_number_f64 failed".

Definition make_status (repr : option string) : status := repr.

(** ** High precision decimals *)

Definition HPD__DECIMAL_POINT__RANGE : Z := 2047.
Definition HPD__DIGITS_PRECISION : Z := 800.
Definition HPD__SHIFT__MAX_INCL : Z := 60.

Record high_prec_dec : Type := mk_hpd {
  num_digits : Z;        (* uint32_t *)
  decimal_point : Z;     (* int32_t *)
  negative : bool;
  truncated : bool;
  digits : list Z        (* uint8_t[800] *)
}.

Definition digit_get (ds : list Z) (i : Z) : Z := default 0 (ds !! Z.to_nat i).
Definition digit_set (ds : list Z) (i v : Z) : list Z := <[Z.to_nat i := v]> ds.

Definition set_num_digits (h : high_prec_dec) (n : Z) : high_prec_dec :=
  mk_hpd n (decimal_point h) (negative h) (truncated h) (digits h).
Definition set_decimal_point (h : high_prec_dec) (d : Z) : high_prec_dec :=
  mk_hpd (num_digits h) d (negative h) (truncated h) (digits h).
Definition set_negative (h : high_prec_dec) (b : bool) : high_prec_dec :=
  mk_hpd (num_digits h) (decimal_point h) b (truncated h) (digits h).
Definition set_truncated (h : high_prec_dec) (b : bool) : high_prec_dec :=
  mk_hpd (num_digits h) (decimal_point h) (negative h) b (digits h).
Definition set_digits (h : high_prec_dec) (ds : list Z) : high_prec_dec :=
  mk_hpd (num_digits h) (decimal_point h) (negative h) (truncated h) ds.

(** A stack allocated HPD before its first assignment. The C code never reads
    a digit that it has not written; the model starts from zeroes. *)
Definition hpd_stack : high_prec_dec :=
  mk_hpd 0 0 false false (replicate 800 0).

(** [trim]: the loop
    [while ((h->num_digits > 0) && (h->digits[h->num_digits - 1] == 0))]
    runs at most [num_digits] times, so it recurses on that count. *)
Fixpoint trim_loop (n : nat) (ds : list Z) : nat :=
  match n with
  | O => O
  | S k => if digit_get ds (Z.of_nat k) =? 0 then trim_loop k ds else n
  end.

Definition high_prec_dec__trim (h : high_prec_dec) : high_prec_dec :=
  set_num_digits h (Z.of_nat (trim_loop (Z.to_nat (num_digits h)) (digits h))).

(** [assign]: the do-while loop peels one decimal digit of [x] per round and
    writes it at [--ptr] in [buf]; a 64-bit [x] has at most 20 digits. *)
Fixpoint assign_loop (fuel : nat) (x : Z) (ptr : Z) (buf : list Z) (n : Z)
  : Z * list Z * Z :=
  match fuel with
  | O => (ptr, buf, n)
  | S fuel' =>
      let remaining := x / 10 in
      let x := u64 (x - remaining * 10) in
      let ptr := ptr - 1 in
      let buf := digit_set buf ptr (u8 x) in
      let n := u32 (n + 1) in
      let x := remaining in
      if 0 <? x then assign_loop fuel' x ptr buf n else (ptr, buf, n)
  end.

(** [memcpy(dst, src + ptr, len)] on byte arrays. *)
Fixpoint memcpy_loop (len : nat) (dst : list Z) (d : Z) (src : list Z) (s : Z)
  : list Z :=
  match len with
  | O => dst
  | S len' =>
      memcpy_loop len' (digit_set dst d (digit_get src s)) (d + 1) src (s + 1)
  end.

Definition high_prec_dec__assign (h : high_prec_dec) (x : Z) (neg : bool)
  : high_prec_dec :=
  let '(n, ds) :=
    if 0 <? x then
      let '(ptr, buf, n) := assign_loop 20 x 20 (replicate 40 0) 0 in
      (n, memcpy_loop 20 (digits h) 0 buf ptr)
    else (0, digits h) in
  high_prec_dec__trim (mk_hpd n (i32 n) neg false ds).

(** [parse]: the states of the two scanning loops. *)
Record parse_digits_state : Type := mk_pds {
  pds_nd : Z;                    (* uint32_t nd *)
  pds_dp : Z;                    (* int32_t dp *)
  pds_saw_digits : bool;
  pds_saw_non_zero_digits : bool;
  pds_saw_dot : bool;
  pds_truncated : bool;          (* h->truncated *)
  pds_digits : list Z            (* h->digits *)
}.

Fixpoint skip_underscores (p : list Z) : list Z :=
  match p with
  | c :: p' => if c =? ch "_" then skip_underscores p' else p
  | [] => []
  end.

(** How the "Parse digits" loop ends: it is left, by its test or by its
    [break], with [p] the unread input; or the function returns the bad
    argument status from inside the loop. Either way the state holds what
    the loop has stored in [h] so far. *)
Inductive digits_exit : Type :=
  | digits_left (st : parse_digits_state) (p : list Z)
  | digits_bad (st : parse_digits_state).

(** The "Parse digits" loop. *)
Fixpoint parse_digits_loop (p : list Z) (st : parse_digits_state)
  : digits_exit :=
  match p with
  | [] => digits_left st []
  | c :: p' =>
      let '(mk_pds nd dp saw_digits saw_nz saw_dot trunc ds) := st in
      if c =? ch "_" then parse_digits_loop p' st
      else if (c =? ch ".") || (c =? ch ",") then
        if saw_dot then digits_bad st
        else parse_digits_loop p' (mk_pds nd (i32 nd) saw_digits saw_nz true trunc ds)
      else if ch "0" =? c then
        if negb saw_dot && negb saw_nz && saw_digits then digits_bad st
        else if nd =? 0 then
          parse_digits_loop p' (mk_pds nd (i32 (dp - 1)) true saw_nz saw_dot trunc ds)
        else if nd <? HPD__DIGITS_PRECISION then
          parse_digits_loop p'
            (mk_pds (u32 (nd + 1)) dp true saw_nz saw_dot trunc (digit_set ds nd 0))
        else
          parse_digits_loop p' (mk_pds nd dp true saw_nz saw_dot trunc ds)
      else if (ch "0" <? c) && (c <=? ch "9") then
        if negb saw_dot && negb saw_nz && saw_digits then digits_bad st
        else if nd <? HPD__DIGITS_PRECISION then
          parse_digits_loop p'
            (mk_pds (u32 (nd + 1)) dp true true saw_dot trunc
               (digit_set ds nd (u8 (c - ch "0"))))
        else
          parse_digits_loop p' (mk_pds nd dp true true saw_dot true ds)
      else digits_left st p
  end.

(** The exponent's digit loop: [(exp, saw_exp_digits)] and the unread
    input at the loop's exit. *)
Fixpoint parse_exp_loop (p : list Z) (exp : Z) (saw_exp_digits : bool)
  : Z * bool * list Z :=
  match p with
  | [] => (exp, saw_exp_digits, [])
  | c :: p' =>
      if c =? ch "_" then parse_exp_loop p' exp saw_exp_digits
      else if (ch "0" <=? c) && (c <=? ch "9") then
        let exp_large := HPD__DECIMAL_POINT__RANGE + HPD__DIGITS_PRECISION in
        let exp := if exp <? exp_large then i32 (10 * exp + i32 (c - ch "0")) else exp in
        parse_exp_loop p' exp true
      else (exp, saw_exp_digits, p)
  end.

Definition is_nil {A : Type} (l : list A) : bool :=
  match l with [] => true | _ => false end.

(** The "Parse exponent" block: [None] is [return bad_argument], otherwise
    the new [dp] and the unread input. *)
Definition parse_exponent (p : list Z) (dp : Z) : option (Z * list Z) :=
  match p with
  | c :: p1 =>
      if (c =? ch "E") || (c =? ch "e") then
        let p2 := skip_underscores p1 in
        match p2 with
        | [] => None
        | c2 :: p3 =>
            let '(exp_sign, p4) :=
              if c2 =? ch "+" then (1, p3)
              else if c2 =? ch "-" then (-1, p3)
              else (1, p2) in
            let '(exp, saw_exp_digits, p5) := parse_exp_loop p4 0 false in
            if negb saw_exp_digits then None
            else Some (i32 (dp + i32 (exp_sign * exp)), p5)
        end
      else Some (dp, p)
  | [] => Some (dp, p)
  end.

(** [high_prec_dec__parse]. The receiver is a pointer in C: [None] is NULL. *)
Definition high_prec_dec__parse (h : option high_prec_dec) (s : list Z)
  : status * option high_prec_dec :=
  match h with
  | None => (make_status (Some error__bad_receiver), None)
  | Some h =>
      let h := mk_hpd 0 0 false false (digits h) in
      let bad (h : high_prec_dec) := (make_status (Some error__bad_argument), Some h) in
      let p := skip_underscores s in
      match p with
      | [] => bad h
      | c :: p' =>
          (* Parse sign. *)
          let '(h, p) :=
            if c =? ch "+" then (h, skip_underscores p')
            else if c =? ch "-" then (set_negative h true, skip_underscores p')
            else (h, p) in
          (* Parse digits. *)
          match parse_digits_loop p
                  (mk_pds 0 0 false false false (truncated h) (digits h)) with
          | digits_bad (mk_pds _ _ _ _ _ trunc ds) =>
              bad (set_digits (set_truncated h trunc) ds)
          | digits_left (mk_pds nd dp saw_digits _ saw_dot trunc ds) p =>
              let h := set_digits (set_truncated h trunc) ds in
              if negb saw_digits then bad h
              else
                let dp := if negb saw_dot then i32 nd else dp in
                (* Parse exponent. *)
                match parse_exponent p dp with
                | None => bad h
                | Some (dp, p) =>
                    (* Finish. *)
                    if negb (is_nil p) then bad h
                    else
                      let h := set_num_digits h nd in
                      let h :=
                        if nd =? 0 then set_decimal_point h 0
                        else if dp <? - HPD__DECIMAL_POINT__RANGE then
                          set_decimal_point h (- HPD__DECIMAL_POINT__RANGE - 1)
                        else if HPD__DECIMAL_POINT__RANGE <? dp then
                          set_decimal_point h (HPD__DECIMAL_POINT__RANGE + 1)
                        else set_decimal_point h dp in
                      (make_status None, Some (high_prec_dec__trim h))
                end
          end
      end
  end.

(** ** Tables for the left shift

    [hpd_left_shift] and [powers_of_5] are the two tables of the source,
    entry for entry. *)

Definition hpd_left_shift : list Z := [
    0x0000; 0x0800; 0x0801; 0x0803; 0x1006; 0x1009; 0x100D; 0x1812; 0x1817;
    0x181D; 0x2024; 0x202B; 0x2033; 0x203C; 0x2846; 0x2850; 0x285B; 0x3067;
    0x3073; 0x3080; 0x388E; 0x389C; 0x38AB; 0x38BB; 0x40CC; 0x40DD; 0x40EF;
    0x4902; 0x4915; 0x4929; 0x513E; 0x5153; 0x5169; 0x5180; 0x5998; 0x59B0;
    0x59C9; 0x61E3; 0x61FD; 0x6218; 0x6A34; 0x6A50; 0x6A6D; 0x6A8B; 0x72AA;
    0x72C9; 0x72E9; 0x7B0A; 0x7B2B; 0x7B4D; 0x8370; 0x8393; 0x83B7; 0x83DC;
    0x8C02; 0x8C28; 0x8C4F; 0x9477; 0x949F; 0x94C8; 0x9CF2; 0x051C; 0x051C;
    0x051C; 0x051C
  ].

Definition powers_of_5 : list Z := [
    5; 2; 5; 1; 2; 5; 6; 2; 5; 3; 1; 2; 5; 1; 5; 6; 2; 5; 7; 8; 1; 2; 5; 3; 9;
    0; 6; 2; 5; 1; 9; 5; 3; 1; 2; 5; 9; 7; 6; 5; 6; 2; 5; 4; 8; 8; 2; 8; 1; 2;
    5; 2; 4; 4; 1; 4; 0; 6; 2; 5; 1; 2; 2; 0; 7; 0; 3; 1; 2; 5; 6; 1; 0; 3; 5;
    1; 5; 6; 2; 5; 3; 0; 5; 1; 7; 5; 7; 8; 1; 2; 5; 1; 5; 2; 5; 8; 7; 8; 9; 0;
    6; 2; 5; 7; 6; 2; 9; 3; 9; 4; 5; 3; 1; 2; 5; 3; 8; 1; 4; 6; 9; 7; 2; 6; 5;
    6; 2; 5; 1; 9; 0; 7; 3; 4; 8; 6; 3; 2; 8; 1; 2; 5; 9; 5; 3; 6; 7; 4; 3; 1;
    6; 4; 0; 6; 2; 5; 4; 7; 6; 8; 3; 7; 1; 5; 8; 2; 0; 3; 1; 2; 5; 2; 3; 8; 4;
    1; 8; 5; 7; 9; 1; 0; 1; 5; 6; 2; 5; 1; 1; 9; 2; 0; 9; 2; 8; 9; 5; 5; 0; 7;
    8; 1; 2; 5; 5; 9; 6; 0; 4; 6; 4; 4; 7; 7; 5; 3; 9; 0; 6; 2; 5; 2; 9; 8; 0;
    2; 3; 2; 2; 3; 8; 7; 6; 9; 5; 3; 1; 2; 5; 1; 4; 9; 0; 1; 1; 6; 1; 1; 9; 3;
    8; 4; 7; 6; 5; 6; 2; 5; 7; 4; 5; 0; 5; 8; 0; 5; 9; 6; 9; 2; 3; 8; 2; 8; 1;
    2; 5; 3; 7; 2; 5; 2; 9; 0; 2; 9; 8; 4; 6; 1; 9; 1; 4; 0; 6; 2; 5; 1; 8; 6;
    2; 6; 4; 5; 1; 4; 9; 2; 3; 0; 9; 5; 7; 0; 3; 1; 2; 5; 9; 3; 1; 3; 2; 2; 5;
    7; 4; 6; 1; 5; 4; 7; 8; 5; 1; 5; 6; 2; 5; 4; 6; 5; 6; 6; 1; 2; 8; 7; 3; 0;
    7; 7; 3; 9; 2; 5; 7; 8; 1; 2; 5; 2; 3; 2; 8; 3; 0; 6; 4; 3; 6; 5; 3; 8; 6;
    9; 6; 2; 8; 9; 0; 6; 2; 5; 1; 1; 6; 4; 1; 5; 3; 2; 1; 8; 2; 6; 9; 3; 4; 8;
    1; 4; 4; 5; 3; 1; 2; 5; 5; 8; 2; 0; 7; 6; 6; 0; 9; 1; 3; 4; 6; 7; 4; 0; 7;
    2; 2; 6; 5; 6; 2; 5; 2; 9; 1; 0; 3; 8; 3; 0; 4; 5; 6; 7; 3; 3; 7; 0; 3; 6;
    1; 3; 2; 8; 1; 2; 5; 1; 4; 5; 5; 1; 9; 1; 5; 2; 2; 8; 3; 6; 6; 8; 5; 1; 8;
    0; 6; 6; 4; 0; 6; 2; 5; 7; 2; 7; 5; 9; 5; 7; 6; 1; 4; 1; 8; 3; 4; 2; 5; 9;
    0; 3; 3; 2; 0; 3; 1; 2; 5; 3; 6; 3; 7; 9; 7; 8; 8; 0; 7; 0; 9; 1; 7; 1; 2;
    9; 5; 1; 6; 6; 0; 1; 5; 6; 2; 5; 1; 8; 1; 8; 9; 8; 9; 4; 0; 3; 5; 4; 5; 8;
    5; 6; 4; 7; 5; 8; 3; 0; 0; 7; 8; 1; 2; 5; 9; 0; 9; 4; 9; 4; 7; 0; 1; 7; 7;
    2; 9; 2; 8; 2; 3; 7; 9; 1; 5; 0; 3; 9; 0; 6; 2; 5; 4; 5; 4; 7; 4; 7; 3; 5;
    0; 8; 8; 6; 4; 6; 4; 1; 1; 8; 9; 5; 7; 5; 1; 9; 5; 3; 1; 2; 5; 2; 2; 7; 3;
    7; 3; 6; 7; 5; 4; 4; 3; 2; 3; 2; 0; 5; 9; 4; 7; 8; 7; 5; 9; 7; 6; 5; 6; 2;
    5; 1; 1; 3; 6; 8; 6; 8; 3; 7; 7; 2; 1; 6; 1; 6; 0; 2; 9; 7; 3; 9; 3; 7; 9;
    8; 8; 2; 8; 1; 2; 5; 5; 6; 8; 4; 3; 4; 1; 8; 8; 6; 0; 8; 0; 8; 0; 1; 4; 8;
    6; 9; 6; 8; 9; 9; 4; 1; 4; 0; 6; 2; 5; 2; 8; 4; 2; 1; 7; 0; 9; 4; 3; 0; 4;
    0; 4; 0; 0; 7; 4; 3; 4; 8; 4; 4; 9; 7; 0; 7; 0; 3; 1; 2; 5; 1; 4; 2; 1; 0;
    8; 5; 4; 7; 1; 5; 2; 0; 2; 0; 0; 3; 7; 1; 7; 4; 2; 2; 4; 8; 5; 3; 5; 1; 5;
    6; 2; 5; 7; 1; 0; 5; 4; 2; 7; 3; 5; 7; 6; 0; 1; 0; 0; 1; 8; 5; 8; 7; 1; 1;
    2; 4; 2; 6; 7; 5; 7; 8; 1; 2; 5; 3; 5; 5; 2; 7; 1; 3; 6; 7; 8; 8; 0; 0; 5;
    0; 0; 9; 2; 9; 3; 5; 5; 6; 2; 1; 3; 3; 7; 8; 9; 0; 6; 2; 5; 1; 7; 7; 6; 3;
    5; 6; 8; 3; 9; 4; 0; 0; 2; 5; 0; 4; 6; 4; 6; 7; 7; 8; 1; 0; 6; 6; 8; 9; 4;
    5; 3; 1; 2; 5; 8; 8; 8; 1; 7; 8; 4; 1; 9; 7; 0; 0; 1; 2; 5; 2; 3; 2; 3; 3;
    8; 9; 0; 5; 3; 3; 4; 4; 7; 2; 6; 5; 6; 2; 5; 4; 4; 4; 0; 8; 9; 2; 0; 9; 8;
    5; 0; 0; 6; 2; 6; 1; 6; 1; 6; 9; 4; 5; 2; 6; 6; 7; 2; 3; 6; 3; 2; 8; 1; 2;
    5; 2; 2; 2; 0; 4; 4; 6; 0; 4; 9; 2; 5; 0; 3; 1; 3; 0; 8; 0; 8; 4; 7; 2; 6;
    3; 3; 3; 6; 1; 8; 1; 6; 4; 0; 6; 2; 5; 1; 1; 1; 0; 2; 2; 3; 0; 2; 4; 6; 2;
    5; 1; 5; 6; 5; 4; 0; 4; 2; 3; 6; 3; 1; 6; 6; 8; 0; 9; 0; 8; 2; 0; 3; 1; 2;
    5; 5; 5; 5; 1; 1; 1; 5; 1; 2; 3; 1; 2; 5; 7; 8; 2; 7; 0; 2; 1; 1; 8; 1; 5;
    8; 3; 4; 0; 4; 5; 4; 1; 0; 1; 5; 6; 2; 5; 2; 7; 7; 5; 5; 5; 7; 5; 6; 1; 5;
    6; 2; 8; 9; 1; 3; 5; 1; 0; 5; 9; 0; 7; 9; 1; 7; 0; 2; 2; 7; 0; 5; 0; 7; 8;
    1; 2; 5; 1; 3; 8; 7; 7; 7; 8; 7; 8; 0; 7; 8; 1; 4; 4; 5; 6; 7; 5; 5; 2; 9;
    5; 3; 9; 5; 8; 5; 1; 1; 3; 5; 2; 5; 3; 9; 0; 6; 2; 5; 6; 9; 3; 8; 8; 9; 3;
    9; 0; 3; 9; 0; 7; 2; 2; 8; 3; 7; 7; 6; 4; 7; 6; 9; 7; 9; 2; 5; 5; 6; 7; 6;
    2; 6; 9; 5; 3; 1; 2; 5; 3; 4; 6; 9; 4; 4; 6; 9; 5; 1; 9; 5; 3; 6; 1; 4; 1;
    8; 8; 8; 2; 3; 8; 4; 8; 9; 6; 2; 7; 8; 3; 8; 1; 3; 4; 7; 6; 5; 6; 2; 5; 1;
    7; 3; 4; 7; 2; 3; 4; 7; 5; 9; 7; 6; 8; 0; 7; 0; 9; 4; 4; 1; 1; 9; 2; 4; 4;
    8; 1; 3; 9; 1; 9; 0; 6; 7; 3; 8; 2; 8; 1; 2; 5; 8; 6; 7; 3; 6; 1; 7; 3; 7;
    9; 8; 8; 4; 0; 3; 5; 4; 7; 2; 0; 5; 9; 6; 2; 2; 4; 0; 6; 9; 5; 9; 5; 3; 3;
    6; 9; 1; 4; 0; 6; 2; 5
  ].

(** [lshift_num_new_digits]: the [for (; i < n; i++)] loop compares the
    digits of [h] with the [n] digits of the power of five, most significant
    first. *)
Fixpoint lshift_num_new_digits_loop (cnt : nat) (i : Z) (h : high_prec_dec)
    (pow5_a : Z) (num_new_digits : Z) : Z :=
  match cnt with
  | O => num_new_digits
  | S cnt' =>
      if num_digits h <=? i then u32 (num_new_digits - 1)
      else if digit_get (digits h) i =? digit_get powers_of_5 (pow5_a + i) then
        lshift_num_new_digits_loop cnt' (i + 1) h pow5_a num_new_digits
      else if digit_get (digits h) i <? digit_get powers_of_5 (pow5_a + i) then
        u32 (num_new_digits - 1)
      else num_new_digits
  end.

Definition high_prec_dec__lshift_num_new_digits (h : high_prec_dec) (shift : Z)
  : Z :=
  let shift := Z.land shift 63 in
  let x_a := digit_get hpd_left_shift shift in
  let x_b := digit_get hpd_left_shift (shift + 1) in
  let num_new_digits := Z.shiftr x_a 11 in
  let pow5_a := Z.land 0x7FF x_a in
  let pow5_b := Z.land 0x7FF x_b in
  let n := u32 (pow5_b - pow5_a) in
  lshift_num_new_digits_loop (Z.to_nat n) 0 h pow5_a num_new_digits.

(** [rounded_integer]: the accumulation loop [for (; i < dp; i++)]. *)
Fixpoint rounded_integer_loop (cnt : nat) (i : Z) (h : high_prec_dec) (n : Z)
  : Z :=
  match cnt with
  | O => n
  | S cnt' =>
      let d := if i <? num_digits h then digit_get (digits h) i else 0 in
      rounded_integer_loop cnt' (i + 1) h (u64 (10 * n + d))
  end.

Definition high_prec_dec__rounded_integer (h : high_prec_dec) : Z :=
  if (num_digits h =? 0) || (decimal_point h <? 0) then 0
  else if 18 <? decimal_point h then UINT64_MAX
  else
    let dp := u32 (decimal_point h) in
    let n := rounded_integer_loop (Z.to_nat dp) 0 h 0 in
    let round_up := false in
    let round_up :=
      if dp <? num_digits h then
        let round_up := 5 <=? digit_get (digits h) dp in
        if (digit_get (digits h) dp =? 5) && (u32 (dp + 1) =? num_digits h) then
          (* We are exactly halfway. *)
          truncated h
          || ((0 <? dp) && negb (Z.land 1 (digit_get (digits h) (dp - 1)) =? 0))
        else round_up
      else round_up in
    if round_up then u64 (n + 1) else n.

(** [small_lshift], first loop: "pick up a digit, put down a digit, right
    to left". The read index [rx] runs from [num_digits - 1] down to [0]
    ([(int32_t)rx >= 0] fails when it wraps below zero), so the loop
    recurses on [rx + 1]. The state is [(wx, n, h)]. *)
Fixpoint small_lshift_pick (cnt : nat) (shift wx n : Z) (h : high_prec_dec)
  : Z * Z * high_prec_dec :=
  match cnt with
  | O => (wx, n, h)
  | S rx =>
      let n := u64 (n + shl64 (digit_get (digits h) (Z.of_nat rx)) shift) in
      let quo := n / 10 in
      let rem := u64 (n - 10 * quo) in
      let h :=
        if wx <? HPD__DIGITS_PRECISION then
          set_digits h (digit_set (digits h) wx (u8 rem))
        else if 0 <? rem then set_truncated h true
        else h in
      small_lshift_pick rx shift (u32 (wx - 1)) quo h
  end.

(** [small_lshift], second loop: "put down leading digits, right to left",
    [while (n > 0)]; a 64-bit [n] is zero after at most 20 divisions by ten. *)
Fixpoint small_lshift_lead (fuel : nat) (wx n : Z) (h : high_prec_dec)
  : high_prec_dec :=
  match fuel with
  | O => h
  | S fuel' =>
      if 0 <? n then
        let quo := n / 10 in
        let rem := u64 (n - 10 * quo) in
        let h :=
          if wx <? HPD__DIGITS_PRECISION then
            set_digits h (digit_set (digits h) wx (u8 rem))
          else if 0 <? rem then set_truncated h true
          else h in
        small_lshift_lead fuel' (u32 (wx - 1)) quo h
      else h
  end.

(** [small_lshift] up to, and without, its closing call of [trim]. *)
Definition small_lshift_untrimmed (h : high_prec_dec) (shift : Z)
  : high_prec_dec :=
  let num_new_digits := high_prec_dec__lshift_num_new_digits h shift in
  let wx := u32 (num_digits h - 1 + num_new_digits) in
  let '(wx, n, h) :=
    small_lshift_pick (Z.to_nat (num_digits h)) shift wx 0 h in
  let h := small_lshift_lead 20 wx n h in
  let h := set_num_digits h (u32 (num_digits h + num_new_digits)) in
  let h :=
    if HPD__DIGITS_PRECISION <? num_digits h
    then set_num_digits h HPD__DIGITS_PRECISION else h in
  set_decimal_point h (i32 (decimal_point h + i32 num_new_digits)).

Definition high_prec_dec__small_lshift (h : high_prec_dec) (shift : Z)
  : high_prec_dec :=
  if num_digits h =? 0 then h
  else high_prec_dec__trim (small_lshift_untrimmed h shift).

(** [small_rshift], first loop: "pick up enough leading digits to cover the
    first shift", as long as there are digits to read ([rx < num_digits]);
    [cnt] is [num_digits - rx]. The state is [(rx, n)]. *)
Fixpoint small_rshift_pick (cnt : nat) (shift rx n : Z) (h : high_prec_dec)
  : Z * Z :=
  match cnt with
  | O => (rx, n)
  | S cnt' =>
      if shr64 n shift =? 0 then
        small_rshift_pick cnt' shift (u32 (rx + 1))
          (u64 (10 * n + digit_get (digits h) rx)) h
      else (rx, n)
  end.

(** The inner loop "read sufficient implicit trailing zeroes":
    [while ((n >> shift) == 0) { n = 10 * n; rx++; }]. For a non-zero [n]
    and a shift of at most 60 it stops within 19 rounds. *)
Fixpoint small_rshift_zeroes (fuel : nat) (shift rx n : Z) : Z * Z :=
  match fuel with
  | O => (rx, n)
  | S fuel' =>
      if shr64 n shift =? 0 then
        small_rshift_zeroes fuel' shift (u32 (rx + 1)) (u64 (10 * n))
      else (rx, n)
  end.

(** Second loop: "pick up a digit, put down a digit, left to right",
    [while (rx < h->num_digits)]; [cnt] is [num_digits - rx]. *)
Fixpoint small_rshift_copy (cnt : nat) (shift mask rx wx n : Z) (ds : list Z)
  : Z * Z * list Z :=
  match cnt with
  | O => (wx, n, ds)
  | S cnt' =>
      let new_digit := u8 (shr64 n shift) in
      let n := u64 (10 * Z.land n mask + digit_get ds rx) in
      small_rshift_copy cnt' shift mask (u32 (rx + 1)) (u32 (wx + 1)) n
        (digit_set ds wx new_digit)
  end.

(** Third loop: "put down trailing digits, left to right", [while (n > 0)].
    Every round clears one more low bit of [n & mask], so the loop ends
    within [shift + 1] rounds. *)
Fixpoint small_rshift_trail (fuel : nat) (shift mask wx n : Z)
    (h : high_prec_dec) : Z * high_prec_dec :=
  match fuel with
  | O => (wx, h)
  | S fuel' =>
      if 0 <? n then
        let new_digit := u8 (shr64 n shift) in
        let n := u64 (10 * Z.land n mask) in
        if wx <? HPD__DIGITS_PRECISION then
          small_rshift_trail fuel' shift mask (u32 (wx + 1)) n
            (set_digits h (digit_set (digits h) wx new_digit))
        else if 0 <? new_digit then
          small_rshift_trail fuel' shift mask wx n (set_truncated h true)
        else small_rshift_trail fuel' shift mask wx n h
      else (wx, h)
  end.

Definition high_prec_dec__small_rshift (h : high_prec_dec) (shift : Z)
  : high_prec_dec :=
  let '(rx, n) :=
    small_rshift_pick (Z.to_nat (num_digits h)) shift 0 0 h in
  if (shr64 n shift =? 0) && (n =? 0) then
    (* h's number used to be zero and remains zero. *)
    h
  else
    let '(rx, n) :=
      if shr64 n shift =? 0 then small_rshift_zeroes 64 shift rx n
      else (rx, n) in
    let h := set_decimal_point h (i32 (decimal_point h - i32 (rx - 1))) in
    if decimal_point h <? - HPD__DECIMAL_POINT__RANGE then
      (* After the shift, h's number is effectively zero. *)
      mk_hpd 0 0 false false (digits h)
    else
      let mask := u64 (shl64 1 shift - 1) in
      let '(wx, n, ds) :=
        small_rshift_copy (Z.to_nat (num_digits h - rx)) shift mask rx 0 n
          (digits h) in
      let h := set_digits h ds in
      let '(wx, h) := small_rshift_trail 64 shift mask wx n h in
      high_prec_dec__trim (set_num_digits h wx).

(** [lshift]: the two [while] loops peel shifts of 60 off [shift]; that is
    [|shift| / 60] rounds at most. *)
Fixpoint lshift_left_loop (cnt : nat) (h : high_prec_dec) (shift : Z)
  : high_prec_dec * Z :=
  match cnt with
  | O => (h, shift)
  | S cnt' =>
      if HPD__SHIFT__MAX_INCL <? shift then
        lshift_left_loop cnt'
          (high_prec_dec__small_lshift h HPD__SHIFT__MAX_INCL)
          (i32 (shift - HPD__SHIFT__MAX_INCL))
      else (h, shift)
  end.

Fixpoint lshift_right_loop (cnt : nat) (h : high_prec_dec) (shift : Z)
  : high_prec_dec * Z :=
  match cnt with
  | O => (h, shift)
  | S cnt' =>
      if shift <? - HPD__SHIFT__MAX_INCL then
        lshift_right_loop cnt'
          (high_prec_dec__small_rshift h HPD__SHIFT__MAX_INCL)
          (i32 (shift + HPD__SHIFT__MAX_INCL))
      else (h, shift)
  end.

Definition high_prec_dec__lshift (h : high_prec_dec) (shift : Z)
  : high_prec_dec :=
  if 0 <? shift then
    let '(h, shift) :=
      lshift_left_loop (Z.to_nat (shift / HPD__SHIFT__MAX_INCL)) h shift in
    high_prec_dec__small_lshift h (u32 shift)
  else if shift <? 0 then
    let '(h, shift) :=
      lshift_right_loop (Z.to_nat (- shift / HPD__SHIFT__MAX_INCL)) h shift in
    high_prec_dec__small_rshift h (u32 (- shift))
  else h.

(** ** Rounding *)

Definition high_prec_dec__round_down (h : high_prec_dec) (n : Z)
  : high_prec_dec :=
  if (n <? 0) || (num_digits h <=? u32 n) then h
  else high_prec_dec__trim (set_num_digits h (u32 n)).

(** [round_up]: the loop [for (n--; n >= 0; n--)] looks for the last digit
    below 9 among the first [n]; [cnt] is the number of digits still to
    look at and the digit looked at is [cnt - 1]. *)
Fixpoint round_up_loop (cnt : nat) (h : high_prec_dec) : high_prec_dec :=
  match cnt with
  | O =>
      (* The number is all 9s. Change to a single 1 and adjust the decimal
         point. *)
      set_decimal_point
        (set_num_digits (set_digits h (digit_set (digits h) 0 1)) 1)
        (i32 (decimal_point h + 1))
  | S cnt' =>
      let n := Z.of_nat cnt' in
      if digit_get (digits h) n <? 9 then
        set_num_digits
          (set_digits h (digit_set (digits h) n (u8 (digit_get (digits h) n + 1))))
          (u32 (n + 1))
      else round_up_loop cnt' h
  end.

Definition high_prec_dec__round_up (h : high_prec_dec) (n : Z)
  : high_prec_dec :=
  if (n <? 0) || (num_digits h <=? u32 n) then h
  else round_up_loop (Z.to_nat n) h.

Definition high_prec_dec__round_nearest (h : high_prec_dec) (n : Z)
  : high_prec_dec :=
  if (n <? 0) || (num_digits h <=? u32 n) then h
  else
    let up := 5 <=? digit_get (digits h) n in
    let up :=
      if (digit_get (digits h) n =? 5) && (i32 (n + 1) =? i32 (num_digits h)) then
        truncated h
        || ((0 <? n) && negb (Z.land (digit_get (digits h) (n - 1)) 1 =? 0))
      else up in
    if up then high_prec_dec__round_up h n
    else high_prec_dec__round_down h n.

(** [round_just_enough], the digit walk [for (;; ui++)]. The loop is left by
    [break] once [hi] reaches [h->num_digits]; [hi] grows with [ui], so
    [cnt] counts the rounds that remain until then. *)
Fixpoint round_just_enough_loop (cnt : nat) (ui : Z) (upper_delta : Z)
    (inclusive : bool) (lower upper h : high_prec_dec) : high_prec_dec :=
  match cnt with
  | O => h
  | S cnt' =>
      (* Calculate hd, the middle number's digit. *)
      let hi := i32 (i32 (ui - decimal_point upper) + decimal_point h) in
      if i32 (num_digits h) <=? hi then h
      else
        let hd := if u32 hi <? num_digits h then digit_get (digits h) hi else 0 in
        (* Calculate ld, the lower bound's digit. *)
        let li := i32 (i32 (ui - decimal_point upper) + decimal_point lower) in
        let ld :=
          if u32 li <? num_digits lower then digit_get (digits lower) li else 0 in
        let can_round_down :=
          negb (ld =? hd)
          || (inclusive && (i32 (li + 1) =? i32 (num_digits lower))) in
        (* Calculate ud, the upper bound's digit, and update upper_delta. *)
        let ud :=
          if u32 ui <? num_digits upper then digit_get (digits upper) ui else 0 in
        let upper_delta :=
          if upper_delta <? 0 then
            if hd + 1 <? ud then 1
            else if negb (hd =? ud) then 0
            else upper_delta
          else if upper_delta =? 0 then
            if negb (hd =? 9) || negb (ud =? 0) then 1 else upper_delta
          else upper_delta in
        let can_round_up :=
          (0 <? upper_delta)
          || ((upper_delta =? 0)
              && (inclusive || (i32 (ui + 1) <? i32 (num_digits upper)))) in
        if can_round_down then
          if can_round_up then high_prec_dec__round_nearest h (i32 (hi + 1))
          else high_prec_dec__round_down h (i32 (hi + 1))
        else
          if can_round_up then high_prec_dec__round_up h (i32 (hi + 1))
          else
            round_just_enough_loop cnt' (i32 (ui + 1)) upper_delta inclusive
              lower upper h
  end.

Definition high_prec_dec__round_just_enough (h : high_prec_dec)
    (exp2 : Z) (mantissa : Z) : high_prec_dec :=
  if (mantissa =? 0)
     || ((exp2 <? 53) && (i32 (num_digits h) <=? decimal_point h)) then h
  else
    let min_incl_normal_exp2 := -1022 in
    let min_incl_normal_mantissa := 0x0010000000000000 in
    let '(l_exp2, l_mantissa) :=
      if (min_incl_normal_exp2 <? exp2)
         && (mantissa <=? min_incl_normal_mantissa)
      then (i32 (exp2 - 1), u64 (2 * mantissa - 1))
      else (exp2, u64 (mantissa - 1)) in
    let lower :=
      high_prec_dec__lshift
        (high_prec_dec__assign hpd_stack (u64 (2 * l_mantissa + 1)) false)
        (i32 (l_exp2 - 53)) in
    let upper :=
      high_prec_dec__lshift
        (high_prec_dec__assign hpd_stack (u64 (2 * mantissa + 1)) false)
        (i32 (exp2 - 53)) in
    let inclusive := Z.land mantissa 1 =? 0 in
    let hi0 := i32 (i32 (0 - decimal_point upper) + decimal_point h) in
    round_just_enough_loop (Z.to_nat (i32 (num_digits h) - hi0)) 0 (-1)
      inclusive lower upper h.

(** ** Powers of ten

    [powers_of_10] is the source's table of 637 quintuples of [uint32_t]:
    a 128-bit mantissa, least significant word first, and a base-2 exponent
    biased by 1214, for 1e-326 up to 1e+310. *)

Definition powers_of_10 : list Z := [
    0xF7604B57; 0x014BB630; 0xFE98746D; 0x84A57695; 0x0004;
    0x35385E2D; 0x419EA3BD; 0x7E3E9188; 0xA5CED43B; 0x0007;
    0x828675B9; 0x52064CAC; 0x5DCE35EA; 0xCF42894A; 0x000A;
    0xD1940993; 0x7343EFEB; 0x7AA0E1B2; 0x818995CE; 0x000E;
    0xC5F90BF8; 0x1014EBE6; 0x19491A1F; 0xA1EBFB42; 0x0011;
    0x77774EF6; 0xD41A26E0; 0x9F9B60A6; 0xCA66FA12; 0x0014;
    0x955522B4; 0x8920B098; 0x478238D0; 0xFD00B897; 0x0017;
    0x5D5535B0; 0x55B46E5F; 0x8CB16382; 0x9E20735E; 0x001B;
    0x34AA831D; 0xEB2189F7; 0x2FDDBC62; 0xC5A89036; 0x001E;
    0x01D523E4; 0xA5E9EC75; 0xBBD52B7B; 0xF712B443; 0x0021;
    0x2125366E; 0x47B233C9; 0x55653B2D; 0x9A6BB0AA; 0x0025;
    0x696E840A; 0x999EC0BB; 0xEABE89F8; 0xC1069CD4; 0x0028;
    0x43CA250D; 0xC00670EA; 0x256E2C76; 0xF148440A; 0x002B;
    0x6A5E5728; 0x38040692; 0x5764DBCA; 0x96CD2A86; 0x002F;
    0x04F5ECF2; 0xC6050837; 0xED3E12BC; 0xBC807527; 0x0032;
    0xC633682E; 0xF7864A44; 0xE88D976B; 0xEBA09271; 0x0035;
    0xFBE0211D; 0x7AB3EE6A; 0x31587EA3; 0x93445B87; 0x0039;
    0xBAD82964; 0x5960EA05; 0xFDAE9E4C; 0xB8157268; 0x003C;
    0x298E33BD; 0x6FB92487; 0x3D1A45DF; 0xE61ACF03; 0x003F;
    0x79F8E056; 0xA5D3B6D4; 0x06306BAB; 0x8FD0C162; 0x0043;
    0x9877186C; 0x8F48A489; 0x87BC8696; 0xB3C4F1BA; 0x0046;
    0xFE94DE87; 0x331ACDAB; 0x29ABA83C; 0xE0B62E29; 0x0049;
    0x7F1D0B14; 0x9FF0C08B; 0xBA0B4925; 0x8C71DCD9; 0x004D;
    0x5EE44DD9; 0x07ECF0AE; 0x288E1B6F; 0xAF8E5410; 0x0050;
    0xF69D6150; 0xC9E82CD9; 0x32B1A24A; 0xDB71E914; 0x0053;
    0x3A225CD2; 0xBE311C08; 0x9FAF056E; 0x892731AC; 0x0057;
    0x48AAF406; 0x6DBD630A; 0xC79AC6CA; 0xAB70FE17; 0x005A;
    0xDAD5B108; 0x092CBBCC; 0xB981787D; 0xD64D3D9D; 0x005D;
    0x08C58EA5; 0x25BBF560; 0x93F0EB4E; 0x85F04682; 0x0061;
    0x0AF6F24E; 0xAF2AF2B8; 0x38ED2621; 0xA76C5823; 0x0064;
    0x0DB4AEE1; 0x1AF5AF66; 0x07286FAA; 0xD1476E2C; 0x0067;
    0xC890ED4D; 0x50D98D9F; 0x847945CA; 0x82CCA4DB; 0x006B;
    0xBAB528A0; 0xE50FF107; 0x6597973C; 0xA37FCE12; 0x006E;
    0xA96272C8; 0x1E53ED49; 0xFEFD7D0C; 0xCC5FC196; 0x0071;
    0x13BB0F7A; 0x25E8E89C; 0xBEBCDC4F; 0xFF77B1FC; 0x0074;
    0x8C54E9AC; 0x77B19161; 0xF73609B1; 0x9FAACF3D; 0x0078;
    0xEF6A2417; 0xD59DF5B9; 0x75038C1D; 0xC795830D; 0x007B;
    0x6B44AD1D; 0x4B057328; 0xD2446F25; 0xF97AE3D0; 0x007E;
    0x430AEC32; 0x4EE367F9; 0x836AC577; 0x9BECCE62; 0x0082;
    0x93CDA73F; 0x229C41F7; 0x244576D5; 0xC2E801FB; 0x0085;
    0x78C1110F; 0x6B435275; 0xED56D48A; 0xF3A20279; 0x0088;
    0x6B78AAA9; 0x830A1389; 0x345644D6; 0x9845418C; 0x008C;
    0xC656D553; 0x23CC986B; 0x416BD60C; 0xBE5691EF; 0x008F;
    0xB7EC8AA8; 0x2CBFBE86; 0x11C6CB8F; 0xEDEC366B; 0x0092;
    0x32F3D6A9; 0x7BF7D714; 0xEB1C3F39; 0x94B3A202; 0x0096;
    0x3FB0CC53; 0xDAF5CCD9; 0xA5E34F07; 0xB9E08A83; 0x0099;
    0x8F9CFF68; 0xD1B3400F; 0x8F5C22C9; 0xE858AD24; 0x009C;
    0xB9C21FA1; 0x23100809; 0xD99995BE; 0x91376C36; 0x00A0;
    0x2832A78A; 0xABD40A0C; 0x8FFFFB2D; 0xB5854744; 0x00A3;
    0x323F516C; 0x16C90C8F; 0xB3FFF9F9; 0xE2E69915; 0x00A6;
    0x7F6792E3; 0xAE3DA7D9; 0x907FFC3B; 0x8DD01FAD; 0x00AA;
    0xDF41779C; 0x99CD11CF; 0xF49FFB4A; 0xB1442798; 0x00AD;
    0xD711D583; 0x40405643; 0x31C7FA1D; 0xDD95317F; 0x00B0;
    0x666B2572; 0x482835EA; 0x7F1CFC52; 0x8A7D3EEF; 0x00B4;
    0x0005EECF; 0xDA324365; 0x5EE43B66; 0xAD1C8EAB; 0x00B7;
    0x40076A82; 0x90BED43E; 0x369D4A40; 0xD863B256; 0x00BA;
    0xE804A291; 0x5A7744A6; 0xE2224E68; 0x873E4F75; 0x00BE;
    0xA205CB36; 0x711515D0; 0x5AAAE202; 0xA90DE353; 0x00C1;
    0xCA873E03; 0x0D5A5B44; 0x31559A83; 0xD3515C28; 0x00C4;
    0xFE9486C2; 0xE858790A; 0x1ED58091; 0x8412D999; 0x00C8;
    0xBE39A872; 0x626E974D; 0x668AE0B6; 0xA5178FFF; 0x00CB;
    0x2DC8128F; 0xFB0A3D21; 0x402D98E3; 0xCE5D73FF; 0x00CE;
    0xBC9D0B99; 0x7CE66634; 0x881C7F8E; 0x80FA687F; 0x00D2;
    0xEBC44E80; 0x1C1FFFC1; 0x6A239F72; 0xA139029F; 0x00D5;
    0x66B56220; 0xA327FFB2; 0x44AC874E; 0xC9874347; 0x00D8;
    0x0062BAA8; 0x4BF1FF9F; 0x15D7A922; 0xFBE91419; 0x00DB;
    0x603DB4A9; 0x6F773FC3; 0xADA6C9B5; 0x9D71AC8F; 0x00DF;
    0x384D21D3; 0xCB550FB4; 0x99107C22; 0xC4CE17B3; 0x00E2;
    0x46606A48; 0x7E2A53A1; 0x7F549B2B; 0xF6019DA0; 0x00E5;
    0xCBFC426D; 0x2EDA7444; 0x4F94E0FB; 0x99C10284; 0x00E9;
    0xFEFB5308; 0xFA911155; 0x637A1939; 0xC0314325; 0x00EC;
    0x7EBA27CA; 0x793555AB; 0xBC589F88; 0xF03D93EE; 0x00EF;
    0x2F3458DE; 0x4BC1558B; 0x35B763B5; 0x96267C75; 0x00F3;
    0xFB016F16; 0x9EB1AAED; 0x83253CA2; 0xBBB01B92; 0x00F6;
    0x79C1CADC; 0x465E15A9; 0x23EE8BCB; 0xEA9C2277; 0x00F9;
    0xEC191EC9; 0x0BFACD89; 0x7675175F; 0x92A1958A; 0x00FD;
    0x671F667B; 0xCEF980EC; 0x14125D36; 0xB749FAED; 0x0100;
    0x80E7401A; 0x82B7E127; 0x5916F484; 0xE51C79A8; 0x0103;
    0xB0908810; 0xD1B2ECB8; 0x37AE58D2; 0x8F31CC09; 0x0107;
    0xDCB4AA15; 0x861FA7E6; 0x8599EF07; 0xB2FE3F0B; 0x010A;
    0x93E1D49A; 0x67A791E0; 0x67006AC9; 0xDFBDCECE; 0x010D;
    0x5C6D24E0; 0xE0C8BB2C; 0x006042BD; 0x8BD6A141; 0x0111;
    0x73886E18; 0x58FAE9F7; 0x4078536D; 0xAECC4991; 0x0114;
    0x506A899E; 0xAF39A475; 0x90966848; 0xDA7F5BF5; 0x0117;
    0x52429603; 0x6D8406C9; 0x7A5E012D; 0x888F9979; 0x011B;
    0xA6D33B83; 0xC8E5087B; 0xD8F58178; 0xAAB37FD7; 0x011E;
    0x90880A64; 0xFB1E4A9A; 0xCF32E1D6; 0xD5605FCD; 0x0121;
    0x9A55067F; 0x5CF2EEA0; 0xA17FCD26; 0x855C3BE0; 0x0125;
    0xC0EA481E; 0xF42FAA48; 0xC9DFC06F; 0xA6B34AD8; 0x0128;
    0xF124DA26; 0xF13B94DA; 0xFC57B08B; 0xD0601D8E; 0x012B;
    0xD6B70858; 0x76C53D08; 0x5DB6CE57; 0x823C1279; 0x012F;
    0x0C64CA6E; 0x54768C4B; 0xB52481ED; 0xA2CB1717; 0x0132;
    0xCF7DFD09; 0xA9942F5D; 0xA26DA268; 0xCB7DDCDD; 0x0135;
    0x435D7C4C; 0xD3F93B35; 0x0B090B02; 0xFE5D5415; 0x0138;
    0x4A1A6DAF; 0xC47BC501; 0x26E5A6E1; 0x9EFA548D; 0x013C;
    0x9CA1091B; 0x359AB641; 0x709F109A; 0xC6B8E9B0; 0x013F;
    0x03C94B62; 0xC30163D2; 0x8CC6D4C0; 0xF867241C; 0x0142;
    0x425DCF1D; 0x79E0DE63; 0xD7FC44F8; 0x9B407691; 0x0146;
    0x12F542E4; 0x985915FC; 0x4DFB5636; 0xC2109436; 0x0149;
    0x17B2939D; 0x3E6F5B7B; 0xE17A2BC4; 0xF294B943; 0x014C;
    0xEECF9C42; 0xA705992C; 0x6CEC5B5A; 0x979CF3CA; 0x0150;
    0x2A838353; 0x50C6FF78; 0x08277231; 0xBD8430BD; 0x0153;
    0x35246428; 0xA4F8BF56; 0x4A314EBD; 0xECE53CEC; 0x0156;
    0xE136BE99; 0x871B7795; 0xAE5ED136; 0x940F4613; 0x015A;
    0x59846E3F; 0x28E2557B; 0x99F68584; 0xB9131798; 0x015D;
    0x2FE589CF; 0x331AEADA; 0xC07426E5; 0xE757DD7E; 0x0160;
    0x5DEF7621; 0x3FF0D2C8; 0x3848984F; 0x9096EA6F; 0x0164;
    0x756B53A9; 0x0FED077A; 0x065ABE63; 0xB4BCA50B; 0x0167;
    0x12C62894; 0xD3E84959; 0xC7F16DFB; 0xE1EBCE4D; 0x016A;
    0xABBBD95C; 0x64712DD7; 0x9CF6E4BD; 0x8D3360F0; 0x016E;
    0x96AACFB3; 0xBD8D794D; 0xC4349DEC; 0xB080392C; 0x0171;
    0xFC5583A0; 0xECF0D7A0; 0xF541C567; 0xDCA04777; 0x0174;
    0x9DB57244; 0xF41686C4; 0xF9491B60; 0x89E42CAA; 0x0178;
    0xC522CED5; 0x311C2875; 0xB79B6239; 0xAC5D37D5; 0x017B;
    0x366B828B; 0x7D633293; 0x25823AC7; 0xD77485CB; 0x017E;
    0x02033197; 0xAE5DFF9C; 0xF77164BC; 0x86A8D39E; 0x0182;
    0x0283FDFC; 0xD9F57F83; 0xB54DBDEB; 0xA8530886; 0x0185;
    0xC324FD7B; 0xD072DF63; 0x62A12D66; 0xD267CAA8; 0x0188;
    0x59F71E6D; 0x4247CB9E; 0x3DA4BC60; 0x8380DEA9; 0x018C;
    0xF074E608; 0x52D9BE85; 0x8D0DEB78; 0xA4611653; 0x018F;
    0x6C921F8B; 0x67902E27; 0x70516656; 0xCD795BE8; 0x0192;
    0xA3DB53B6; 0x00BA1CD8; 0x4632DFF6; 0x806BD971; 0x0196;
    0xCCD228A4; 0x80E8A40E; 0x97BF97F3; 0xA086CFCD; 0x0199;
    0x8006B2CD; 0x6122CD12; 0xFDAF7DF0; 0xC8A883C0; 0x019C;
    0x20085F81; 0x796B8057; 0x3D1B5D6C; 0xFAD2A4B1; 0x019F;
    0x74053BB0; 0xCBE33036; 0xC6311A63; 0x9CC3A6EE; 0x01A3;
    0x11068A9C; 0xBEDBFC44; 0x77BD60FC; 0xC3F490AA; 0x01A6;
    0x15482D44; 0xEE92FB55; 0x15ACB93B; 0xF4F1B4D5; 0x01A9;
    0x2D4D1C4A; 0x751BDD15; 0x2D8BF3C5; 0x99171105; 0x01AD;
    0x78A0635D; 0xD262D45A; 0x78EEF0B6; 0xBF5CD546; 0x01B0;
    0x16C87C34; 0x86FB8971; 0x172AACE4; 0xEF340A98; 0x01B3;
    0xAE3D4DA0; 0xD45D35E6; 0x0E7AAC0E; 0x9580869F; 0x01B7;
    0x59CCA109; 0x89748360; 0xD2195712; 0xBAE0A846; 0x01BA;
    0x703FC94B; 0x2BD1A438; 0x869FACD7; 0xE998D258; 0x01BD;
    0x4627DDCF; 0x7B6306A3; 0x5423CC06; 0x91FF8377; 0x01C1;
    0x17B1D542; 0x1A3BC84C; 0x292CBF08; 0xB67F6455; 0x01C4;
    0x1D9E4A93; 0x20CABA5F; 0x7377EECA; 0xE41F3D6A; 0x01C7;
    0x7282EE9C; 0x547EB47B; 0x882AF53E; 0x8E938662; 0x01CB;
    0x4F23AA43; 0xE99E619A; 0x2A35B28D; 0xB23867FB; 0x01CE;
    0xE2EC94D4; 0x6405FA00; 0xF4C31F31; 0xDEC681F9; 0x01D1;
    0x8DD3DD04; 0xDE83BC40; 0x38F9F37E; 0x8B3C113C; 0x01D5;
    0xB148D445; 0x9624AB50; 0x4738705E; 0xAE0B158B; 0x01D8;
    0xDD9B0957; 0x3BADD624; 0x19068C76; 0xD98DDAEE; 0x01DB;
    0x0A80E5D6; 0xE54CA5D7; 0xCFA417C9; 0x87F8A8D4; 0x01DF;
    0xCD211F4C; 0x5E9FCF4C; 0x038D1DBC; 0xA9F6D30A; 0x01E2;
    0x0069671F; 0x7647C320; 0x8470652B; 0xD47487CC; 0x01E5;
    0x0041E073; 0x29ECD9F4; 0xD2C63F3B; 0x84C8D4DF; 0x01E9;
    0x00525890; 0xF4681071; 0xC777CF09; 0xA5FB0A17; 0x01EC;
    0x4066EEB4; 0x7182148D; 0xB955C2CC; 0xCF79CC9D; 0x01EF;
    0x48405530; 0xC6F14CD8; 0x93D599BF; 0x81AC1FE2; 0x01F3;
    0x5A506A7C; 0xB8ADA00E; 0x38CB002F; 0xA21727DB; 0x01F6;
    0xF0E4851C; 0xA6D90811; 0x06FDC03B; 0xCA9CF1D2; 0x01F9;
    0x6D1DA663; 0x908F4A16; 0x88BD304A; 0xFD442E46; 0x01FC;
    0x043287FE; 0x9A598E4E; 0x15763E2E; 0x9E4A9CEC; 0x0200;
    0x853F29FD; 0x40EFF1E1; 0x1AD3CDBA; 0xC5DD4427; 0x0203;
    0xE68EF47C; 0xD12BEE59; 0xE188C128; 0xF7549530; 0x0206;
    0x301958CE; 0x82BB74F8; 0x8CF578B9; 0x9A94DD3E; 0x020A;
    0x3C1FAF01; 0xE36A5236; 0x3032D6E7; 0xC13A148E; 0x020D;
    0xCB279AC1; 0xDC44E6C3; 0xBC3F8CA1; 0xF18899B1; 0x0210;
    0x5EF8C0B9; 0x29AB103A; 0x15A7B7E5; 0x96F5600F; 0x0214;
    0xF6B6F0E7; 0x7415D448; 0xDB11A5DE; 0xBCB2B812; 0x0217;
    0x3464AD21; 0x111B495B; 0x91D60F56; 0xEBDF6617; 0x021A;
    0x00BEEC34; 0xCAB10DD9; 0xBB25C995; 0x936B9FCE; 0x021E;
    0x40EEA742; 0x3D5D514F; 0x69EF3BFB; 0xB84687C2; 0x0221;
    0x112A5112; 0x0CB4A5A3; 0x046B0AFA; 0xE65829B3; 0x0224;
    0xEABA72AB; 0x47F0E785; 0xE2C2E6DC; 0x8FF71A0F; 0x0228;
    0x65690F56; 0x59ED2167; 0xDB73A093; 0xB3F4E093; 0x022B;
    0x3EC3532C; 0x306869C1; 0xD25088B8; 0xE0F218B8; 0x022E;
    0xC73A13FB; 0x1E414218; 0x83725573; 0x8C974F73; 0x0232;
    0xF90898FA; 0xE5D1929E; 0x644EEACF; 0xAFBD2350; 0x0235;
    0xB74ABF39; 0xDF45F746; 0x7D62A583; 0xDBAC6C24; 0x0238;
    0x328EB783; 0x6B8BBA8C; 0xCE5DA772; 0x894BC396; 0x023C;
    0x3F326564; 0x066EA92F; 0x81F5114F; 0xAB9EB47C; 0x023F;
    0x0EFEFEBD; 0xC80A537B; 0xA27255A2; 0xD686619B; 0x0242;
    0xE95F5F36; 0xBD06742C; 0x45877585; 0x8613FD01; 0x0246;
    0x23B73704; 0x2C481138; 0x96E952E7; 0xA798FC41; 0x0249;
    0x2CA504C5; 0xF75A1586; 0xFCA3A7A0; 0xD17F3B51; 0x024C;
    0xDBE722FB; 0x9A984D73; 0x3DE648C4; 0x82EF8513; 0x0250;
    0xD2E0EBBA; 0xC13E60D0; 0x0D5FDAF5; 0xA3AB6658; 0x0253;
    0x079926A8; 0x318DF905; 0x10B7D1B3; 0xCC963FEE; 0x0256;
    0x497F7052; 0xFDF17746; 0x94E5C61F; 0xFFBBCFE9; 0x0259;
    0xEDEFA633; 0xFEB6EA8B; 0xFD0F9BD3; 0x9FD561F1; 0x025D;
    0xE96B8FC0; 0xFE64A52E; 0x7C5382C8; 0xC7CABA6E; 0x0260;
    0xA3C673B0; 0x3DFDCE7A; 0x1B68637B; 0xF9BD690A; 0x0263;
    0xA65C084E; 0x06BEA10C; 0x51213E2D; 0x9C1661A6; 0x0267;
    0xCFF30A62; 0x486E494F; 0xE5698DB8; 0xC31BFA0F; 0x026A;
    0xC3EFCCFA; 0x5A89DBA3; 0xDEC3F126; 0xF3E2F893; 0x026D;
    0x5A75E01C; 0xF8962946; 0x6B3A76B7; 0x986DDB5C; 0x0271;
    0xF1135823; 0xF6BBB397; 0x86091465; 0xBE895233; 0x0274;
    0xED582E2C; 0x746AA07D; 0x678B597F; 0xEE2BA6C0; 0x0277;
    0xB4571CDC; 0xA8C2A44E; 0x40B717EF; 0x94DB4838; 0x027B;
    0x616CE413; 0x92F34D62; 0x50E4DDEB; 0xBA121A46; 0x027E;
    0xF9C81D17; 0x77B020BA; 0xE51E1566; 0xE896A0D7; 0x0281;
    0xDC1D122E; 0x0ACE1474; 0xEF32CD60; 0x915E2486; 0x0285;
    0x132456BA; 0x0D819992; 0xAAFF80B8; 0xB5B5ADA8; 0x0288;
    0x97ED6C69; 0x10E1FFF6; 0xD5BF60E6; 0xE3231912; 0x028B;
    0x1EF463C1; 0xCA8D3FFA; 0xC5979C8F; 0x8DF5EFAB; 0x028F;
    0xA6B17CB2; 0xBD308FF8; 0xB6FD83B3; 0xB1736B96; 0x0292;
    0xD05DDBDE; 0xAC7CB3F6; 0x64BCE4A0; 0xDDD0467C; 0x0295;
    0x423AA96B; 0x6BCDF07A; 0xBEF60EE4; 0x8AA22C0D; 0x0299;
    0xD2C953C6; 0x86C16C98; 0x2EB3929D; 0xAD4AB711; 0x029C;
    0x077BA8B7; 0xE871C7BF; 0x7A607744; 0xD89D64D5; 0x029F;
    0x64AD4972; 0x11471CD7; 0x6C7C4A8B; 0x87625F05; 0x02A3;
    0x3DD89BCF; 0xD598E40D; 0xC79B5D2D; 0xA93AF6C6; 0x02A6;
    0x8D4EC2C3; 0x4AFF1D10; 0x79823479; 0xD389B478; 0x02A9;
    0x585139BA; 0xCEDF722A; 0x4BF160CB; 0x843610CB; 0x02AD;
    0xEE658828; 0xC2974EB4; 0x1EEDB8FE; 0xA54394FE; 0x02B0;
    0x29FEEA32; 0x733D2262; 0xA6A9273E; 0xCE947A3D; 0x02B3;
    0x5A3F525F; 0x0806357D; 0x8829B887; 0x811CCC66; 0x02B7;
    0xB0CF26F7; 0xCA07C2DC; 0x2A3426A8; 0xA163FF80; 0x02BA;
    0xDD02F0B5; 0xFC89B393; 0x34C13052; 0xC9BCFF60; 0x02BD;
    0xD443ACE2; 0xBBAC2078; 0x41F17C67; 0xFC2C3F38; 0x02C0;
    0x84AA4C0D; 0xD54B944B; 0x2936EDC0; 0x9D9BA783; 0x02C4;
    0x65D4DF11; 0x0A9E795E; 0xF384A931; 0xC5029163; 0x02C7;
    0xFF4A16D5; 0x4D4617B5; 0xF065D37D; 0xF64335BC; 0x02CA;
    0xBF8E4E45; 0x504BCED1; 0x163FA42E; 0x99EA0196; 0x02CE;
    0x2F71E1D6; 0xE45EC286; 0x9BCF8D39; 0xC06481FB; 0x02D1;
    0xBB4E5A4C; 0x5D767327; 0x82C37088; 0xF07DA27A; 0x02D4;
    0xD510F86F; 0x3A6A07F8; 0x91BA2655; 0x964E858C; 0x02D8;
    0x0A55368B; 0x890489F7; 0xB628AFEA; 0xBBE226EF; 0x02DB;
    0xCCEA842E; 0x2B45AC74; 0xA3B2DBE5; 0xEADAB0AB; 0x02DE;
    0x0012929D; 0x3B0B8BC9; 0x464FC96F; 0x92C8AE6B; 0x02E2;
    0x40173744; 0x09CE6EBB; 0x17E3BBCB; 0xB77ADA06; 0x02E5;
    0x101D0515; 0xCC420A6A; 0x9DDCAABD; 0xE5599087; 0x02E8;
    0x4A12232D; 0x9FA94682; 0xC2A9EAB6; 0x8F57FA54; 0x02EC;
    0xDC96ABF9; 0x47939822; 0xF3546564; 0xB32DF8E9; 0x02EF;
    0x93BC56F7; 0x59787E2B; 0x70297EBD; 0xDFF97724; 0x02F2;
    0x3C55B65A; 0x57EB4EDB; 0xC619EF36; 0x8BFBEA76; 0x02F6;
    0x0B6B23F1; 0xEDE62292; 0x77A06B03; 0xAEFAE514; 0x02F9;
    0x8E45ECED; 0xE95FAB36; 0x958885C4; 0xDAB99E59; 0x02FC;
    0x18EBB414; 0x11DBCB02; 0xFD75539B; 0x88B402F7; 0x0300;
    0x9F26A119; 0xD652BDC2; 0xFCD2A881; 0xAAE103B5; 0x0303;
    0x46F0495F; 0x4BE76D33; 0x7C0752A2; 0xD59944A3; 0x0306;
    0x0C562DDB; 0x6F70A440; 0x2D8493A5; 0x857FCAE6; 0x030A;
    0x0F6BB952; 0xCB4CCD50; 0xB8E5B88E; 0xA6DFBD9F; 0x030D;
    0x1346A7A7; 0x7E2000A4; 0xA71F26B2; 0xD097AD07; 0x0310;
    0x8C0C28C8; 0x8ED40066; 0xC873782F; 0x825ECC24; 0x0314;
    0x2F0F32FA; 0x72890080; 0xFA90563B; 0xA2F67F2D; 0x0317;
    0x3AD2FFB9; 0x4F2B40A0; 0x79346BCA; 0xCBB41EF9; 0x031A;
    0x4987BFA8; 0xE2F610C8; 0xD78186BC; 0xFEA126B7; 0x031D;
    0x2DF4D7C9; 0x0DD9CA7D; 0xE6B0F436; 0x9F24B832; 0x0321;
    0x79720DBB; 0x91503D1C; 0xA05D3143; 0xC6EDE63F; 0x0324;
    0x97CE912A; 0x75A44C63; 0x88747D94; 0xF8A95FCF; 0x0327;
    0x3EE11ABA; 0xC986AFBE; 0xB548CE7C; 0x9B69DBE1; 0x032B;
    0xCE996168; 0xFBE85BAD; 0x229B021B; 0xC24452DA; 0x032E;
    0x423FB9C3; 0xFAE27299; 0xAB41C2A2; 0xF2D56790; 0x0331;
    0xC967D41A; 0xDCCD879F; 0x6B0919A5; 0x97C560BA; 0x0335;
    0xBBC1C920; 0x5400E987; 0x05CB600F; 0xBDB6B8E9; 0x0338;
    0xAAB23B68; 0x290123E9; 0x473E3813; 0xED246723; 0x033B;
    0x0AAF6521; 0xF9A0B672; 0x0C86E30B; 0x9436C076; 0x033F;
    0x8D5B3E69; 0xF808E40E; 0x8FA89BCE; 0xB9447093; 0x0342;
    0x30B20E04; 0xB60B1D12; 0x7392C2C2; 0xE7958CB8; 0x0345;
    0x5E6F48C2; 0xB1C6F22B; 0x483BB9B9; 0x90BD77F3; 0x0349;
    0x360B1AF3; 0x1E38AEB6; 0x1A4AA828; 0xB4ECD5F0; 0x034C;
    0xC38DE1B0; 0x25C6DA63; 0x20DD5232; 0xE2280B6C; 0x034F;
    0x5A38AD0E; 0x579C487E; 0x948A535F; 0x8D590723; 0x0353;
    0xF0C6D851; 0x2D835A9D; 0x79ACE837; 0xB0AF48EC; 0x0356;
    0x6CF88E65; 0xF8E43145; 0x98182244; 0xDCDB1B27; 0x0359;
    0x641B58FF; 0x1B8E9ECB; 0xBF0F156B; 0x8A08F0F8; 0x035D;
    0x3D222F3F; 0xE272467E; 0xEED2DAC5; 0xAC8B2D36; 0x0360;
    0xCC6ABB0F; 0x5B0ED81D; 0xAA879177; 0xD7ADF884; 0x0363;
    0x9FC2B4E9; 0x98E94712; 0xEA94BAEA; 0x86CCBB52; 0x0367;
    0x47B36224; 0x3F2398D7; 0xA539E9A5; 0xA87FEA27; 0x036A;
    0x19A03AAD; 0x8EEC7F0D; 0x8E88640E; 0xD29FE4B1; 0x036D;
    0x300424AC; 0x1953CF68; 0xF9153E89; 0x83A3EEEE; 0x0371;
    0x3C052DD7; 0x5FA8C342; 0xB75A8E2B; 0xA48CEAAA; 0x0374;
    0xCB06794D; 0x3792F412; 0x653131B6; 0xCDB02555; 0x0377;
    0xBEE40BD0; 0xE2BBD88B; 0x5F3EBF11; 0x808E1755; 0x037B;
    0xAE9D0EC4; 0x5B6ACEAE; 0xB70E6ED6; 0xA0B19D2A; 0x037E;
    0x5A445275; 0xF245825A; 0x64D20A8B; 0xC8DE0475; 0x0381;
    0xF0D56712; 0xEED6E2F0; 0xBE068D2E; 0xFB158592; 0x0384;
    0x9685606B; 0x55464DD6; 0xB6C4183D; 0x9CED737B; 0x0388;
    0x3C26B886; 0xAA97E14C; 0xA4751E4C; 0xC428D05A; 0x038B;
    0x4B3066A8; 0xD53DD99F; 0x4D9265DF; 0xF5330471; 0x038E;
    0x8EFE4029; 0xE546A803; 0xD07B7FAB; 0x993FE2C6; 0x0392;
    0x72BDD033; 0xDE985204; 0x849A5F96; 0xBF8FDB78; 0x0395;
    0x8F6D4440; 0x963E6685; 0xA5C0F77C; 0xEF73D256; 0x0398;
    0x79A44AA8; 0xDDE70013; 0x27989AAD; 0x95A86376; 0x039C;
    0x580D5D52; 0x5560C018; 0xB17EC159; 0xBB127C53; 0x039F;
    0x6E10B4A6; 0xAAB8F01E; 0x9DDE71AF; 0xE9D71B68; 0x03A2;
    0x04CA70E8; 0xCAB39613; 0x62AB070D; 0x92267121; 0x03A6;
    0xC5FD0D22; 0x3D607B97; 0xBB55C8D1; 0xB6B00D69; 0x03A9;
    0xB77C506A; 0x8CB89A7D; 0x2A2B3B05; 0xE45C10C4; 0x03AC;
    0x92ADB242; 0x77F3608E; 0x9A5B04E3; 0x8EB98A7A; 0x03B0;
    0x37591ED3; 0x55F038B2; 0x40F1C61C; 0xB267ED19; 0x03B3;
    0xC52F6688; 0x6B6C46DE; 0x912E37A3; 0xDF01E85F; 0x03B6;
    0x3B3DA015; 0x2323AC4B; 0xBABCE2C6; 0x8B61313B; 0x03BA;
    0x0A0D081A; 0xABEC975E; 0xA96C1B77; 0xAE397D8A; 0x03BD;
    0x8C904A21; 0x96E7BD35; 0x53C72255; 0xD9C7DCED; 0x03C0;
    0x77DA2E54; 0x7E50D641; 0x545C7575; 0x881CEA14; 0x03C4;
    0xD5D0B9E9; 0xDDE50BD1; 0x697392D2; 0xAA242499; 0x03C7;
    0x4B44E864; 0x955E4EC6; 0xC3D07787; 0xD4AD2DBF; 0x03CA;
    0xEF0B113E; 0xBD5AF13B; 0xDA624AB4; 0x84EC3C97; 0x03CE;
    0xEACDD58E; 0xECB1AD8A; 0xD0FADD61; 0xA6274BBD; 0x03D1;
    0xA5814AF2; 0x67DE18ED; 0x453994BA; 0xCFB11EAD; 0x03D4;
    0x8770CED7; 0x80EACF94; 0x4B43FCF4; 0x81CEB32C; 0x03D8;
    0xA94D028D; 0xA1258379; 0x5E14FC31; 0xA2425FF7; 0x03DB;
    0x13A04330; 0x096EE458; 0x359A3B3E; 0xCAD2F7F5; 0x03DE;
    0x188853FC; 0x8BCA9D6E; 0x8300CA0D; 0xFD87B5F2; 0x03E1;
    0xCF55347D; 0x775EA264; 0x91E07E48; 0x9E74D1B7; 0x03E5;
    0x032A819D; 0x95364AFE; 0x76589DDA; 0xC6120625; 0x03E8;
    0x83F52204; 0x3A83DDBD; 0xD3EEC551; 0xF79687AE; 0x03EB;
    0x72793542; 0xC4926A96; 0x44753B52; 0x9ABE14CD; 0x03EF;
    0x0F178293; 0x75B7053C; 0x95928A27; 0xC16D9A00; 0x03F2;
    0x12DD6338; 0x5324C68B; 0xBAF72CB1; 0xF1C90080; 0x03F5;
    0xEBCA5E03; 0xD3F6FC16; 0x74DA7BEE; 0x971DA050; 0x03F9;
    0xA6BCF584; 0x88F4BB1C; 0x92111AEA; 0xBCE50864; 0x03FC;
    0xD06C32E5; 0x2B31E9E3; 0xB69561A5; 0xEC1E4A7D; 0x03FF;
    0x62439FCF; 0x3AFF322E; 0x921D5D07; 0x9392EE8E; 0x0403;
    0xFAD487C2; 0x09BEFEB9; 0x36A4B449; 0xB877AA32; 0x0406;
    0x7989A9B3; 0x4C2EBE68; 0xC44DE15B; 0xE69594BE; 0x0409;
    0x4BF60A10; 0x0F9D3701; 0x3AB0ACD9; 0x901D7CF7; 0x040D;
    0x9EF38C94; 0x538484C1; 0x095CD80F; 0xB424DC35; 0x0410;
    0x06B06FB9; 0x2865A5F2; 0x4BB40E13; 0xE12E1342; 0x0413;
    0x442E45D3; 0xF93F87B7; 0x6F5088CB; 0x8CBCCC09; 0x0417;
    0x1539D748; 0xF78F69A5; 0xCB24AAFE; 0xAFEBFF0B; 0x041A;
    0x5A884D1B; 0xB573440E; 0xBDEDD5BE; 0xDBE6FECE; 0x041D;
    0xF8953030; 0x31680A88; 0x36B4A597; 0x89705F41; 0x0421;
    0x36BA7C3D; 0xFDC20D2B; 0x8461CEFC; 0xABCC7711; 0x0424;
    0x04691B4C; 0x3D329076; 0xE57A42BC; 0xD6BF94D5; 0x0427;
    0xC2C1B10F; 0xA63F9A49; 0xAF6C69B5; 0x8637BD05; 0x042B;
    0x33721D53; 0x0FCF80DC; 0x1B478423; 0xA7C5AC47; 0x042E;
    0x404EA4A8; 0xD3C36113; 0xE219652B; 0xD1B71758; 0x0431;
    0x083126E9; 0x645A1CAC; 0x8D4FDF3B; 0x83126E97; 0x0435;
    0x0A3D70A3; 0x3D70A3D7; 0x70A3D70A; 0xA3D70A3D; 0x0438;
    0xCCCCCCCC; 0xCCCCCCCC; 0xCCCCCCCC; 0xCCCCCCCC; 0x043B;
    0x00000000; 0x00000000; 0x00000000; 0x80000000; 0x043F;
    0x00000000; 0x00000000; 0x00000000; 0xA0000000; 0x0442;
    0x00000000; 0x00000000; 0x00000000; 0xC8000000; 0x0445;
    0x00000000; 0x00000000; 0x00000000; 0xFA000000; 0x0448;
    0x00000000; 0x00000000; 0x00000000; 0x9C400000; 0x044C;
    0x00000000; 0x00000000; 0x00000000; 0xC3500000; 0x044F;
    0x00000000; 0x00000000; 0x00000000; 0xF4240000; 0x0452;
    0x00000000; 0x00000000; 0x00000000; 0x98968000; 0x0456;
    0x00000000; 0x00000000; 0x00000000; 0xBEBC2000; 0x0459;
    0x00000000; 0x00000000; 0x00000000; 0xEE6B2800; 0x045C;
    0x00000000; 0x00000000; 0x00000000; 0x9502F900; 0x0460;
    0x00000000; 0x00000000; 0x00000000; 0xBA43B740; 0x0463;
    0x00000000; 0x00000000; 0x00000000; 0xE8D4A510; 0x0466;
    0x00000000; 0x00000000; 0x00000000; 0x9184E72A; 0x046A;
    0x00000000; 0x00000000; 0x80000000; 0xB5E620F4; 0x046D;
    0x00000000; 0x00000000; 0xA0000000; 0xE35FA931; 0x0470;
    0x00000000; 0x00000000; 0x04000000; 0x8E1BC9BF; 0x0474;
    0x00000000; 0x00000000; 0xC5000000; 0xB1A2BC2E; 0x0477;
    0x00000000; 0x00000000; 0x76400000; 0xDE0B6B3A; 0x047A;
    0x00000000; 0x00000000; 0x89E80000; 0x8AC72304; 0x047E;
    0x00000000; 0x00000000; 0xAC620000; 0xAD78EBC5; 0x0481;
    0x00000000; 0x00000000; 0x177A8000; 0xD8D726B7; 0x0484;
    0x00000000; 0x00000000; 0x6EAC9000; 0x87867832; 0x0488;
    0x00000000; 0x00000000; 0x0A57B400; 0xA968163F; 0x048B;
    0x00000000; 0x00000000; 0xCCEDA100; 0xD3C21BCE; 0x048E;
    0x00000000; 0x00000000; 0x401484A0; 0x84595161; 0x0492;
    0x00000000; 0x00000000; 0x9019A5C8; 0xA56FA5B9; 0x0495;
    0x00000000; 0x00000000; 0xF4200F3A; 0xCECB8F27; 0x0498;
    0x00000000; 0x40000000; 0xF8940984; 0x813F3978; 0x049C;
    0x00000000; 0x50000000; 0x36B90BE5; 0xA18F07D7; 0x049F;
    0x00000000; 0xA4000000; 0x04674EDE; 0xC9F2C9CD; 0x04A2;
    0x00000000; 0x4D000000; 0x45812296; 0xFC6F7C40; 0x04A5;
    0x00000000; 0xF0200000; 0x2B70B59D; 0x9DC5ADA8; 0x04A9;
    0x00000000; 0x6C280000; 0x364CE305; 0xC5371912; 0x04AC;
    0x00000000; 0xC7320000; 0xC3E01BC6; 0xF684DF56; 0x04AF;
    0x00000000; 0x3C7F4000; 0x3A6C115C; 0x9A130B96; 0x04B3;
    0x00000000; 0x4B9F1000; 0xC90715B3; 0xC097CE7B; 0x04B6;
    0x00000000; 0x1E86D400; 0xBB48DB20; 0xF0BDC21A; 0x04B9;
    0x00000000; 0x13144480; 0xB50D88F4; 0x96769950; 0x04BD;
    0x00000000; 0x17D955A0; 0xE250EB31; 0xBC143FA4; 0x04C0;
    0x00000000; 0x5DCFAB08; 0x1AE525FD; 0xEB194F8E; 0x04C3;
    0x00000000; 0x5AA1CAE5; 0xD0CF37BE; 0x92EFD1B8; 0x04C7;
    0x40000000; 0xF14A3D9E; 0x050305AD; 0xB7ABC627; 0x04CA;
    0xD0000000; 0x6D9CCD05; 0xC643C719; 0xE596B7B0; 0x04CD;
    0xA2000000; 0xE4820023; 0x7BEA5C6F; 0x8F7E32CE; 0x04D1;
    0x8A800000; 0xDDA2802C; 0x1AE4F38B; 0xB35DBF82; 0x04D4;
    0xAD200000; 0xD50B2037; 0xA19E306E; 0xE0352F62; 0x04D7;
    0xCC340000; 0x4526F422; 0xA502DE45; 0x8C213D9D; 0x04DB;
    0x7F410000; 0x9670B12B; 0x0E4395D6; 0xAF298D05; 0x04DE;
    0x5F114000; 0x3C0CDD76; 0x51D47B4C; 0xDAF3F046; 0x04E1;
    0xFB6AC800; 0xA5880A69; 0xF324CD0F; 0x88D8762B; 0x04E5;
    0x7A457A00; 0x8EEA0D04; 0xEFEE0053; 0xAB0E93B6; 0x04E8;
    0x98D6D880; 0x72A49045; 0xABE98068; 0xD5D238A4; 0x04EB;
    0x7F864750; 0x47A6DA2B; 0xEB71F041; 0x85A36366; 0x04EF;
    0x5F67D924; 0x999090B6; 0xA64E6C51; 0xA70C3C40; 0x04F2;
    0xF741CF6D; 0xFFF4B4E3; 0xCFE20765; 0xD0CF4B50; 0x04F5;
    0x7A8921A4; 0xBFF8F10E; 0x81ED449F; 0x82818F12; 0x04F9;
    0x192B6A0D; 0xAFF72D52; 0x226895C7; 0xA321F2D7; 0x04FC;
    0x9F764490; 0x9BF4F8A6; 0xEB02BB39; 0xCBEA6F8C; 0x04FF;
    0x4753D5B4; 0x02F236D0; 0x25C36A08; 0xFEE50B70; 0x0502;
    0x2C946590; 0x01D76242; 0x179A2245; 0x9F4F2726; 0x0506;
    0xB7B97EF5; 0x424D3AD2; 0x9D80AAD6; 0xC722F0EF; 0x0509;
    0x65A7DEB2; 0xD2E08987; 0x84E0D58B; 0xF8EBAD2B; 0x050C;
    0x9F88EB2F; 0x63CC55F4; 0x330C8577; 0x9B934C3B; 0x0510;
    0xC76B25FB; 0x3CBF6B71; 0xFFCFA6D5; 0xC2781F49; 0x0513;
    0x3945EF7A; 0x8BEF464E; 0x7FC3908A; 0xF316271C; 0x0516;
    0xE3CBB5AC; 0x97758BF0; 0xCFDA3A56; 0x97EDD871; 0x051A;
    0x1CBEA317; 0x3D52EEED; 0x43D0C8EC; 0xBDE94E8E; 0x051D;
    0x63EE4BDD; 0x4CA7AAA8; 0xD4C4FB27; 0xED63A231; 0x0520;
    0x3E74EF6A; 0x8FE8CAA9; 0x24FB1CF8; 0x945E455F; 0x0524;
    0x8E122B44; 0xB3E2FD53; 0xEE39E436; 0xB975D6B6; 0x0527;
    0x7196B616; 0x60DBBCA8; 0xA9C85D44; 0xE7D34C64; 0x052A;
    0x46FE31CD; 0xBC8955E9; 0xEA1D3A4A; 0x90E40FBE; 0x052E;
    0x98BDBE41; 0x6BABAB63; 0xA4A488DD; 0xB51D13AE; 0x0531;
    0x7EED2DD1; 0xC696963C; 0x4DCDAB14; 0xE264589A; 0x0534;
    0xCF543CA2; 0xFC1E1DE5; 0x70A08AEC; 0x8D7EB760; 0x0538;
    0x43294BCB; 0x3B25A55F; 0x8CC8ADA8; 0xB0DE6538; 0x053B;
    0x13F39EBE; 0x49EF0EB7; 0xAFFAD912; 0xDD15FE86; 0x053E;
    0x6C784337; 0x6E356932; 0x2DFCC7AB; 0x8A2DBF14; 0x0542;
    0x07965404; 0x49C2C37F; 0x397BF996; 0xACB92ED9; 0x0545;
    0xC97BE906; 0xDC33745E; 0x87DAF7FB; 0xD7E77A8F; 0x0548;
    0x3DED71A3; 0x69A028BB; 0xB4E8DAFD; 0x86F0AC99; 0x054C;
    0x0D68CE0C; 0xC40832EA; 0x222311BC; 0xA8ACD7C0; 0x054F;
    0x90C30190; 0xF50A3FA4; 0x2AABD62B; 0xD2D80DB0; 0x0552;
    0xDA79E0FA; 0x792667C6; 0x1AAB65DB; 0x83C7088E; 0x0556;
    0x91185938; 0x577001B8; 0xA1563F52; 0xA4B8CAB1; 0x0559;
    0xB55E6F86; 0xED4C0226; 0x09ABCF26; 0xCDE6FD5E; 0x055C;
    0x315B05B4; 0x544F8158; 0xC60B6178; 0x80B05E5A; 0x0560;
    0x3DB1C721; 0x696361AE; 0x778E39D6; 0xA0DC75F1; 0x0563;
    0xCD1E38E9; 0x03BC3A19; 0xD571C84C; 0xC913936D; 0x0566;
    0x4065C723; 0x04AB48A0; 0x4ACE3A5F; 0xFB587849; 0x0569;
    0x283F9C76; 0x62EB0D64; 0xCEC0E47B; 0x9D174B2D; 0x056D;
    0x324F8394; 0x3BA5D0BD; 0x42711D9A; 0xC45D1DF9; 0x0570;
    0x7EE36479; 0xCA8F44EC; 0x930D6500; 0xF5746577; 0x0573;
    0xCF4E1ECB; 0x7E998B13; 0xBBE85F20; 0x9968BF6A; 0x0577;
    0xC321A67E; 0x9E3FEDD8; 0x6AE276E8; 0xBFC2EF45; 0x057A;
    0xF3EA101E; 0xC5CFE94E; 0xC59B14A2; 0xEFB3AB16; 0x057D;
    0x58724A12; 0xBBA1F1D1; 0x3B80ECE5; 0x95D04AEE; 0x0581;
    0xAE8EDC97; 0x2A8A6E45; 0xCA61281F; 0xBB445DA9; 0x0584;
    0x1A3293BD; 0xF52D09D7; 0x3CF97226; 0xEA157514; 0x0587;
    0x705F9C56; 0x593C2626; 0xA61BE758; 0x924D692C; 0x058B;
    0x0C77836C; 0x6F8B2FB0; 0xCFA2E12E; 0xB6E0C377; 0x058E;
    0x0F956447; 0x0B6DFB9C; 0xC38B997A; 0xE498F455; 0x0591;
    0x89BD5EAC; 0x4724BD41; 0x9A373FEC; 0x8EDF98B5; 0x0595;
    0xEC2CB657; 0x58EDEC91; 0x00C50FE7; 0xB2977EE3; 0x0598;
    0x6737E3ED; 0x2F2967B6; 0xC0F653E1; 0xDF3D5E9B; 0x059B;
    0x0082EE74; 0xBD79E0D2; 0x5899F46C; 0x8B865B21; 0x059F;
    0x80A3AA11; 0xECD85906; 0xAEC07187; 0xAE67F1E9; 0x05A2;
    0x20CC9495; 0xE80E6F48; 0x1A708DE9; 0xDA01EE64; 0x05A5;
    0x147FDCDD; 0x3109058D; 0x908658B2; 0x884134FE; 0x05A9;
    0x599FD415; 0xBD4B46F0; 0x34A7EEDE; 0xAA51823E; 0x05AC;
    0x7007C91A; 0x6C9E18AC; 0xC1D1EA96; 0xD4E5E2CD; 0x05AF;
    0xC604DDB0; 0x03E2CF6B; 0x9923329E; 0x850FADC0; 0x05B3;
    0xB786151C; 0x84DB8346; 0xBF6BFF45; 0xA6539930; 0x05B6;
    0x65679A63; 0xE6126418; 0xEF46FF16; 0xCFE87F7C; 0x05B9;
    0x3F60C07E; 0x4FCB7E8F; 0x158C5F6E; 0x81F14FAE; 0x05BD;
    0x0F38F09D; 0xE3BE5E33; 0x9AEF7749; 0xA26DA399; 0x05C0;
    0xD3072CC5; 0x5CADF5BF; 0x01AB551C; 0xCB090C80; 0x05C3;
    0xC7C8F7F6; 0x73D9732F; 0x02162A63; 0xFDCB4FA0; 0x05C6;
    0xDCDD9AFA; 0x2867E7FD; 0x014DDA7E; 0x9E9F11C4; 0x05CA;
    0x541501B8; 0xB281E1FD; 0x01A1511D; 0xC646D635; 0x05CD;
    0xA91A4226; 0x1F225A7C; 0x4209A565; 0xF7D88BC2; 0x05D0;
    0xE9B06958; 0x3375788D; 0x6946075F; 0x9AE75759; 0x05D4;
    0x641C83AE; 0x0052D6B1; 0xC3978937; 0xC1A12D2F; 0x05D7;
    0xBD23A49A; 0xC0678C5D; 0xB47D6B84; 0xF209787B; 0x05DA;
    0x963646E0; 0xF840B7BA; 0x50CE6332; 0x9745EB4D; 0x05DE;
    0x3BC3D898; 0xB650E5A9; 0xA501FBFF; 0xBD176620; 0x05E1;
    0x8AB4CEBE; 0xA3E51F13; 0xCE427AFF; 0xEC5D3FA8; 0x05E4;
    0x36B10137; 0xC66F336C; 0x80E98CDF; 0x93BA47C9; 0x05E8;
    0x445D4184; 0xB80B0047; 0xE123F017; 0xB8A8D9BB; 0x05EB;
    0x157491E5; 0xA60DC059; 0xD96CEC1D; 0xE6D3102A; 0x05EE;
    0xAD68DB2F; 0x87C89837; 0xC7E41392; 0x9043EA1A; 0x05F2;
    0x98C311FB; 0x29BABE45; 0x79DD1877; 0xB454E4A1; 0x05F5;
    0xFEF3D67A; 0xF4296DD6; 0xD8545E94; 0xE16A1DC9; 0x05F8;
    0x5F58660C; 0x1899E4A6; 0x2734BB1D; 0x8CE2529E; 0x05FC;
    0xF72E7F8F; 0x5EC05DCF; 0xB101E9E4; 0xB01AE745; 0x05FF;
    0xF4FA1F73; 0x76707543; 0x1D42645D; 0xDC21A117; 0x0602;
    0x791C53A8; 0x6A06494A; 0x72497EBA; 0x899504AE; 0x0606;
    0x17636892; 0x0487DB9D; 0x0EDBDE69; 0xABFA45DA; 0x0609;
    0x5D3C42B6; 0x45A9D284; 0x9292D603; 0xD6F8D750; 0x060C;
    0xBA45A9B2; 0x0B8A2392; 0x5B9BC5C2; 0x865B8692; 0x0610;
    0x68D7141E; 0x8E6CAC77; 0xF282B732; 0xA7F26836; 0x0613;
    0x430CD926; 0x3207D795; 0xAF2364FF; 0xD1EF0244; 0x0616;
    0x49E807B8; 0x7F44E6BD; 0xED761F1F; 0x8335616A; 0x061A;
    0x9C6209A6; 0x5F16206C; 0xA8D3A6E7; 0xA402B9C5; 0x061D;
    0xC37A8C0F; 0x36DBA887; 0x130890A1; 0xCD036837; 0x0620;
    0xDA2C9789; 0xC2494954; 0x6BE55A64; 0x80222122; 0x0624;
    0x10B7BD6C; 0xF2DB9BAA; 0x06DEB0FD; 0xA02AA96B; 0x0627;
    0x94E5ACC7; 0x6F928294; 0xC8965D3D; 0xC83553C5; 0x062A;
    0xBA1F17F9; 0xCB772339; 0x3ABBF48C; 0xFA42A8B7; 0x062D;
    0x14536EFB; 0xFF2A7604; 0x84B578D7; 0x9C69A972; 0x0631;
    0x19684ABA; 0xFEF51385; 0x25E2D70D; 0xC38413CF; 0x0634;
    0x5FC25D69; 0x7EB25866; 0xEF5B8CD1; 0xF46518C2; 0x0637;
    0xFBD97A61; 0xEF2F773F; 0xD5993802; 0x98BF2F79; 0x063B;
    0xFACFD8FA; 0xAAFB550F; 0x4AFF8603; 0xBEEEFB58; 0x063E;
    0xF983CF38; 0x95BA2A53; 0x5DBF6784; 0xEEAABA2E; 0x0641;
    0x7BF26183; 0xDD945A74; 0xFA97A0B2; 0x952AB45C; 0x0645;
    0x9AEEF9E4; 0x94F97111; 0x393D88DF; 0xBA756174; 0x0648;
    0x01AAB85D; 0x7A37CD56; 0x478CEB17; 0xE912B9D1; 0x064B;
    0xC10AB33A; 0xAC62E055; 0xCCB812EE; 0x91ABB422; 0x064F;
    0x314D6009; 0x577B986B; 0x7FE617AA; 0xB616A12B; 0x0652;
    0xFDA0B80B; 0xED5A7E85; 0x5FDF9D94; 0xE39C4976; 0x0655;
    0xBE847307; 0x14588F13; 0xFBEBC27D; 0x8E41ADE9; 0x0659;
    0xAE258FC8; 0x596EB2D8; 0x7AE6B31C; 0xB1D21964; 0x065C;
    0xD9AEF3BB; 0x6FCA5F8E; 0x99A05FE3; 0xDE469FBD; 0x065F;
    0x480D5854; 0x25DE7BB9; 0x80043BEE; 0x8AEC23D6; 0x0663;
    0x9A10AE6A; 0xAF561AA7; 0x20054AE9; 0xADA72CCC; 0x0666;
    0x8094DA04; 0x1B2BA151; 0x28069DA4; 0xD910F7FF; 0x0669;
    0xF05D0842; 0x90FB44D2; 0x79042286; 0x87AA9AFF; 0x066D;
    0xAC744A53; 0x353A1607; 0x57452B28; 0xA99541BF; 0x0670;
    0x97915CE8; 0x42889B89; 0x2D1675F2; 0xD3FA922F; 0x0673;
    0xFEBADA11; 0x69956135; 0x7C2E09B7; 0x847C9B5D; 0x0677;
    0x7E699095; 0x43FAB983; 0xDB398C25; 0xA59BC234; 0x067A;
    0x5E03F4BB; 0x94F967E4; 0x1207EF2E; 0xCF02B2C2; 0x067D;
    0xBAC278F5; 0x1D1BE0EE; 0x4B44F57D; 0x8161AFB9; 0x0681;
    0x69731732; 0x6462D92A; 0x9E1632DC; 0xA1BA1BA7; 0x0684;
    0x03CFDCFE; 0x7D7B8F75; 0x859BBF93; 0xCA28A291; 0x0687;
    0x44C3D43E; 0x5CDA7352; 0xE702AF78; 0xFCB2CB35; 0x068A;
    0x6AFA64A7; 0x3A088813; 0xB061ADAB; 0x9DEFBF01; 0x068E;
    0x45B8FDD0; 0x088AAA18; 0x1C7A1916; 0xC56BAEC2; 0x0691;
    0x57273D45; 0x8AAD549E; 0xA3989F5B; 0xF6C69A72; 0x0694;
    0xF678864B; 0x36AC54E2; 0xA63F6399; 0x9A3C2087; 0x0698;
    0xB416A7DD; 0x84576A1B; 0x8FCF3C7F; 0xC0CB28A9; 0x069B;
    0xA11C51D5; 0x656D44A2; 0xF3C30B9F; 0xF0FDF2D3; 0x069E;
    0xA4B1B325; 0x9F644AE5; 0x7859E743; 0x969EB7C4; 0x06A2;
    0x0DDE1FEE; 0x873D5D9F; 0x96706114; 0xBC4665B5; 0x06A5;
    0xD155A7EA; 0xA90CB506; 0xFC0C7959; 0xEB57FF22; 0x06A8;
    0x42D588F2; 0x09A7F124; 0xDD87CBD8; 0x9316FF75; 0x06AC;
    0x538AEB2F; 0x0C11ED6D; 0x54E9BECE; 0xB7DCBF53; 0x06AF;
    0xA86DA5FA; 0x8F1668C8; 0x2A242E81; 0xE5D3EF28; 0x06B2;
    0x694487BC; 0xF96E017D; 0x1A569D10; 0x8FA47579; 0x06B6;
    0xC395A9AC; 0x37C981DC; 0x60EC4455; 0xB38D92D7; 0x06B9;
    0xF47B1417; 0x85BBE253; 0x3927556A; 0xE070F78D; 0x06BC;
    0x78CCEC8E; 0x93956D74; 0x43B89562; 0x8C469AB8; 0x06C0;
    0x970027B2; 0x387AC8D1; 0x54A6BABB; 0xAF584166; 0x06C3;
    0xFCC0319E; 0x06997B05; 0xE9D0696A; 0xDB2E51BF; 0x06C6;
    0xBDF81F03; 0x441FECE3; 0xF22241E2; 0x88FCF317; 0x06CA;
    0xAD7626C3; 0xD527E81C; 0xEEAAD25A; 0xAB3C2FDD; 0x06CD;
    0xD8D3B074; 0x8A71E223; 0x6A5586F1; 0xD60B3BD5; 0x06D0;
    0x67844E49; 0xF6872D56; 0x62757456; 0x85C70565; 0x06D4;
    0x016561DB; 0xB428F8AC; 0xBB12D16C; 0xA738C6BE; 0x06D7;
    0x01BEBA52; 0xE13336D7; 0x69D785C7; 0xD106F86E; 0x06DA;
    0x61173473; 0xECC00246; 0x0226B39C; 0x82A45B45; 0x06DE;
    0xF95D0190; 0x27F002D7; 0x42B06084; 0xA34D7216; 0x06E1;
    0xF7B441F4; 0x31EC038D; 0xD35C78A5; 0xCC20CE9B; 0x06E4;
    0x75A15271; 0x7E670471; 0xC83396CE; 0xFF290242; 0x06E7;
    0xE984D386; 0x0F0062C6; 0xBD203E41; 0x9F79A169; 0x06EB;
    0xA3E60868; 0x52C07B78; 0x2C684DD1; 0xC75809C4; 0x06EE;
    0xCCDF8A82; 0xA7709A56; 0x37826145; 0xF92E0C35; 0x06F1;
    0x400BB691; 0x88A66076; 0x42B17CCB; 0x9BBCC7A1; 0x06F5;
    0xD00EA435; 0x6ACFF893; 0x935DDBFE; 0xC2ABF989; 0x06F8;
    0xC4124D43; 0x0583F6B8; 0xF83552FE; 0xF356F7EB; 0x06FB;
    0x7A8B704A; 0xC3727A33; 0x7B2153DE; 0x98165AF3; 0x06FF;
    0x592E4C5C; 0x744F18C0; 0x59E9A8D6; 0xBE1BF1B0; 0x0702;
    0x6F79DF73; 0x1162DEF0; 0x7064130C; 0xEDA2EE1C; 0x0705;
    0x45AC2BA8; 0x8ADDCB56; 0xC63E8BE7; 0x9485D4D1; 0x0709;
    0xD7173692; 0x6D953E2B; 0x37CE2EE1; 0xB9A74A06; 0x070C;
    0xCCDD0437; 0xC8FA8DB6; 0xC5C1BA99; 0xE8111C87; 0x070F;
    0x400A22A2; 0x1D9C9892; 0xDB9914A0; 0x910AB1D4; 0x0713;
    0xD00CAB4B; 0x2503BEB6; 0x127F59C8; 0xB54D5E4A; 0x0716;
    0x840FD61D; 0x2E44AE64; 0x971F303A; 0xE2A0B5DC; 0x0719;
    0xD289E5D2; 0x5CEAECFE; 0xDE737E24; 0x8DA471A9; 0x071D;
    0x872C5F47; 0x7425A83E; 0x56105DAD; 0xB10D8E14; 0x0720;
    0x28F77719; 0xD12F124E; 0x6B947518; 0xDD50F199; 0x0723;
    0xD99AAA6F; 0x82BD6B70; 0xE33CC92F; 0x8A5296FF; 0x0727;
    0x1001550B; 0x636CC64D; 0xDC0BFB7B; 0xACE73CBF; 0x072A;
    0x5401AA4E; 0x3C47F7E0; 0xD30EFA5A; 0xD8210BEF; 0x072D;
    0x34810A71; 0x65ACFAEC; 0xE3E95C78; 0x8714A775; 0x0731;
    0x41A14D0D; 0x7F1839A7; 0x5CE3B396; 0xA8D9D153; 0x0734;
    0x1209A050; 0x1EDE4811; 0x341CA07C; 0xD31045A8; 0x0737;
    0xAB460432; 0x934AED0A; 0x2091E44D; 0x83EA2B89; 0x073B;
    0x5617853F; 0xF81DA84D; 0x68B65D60; 0xA4E4B66B; 0x073E;
    0xAB9D668E; 0x36251260; 0x42E3F4B9; 0xCE1DE406; 0x0741;
    0x6B426019; 0xC1D72B7C; 0xE9CE78F3; 0x80D2AE83; 0x0745;
    0x8612F81F; 0xB24CF65B; 0xE4421730; 0xA1075A24; 0x0748;
    0x6797B627; 0xDEE033F2; 0x1D529CFC; 0xC94930AE; 0x074B;
    0x017DA3B1; 0x169840EF; 0xA4A7443C; 0xFB9B7CD9; 0x074E;
    0x60EE864E; 0x8E1F2895; 0x06E88AA5; 0x9D412E08; 0x0752;
    0xB92A27E2; 0xF1A6F2BA; 0x08A2AD4E; 0xC491798A; 0x0755;
    0x6774B1DB; 0xAE10AF69; 0x8ACB58A2; 0xF5B5D7EC; 0x0758;
    0xE0A8EF29; 0xACCA6DA1; 0xD6BF1765; 0x9991A6F3; 0x075C;
    0x58D32AF3; 0x17FD090A; 0xCC6EDD3F; 0xBFF610B0; 0x075F;
    0xEF07F5B0; 0xDDFC4B4C; 0xFF8A948E; 0xEFF394DC; 0x0762;
    0x1564F98E; 0x4ABDAF10; 0x1FB69CD9; 0x95F83D0A; 0x0766;
    0x1ABE37F1; 0x9D6D1AD4; 0xA7A4440F; 0xBB764C4C; 0x0769;
    0x216DC5ED; 0x84C86189; 0xD18D5513; 0xEA53DF5F; 0x076C;
    0xB4E49BB4; 0x32FD3CF5; 0xE2F8552C; 0x92746B9B; 0x0770;
    0x221DC2A1; 0x3FBC8C33; 0xDBB66A77; 0xB7118682; 0x0773;
    0xEAA5334A; 0x0FABAF3F; 0x92A40515; 0xE4D5E823; 0x0776;
    0xF2A7400E; 0x29CB4D87; 0x3BA6832D; 0x8F05B116; 0x077A;
    0xEF511012; 0x743E20E9; 0xCA9023F8; 0xB2C71D5B; 0x077D;
    0x6B255416; 0x914DA924; 0xBD342CF6; 0xDF78E4B2; 0x0780;
    0xC2F7548E; 0x1AD089B6; 0xB6409C1A; 0x8BAB8EEF; 0x0784;
    0x73B529B1; 0xA184AC24; 0xA3D0C320; 0xAE9672AB; 0x0787;
    0x90A2741E; 0xC9E5D72D; 0x8CC4F3E8; 0xDA3C0F56; 0x078A;
    0x7A658892; 0x7E2FA67C; 0x17FB1871; 0x88658996; 0x078E;
    0x98FEEAB7; 0xDDBB901B; 0x9DF9DE8D; 0xAA7EEBFB; 0x0791;
    0x7F3EA565; 0x552A7422; 0x85785631; 0xD51EA6FA; 0x0794;
    0x8F87275F; 0xD53A8895; 0x936B35DE; 0x8533285C; 0x0798;
    0xF368F137; 0x8A892ABA; 0xB8460356; 0xA67FF273; 0x079B;
    0xB0432D85; 0x2D2B7569; 0xA657842C; 0xD01FEF10; 0x079E;
    0x0E29FC73; 0x9C3B2962; 0x67F6B29B; 0x8213F56A; 0x07A2;
    0x91B47B8F; 0x8349F3BA; 0x01F45F42; 0xA298F2C5; 0x07A5;
    0x36219A73; 0x241C70A9; 0x42717713; 0xCB3F2F76; 0x07A8;
    0x83AA0110; 0xED238CD3; 0xD30DD4D7; 0xFE0EFB53; 0x07AB;
    0x324A40AA; 0xF4363804; 0x63E8A506; 0x9EC95D14; 0x07AF;
    0x3EDCD0D5; 0xB143C605; 0x7CE2CE48; 0xC67BB459; 0x07B2;
    0x8E94050A; 0xDD94B786; 0xDC1B81DA; 0xF81AA16F; 0x07B5;
    0x191C8326; 0xCA7CF2B4; 0xE9913128; 0x9B10A4E5; 0x07B9;
    0x1F63A3F0; 0xFD1C2F61; 0x63F57D72; 0xC1D4CE1F; 0x07BC;
    0x673C8CEC; 0xBC633B39; 0x3CF2DCCF; 0xF24A01A7; 0x07BF;
    0xE085D813; 0xD5BE0503; 0x8617CA01; 0x976E4108; 0x07C3;
    0xD8A74E18; 0x4B2D8644; 0xA79DBC82; 0xBD49D14A; 0x07C6;
    0x0ED1219E; 0xDDF8E7D6; 0x51852BA2; 0xEC9C459D; 0x07C9;
    0xC942B503; 0xCABB90E5; 0x52F33B45; 0x93E1AB82; 0x07CD;
    0x3B936243; 0x3D6A751F; 0xE7B00A17; 0xB8DA1662; 0x07D0;
    0x0A783AD4; 0x0CC51267; 0xA19C0C9D; 0xE7109BFB; 0x07D3;
    0x668B24C5; 0x27FB2B80; 0x450187E2; 0x906A617D; 0x07D7;
    0x802DEDF6; 0xB1F9F660; 0x9641E9DA; 0xB484F9DC; 0x07DA;
    0xA0396973; 0x5E7873F8; 0xBBD26451; 0xE1A63853; 0x07DD;
    0x6423E1E8; 0xDB0B487B; 0x55637EB2; 0x8D07E334; 0x07E1;
    0x3D2CDA62; 0x91CE1A9A; 0x6ABC5E5F; 0xB049DC01; 0x07E4;
    0xCC7810FB; 0x7641A140; 0xC56B75F7; 0xDC5C5301; 0x07E7;
    0x7FCB0A9D; 0xA9E904C8; 0x1B6329BA; 0x89B9B3E1; 0x07EB;
    0x9FBDCD44; 0x546345FA; 0x623BF429; 0xAC2820D9; 0x07EE;
    0x47AD4095; 0xA97C1779; 0xBACAF133; 0xD732290F; 0x07F1;
    0xCCCC485D; 0x49ED8EAB; 0xD4BED6C0; 0x867F59A9; 0x07F5;
    0xBFFF5A74; 0x5C68F256; 0x49EE8C70; 0xA81F3014; 0x07F8;
    0x6FFF3111; 0x73832EEC; 0x5C6A2F8C; 0xD226FC19; 0x07FB;
    0xC5FF7EAB; 0xC831FD53; 0xD9C25DB7; 0x83585D8F; 0x07FF;
    0xB77F5E55; 0xBA3E7CA8; 0xD032F525; 0xA42E74F3; 0x0802;
    0xE55F35EB; 0x28CE1BD2; 0xC43FB26F; 0xCD3A1230; 0x0805;
    0xCF5B81B3; 0x7980D163; 0x7AA7CF85; 0x80444B5E; 0x0809;
    0xC332621F; 0xD7E105BC; 0x1951C366; 0xA0555E36; 0x080C;
    0xF3FEFAA7; 0x8DD9472B; 0x9FA63440; 0xC86AB5C3; 0x080F;
    0xF0FEB951; 0xB14F98F6; 0x878FC150; 0xFA856334; 0x0812;
    0x569F33D3; 0x6ED1BF9A; 0xD4B9D8D2; 0x9C935E00; 0x0816;
    0xEC4700C8; 0x0A862F80; 0x09E84F07; 0xC3B83581; 0x0819;
    0x2758C0FA; 0xCD27BB61; 0x4C6262C8; 0xF4A642E1; 0x081C;
    0xB897789C; 0x8038D51C; 0xCFBD7DBD; 0x98E7E9CC; 0x0820;
    0xE6BD56C3; 0xE0470A63; 0x03ACDD2C; 0xBF21E440; 0x0823;
    0xE06CAC74; 0x1858CCFC; 0x04981478; 0xEEEA5D50; 0x0826;
    0x0C43EBC8; 0x0F37801E; 0x02DF0CCB; 0x95527A52; 0x082A;
    0x8F54E6BA; 0xD3056025; 0x8396CFFD; 0xBAA718E6; 0x082D;
    0xF32A2069; 0x47C6B82E; 0x247C83FD; 0xE950DF20; 0x0830;
    0x57FA5441; 0x4CDC331D; 0x16CDD27E; 0x91D28B74; 0x0834;
    0xADF8E952; 0xE0133FE4; 0x1C81471D; 0xB6472E51; 0x0837;
    0xD97723A6; 0x58180FDD; 0x63A198E5; 0xE3D8F9E5; 0x083A;
    0xA7EA7648; 0x570F09EA; 0x5E44FF8F; 0x8E679C2F; 0x083E;
    0x51E513DA; 0x2CD2CC65; 0x35D63F73; 0xB201833B; 0x0841;
    0xA65E58D1; 0xF8077F7E; 0x034BCF4F; 0xDE81E40A; 0x0844
  ].

(** ** Doubles

    A [double] is its IEEE 754 bit pattern. The arithmetic on doubles that the
    fast path uses (conversion from an integer, product, quotient, order) is
    the one of [SpecFloat] at precision 53 and maximal exponent 1024, rounding
    to nearest, ties to even. *)

Definition f64_prec : Z := 53.
Definition f64_emax : Z := 1024.

Definition SF_of_bits (b : Z) : spec_float :=
  let s := Z.testbit b 63 in
  let e := Z.land (Z.shiftr b 52) 0x7FF in
  let m := Z.land b 0x000FFFFFFFFFFFFF in
  if e =? 0x7FF then (if m =? 0 then S754_infinity s else S754_nan)
  else if e =? 0 then
    match m with
    | Zpos p => S754_finite s p (-1074)
    | _ => S754_zero s
    end
  else
    match Z.lor m 0x0010000000000000 with
    | Zpos p => S754_finite s p (e - 1075)
    | _ => S754_zero s
    end.

Definition sign_bits (s : bool) : Z := if s then 0x8000000000000000 else 0.

Definition bits_of_SF (x : spec_float) : Z :=
  match x with
  | S754_zero s => sign_bits s
  | S754_infinity s => Z.lor 0x7FF0000000000000 (sign_bits s)
  | S754_nan => 0x7FF8000000000000
  | S754_finite s m e =>
      if Zpos m <? 0x0010000000000000 then Z.lor (Zpos m) (sign_bits s)
      else
        Z.lor (Z.lor (Z.land (Zpos m) 0x000FFFFFFFFFFFFF)
                 (Z.shiftl (e + 1075) 52))
          (sign_bits s)
  end.

(** [(double)x] for an unsigned integer [x]. *)
Definition f64_of_u64 (x : Z) : Z :=
  bits_of_SF (binary_normalize f64_prec f64_emax x 0 false).

Definition f64_mul (a b : Z) : Z :=
  bits_of_SF (SFmul f64_prec f64_emax (SF_of_bits a) (SF_of_bits b)).

Definition f64_div (a b : Z) : Z :=
  bits_of_SF (SFdiv f64_prec f64_emax (SF_of_bits a) (SF_of_bits b)).

Definition f64_neg (a : Z) : Z := Z.lxor a 0x8000000000000000.

(** [a >= b] on doubles. *)
Definition f64_ge (a b : Z) : bool :=
  match SFcompare (SF_of_bits a) (SF_of_bits b) with
  | Some Gt | Some Eq => true
  | _ => false
  end.

(** [f64_powers_of_10]: the doubles [1e0, 1e1, ..., 1e22], each of them an
    integer that a double holds exactly. *)
Definition f64_powers_of_10 : list Z :=
  map (fun k : nat => f64_of_u64 (10 ^ Z.of_nat k)) (seq 0 23).

Definition f64_1e15 : Z := f64_of_u64 (10 ^ 15).

(** The result of a parse: the status and the double. *)
Record result_f64 : Type := mk_result_f64 {
  result_status : status;
  result_value : Z
}.

(** ** Medium precision binaries *)

Record medium_prec_bin : Type := mk_mpb {
  mantissa : Z;   (* uint64_t *)
  exp2 : Z        (* int32_t *)
}.

(** Modelled from the spec: [wuffs_base__count_leading_zeroes_u64], defined in
    another file of the base library: the number of zero bits above the
    highest set bit of a 64-bit value, and 64 for zero. *)
Definition count_leading_zeroes_u64 (x : Z) : Z :=
  if x =? 0 then 64 else 63 - Z.log2 x.

(** Modelled from the spec: [wuffs_base__multiply_u64], defined in another
    file of the base library: the full 64 x 64 -> 128 bit product as its high
    and low 64-bit halves [(hi, lo)]. *)
Definition multiply_u64 (x y : Z) : Z * Z :=
  (Z.shiftr (x * y) 64, u64 (x * y)).

Definition medium_prec_bin__normalize (m : medium_prec_bin)
  : Z * medium_prec_bin :=
  if mantissa m =? 0 then (0, m)
  else
    let shift := count_leading_zeroes_u64 (mantissa m) in
    (shift, mk_mpb (shl64 (mantissa m) shift) (i32 (exp2 m - i32 shift))).

(** [mul_pow_10]: [p] is the index in [powers_of_10] of the first word of
    the row. *)
Definition medium_prec_bin__mul_pow_10 (m : medium_prec_bin) (p : Z)
  : medium_prec_bin :=
  let p_mantissa :=
    Z.lor (digit_get powers_of_10 (p + 2))
      (Z.shiftl (digit_get powers_of_10 (p + 3)) 32) in
  let p_exp2 := i32 (digit_get powers_of_10 (p + 4)) in
  let '(o_hi, o_lo) := multiply_u64 (mantissa m) p_mantissa in
  mk_mpb (u64 (o_hi + Z.shiftr o_lo 63))
    (i32 (i32 (i32 (exp2 m + p_exp2) + 128) - 1214)).

Definition medium_prec_bin__as_f64 (m : medium_prec_bin) (neg : bool) : Z :=
  let mantissa64 := mantissa m in
  let exp2 := i32 (exp2 m + 63) in
  let '(mantissa64, exp2) :=
    if exp2 <? -1022 then
      let n := u32 (-1022 - exp2) in
      (shr64 mantissa64 n, i32 (exp2 + i32 n))
    else (mantissa64, exp2) in
  let mantissa53 := Z.shiftr mantissa64 11 in
  let '(mantissa53, exp2) :=
    if negb (Z.land mantissa64 1024 =? 0) then
      let mantissa53 := u64 (mantissa53 + 1) in
      if negb (Z.shiftr mantissa53 53 =? 0)
      then (Z.shiftr mantissa53 1, i32 (exp2 + 1))
      else (mantissa53, exp2)
    else (mantissa53, exp2) in
  let '(mantissa53, exp2) :=
    if 1024 <=? exp2 then (0, 1024)
    else if Z.shiftr mantissa53 52 =? 0 then (mantissa53, -1023)
    else (mantissa53, exp2) in
  let f64_bias := -1023 in
  let exp2_bits := Z.land (exp2 - f64_bias) 0x07FF in
  Z.lor (Z.lor (Z.land mantissa53 0x000FFFFFFFFFFFFF) (u64 (Z.shiftl exp2_bits 52)))
    (if neg then 0x8000000000000000 else 0).

(** [medium_prec_bin__parse_number_f64], the loop that converts up to 19
    decimal digits to a 64-bit mantissa. *)
Fixpoint mpb_mantissa_loop (cnt : nat) (i : Z) (h : high_prec_dec) (m : Z) : Z :=
  match cnt with
  | O => m
  | S cnt' =>
      mpb_mantissa_loop cnt' (i + 1) h (u64 (10 * m + digit_get (digits h) i))
  end.

Definition mpb_fail : result_f64 :=
  mk_result_f64 (Some error__mpb_failed) 0.

Definition mpb_return (h : high_prec_dec) (d : Z) : result_f64 :=
  mk_result_f64 None (if negative h then f64_neg d else d).

(** The inner [do { ... } while (0)] block, "try a fast path, if float64 math
    would be exact". [inl r] is [return r]; [inr exp10] is a [break], with
    [exp10] as the block leaves it. *)
Definition mpb_exact_path (h : high_prec_dec) (skip_fast_path_for_tests : bool)
    (man : Z) (exp10 : Z) : result_f64 + Z :=
  if skip_fast_path_for_tests || negb (Z.shiftr man 52 =? 0) then inr exp10
  else
    let d := f64_of_u64 man in
    if exp10 =? 0 then inl (mpb_return h d)
    else if 0 <? exp10 then
      if 22 <? exp10 then
        if 15 + 22 <? exp10 then inr exp10
        else
          let d := f64_mul d (digit_get f64_powers_of_10 (exp10 - 22)) in
          let exp10 := 22 in
          if f64_ge d f64_1e15 then inr exp10
          else inl (mpb_return h (f64_mul d (digit_get f64_powers_of_10 exp10)))
      else inl (mpb_return h (f64_mul d (digit_get f64_powers_of_10 exp10)))
    else
      if exp10 <? -22 then inr exp10
      else inl (mpb_return h (f64_div d (digit_get f64_powers_of_10 (- exp10)))).

Definition medium_prec_bin__parse_number_f64 (m : medium_prec_bin)
    (h : high_prec_dec) (skip_fast_path_for_tests : bool) : result_f64 :=
  let error := 0 in
  let i_end := num_digits h in
  let '(i_end, error) := if 19 <? i_end then (19, 1) else (i_end, error) in
  let man := mpb_mantissa_loop (Z.to_nat i_end) 0 h 0 in
  let m := mk_mpb man 0 in
  let exp10 := i32 (decimal_point h - i32 i_end) in
  if (exp10 <? -326) || (310 <? exp10) then mpb_fail
  else
    match mpb_exact_path h skip_fast_path_for_tests man exp10 with
    | inl ret => ret
    | inr exp10 =>
        (* Normalize (and scale the error). *)
        let '(shift, m) := medium_prec_bin__normalize m in
        let error := shl64 error shift in
        (* Multiply by powers_of_10[etc]. *)
        let m := medium_prec_bin__mul_pow_10 m (5 * (exp10 + 326)) in
        let error := u64 (error + 2) in
        let '(shift, m) := medium_prec_bin__normalize m in
        let error := shl64 error shift in
        let f64_bias := -1023 in
        let subnormal_exp2 := f64_bias - 63 in
        let surplus_bits := 11 in
        let surplus_bits :=
          if exp2 m <=? subnormal_exp2
          then u32 (surplus_bits + 1 + u32 (subnormal_exp2 - exp2 m))
          else surplus_bits in
        let surplus_mask := u64 (shl64 1 surplus_bits - 1) in
        let surplus := Z.land (mantissa m) surplus_mask in
        let halfway := shl64 1 (surplus_bits - 1) in
        (* Do the final calculation in *signed* arithmetic. *)
        let i_surplus := i64 surplus in
        let i_halfway := i64 halfway in
        let i_error := i64 error in
        if (i64 (i_halfway - i_error) <? i_surplus)
           && (i_surplus <? i64 (i_halfway + i_error))
        then mpb_fail
        else mk_result_f64 None (medium_prec_bin__as_f64 m (negative h))
    end.

(** ** The special tokens: infinities and NaN *)

Definition is_ch2 (c : Z) (upper lower : string) : bool :=
  (c =? ch upper) || (c =? ch lower).

(** After a token has been read: [(p >= q) || ( *p == '_')]. *)
Definition at_end_or_underscore (p : list Z) : bool :=
  match p with
  | [] => true
  | c :: _ => c =? ch "_"
  end.

(** The [switch (p[0])]: [None] is [goto fallback], otherwise the [nan] flag
    and the unread input after the token. *)
Definition parse_special_token (p : list Z) : option (bool * list Z) :=
  match p with
  | c0 :: p' =>
      if is_ch2 c0 "I" "i" then
        match p' with
        | c1 :: c2 :: p3 =>
            if negb (is_ch2 c1 "N" "n") || negb (is_ch2 c2 "F" "f") then None
            else if at_end_or_underscore p3 then Some (false, p3)
            else
              match p3 with
              | d0 :: d1 :: d2 :: d3 :: d4 :: p8 =>
                  if negb (is_ch2 d0 "I" "i") || negb (is_ch2 d1 "N" "n")
                     || negb (is_ch2 d2 "I" "i") || negb (is_ch2 d3 "T" "t")
                     || negb (is_ch2 d4 "Y" "y") then None
                  else if at_end_or_underscore p8 then Some (false, p8)
                  else None
              | _ => None
              end
        | _ => None
        end
      else if is_ch2 c0 "N" "n" then
        match p' with
        | c1 :: c2 :: p3 =>
            if negb (is_ch2 c1 "A" "a") || negb (is_ch2 c2 "N" "n") then None
            else if at_end_or_underscore p3 then Some (true, p3)
            else None
        | _ => None
        end
      else None
  | [] => None
  end.

Definition parse_number_f64_special (s : list Z)
    (fallback_status_repr : option string) : result_f64 :=
  let fallback := mk_result_f64 fallback_status_repr 0 in
  let p := skip_underscores s in
  match p with
  | [] => fallback
  | c :: p' =>
      (* Parse sign. *)
      let '(neg, p) :=
        if c =? ch "+" then (false, skip_underscores p')
        else if c =? ch "-" then (true, skip_underscores p')
        else (false, p) in
      match parse_special_token p with
      | None => fallback
      | Some (nan, p) =>
          (* Finish. *)
          let p := skip_underscores p in
          if negb (is_nil p) then fallback
          else
            mk_result_f64 None
              (Z.lor (if nan then 0x7FFFFFFFFFFFFFFF else 0x7FF0000000000000)
                 (if neg then 0x8000000000000000 else 0))
      end
  end.

(** ** The top level parser *)

(** [powers] converts decimal powers of 10 to binary powers of 2. *)
Definition num_powers : Z := 19.
Definition powers : list Z :=
  [0; 3; 6; 9; 13; 16; 19; 23; 26; 29; 33; 36; 39; 43; 46; 49; 53; 56; 59].

(** Where the scaling loops of the slow path leave: at the statement after
    the loop, or at one of the labels [zero] and [infinity]. *)
Inductive scaled : Type :=
  | scaled_next (h : high_prec_dec) (exp2 : Z)
  | scaled_zero (h : high_prec_dec)
  | scaled_infinity (h : high_prec_dec).

(** [while (h.decimal_point > 0)]: "first we shift right". A round that
    keeps the decimal point lowers the leading digit, which bounds the
    number of rounds by [10 * decimal_point + 10]. *)
Fixpoint parse_shift_right_loop (fuel : nat) (h : high_prec_dec) (exp2 : Z)
  : scaled :=
  match fuel with
  | O => scaled_next h exp2
  | S fuel' =>
      if 0 <? decimal_point h then
        let n := u32 (decimal_point h) in
        let shift :=
          if n <? num_powers then digit_get powers n else HPD__SHIFT__MAX_INCL in
        let h := high_prec_dec__small_rshift h shift in
        if decimal_point h <? - HPD__DECIMAL_POINT__RANGE then scaled_zero h
        else parse_shift_right_loop fuel' h (i32 (exp2 + i32 shift))
      else scaled_next h exp2
  end.

(** [while (h.decimal_point <= 0)]: "then we shift left". A round that
    keeps the decimal point raises the leading digit, which bounds the
    number of rounds by [10 * (- decimal_point) + 10]. *)
Fixpoint parse_shift_left_loop (fuel : nat) (h : high_prec_dec) (exp2 : Z)
  : scaled :=
  match fuel with
  | O => scaled_next h exp2
  | S fuel' =>
      if decimal_point h <=? 0 then
        if (decimal_point h =? 0) && (5 <=? digit_get (digits h) 0)
        then scaled_next h exp2
        else
          let shift :=
            if decimal_point h =? 0 then
              (if digit_get (digits h) 0 <=? 2 then 2 else 1)
            else
              let n := u32 (- decimal_point h) in
              if n <? num_powers then digit_get powers n else HPD__SHIFT__MAX_INCL in
          let h := high_prec_dec__small_lshift h shift in
          if HPD__DECIMAL_POINT__RANGE <? decimal_point h then scaled_infinity h
          else parse_shift_left_loop fuel' h (i32 (exp2 - i32 shift))
      else scaled_next h exp2
  end.

(** [while ((f64_bias + 1) > exp2)]: every round raises [exp2], so there are
    at most [-1022 - exp2] of them. *)
Fixpoint parse_subnormal_loop (fuel : nat) (h : high_prec_dec) (exp2 : Z)
  : high_prec_dec * Z :=
  match fuel with
  | O => (h, exp2)
  | S fuel' =>
      let f64_bias := -1023 in
      if exp2 <? f64_bias + 1 then
        let n := u32 (f64_bias + 1 - exp2) in
        let n := if HPD__SHIFT__MAX_INCL <? n then HPD__SHIFT__MAX_INCL else n in
        parse_subnormal_loop fuel' (high_prec_dec__small_rshift h n)
          (i32 (exp2 + i32 n))
      else (h, exp2)
  end.

Definition parse_zero (h : high_prec_dec) : result_f64 :=
  mk_result_f64 None (if negative h then 0x8000000000000000 else 0).

Definition parse_infinity (h : high_prec_dec) : result_f64 :=
  mk_result_f64 None
    (if negative h then 0xFFF0000000000000 else 0x7FF0000000000000).

(** The slow path, from "Scale by powers of 2" to the end of the function. *)
Definition parse_number_f64_slow (h : high_prec_dec) : result_f64 :=
  let f64_bias := -1023 in
  let exp2 := 0 in
  match parse_shift_right_loop
          (Z.to_nat (10 * decimal_point h + 10)) h exp2 with
  | scaled_zero h => parse_zero h
  | scaled_infinity h => parse_infinity h
  | scaled_next h exp2 =>
      match parse_shift_left_loop
              (Z.to_nat (10 * (- decimal_point h) + 10)) h exp2 with
      | scaled_zero h => parse_zero h
      | scaled_infinity h => parse_infinity h
      | scaled_next h exp2 =>
          (* We're in the range [1/2 .. 1] but f64 uses [1 .. 2]. *)
          let exp2 := i32 (exp2 - 1) in
          (* The minimum normal exponent is (f64_bias + 1). *)
          let '(h, exp2) :=
            parse_subnormal_loop (Z.to_nat (f64_bias + 1 - exp2)) h exp2 in
          (* Check for overflow. *)
          if 0x07FF <=? exp2 - f64_bias then parse_infinity h
          else
            (* Extract 53 bits for the mantissa (in base-2). *)
            let h := high_prec_dec__small_lshift h 53 in
            let man2 := high_prec_dec__rounded_integer h in
            (* Rounding might have added one bit. *)
            let '(man2, exp2) :=
              if negb (Z.shiftr man2 53 =? 0)
              then (Z.shiftr man2 1, i32 (exp2 + 1)) else (man2, exp2) in
            if 0x07FF <=? exp2 - f64_bias then parse_infinity h
            else
              (* Handle subnormal numbers. *)
              let exp2 := if Z.shiftr man2 52 =? 0 then f64_bias else exp2 in
              (* Pack the bits and return. *)
              let exp2_bits := Z.land (exp2 - f64_bias) 0x07FF in
              mk_result_f64 None
                (Z.lor (Z.lor (Z.land man2 0x000FFFFFFFFFFFFF)
                          (u64 (Z.shiftl exp2_bits 52)))
                   (if negative h then 0x8000000000000000 else 0))
      end
  end.

Definition parse_number_f64 (s : list Z) : result_f64 :=
  match high_prec_dec__parse (Some hpd_stack) s with
  | (Some repr, _) => parse_number_f64_special s (Some repr)
  | (None, None) => parse_number_f64_special s None
  | (None, Some h) =>
      (* Handle zero and obvious extremes. *)
      if (num_digits h =? 0) || (decimal_point h <? -326) then parse_zero h
      else if 310 <? decimal_point h then parse_infinity h
      else
        let mpb_result :=
          medium_prec_bin__parse_number_f64 (mk_mpb 0 0) h false in
        match result_status mpb_result with
        | None => mpb_result
        | Some _ => parse_number_f64_slow h
        end
  end.

(** ** Rendering *)

(** Modelled from the spec: the option flags of [render_number_f64]. They are
    macros of the library's public header, which is not part of this file;
    each is a single bit, and the bits are pairwise distinct. *)
Definition RENDER_NUMBER_XXX__ALIGN_RIGHT : Z := 0x00000001.
Definition RENDER_NUMBER_XXX__LEADING_PLUS_SIGN : Z := 0x00000002.
Definition RENDER_NUMBER_FXX__DECIMAL_SEPARATOR_IS_A_COMMA : Z := 0x00000100.
Definition RENDER_NUMBER_FXX__EXPONENT_ABSENT : Z := 0x00000200.
Definition RENDER_NUMBER_FXX__EXPONENT_PRESENT : Z := 0x00000400.
Definition RENDER_NUMBER_FXX__JUST_ENOUGH_PRECISION : Z := 0x00000800.

(** [options & FLAG] as a C condition. *)
Definition has_flag (options flag : Z) : bool :=
  negb (Z.land options flag =? 0).

(** A destination slice is the list of its bytes; [slice_len] is [dst.len]. *)
Definition slice_len (dst : list Z) : Z := Z.of_nat (length dst).

(** [*ptr++ = c] on the pair of the write pointer and the buffer. *)
Definition put (st : Z * list Z) (c : Z) : Z * list Z :=
  (fst st + 1, digit_set (snd st) (fst st) c).

(** Modelled from the spec: [wuffs_base__store_u24le__no_bounds_check] and
    [wuffs_base__store_u32le__no_bounds_check], defined in another file of
    the base library: store the low 3 or 4 bytes of [x] at the start of the
    buffer, least significant byte first. *)
Definition store_u24le (dst : list Z) (x : Z) : list Z :=
  digit_set (digit_set (digit_set dst 0 (u8 x)) 1 (u8 (Z.shiftr x 8)))
    2 (u8 (Z.shiftr x 16)).
Definition store_u32le (dst : list Z) (x : Z) : list Z :=
  digit_set (store_u24le dst x) 3 (u8 (Z.shiftr x 24)).

Definition render_inf (dst : list Z) (neg : bool) (options : Z) : Z * list Z :=
  if neg then
    if slice_len dst <? 4 then (0, dst)
    else (4, store_u32le dst 0x666E492D)
  else if has_flag options RENDER_NUMBER_XXX__LEADING_PLUS_SIGN then
    if slice_len dst <? 4 then (0, dst)
    else (4, store_u32le dst 0x666E492B)
  else
    if slice_len dst <? 3 then (0, dst)
    else (3, store_u24le dst 0x666E49).

Definition render_nan (dst : list Z) : Z * list Z :=
  if slice_len dst <? 3 then (0, dst)
  else (3, store_u24le dst 0x4E614E).

(** [for (; i < m; i++) *ptr++ = '0' | h->digits[i]], [cnt] rounds from [i]. *)
Fixpoint put_digits (cnt : nat) (i : Z) (h : high_prec_dec) (st : Z * list Z)
  : Z * list Z :=
  match cnt with
  | O => st
  | S cnt' =>
      put_digits cnt' (i + 1) h (put st (u8 (Z.lor (ch "0") (digit_get (digits h) i))))
  end.

(** [cnt] times [*ptr++ = '0']. *)
Fixpoint put_zeroes (cnt : nat) (st : Z * list Z) : Z * list Z :=
  match cnt with
  | O => st
  | S cnt' => put_zeroes cnt' (put st (ch "0"))
  end.

(** The fraction of the fixed point form:
    [for (; i < precision; i++)] with [j = decimal_point + i]. *)
Fixpoint put_fraction (cnt : nat) (i : Z) (h : high_prec_dec)
    (st : Z * list Z) : Z * list Z :=
  match cnt with
  | O => st
  | S cnt' =>
      let j := u32 (u32 (decimal_point h) + i) in
      let d := if j <? num_digits h then digit_get (digits h) j else 0 in
      put_fraction cnt' (i + 1) h (put st (u8 (Z.lor (ch "0") d)))
  end.

Definition put_sign (h : high_prec_dec) (options : Z) (st : Z * list Z)
  : Z * list Z :=
  if negative h then put st (ch "-")
  else if has_flag options RENDER_NUMBER_XXX__LEADING_PLUS_SIGN then put st (ch "+")
  else st.

Definition separator (options : Z) : Z :=
  if has_flag options RENDER_NUMBER_FXX__DECIMAL_SEPARATOR_IS_A_COMMA
  then ch "," else ch ".".

Definition high_prec_dec__render_exponent_absent (dst : list Z)
    (h : high_prec_dec) (precision options : Z) : Z * list Z :=
  let n :=
    if negative h || has_flag options RENDER_NUMBER_XXX__LEADING_PLUS_SIGN
    then 1 else 0 in
  let n := if decimal_point h <=? 0 then n + 1 else n + decimal_point h in
  let n := if 0 <? precision then n + u32 (precision + 1) else n in
  (* Don't modify dst if the formatted number won't fit. *)
  if slice_len dst <? n then (0, dst)
  else
    (* Align-left or align-right. *)
    let ptr :=
      if has_flag options RENDER_NUMBER_XXX__ALIGN_RIGHT
      then slice_len dst - n else 0 in
    (* Leading sign. *)
    let st := put_sign h options (ptr, dst) in
    (* Integral digits. *)
    let st :=
      if decimal_point h <=? 0 then put st (ch "0")
      else
        let m := Z.min (num_digits h) (u32 (decimal_point h)) in
        let st := put_digits (Z.to_nat m) 0 h st in
        put_zeroes (Z.to_nat (u32 (decimal_point h) - m)) st in
    (* Separator and then fractional digits. *)
    let st :=
      if 0 <? precision then
        put_fraction (Z.to_nat precision) 0 h (put st (separator options))
      else st in
    (n, snd st).

Definition high_prec_dec__render_exponent_present (dst : list Z)
    (h : high_prec_dec) (precision options : Z) : Z * list Z :=
  let exp := if 0 <? num_digits h then i32 (decimal_point h - 1) else 0 in
  let negative_exp := exp <? 0 in
  let exp := if negative_exp then i32 (- exp) else exp in
  let n :=
    if negative h || has_flag options RENDER_NUMBER_XXX__LEADING_PLUS_SIGN
    then 4 else 3 in
  let n := if 0 <? precision then n + u32 (precision + 1) else n in
  let n := n + (if exp <? 100 then 2 else 3) in
  (* Don't modify dst if the formatted number won't fit. *)
  if slice_len dst <? n then (0, dst)
  else
    let ptr :=
      if has_flag options RENDER_NUMBER_XXX__ALIGN_RIGHT
      then slice_len dst - n else 0 in
    let st := put_sign h options (ptr, dst) in
    (* Integral digit. *)
    let st :=
      if 0 <? num_digits h
      then put st (u8 (Z.lor (ch "0") (digit_get (digits h) 0)))
      else put st (ch "0") in
    (* Separator and then fractional digits. *)
    let st :=
      if 0 <? precision then
        let st := put st (separator options) in
        let j := Z.min (num_digits h) (u32 (precision + 1)) in
        let st := put_digits (Z.to_nat (j - 1)) 1 h st in
        put_zeroes (Z.to_nat (precision + 1 - Z.max 1 j)) st
      else st in
    (* Exponent: "e+-" and then 2 or 3 digits. *)
    let st := put st (ch "e") in
    let st := put st (if negative_exp then ch "-" else ch "+") in
    let st :=
      if exp <? 10 then
        put (put st (ch "0")) (u8 (Z.lor (ch "0") exp))
      else if exp <? 100 then
        put (put st (u8 (Z.lor (ch "0") (exp / 10))))
          (u8 (Z.lor (ch "0") (exp mod 10)))
      else
        let e := exp / 100 in
        let exp := i32 (exp - e * 100) in
        put (put (put st (u8 (Z.lor (ch "0") e)))
               (u8 (Z.lor (ch "0") (exp / 10))))
          (u8 (Z.lor (ch "0") (exp mod 10))) in
    (n, snd st).

(** [render_number_f64]: [x] is the double's bit pattern. The result is the
    returned length and the destination buffer after the call. *)
Definition render_number_f64 (dst : list Z) (x : Z) (precision options : Z)
  : Z * list Z :=
  let bits := x in
  let neg := negb (Z.shiftr bits 63 =? 0) in
  let exp2 := Z.land (i32 (Z.shiftr bits 52)) 0x7FF in
  let man := Z.land bits 0x000FFFFFFFFFFFFF in
  if exp2 =? 0x7FF then
    if negb (man =? 0) then render_nan dst
    else render_inf dst neg options
  else
    let '(exp2, man) :=
      if exp2 =? 0 then (-1022, man)
      else (exp2 - 1023, Z.lor man 0x0010000000000000) in
    (* Ensure that precision isn't too large. *)
    let precision := if 4095 <? precision then 4095 else precision in
    (* Convert from the (neg, exp2, man) tuple to an HPD. *)
    let h := high_prec_dec__assign hpd_stack man neg in
    let h :=
      if 0 <? num_digits h then high_prec_dec__lshift h (exp2 - 52) else h in
    let just_enough :=
      has_flag options RENDER_NUMBER_FXX__JUST_ENOUGH_PRECISION in
    let sw :=
      Z.land options
        (Z.lor RENDER_NUMBER_FXX__EXPONENT_ABSENT
           RENDER_NUMBER_FXX__EXPONENT_PRESENT) in
    if sw =? RENDER_NUMBER_FXX__EXPONENT_ABSENT then
      (* The "%f" format. *)
      let '(h, precision) :=
        if just_enough then
          let h := high_prec_dec__round_just_enough h exp2 man in
          let p := i32 (i32 (num_digits h) - decimal_point h) in
          (h, u32 (Z.max 0 p))
        else
          (high_prec_dec__round_nearest h (i32 (i32 precision + decimal_point h)),
           precision) in
      high_prec_dec__render_exponent_absent dst h precision options
    else if sw =? RENDER_NUMBER_FXX__EXPONENT_PRESENT then
      (* The "%e" format. *)
      let '(h, precision) :=
        if just_enough then
          let h := high_prec_dec__round_just_enough h exp2 man in
          (h, if 0 <? num_digits h then u32 (num_digits h - 1) else 0)
        else
          (high_prec_dec__round_nearest h (i32 (i32 precision + 1)), precision) in
      high_prec_dec__render_exponent_present dst h precision options
    else
      (* The "%g" format. *)
      let '(h, precision, e_threshold) :=
        if just_enough then
          let h := high_prec_dec__round_just_enough h exp2 man in
          (h, num_digits h, 6)
        else
          let precision := if precision =? 0 then 1 else precision in
          let h := high_prec_dec__round_nearest h (i32 precision) in
          let e_threshold := i32 precision in
          let nd := i32 (num_digits h) in
          let e_threshold :=
            if (nd <? e_threshold) && (decimal_point h <=? nd)
            then nd else e_threshold in
          (h, precision, e_threshold) in
      (* Use the "%e" format if the exponent is large. *)
      let e := i32 (decimal_point h - 1) in
      if (e <? -4) || (e_threshold <=? e) then
        let p := Z.min precision (num_digits h) in
        high_prec_dec__render_exponent_present dst h
          (if 0 <? p then u32 (p - 1) else 0) options
      else
        (* Use the "%f" format otherwise. *)
        let p := i32 precision in
        let p := if decimal_point h <? p then i32 (num_digits h) else p in
        let precision := u32 (Z.max 0 (i32 (p - decimal_point h))) in
        high_prec_dec__render_exponent_absent dst h precision options.

(** The bytes that a call of [render_number_f64] produced: the first
    [n] bytes of the buffer (for a left aligned rendering). *)
Definition rendered (r : Z * list Z) : list Z := take (Z.to_nat (fst r)) (snd r).

(** * Specification level definitions

    The definitions below are not translations of the source: they name the
    notions that the statements of the properties use. *)

(** The two exponent flags together. *)
Definition both_exponent_flags : Z :=
  Z.lor RENDER_NUMBER_FXX__EXPONENT_ABSENT RENDER_NUMBER_FXX__EXPONENT_PRESENT.

(** A destination buffer of [n] zero bytes. *)
Definition buffer (n : nat) : list Z := replicate n 0.

(** Some doubles, as bit patterns. *)
Definition f64_1e20 : Z := 0x4415AF1D78B58C40.

(** A double is a NaN when its exponent field is all ones and its mantissa
    field is not zero. *)
Definition f64_is_nan (x : Z) : bool :=
  (Z.land (Z.shiftr x 52) 0x7FF =? 0x7FF)
  && negb (Z.land x 0x000FFFFFFFFFFFFF =? 0).

(** The shape of the inputs that the grammar of the special tokens reads as
    NaN: underscores, an optional sign, underscores, the three letters in
    any case, underscores. [neg] tells whether the sign is a minus. *)
Definition all_underscores (us : list Z) : Prop :=
  Forall (fun c => c = ch "_") us.

Inductive sign_token : list Z -> bool -> Prop :=
  | sign_token_none : sign_token [] false
  | sign_token_plus : sign_token [ch "+"] false
  | sign_token_minus : sign_token [ch "-"] true.

Definition nan_letters (l : list Z) : Prop :=
  exists c0 c1 c2,
    l = [c0; c1; c2]
    /\ is_ch2 c0 "N" "n" = true
    /\ is_ch2 c1 "A" "a" = true
    /\ is_ch2 c2 "N" "n" = true.

Definition nan_input (s : list Z) (neg : bool) : Prop :=
  exists us1 sg us2 l us3,
    s = us1 ++ sg ++ us2 ++ l ++ us3
    /\ all_underscores us1 /\ sign_token sg neg /\ all_underscores us2
    /\ nan_letters l /\ all_underscores us3.

Definition f64_nan_positive : Z := 0x7FFFFFFFFFFFFFFF.
Definition f64_nan_negative : Z := 0xFFFFFFFFFFFFFFFF.

(** The inputs with a superfluous leading zero: after the optional sign (and
    underscores, which the parser ignores everywhere) the number starts with
    the digit 0 and the next digit comes before any decimal separator. *)
Definition is_digit (c : Z) : Prop := ch "0" <= c <= ch "9".

Definition leading_zero_input (s : list Z) : Prop :=
  exists us1 sg neg us2 us d rest,
    s = us1 ++ sg ++ us2 ++ [ch "0"] ++ us ++ [d] ++ rest
    /\ all_underscores us1 /\ sign_token sg neg /\ all_underscores us2
    /\ all_underscores us /\ is_digit d.

Definition f64_0_5 : Z := 0x3FE0000000000000.
Definition f64_7_5 : Z := 0x401E000000000000.

(** ** The invariants of a high precision decimal *)

(** The shape that the C type gives: an array of 800 digits and a digit
    count that stays within it. *)
Definition hpd_wf (h : high_prec_dec) : Prop :=
  length (digits h) = 800%nat /\ 0 <= num_digits h <= HPD__DIGITS_PRECISION.

(** All active digits are in 0..=9. *)
Definition hpd_digits_ok (h : high_prec_dec) : Prop :=
  forall i, 0 <= i < num_digits h -> 0 <= digit_get (digits h) i <= 9.

(** Trimmed: the last active digit, if there is one, is not zero. *)
Definition hpd_trimmed (h : high_prec_dec) : Prop :=
  num_digits h = 0 \/ digit_get (digits h) (num_digits h - 1) <> 0.

Definition hpd_inv (h : high_prec_dec) : Prop :=
  hpd_trimmed h /\ hpd_digits_ok h.

(** ** The integer that [rounded_integer] is specified to return *)

(** The digit of [h] at position [i], with the implicit zeroes after the
    last active digit. *)
Definition hpd_digit (h : high_prec_dec) (i : Z) : Z :=
  if (0 <=? i) && (i <? num_digits h) then digit_get (digits h) i else 0.

(** The first [n] digit positions of [h] read as a decimal integer:
    the sum of [hpd_digit h i * 10 ^ (n - 1 - i)] for [i < n]. *)
Fixpoint hpd_prefix_value (h : high_prec_dec) (n : nat) : Z :=
  match n with
  | O => 0
  | S k => 10 * hpd_prefix_value h k + hpd_digit h (Z.of_nat k)
  end.

(** Whether the fraction after the first [dp] digits rounds up, to nearest
    and ties to even: the digit at position [dp] decides, except when it is
    a 5 and the last active digit; then the number is exactly halfway unless
    digits were truncated, and the parity of the digit before decides. *)
Definition hpd_rounds_up (h : high_prec_dec) (dp : Z) : bool :=
  let d := hpd_digit h dp in
  if dp <? num_digits h then
    if d <? 5 then false
    else if 5 <? d then true
    else if dp + 1 =? num_digits h then
      truncated h || Z.odd (hpd_digit h (dp - 1))
    else true
  else false.

(** ** Medium precision binaries *)

(** Normalized and not zero: the high bit of the 64-bit mantissa is set. *)
Definition mpb_normalized (m : medium_prec_bin) : Prop :=
  2 ^ 63 <= mantissa m < 2 ^ 64.

(** The 64-bit mantissa and the biased exponent that [mul_pow_10] reads
    from row [r] of [powers_of_10]. *)
Definition pow10_row_mantissa (r : Z) : Z :=
  Z.lor (digit_get powers_of_10 (5 * r + 2))
    (Z.shiftl (digit_get powers_of_10 (5 * r + 3)) 32).
Definition pow10_row_exp2 (r : Z) : Z := digit_get powers_of_10 (5 * r + 4).

Definition INT32_MIN : Z := - 2 ^ 31.
Definition INT32_MAX : Z := 2 ^ 31 - 1.

(** ** The new digits of a left shift *)

(** The decimal digits of a positive integer, most significant first. An
    integer has at most [log2 x + 1] of them. *)
Fixpoint decimal_digits_aux (fuel : nat) (x : Z) (acc : list Z) : list Z :=
  match fuel with
  | O => acc
  | S fuel' =>
      if x <? 10 then x :: acc
      else decimal_digits_aux fuel' (x / 10) (x mod 10 :: acc)
  end.

Definition decimal_digits (x : Z) : list Z :=
  decimal_digits_aux (S (Z.to_nat (Z.log2 x))) x [].

(** The lexicographic order on digit strings; a proper prefix of a string
    is less than the string. *)
Fixpoint lex_lt (a b : list Z) : bool :=
  match a, b with
  | _, [] => false
  | [], _ :: _ => true
  | x :: a', y :: b' =>
      if x <? y then true else if y <? x then false else lex_lt a' b'
  end.

(** The active digits of [h]: [digits[.. num_digits]]. *)
Definition hpd_active_digits (h : high_prec_dec) : list Z :=
  take (Z.to_nat (num_digits h)) (digits h).

(** [N s]: the larger of the two numbers of new digits of a left shift by
    [s], the high 5 bits of the table entry for [s]. *)
Definition lshift_max_new_digits (s : Z) : Z :=
  Z.shiftr (digit_get hpd_left_shift s) 11.

(** The digits that the low 11 bits of the entries for [s] and [s + 1]
    cut out of [powers_of_5]. *)
Definition pow5_table_digits (s : Z) : list Z :=
  let a := Z.land 0x7FF (digit_get hpd_left_shift s) in
  let b := Z.land 0x7FF (digit_get hpd_left_shift (s + 1)) in
  take (Z.to_nat (b - a)) (drop (Z.to_nat a) powers_of_5).

(** [same_frame h h']: [h'] differs from [h] in its digits and its truncated
    flag at most, and its array has the same length. *)
Definition same_frame (h h' : high_prec_dec) : Prop :=
  num_digits h' = num_digits h /\ decimal_point h' = decimal_point h
  /\ negative h' = negative h /\ length (digits h') = length (digits h).

(** ** The value of a double *)

(** A finite double is [f64_mantissa * 2 ^ f64_exponent], up to its sign. *)
Definition f64_mantissa (b : Z) : Z :=
  if Z.land (Z.shiftr b 52) 0x7FF =? 0 then Z.land b 0x000FFFFFFFFFFFFF
  else Z.lor (Z.land b 0x000FFFFFFFFFFFFF) 0x0010000000000000.

Definition f64_exponent (b : Z) : Z :=
  if Z.land (Z.shiftr b 52) 0x7FF =? 0 then -1074
  else Z.land (Z.shiftr b 52) 0x7FF - 1075.

Definition f64_1_5e37 : Z := 0x47A691CA32818ED5.
Definition f64_1_5e23 : Z := 0x44BFC3842BD1F072.

Definition is_dec_digit (d : Z) : Prop := 0 <= d <= 9.

Definition pds_ok (st : parse_digits_state) : Prop :=
  length (pds_digits st) = 800%nat
  /\ 0 <= pds_nd st <= HPD__DIGITS_PRECISION
  /\ forall i, 0 <= i < pds_nd st -> is_dec_digit (digit_get (pds_digits st) i).

(** The state with which the digits loop of [parse] ends, however it
    ends. *)
Definition exit_state (e : digits_exit) : parse_digits_state :=
  match e with
  | digits_left st _ => st
  | digits_bad st => st
  end.

(** A decimal in canonical form: the invariant holds, there are digits, and
    the first digit is not zero. [parse] returns canonical decimals (or ones
    with no digits), and the shifts keep the form. *)
Definition hpd_canonical (h : high_prec_dec) : Prop :=
  hpd_wf h /\ hpd_inv h /\ 0 < num_digits h /\ digit_get (digits h) 0 <> 0.

(** The number that a string of decimal digits writes, first digit the most
    significant. *)
Fixpoint digits_value (l : list Z) : Z :=
  match l with
  | [] => 0
  | d :: l' => d * 10 ^ Z.of_nat (length l') + digits_value l'
  end.

(** The three value-bounded loops of the slow path, started on [h], end by
    their own tests: the two scaling loops leave at the statement after
    them, and no loop's result depends on the bound that the model puts on
    its number of rounds. *)
Definition slow_scaling_ends (h : high_prec_dec) : Prop :=
  exists (h1 : high_prec_dec) (e1 : Z) (h2 : high_prec_dec) (e2 : Z),
    (forall extra : nat,
        parse_shift_right_loop
          (Z.to_nat (10 * decimal_point h + 10) + extra) h 0
        = scaled_next h1 e1)
    /\ (forall extra : nat,
           parse_shift_left_loop
             (Z.to_nat (10 * (- decimal_point h1) + 10) + extra) h1 e1
           = scaled_next h2 e2)
    /\ (forall extra : nat,
           parse_subnormal_loop
             (Z.to_nat (-1023 + 1 - i32 (e2 - 1)) + extra) h2 (i32 (e2 - 1))
           = parse_subnormal_loop
               (Z.to_nat (-1023 + 1 - i32 (e2 - 1))) h2 (i32 (e2 - 1))).

(** The letters of the two spellings of an infinity, in any case. *)
Definition inf_letters (l : list Z) : Prop :=
  (exists c0 c1 c2,
      l = [c0; c1; c2]
      /\ is_ch2 c0 "I" "i" = true /\ is_ch2 c1 "N" "n" = true
      /\ is_ch2 c2 "F" "f" = true)
  \/ (exists c0 c1 c2 c3 c4 c5 c6 c7,
      l = [c0; c1; c2; c3; c4; c5; c6; c7]
      /\ is_ch2 c0 "I" "i" = true /\ is_ch2 c1 "N" "n" = true
      /\ is_ch2 c2 "F" "f" = true /\ is_ch2 c3 "I" "i" = true
      /\ is_ch2 c4 "N" "n" = true /\ is_ch2 c5 "I" "i" = true
      /\ is_ch2 c6 "T" "t" = true /\ is_ch2 c7 "Y" "y" = true).

(** The inputs that read as an infinity: underscores, an optional sign,
    underscores, the letters, underscores. *)
Definition inf_input (s : list Z) (neg : bool) : Prop :=
  exists us1 sg us2 l us3,
    s = us1 ++ sg ++ us2 ++ l ++ us3
    /\ all_underscores us1 /\ sign_token sg neg /\ all_underscores us2
    /\ inf_letters l /\ all_underscores us3.

Definition f64_inf_positive : Z := 0x7FF0000000000000.
Definition f64_inf_negative : Z := 0xFFF0000000000000.

(** The shape of every result of a rendering into [dst]: the count is
    within the buffer, the buffer keeps its length, and a count of zero
    comes with an untouched buffer. *)
Definition render_result_ok (dst : list Z) (r : Z * list Z) : Prop :=
  0 <= fst r <= slice_len dst
  /\ length (snd r) = length dst
  /\ (fst r = 0 -> snd r = dst).

(** The input without its underscores. *)
Fixpoint remove_underscores (s : list Z) : list Z :=
  match s with
  | [] => []
  | c :: s' =>
      if c =? ch "_" then remove_underscores s' else c :: remove_underscores s'
  end.

(** The unread input at a place where the parser has just skipped the
    underscores: it is empty or starts with another byte. *)
Definition clean_head (p : list Z) : Prop :=
  match p with
  | [] => True
  | c :: _ => c <> ch "_"
  end.

(** The 128-bit mantissa of row [r] of [powers_of_10], from its four
    little-endian words, and the exponents of 2 and of 10 that the row stands
    for. *)
Definition pow10_row_mantissa128 (r : Z) : Z :=
  digit_get powers_of_10 (5 * r)
  + Z.shiftl (digit_get powers_of_10 (5 * r + 1)) 32
  + Z.shiftl (digit_get powers_of_10 (5 * r + 2)) 64
  + Z.shiftl (digit_get powers_of_10 (5 * r + 3)) 96.

Definition pow10_row_E (r : Z) : Z := pow10_row_exp2 r - 1214.
Definition pow10_row_e10 (r : Z) : Z := r - 326.

(** [m * 2^E <= 10^e < (m + 1) * 2^E] for integers [E] and [e] of any
    sign, with the negative powers moved to the other side. *)
Definition truncates_pow10 (m E e : Z) : Prop :=
  m * (2 ^ Z.max E 0 * 10 ^ Z.max (- e) 0)
  <= 10 ^ Z.max e 0 * 2 ^ Z.max (- E) 0
  < (m + 1) * (2 ^ Z.max E 0 * 10 ^ Z.max (- e) 0).

Definition truncates_pow10b (m E e : Z) : bool :=
  (m * (2 ^ Z.max E 0 * 10 ^ Z.max (- e) 0)
   <=? 10 ^ Z.max e 0 * 2 ^ Z.max (- E) 0)
  && (10 ^ Z.max e 0 * 2 ^ Z.max (- E) 0
      <? (m + 1) * (2 ^ Z.max E 0 * 10 ^ Z.max (- e) 0)).

(** [writes w bs]: from any write pointer with room for [bs], the writer [w]
    stores the bytes [bs] at the pointer, moves it behind them, and changes
    nothing else. *)
Definition writes (w : Z * list Z -> Z * list Z) (bs : list Z) : Prop :=
  forall (ptr : Z) (dst : list Z),
    0 <= ptr -> ptr + Z.of_nat (length bs) <= slice_len dst ->
    w (ptr, dst)
    = (ptr + Z.of_nat (length bs),
       take (Z.to_nat ptr) dst ++ bs
       ++ drop (Z.to_nat (ptr + Z.of_nat (length bs))) dst).

(** The effect of a rendering that fits: [bs] at the left or at the right end
    of [dst], everything else as it was; [dst] as it was when [bs] does not
    fit. *)
Definition written_window (dst bs : list Z) (right : bool) : Z * list Z :=
  let n := Z.of_nat (length bs) in
  if slice_len dst <? n then (0, dst)
  else
    let ptr := if right then slice_len dst - n else 0 in
    (n, take (Z.to_nat ptr) dst ++ bs ++ drop (Z.to_nat (ptr + n)) dst).

(** The characters of the [n] digit positions of [h] from position [a] on;
    positions outside of the active digits are zeroes. *)
Fixpoint digit_chars (h : high_prec_dec) (a : Z) (n : nat) : list Z :=
  match n with
  | O => []
  | S n' => (ch "0" + hpd_digit h a) :: digit_chars h (a + 1) n'
  end.

(** The fixed point notation of [h] with [precision] digits after the
    separator: a sign ([-], or [+] when [plus] asks for it), the digits
    before the decimal point (a single 0 when there are none), and, for a
    positive [precision], the separator and the digits after it. *)
Definition fixed_point_text (h : high_prec_dec) (precision : Z)
    (plus comma : bool) : list Z :=
  (if negative h then [ch "-"] else if plus then [ch "+"] else [])
  ++ (if decimal_point h <=? 0 then [ch "0"]
      else digit_chars h 0 (Z.to_nat (decimal_point h)))
  ++ (if 0 <? precision
      then (if comma then ch "," else ch ".")
           :: digit_chars h (decimal_point h) (Z.to_nat precision)
      else []).

(** The state of the digits loop of [parse] once it has read the digit
    positions of [h] below [a]: the digits read are stored, up to the 800
    that fit, nothing was truncated, and a zero that comes next is not a
    superfluous leading zero. *)
Definition run_state (h : high_prec_dec) (a : Z) (st : parse_digits_state)
  : Prop :=
  pds_nd st = Z.min a 800
  /\ length (pds_digits st) = 800%nat
  /\ (forall i, 0 <= i < pds_nd st ->
        digit_get (pds_digits st) i = hpd_digit h i)
  /\ pds_truncated st = false
  /\ (pds_saw_dot st = true \/ pds_saw_non_zero_digits st = true
      \/ (pds_saw_digits st = false /\ a = 0)).

(** The two or three decimal digits of an exponent below 1000. *)
Definition exponent_chars (e : Z) : list Z :=
  if e <? 100 then [ch "0" + e / 10; ch "0" + e mod 10]
  else [ch "0" + e / 100; ch "0" + e mod 100 / 10; ch "0" + e mod 10].

(** The scientific notation of [h], which has digits, with [precision]
    digits after the separator: a sign, the first digit, for a positive
    [precision] the separator and the digits after it, and the exponent
    [decimal_point - 1] with its sign and at least two digits. *)
Definition scientific_text (h : high_prec_dec) (precision : Z)
    (plus comma : bool) : list Z :=
  (if negative h then [ch "-"] else if plus then [ch "+"] else [])
  ++ digit_chars h 0 1
  ++ (if 0 <? precision
      then (if comma then ch "," else ch ".")
           :: digit_chars h 1 (Z.to_nat precision)
      else [])
  ++ [ch "e"; if decimal_point h - 1 <? 0 then ch "-" else ch "+"]
  ++ exponent_chars (Z.abs (decimal_point h - 1)).

(** The inputs with a single leading zero. Without its underscores, which
    the parser ignores, such an input is an optional sign, the digit 0,
    then optionally a decimal separator ([.] or [,]) and any number of
    digits, then optionally an exponent: [E] or [e], an optional sign and
    at least one digit. [neg] tells whether the sign is a minus. *)
Definition single_zero_input (s : list Z) (neg : bool) : Prop :=
  exists sg mid ex,
    remove_underscores s = sg ++ ch "0" :: mid ++ ex
    /\ sign_token sg neg
    /\ (mid = []
        \/ exists sep frac,
             mid = sep :: frac /\ (sep = ch "." \/ sep = ch ",")
             /\ Forall is_digit frac)
    /\ (ex = []
        \/ exists e sg2 neg2 ds,
             ex = e :: sg2 ++ ds /\ (e = ch "E" \/ e = ch "e")
             /\ sign_token sg2 neg2 /\ Forall is_digit ds /\ ds <> []).

(** The fraction [n / d], for a positive [d], rounded to the nearest
    integer, an exact half going to the even neighbour. *)
Definition round_half_even (n d : Z) : Z :=
  let q := n / d in
  let r := n mod d in
  if 2 * r <? d then q
  else if d <? 2 * r then q + 1
  else if Z.even q then q else q + 1.

(** The same with an exact half going up. *)
Definition round_half_up (n d : Z) : Z :=
  if 2 * (n mod d) <? d then n / d else n / d + 1.

(** * Properties *)

(** ** Rendering with both exponent flags *)

Lemma land_pow2_cases (o k : Z) :
  0 <= k -> Z.land o (2 ^ k) = 0 \/ Z.land o (2 ^ k) = 2 ^ k.
Proof.
  intros Hk. destruct (Z.testbit o k) eqn:E; [right | left];
    apply Z.bits_inj'; intros n Hn; rewrite Z.land_spec, Z.pow2_bits_eqb by lia.
  - destruct (Z.eqb_spec k n); subst; rewrite ?E; simpl; auto using andb_false_r.
  - rewrite Z.bits_0. destruct (Z.eqb_spec k n); subst; rewrite ?E; simpl; auto using andb_false_r.
Qed.

Lemma has_both_flags (o : Z) :
  has_flag o RENDER_NUMBER_FXX__EXPONENT_ABSENT = true ->
  has_flag o RENDER_NUMBER_FXX__EXPONENT_PRESENT = true ->
  Z.land o both_exponent_flags = both_exponent_flags.
Proof.
  unfold has_flag, both_exponent_flags, RENDER_NUMBER_FXX__EXPONENT_ABSENT,
    RENDER_NUMBER_FXX__EXPONENT_PRESENT.
  intros Ha Hp. rewrite Z.land_lor_distr_r.
  apply negb_true_iff, Z.eqb_neq in Ha, Hp.
  destruct (land_pow2_cases o 9) as [H|H]; [lia | change (2 ^ 9) with 0x200 in H; congruence | ].
  destruct (land_pow2_cases o 10) as [H'|H']; [lia | change (2 ^ 10) with 0x400 in H'; congruence | ].
  change (2 ^ 9) with 0x200 in H. change (2 ^ 10) with 0x400 in H'.
  rewrite H, H'. reflexivity.
Qed.

Lemma has_flag_ldiff (o c f : Z) :
  Z.land (Z.lnot c) f = f -> has_flag (Z.ldiff o c) f = has_flag o f.
Proof.
  intros H. unfold has_flag. rewrite Z.ldiff_land, <- Z.land_assoc, H. reflexivity.
Qed.

Lemma put_sign_flags h o o' st :
  has_flag o' RENDER_NUMBER_XXX__LEADING_PLUS_SIGN
  = has_flag o RENDER_NUMBER_XXX__LEADING_PLUS_SIGN ->
  put_sign h o' st = put_sign h o st.
Proof. intros H. unfold put_sign. rewrite H. reflexivity. Qed.

Section SameFlags.
Variables o o' : Z.
Hypothesis Hplus :
  has_flag o' RENDER_NUMBER_XXX__LEADING_PLUS_SIGN
  = has_flag o RENDER_NUMBER_XXX__LEADING_PLUS_SIGN.
Hypothesis Halign :
  has_flag o' RENDER_NUMBER_XXX__ALIGN_RIGHT
  = has_flag o RENDER_NUMBER_XXX__ALIGN_RIGHT.
Hypothesis Hcomma :
  has_flag o' RENDER_NUMBER_FXX__DECIMAL_SEPARATOR_IS_A_COMMA
  = has_flag o RENDER_NUMBER_FXX__DECIMAL_SEPARATOR_IS_A_COMMA.

Lemma render_exponent_absent_flags dst h p :
  high_prec_dec__render_exponent_absent dst h p o'
  = high_prec_dec__render_exponent_absent dst h p o.
Proof.
  unfold high_prec_dec__render_exponent_absent, separator.
  rewrite Hplus, Halign, Hcomma.
  rewrite !(put_sign_flags h o o') by exact Hplus. reflexivity.
Qed.

Lemma render_exponent_present_flags dst h p :
  high_prec_dec__render_exponent_present dst h p o'
  = high_prec_dec__render_exponent_present dst h p o.
Proof.
  unfold high_prec_dec__render_exponent_present, separator.
  rewrite Hplus, Halign, Hcomma.
  rewrite !(put_sign_flags h o o') by exact Hplus. reflexivity.
Qed.

Lemma render_inf_flags dst neg : render_inf dst neg o' = render_inf dst neg o.
Proof. unfold render_inf. rewrite Hplus. reflexivity. Qed.
End SameFlags.

(** C3 (amended). With both [EXPONENT_ABSENT] and [EXPONENT_PRESENT] set,
    [render_number_f64] takes neither the "%f" nor the "%e" case of its
    switch: it renders in the general "%g" form, with the same result as
    when neither of the two flags is set. *)
Theorem render_both_flags_is_general (dst : list Z) (x precision options : Z) :
  has_flag options RENDER_NUMBER_FXX__EXPONENT_ABSENT = true ->
  has_flag options RENDER_NUMBER_FXX__EXPONENT_PRESENT = true ->
  render_number_f64 dst x precision options
  = render_number_f64 dst x precision (Z.ldiff options both_exponent_flags).
Proof.
  intros Ha Hp.
  pose proof (has_both_flags options Ha Hp) as Hsw.
  set (o' := Z.ldiff options both_exponent_flags).
  assert (Hsw' : Z.land o' both_exponent_flags = 0).
  { unfold o'. rewrite Z.ldiff_land, <- Z.land_assoc.
    replace (Z.land (Z.lnot both_exponent_flags) both_exponent_flags) with 0 by reflexivity.
    apply Z.land_0_r. }
  assert (Hje : has_flag o' RENDER_NUMBER_FXX__JUST_ENOUGH_PRECISION
                = has_flag options RENDER_NUMBER_FXX__JUST_ENOUGH_PRECISION)
    by (apply has_flag_ldiff; reflexivity).
  assert (Hplus : has_flag o' RENDER_NUMBER_XXX__LEADING_PLUS_SIGN
                = has_flag options RENDER_NUMBER_XXX__LEADING_PLUS_SIGN)
    by (apply has_flag_ldiff; reflexivity).
  assert (Halign : has_flag o' RENDER_NUMBER_XXX__ALIGN_RIGHT
                = has_flag options RENDER_NUMBER_XXX__ALIGN_RIGHT)
    by (apply has_flag_ldiff; reflexivity).
  assert (Hcomma : has_flag o' RENDER_NUMBER_FXX__DECIMAL_SEPARATOR_IS_A_COMMA
                = has_flag options RENDER_NUMBER_FXX__DECIMAL_SEPARATOR_IS_A_COMMA)
    by (apply has_flag_ldiff; reflexivity).
  unfold render_number_f64.
  fold both_exponent_flags. rewrite Hsw, Hsw', Hje.
  rewrite (render_inf_flags options o' Hplus).
  change (both_exponent_flags =? RENDER_NUMBER_FXX__EXPONENT_ABSENT) with false.
  change (both_exponent_flags =? RENDER_NUMBER_FXX__EXPONENT_PRESENT) with false.
  change (0 =? RENDER_NUMBER_FXX__EXPONENT_ABSENT) with false.
  change (0 =? RENDER_NUMBER_FXX__EXPONENT_PRESENT) with false.
  destruct (Z.land (i32 (Z.shiftr x 52)) 2047 =? 2047); [reflexivity | ].
  destruct (Z.land (i32 (Z.shiftr x 52)) 2047 =? 0);
    destruct (has_flag options RENDER_NUMBER_FXX__JUST_ENOUGH_PRECISION);
    cbv beta iota zeta;
    rewrite !(render_exponent_absent_flags options o' Hplus Halign Hcomma),
            !(render_exponent_present_flags options o' Hplus Halign Hcomma);
    reflexivity.
Qed.

Lemma render_both_flags_is_general_witness :
  has_flag 0xE00 RENDER_NUMBER_FXX__EXPONENT_ABSENT = true /\
  has_flag 0xE00 RENDER_NUMBER_FXX__EXPONENT_PRESENT = true /\
  render_number_f64 (buffer 32) f64_1e20 0 0xE00
  = render_number_f64 (buffer 32) f64_1e20 0 (Z.ldiff 0xE00 both_exponent_flags).
Proof.
  split; [reflexivity | split; [reflexivity | ]].
  apply (render_both_flags_is_general (buffer 32) f64_1e20 0 0xE00); reflexivity.
Defined.

(** C3 as stated fails: for 1e20 with just-enough precision, the rendering
    with both flags set is "1e+20", and with [EXPONENT_ABSENT] alone it is
    the fixed point form "100000000000000000000". *)
Lemma render_both_flags_not_fixed_point :
  has_flag 0xE00 RENDER_NUMBER_FXX__EXPONENT_ABSENT = true /\
  has_flag 0xE00 RENDER_NUMBER_FXX__EXPONENT_PRESENT = true /\
  rendered (render_number_f64 (buffer 32) f64_1e20 0 0xE00)
    = bytes_of_string "1e+20" /\
  rendered (render_number_f64 (buffer 32) f64_1e20 0 0xA00)
    = bytes_of_string "100000000000000000000" /\
  render_number_f64 (buffer 32) f64_1e20 0 0xE00
    <> render_number_f64 (buffer 32) f64_1e20 0 0xA00.
Proof.
  repeat split; try reflexivity.
  vm_compute. discriminate.
Qed.

(** ** NaN *)

Lemma skip_underscores_app (us p : list Z) :
  all_underscores us -> skip_underscores (us ++ p) = skip_underscores p.
Proof.
  induction 1 as [|c us Hc _ IH]; [reflexivity | ].
  subst c. simpl. exact IH.
Qed.

Lemma skip_underscores_all (us : list Z) :
  all_underscores us -> skip_underscores us = [].
Proof.
  intros H. rewrite <- (app_nil_r us), skip_underscores_app by exact H. reflexivity.
Qed.

Lemma skip_underscores_cons (c : Z) (p : list Z) :
  c <> ch "_" -> skip_underscores (c :: p) = c :: p.
Proof. intros H. simpl. apply Z.eqb_neq in H. rewrite H. reflexivity. Qed.

Lemma is_ch2_cases (c : Z) (u l : string) :
  is_ch2 c u l = true -> c = ch u \/ c = ch l.
Proof. unfold is_ch2. intros H. apply orb_true_iff in H. lia. Qed.

(** What the two parsers do on the body of a NaN token. *)
Lemma parse_digits_loop_nan (us l us3 : list Z) st :
  all_underscores us -> nan_letters l ->
  parse_digits_loop (us ++ l ++ us3) st = digits_left st (l ++ us3).
Proof.
  intros Hus (c0 & c1 & c2 & -> & H0 & _).
  induction Hus as [|c us Hc _ IH].
  - destruct st. apply is_ch2_cases in H0. destruct H0; subst c0; reflexivity.
  - subst c. destruct st. exact IH.
Qed.

Lemma parse_special_token_nan (l us3 : list Z) :
  nan_letters l -> all_underscores us3 ->
  parse_special_token (l ++ us3) = Some (true, us3).
Proof.
  intros (c0 & c1 & c2 & -> & H0 & H1 & H2) Hus.
  assert (Hend : at_end_or_underscore us3 = true).
  { destruct Hus as [|c us Hc]; [reflexivity | subst c; reflexivity]. }
  apply is_ch2_cases in H0, H1, H2.
  destruct H0, H1, H2; subst; simpl; rewrite Hend; reflexivity.
Qed.

Lemma nan_letters_head (l p : list Z) :
  nan_letters l -> exists c q, l ++ p = c :: q /\ c <> ch "_" /\ c <> ch "+" /\ c <> ch "-".
Proof.
  intros (c0 & c1 & c2 & -> & H0 & _). exists c0, (c1 :: c2 :: p).
  apply is_ch2_cases in H0. destruct H0; subst; repeat split; discriminate.
Qed.

Lemma parse_number_f64_nan (s : list Z) (neg : bool) :
  nan_input s neg ->
  parse_number_f64 s
  = mk_result_f64 None (if neg then f64_nan_negative else f64_nan_positive).
Proof.
  intros (us1 & sg & us2 & l & us3 & -> & H1 & Hsg & H2 & Hl & H3).
  destruct (nan_letters_head l us3 Hl) as (c & q & Hcq & Hc1 & Hc2 & Hc3).
  assert (Hskip : skip_underscores (us2 ++ l ++ us3) = l ++ us3).
  { rewrite skip_underscores_app by exact H2. rewrite Hcq.
    apply skip_underscores_cons, Hc1. }
  assert (Hspecial :
    parse_number_f64_special (us1 ++ sg ++ us2 ++ l ++ us3) (Some error__bad_argument)
    = mk_result_f64 None (if neg then f64_nan_negative else f64_nan_positive)).
  { unfold parse_number_f64_special.
    rewrite skip_underscores_app by exact H1.
    destruct Hsg; simpl app.
    - rewrite Hskip, Hcq. apply Z.eqb_neq in Hc2, Hc3. rewrite Hc2, Hc3.
      rewrite <- Hcq, parse_special_token_nan by assumption.
      rewrite skip_underscores_all by exact H3. reflexivity.
    - rewrite skip_underscores_cons by discriminate.
      change (ch "+" =? ch "+") with true. cbv iota. rewrite Hskip.
      rewrite parse_special_token_nan by assumption.
      rewrite skip_underscores_all by exact H3. reflexivity.
    - rewrite skip_underscores_cons by discriminate.
      change (ch "-" =? ch "+") with false. change (ch "-" =? ch "-") with true.
      cbv iota. rewrite Hskip.
      rewrite parse_special_token_nan by assumption.
      rewrite skip_underscores_all by exact H3. reflexivity. }
  assert (Hparse :
    fst (high_prec_dec__parse (Some hpd_stack) (us1 ++ sg ++ us2 ++ l ++ us3))
    = Some error__bad_argument).
  { unfold high_prec_dec__parse.
    rewrite skip_underscores_app by exact H1.
    destruct Hsg; simpl app.
    - rewrite Hskip, Hcq. apply Z.eqb_neq in Hc2, Hc3. rewrite Hc2, Hc3.
      rewrite <- Hcq.
      rewrite (parse_digits_loop_nan [] l us3) by (assumption || constructor).
      reflexivity.
    - rewrite skip_underscores_cons by discriminate.
      change (ch "+" =? ch "+") with true. cbv iota. rewrite Hskip.
      rewrite (parse_digits_loop_nan [] l us3) by (assumption || constructor).
      reflexivity.
    - rewrite skip_underscores_cons by discriminate.
      change (ch "-" =? ch "+") with false. change (ch "-" =? ch "-") with true.
      cbv iota. rewrite Hskip.
      rewrite (parse_digits_loop_nan [] l us3) by (assumption || constructor).
      reflexivity. }
  unfold parse_number_f64.
  destruct (high_prec_dec__parse (Some hpd_stack) (us1 ++ sg ++ us2 ++ l ++ us3))
    as [st oh]. simpl in Hparse. subst st. exact Hspecial.
Qed.

Lemma parse_number_f64_special_nan_value (s : list Z) (fb : option string) :
  f64_is_nan (result_value (parse_number_f64_special s fb)) = true ->
  result_value (parse_number_f64_special s fb) = f64_nan_positive
  \/ result_value (parse_number_f64_special s fb) = f64_nan_negative.
Proof.
  unfold parse_number_f64_special.
  destruct (skip_underscores s) as [|c p']; [discriminate | ].
  destruct (if c =? ch "+" then (false, skip_underscores p')
            else if c =? ch "-" then (true, skip_underscores p')
            else (false, c :: p')) as [neg p].
  destruct (parse_special_token p) as [[nan q]|]; [ | discriminate].
  destruct (negb (is_nil (skip_underscores q))); [discriminate | ].
  destruct nan, neg; simpl; try discriminate; auto.
Qed.

Lemma land_i32_low (y : Z) : Z.land (i32 y) 0x7FF = Z.land y 0x7FF.
Proof.
  change 0x7FF with (Z.ones 11). rewrite !Z.land_ones by lia.
  unfold i32.
  pose proof (Z.div_mod (y + 2 ^ 31) (2 ^ 32) ltac:(lia)) as H.
  replace ((y + 2 ^ 31) mod 2 ^ 32 - 2 ^ 31)
    with (y + (- (2 ^ 21) * ((y + 2 ^ 31) / 2 ^ 32)) * 2 ^ 11) by lia.
  apply Z_mod_plus_full.
Qed.

Lemma render_nan_bytes (dst : list Z) :
  3 <= slice_len dst ->
  fst (render_nan dst) = 3
  /\ rendered (render_nan dst) = bytes_of_string "NaN".
Proof.
  unfold render_nan, slice_len. intros H.
  destruct (Z.ltb_spec (Z.of_nat (length dst)) 3) as [Hlt|_]; [lia | ].
  destruct dst as [|a [|b [|c dst]]]; simpl in H; try lia.
  split; reflexivity.
Qed.

Lemma render_number_f64_nan (dst : list Z) (x precision options : Z) :
  f64_is_nan x = true ->
  render_number_f64 dst x precision options = render_nan dst.
Proof.
  unfold f64_is_nan, render_number_f64. intros H.
  apply andb_true_iff in H. destruct H as [He Hm].
  rewrite land_i32_low, He, Hm. reflexivity.
Qed.

(** C6 (amended). NaN is parsed to one bit pattern per sign: an input of the
    NaN shape parses, with a null status, to 0x7FFFFFFFFFFFFFFF, and to
    0xFFFFFFFFFFFFFFFF when its sign is a minus; the special token parser
    produces no other NaN. [render_number_f64] writes the three bytes "NaN"
    for every NaN argument, whatever its sign bit, payload, precision or
    options, into any buffer of at least three bytes. *)
Theorem nan_is_canonical_up_to_sign :
  (forall (s : list Z) (neg : bool),
      nan_input s neg ->
      parse_number_f64 s
      = mk_result_f64 None (if neg then f64_nan_negative else f64_nan_positive))
  /\ (forall (s : list Z) (fb : option string),
      f64_is_nan (result_value (parse_number_f64_special s fb)) = true ->
      result_value (parse_number_f64_special s fb) = f64_nan_positive
      \/ result_value (parse_number_f64_special s fb) = f64_nan_negative)
  /\ (forall (dst : list Z) (x precision options : Z),
      f64_is_nan x = true -> 3 <= slice_len dst ->
      fst (render_number_f64 dst x precision options) = 3
      /\ rendered (render_number_f64 dst x precision options)
         = bytes_of_string "NaN").
Proof.
  split; [exact parse_number_f64_nan | split].
  - exact parse_number_f64_special_nan_value.
  - intros dst x precision options Hnan Hlen.
    rewrite render_number_f64_nan by exact Hnan.
    apply render_nan_bytes, Hlen.
Qed.

Lemma nan_input_example : nan_input (bytes_of_string "_-_nAn_") true.
Proof.
  exists [ch "_"], [ch "-"], [ch "_"], (bytes_of_string "nAn"), [ch "_"].
  repeat split; try (repeat constructor).
  exists (ch "n"), (ch "A"), (ch "n"). repeat split.
Qed.

Lemma nan_is_canonical_up_to_sign_witness :
  parse_number_f64 (bytes_of_string "_-_nAn_")
    = mk_result_f64 None f64_nan_negative
  /\ rendered (render_number_f64 (buffer 8) 0xFFF0000000000001 0 0)
     = bytes_of_string "NaN".
Proof.
  destruct nan_is_canonical_up_to_sign as (Hparse & _ & Hrender).
  split.
  - exact (Hparse _ true nan_input_example).
  - apply (Hrender (buffer 8) 0xFFF0000000000001 0 0); [reflexivity | ].
    vm_compute. discriminate.
Defined.

(** C6 as stated fails: "nan" and "-nan" are both accepted as NaN, and they
    parse to two bit patterns. *)
Lemma nan_sign_bit_is_kept :
  parse_number_f64 (bytes_of_string "nan")
    = mk_result_f64 None 0x7FFFFFFFFFFFFFFF
  /\ parse_number_f64 (bytes_of_string "-nan")
    = mk_result_f64 None 0xFFFFFFFFFFFFFFFF
  /\ result_value (parse_number_f64 (bytes_of_string "nan"))
     <> result_value (parse_number_f64 (bytes_of_string "-nan")).
Proof.
  repeat split; try reflexivity. vm_compute. discriminate.
Qed.

(** ** Leading zeroes *)

Lemma parse_digits_loop_second_digit (us rest : list Z) (d : Z) dp trunc ds :
  all_underscores us -> is_digit d ->
  parse_digits_loop (us ++ d :: rest) (mk_pds 0 dp true false false trunc ds)
  = digits_bad (mk_pds 0 dp true false false trunc ds).
Proof.
  intros Hus Hd. induction Hus as [|c us Hc _ IH].
  - unfold is_digit in Hd. cbn [app parse_digits_loop].
    assert (Hv : ch "0" = 48 /\ ch "9" = 57 /\ ch "_" = 95 /\ ch "." = 46
                 /\ ch "," = 44) by (repeat split; reflexivity).
    destruct Hv as (V0 & V9 & Vu & Vd & Vc).
    destruct (Z.eqb_spec d (ch "_")); [lia | ].
    destruct (Z.eqb_spec d (ch ".")); [lia | ].
    destruct (Z.eqb_spec d (ch ",")); [lia | ]. cbn [orb negb andb].
    destruct (Z.eqb_spec (ch "0") d); [reflexivity | ].
    destruct (Z.ltb_spec (ch "0") d); [ | lia].
    destruct (Z.leb_spec d (ch "9")); [reflexivity | lia].
  - subst c. exact IH.
Qed.

Lemma parse_digits_loop_leading_zero (us rest : list Z) (d : Z) trunc ds :
  all_underscores us -> is_digit d ->
  parse_digits_loop (ch "0" :: us ++ d :: rest)
    (mk_pds 0 0 false false false trunc ds)
  = digits_bad (mk_pds 0 (i32 (0 - 1)) true false false trunc ds).
Proof.
  intros Hus Hd. cbn [parse_digits_loop].
  change (ch "0" =? ch "_") with false.
  change ((ch "0" =? ch ".") || (ch "0" =? ch ",")) with false.
  change (ch "0" =? ch "0") with true. cbv iota.
  change (negb false && negb false && false) with false.
  change (0 =? 0) with true. cbv iota.
  apply parse_digits_loop_second_digit; assumption.
Qed.

Lemma parse_number_f64_leading_zero (s : list Z) :
  leading_zero_input s ->
  parse_number_f64 s = mk_result_f64 (Some error__bad_argument) 0.
Proof.
  intros (us1 & sg & neg & us2 & us & d & rest & -> & H1 & Hsg & H2 & Hus & Hd).
  simpl app.
  assert (Hskip : forall q, skip_underscores (us2 ++ ch "0" :: q) = ch "0" :: q).
  { intros q. rewrite skip_underscores_app by exact H2.
    apply skip_underscores_cons. discriminate. }
  assert (Hspecial :
    parse_number_f64_special (us1 ++ sg ++ us2 ++ ch "0" :: us ++ d :: rest)
      (Some error__bad_argument)
    = mk_result_f64 (Some error__bad_argument) 0).
  { unfold parse_number_f64_special.
    rewrite skip_underscores_app by exact H1.
    destruct Hsg; simpl app.
    - rewrite Hskip. reflexivity.
    - rewrite skip_underscores_cons by discriminate.
      change (ch "+" =? ch "+") with true. cbv iota. rewrite Hskip. reflexivity.
    - rewrite skip_underscores_cons by discriminate.
      change (ch "-" =? ch "+") with false. change (ch "-" =? ch "-") with true.
      cbv iota. rewrite Hskip. reflexivity. }
  assert (Hparse :
    fst (high_prec_dec__parse (Some hpd_stack)
           (us1 ++ sg ++ us2 ++ ch "0" :: us ++ d :: rest))
    = Some error__bad_argument).
  { unfold high_prec_dec__parse.
    rewrite skip_underscores_app by exact H1.
    destruct Hsg; simpl app.
    - rewrite Hskip.
      change (ch "0" =? ch "+") with false. change (ch "0" =? ch "-") with false.
      cbv iota. rewrite parse_digits_loop_leading_zero by assumption. reflexivity.
    - rewrite skip_underscores_cons by discriminate.
      change (ch "+" =? ch "+") with true. cbv iota. rewrite Hskip.
      rewrite parse_digits_loop_leading_zero by assumption. reflexivity.
    - rewrite skip_underscores_cons by discriminate.
      change (ch "-" =? ch "+") with false. change (ch "-" =? ch "-") with true.
      cbv iota. rewrite Hskip.
      rewrite parse_digits_loop_leading_zero by assumption. reflexivity. }
  unfold parse_number_f64.
  destruct (high_prec_dec__parse (Some hpd_stack)
              (us1 ++ sg ++ us2 ++ ch "0" :: us ++ d :: rest)) as [st oh].
  simpl in Hparse. subst st. exact Hspecial.
Qed.

Lemma leading_zero_input_007 : leading_zero_input (bytes_of_string "007").
Proof.
  exists [], [], false, [], [], (ch "0"), [ch "7"].
  repeat split; try constructor; discriminate.
Qed.

Example leading_zero_input_00_5 :
  parse_number_f64 (bytes_of_string "00.5")
  = mk_result_f64 (Some error__bad_argument) 0.
Proof.
  apply parse_number_f64_leading_zero.
  exists [], [], false, [], [], (ch "0"), (bytes_of_string ".5").
  repeat split; try constructor; discriminate.
Qed.

Example leading_zero_input_0644 :
  parse_number_f64 (bytes_of_string "-0_644")
  = mk_result_f64 (Some error__bad_argument) 0.
Proof.
  apply parse_number_f64_leading_zero.
  exists [], [ch "-"], true, [], [ch "_"], (ch "6"), (bytes_of_string "44").
  repeat split; try (repeat constructor); discriminate.
Qed.

(** ** The rounded integer *)

Lemma u64_small (x : Z) : 0 <= x < 2 ^ 64 -> u64 x = x.
Proof. intros H. unfold u64. apply Z.mod_small, H. Qed.

Lemma u32_small (x : Z) : 0 <= x < 2 ^ 32 -> u32 x = x.
Proof. intros H. unfold u32. apply Z.mod_small, H. Qed.

Lemma u8_small (x : Z) : 0 <= x < 2 ^ 8 -> u8 x = x.
Proof. intros H. unfold u8. apply Z.mod_small, H. Qed.

Lemma i32_small (x : Z) : - 2 ^ 31 <= x < 2 ^ 31 -> i32 x = x.
Proof. intros H. unfold i32. rewrite Z.mod_small; lia. Qed.

Lemma hpd_digit_range (h : high_prec_dec) (i : Z) :
  hpd_digits_ok h -> 0 <= hpd_digit h i <= 9.
Proof.
  intros Hok. unfold hpd_digit.
  destruct (Z.leb_spec 0 i); destruct (Z.ltb_spec i (num_digits h)); simpl;
    try lia. apply Hok. lia.
Qed.

Lemma hpd_prefix_value_range (h : high_prec_dec) (n : nat) :
  hpd_digits_ok h -> 0 <= hpd_prefix_value h n < 10 ^ Z.of_nat n.
Proof.
  intros Hok. induction n as [|n IH]; [simpl; lia | ].
  cbn [hpd_prefix_value]. pose proof (hpd_digit_range h (Z.of_nat n) Hok).
  rewrite Nat2Z.inj_succ, Z.pow_succ_r by lia. lia.
Qed.

Lemma rounded_integer_loop_spec (h : high_prec_dec) (cnt : nat) :
  hpd_digits_ok h ->
  forall (i : nat) (n : Z),
    (i + cnt <= 18)%nat ->
    n = hpd_prefix_value h i ->
    rounded_integer_loop cnt (Z.of_nat i) h n = hpd_prefix_value h (i + cnt).
Proof.
  intros Hok. induction cnt as [|cnt IH]; intros i n Hle Hn.
  - rewrite Nat.add_0_r. exact Hn.
  - cbn [rounded_integer_loop].
    replace (Z.of_nat i + 1) with (Z.of_nat (S i)) by lia.
    replace (i + S cnt)%nat with (S i + cnt)%nat by lia.
    apply IH; [lia | ].
    cbn [hpd_prefix_value]. subst n.
    assert (Hd : (if Z.of_nat i <? num_digits h
                  then digit_get (digits h) (Z.of_nat i) else 0)
                 = hpd_digit h (Z.of_nat i)).
    { unfold hpd_digit. destruct (Z.leb_spec 0 (Z.of_nat i)); [reflexivity | lia]. }
    rewrite Hd. apply u64_small.
    pose proof (hpd_prefix_value_range h i Hok).
    pose proof (hpd_digit_range h (Z.of_nat i) Hok).
    assert (10 ^ Z.of_nat i <= 10 ^ 17) by (apply Z.pow_le_mono_r; lia).
    lia.
Qed.

Lemma land_1_odd (d : Z) : negb (Z.land 1 d =? 0) = Z.odd d.
Proof.
  rewrite Z.land_comm. change 1 with (Z.ones 1) at 1.
  rewrite Z.land_ones by lia. change (2 ^ 1) with 2.
  rewrite Zmod_odd. destruct (Z.odd d); reflexivity.
Qed.

Lemma rounded_integer_round_up (h : high_prec_dec) :
  hpd_digits_ok h -> 0 <= decimal_point h <= 18 ->
  (let dp := decimal_point h in
   let round_up := false in
   if dp <? num_digits h then
     let round_up := 5 <=? digit_get (digits h) dp in
     if (digit_get (digits h) dp =? 5) && (u32 (dp + 1) =? num_digits h) then
       truncated h
       || ((0 <? dp) && negb (Z.land 1 (digit_get (digits h) (dp - 1)) =? 0))
     else round_up
   else round_up)
  = hpd_rounds_up h (decimal_point h).
Proof.
  intros Hok Hdp. cbv zeta. unfold hpd_rounds_up.
  destruct (Z.ltb_spec (decimal_point h) (num_digits h)) as [Hlt|Hge]; [ | reflexivity].
  assert (Hd : hpd_digit h (decimal_point h) = digit_get (digits h) (decimal_point h)).
  { unfold hpd_digit. destruct (Z.leb_spec 0 (decimal_point h)); [ | lia].
    destruct (Z.ltb_spec (decimal_point h) (num_digits h)); [reflexivity | lia]. }
  rewrite Hd. rewrite u32_small by lia.
  set (d := digit_get (digits h) (decimal_point h)).
  destruct (Z.eqb_spec d 5) as [E5|N5].
  - rewrite E5. change (5 <? 5) with false. cbn [andb].
    destruct (Z.eqb_spec (decimal_point h + 1) (num_digits h)) as [Elast|Nlast];
      [ | reflexivity].
    f_equal. rewrite land_1_odd.
    destruct (Z.ltb_spec 0 (decimal_point h)) as [Hpos|Hzero]; cbn [andb].
    + unfold hpd_digit.
      destruct (Z.leb_spec 0 (decimal_point h - 1)); [ | lia].
      destruct (Z.ltb_spec (decimal_point h - 1) (num_digits h)); [reflexivity | lia].
    + unfold hpd_digit.
      destruct (Z.leb_spec 0 (decimal_point h - 1)); [lia | reflexivity].
  - cbn [andb].
    destruct (Z.leb_spec 5 d); destruct (Z.ltb_spec d 5); destruct (Z.ltb_spec 5 d);
      try reflexivity; lia.
Qed.

(** [rounded_integer] in terms of the digits: 0 for a decimal without
    digits or with a negative decimal point, [UINT64_MAX] for a decimal
    point above 18, and otherwise the first [decimal_point] digits read as
    an integer (without any wrap around), plus one as the digit after them
    tells. *)
Lemma rounded_integer_prefix (h : high_prec_dec) :
  hpd_digits_ok h ->
  ((num_digits h = 0 \/ decimal_point h < 0) ->
     high_prec_dec__rounded_integer h = 0)
  /\ (num_digits h <> 0 -> 18 < decimal_point h ->
     high_prec_dec__rounded_integer h = UINT64_MAX)
  /\ (num_digits h <> 0 -> 0 <= decimal_point h <= 18 ->
     high_prec_dec__rounded_integer h
     = hpd_prefix_value h (Z.to_nat (decimal_point h))
       + (if hpd_rounds_up h (decimal_point h) then 1 else 0)).
Proof.
  intros Hok. unfold high_prec_dec__rounded_integer. repeat split.
  - intros [Hz|Hneg].
    + rewrite Hz. reflexivity.
    + destruct (Z.ltb_spec (decimal_point h) 0); [ | lia].
      rewrite orb_true_r. reflexivity.
  - intros Hnz Hbig.
    destruct (Z.eqb_spec (num_digits h) 0); [contradiction | ].
    destruct (Z.ltb_spec (decimal_point h) 0); [lia | ]. cbn [orb].
    destruct (Z.ltb_spec 18 (decimal_point h)); [reflexivity | lia].
  - intros Hnz Hdp.
    destruct (Z.eqb_spec (num_digits h) 0); [contradiction | ].
    destruct (Z.ltb_spec (decimal_point h) 0); [lia | ]. cbn [orb].
    destruct (Z.ltb_spec 18 (decimal_point h)); [lia | ].
    rewrite (u32_small (decimal_point h)) by lia.
    pose proof (rounded_integer_round_up h Hok Hdp) as Hup. cbv zeta in Hup.
    cbv zeta. rewrite Hup.
    pose proof (rounded_integer_loop_spec h (Z.to_nat (decimal_point h)) Hok
                  0%nat 0 ltac:(lia) eq_refl) as Hloop.
    change (Z.of_nat 0) with 0 in Hloop. cbn [Nat.add] in Hloop. rewrite Hloop.
    destruct (hpd_rounds_up h (decimal_point h)); [ | lia].
    apply u64_small.
    pose proof (hpd_prefix_value_range h (Z.to_nat (decimal_point h)) Hok).
    assert (10 ^ Z.of_nat (Z.to_nat (decimal_point h)) <= 10 ^ 18)
      by (apply Z.pow_le_mono_r; lia).
    lia.
Qed.

(** C4 as stated fails at a decimal point of zero: 0.6 has
    [decimal_point = 0] and rounds to 1, not to 0. *)
Lemma rounded_integer_at_decimal_point_zero :
  let h := mk_hpd 1 0 false false [6] in
  hpd_inv h /\ decimal_point h <= 0
  /\ high_prec_dec__rounded_integer h = 1
  /\ high_prec_dec__rounded_integer h <> 0.
Proof.
  intros h. split; [split | split; [ | split]].
  - right. vm_compute. discriminate.
  - intros i Hi. simpl in Hi. assert (i = 0) as -> by lia.
    vm_compute. split; discriminate.
  - simpl. lia.
  - reflexivity.
  - vm_compute. discriminate.
Qed.

(** ** Multiplication by a power of ten *)

Lemma powers_of_10_words :
  Forall (fun w => 0 <= w < 2 ^ 32) powers_of_10.
Proof.
  apply Forall_forall. intros w Hw.
  assert (H : forallb (fun w => (0 <=? w) && (w <? 2 ^ 32)) powers_of_10 = true)
    by (vm_compute; reflexivity).
  rewrite forallb_forall in H. specialize (H w).
  rewrite <- list_elem_of_In in H. specialize (H Hw).
  apply andb_true_iff in H. lia.
Qed.

Lemma digit_get_Forall (P : Z -> Prop) (l : list Z) (i : Z) :
  Forall P l -> P 0 -> P (digit_get l i).
Proof.
  intros Hl H0. unfold digit_get.
  destruct (l !! Z.to_nat i) as [w|] eqn:E; [ | exact H0].
  simpl. eapply Forall_lookup_1; eauto.
Qed.

Lemma pow10_row_mantissa_range (r : Z) : 0 <= pow10_row_mantissa r < 2 ^ 64.
Proof.
  unfold pow10_row_mantissa.
  pose proof (digit_get_Forall _ _ (5 * r + 2) powers_of_10_words ltac:(cbv beta; lia)) as H2.
  pose proof (digit_get_Forall _ _ (5 * r + 3) powers_of_10_words ltac:(cbv beta; lia)) as H3.
  simpl in H2, H3.
  set (a := digit_get powers_of_10 (5 * r + 2)) in *.
  set (b := digit_get powers_of_10 (5 * r + 3)) in *.
  assert (Hb : 0 <= Z.shiftl b 32 < 2 ^ 64) by (rewrite Z.shiftl_mul_pow2; lia).
  split.
  - apply Z.lor_nonneg. lia.
  - destruct (Z.eq_dec (Z.lor a (Z.shiftl b 32)) 0) as [E|N]; [rewrite E; lia | ].
    apply Z.log2_lt_pow2; [pose proof (proj2 (Z.lor_nonneg a (Z.shiftl b 32))); lia | ].
    rewrite Z.log2_lor by lia.
    apply Z.max_lub_lt.
    + destruct (Z.eq_dec a 0) as [->|]; [simpl; lia | ].
      apply Z.log2_lt_pow2; lia.
    + destruct (Z.eq_dec (Z.shiftl b 32) 0) as [->|]; [simpl; lia | ].
      apply Z.log2_lt_pow2; lia.
Qed.

Lemma pow10_row_exp2_range (r : Z) : 0 <= pow10_row_exp2 r < 2 ^ 32.
Proof.
  unfold pow10_row_exp2.
  exact (digit_get_Forall _ _ (5 * r + 4) powers_of_10_words ltac:(cbv beta; lia)).
Qed.

Lemma i32_mod (x : Z) : exists k, i32 x = x + k * 2 ^ 32.
Proof.
  unfold i32. exists (- ((x + 2 ^ 31) / 2 ^ 32)).
  pose proof (Z.div_mod (x + 2 ^ 31) (2 ^ 32) ltac:(lia)). lia.
Qed.

Lemma i32_range (x : Z) : - 2 ^ 31 <= i32 x < 2 ^ 31.
Proof. unfold i32. pose proof (Z.mod_pos_bound (x + 2 ^ 31) (2 ^ 32) ltac:(lia)). lia. Qed.

Lemma i32_congr (x y k : Z) : x = y + k * 2 ^ 32 -> i32 x = i32 y.
Proof.
  intros ->. unfold i32.
  replace (y + k * 2 ^ 32 + 2 ^ 31) with (y + 2 ^ 31 + k * 2 ^ 32) by lia.
  rewrite Z_mod_plus_full. reflexivity.
Qed.

Lemma multiply_u64_hi_bound (x y : Z) :
  0 <= x < 2 ^ 64 -> 0 <= y < 2 ^ 64 ->
  0 <= fst (multiply_u64 x y) <= 2 ^ 64 - 2
  /\ 0 <= Z.shiftr (snd (multiply_u64 x y)) 63 <= 1.
Proof.
  intros Hx Hy. unfold multiply_u64. cbn [fst snd].
  rewrite !Z.shiftr_div_pow2 by lia. split.
  - split; [apply Z.div_pos; nia | ].
    assert (x * y <= (2 ^ 64 - 1) * (2 ^ 64 - 1)) by nia.
    assert (x * y < (2 ^ 64 - 1) * 2 ^ 64) by lia.
    assert (x * y / 2 ^ 64 < 2 ^ 64 - 1) by (apply Z.div_lt_upper_bound; lia).
    lia.
  - unfold u64. pose proof (Z.mod_pos_bound (x * y) (2 ^ 64) ltac:(lia)).
    split; [apply Z.div_pos; lia | ].
    assert ((x * y) mod 2 ^ 64 / 2 ^ 63 < 2) by (apply Z.div_lt_upper_bound; lia).
    lia.
Qed.

(** C8. For a normalized, non-zero [m] and any of the 637 rows of the
    table, the high half of the 128-bit product is at most [2^64 - 2], so
    the rounded mantissa [hi + (lo >> 63)] is stored without wrap around;
    and the new exponent is the 32-bit value of
    [m.exp2 + p_exp2 + 128 - 1214], which is that sum itself whenever the
    sum is an [int32_t]. *)
Theorem mul_pow_10_no_overflow (m : medium_prec_bin) (r : Z) :
  mpb_normalized m -> 0 <= r < 637 ->
  let hi := fst (multiply_u64 (mantissa m) (pow10_row_mantissa r)) in
  let lo := snd (multiply_u64 (mantissa m) (pow10_row_mantissa r)) in
  let m' := medium_prec_bin__mul_pow_10 m (5 * r) in
  hi <= 2 ^ 64 - 2
  /\ mantissa m' = hi + Z.shiftr lo 63
  /\ mantissa m' < 2 ^ 64
  /\ exp2 m' = i32 (exp2 m + pow10_row_exp2 r + 128 - 1214)
  /\ (INT32_MIN <= exp2 m + pow10_row_exp2 r + 128 - 1214 <= INT32_MAX ->
      exp2 m' = exp2 m + pow10_row_exp2 r + 128 - 1214).
Proof.
  intros Hm Hr hi lo m'.
  assert (Hm' : 0 <= mantissa m < 2 ^ 64) by (unfold mpb_normalized in Hm; lia).
  destruct (multiply_u64_hi_bound (mantissa m) (pow10_row_mantissa r) Hm'
              (pow10_row_mantissa_range r)) as [Hhi Hlo].
  fold hi in Hhi. fold lo in Hlo.
  assert (Hman : mantissa m' = hi + Z.shiftr lo 63).
  { unfold m', medium_prec_bin__mul_pow_10. fold (pow10_row_mantissa r).
    subst hi lo. unfold multiply_u64 in *. cbn [mantissa fst snd] in *.
    apply u64_small. lia. }
  assert (Hexp : exp2 m' = i32 (exp2 m + pow10_row_exp2 r + 128 - 1214)).
  { unfold m', medium_prec_bin__mul_pow_10. fold (pow10_row_mantissa r).
    fold (pow10_row_exp2 r). unfold multiply_u64. cbn [exp2].
    destruct (i32_mod (pow10_row_exp2 r)) as [k1 E1].
    destruct (i32_mod (exp2 m + i32 (pow10_row_exp2 r))) as [k2 E2].
    destruct (i32_mod (i32 (exp2 m + i32 (pow10_row_exp2 r)) + 128)) as [k3 E3].
    apply (i32_congr _ _ (k1 + k2 + k3)). lia. }
  repeat split; try assumption; try lia.
  intros Hrange. rewrite Hexp. apply i32_small.
  unfold INT32_MIN, INT32_MAX in Hrange. lia.
Qed.

Lemma mul_pow_10_no_overflow_witness :
  let m := mk_mpb (2 ^ 64 - 1) (-63) in
  mpb_normalized m /\ 0 <= 326 < 637
  /\ fst (multiply_u64 (mantissa m) (pow10_row_mantissa 326)) <= 2 ^ 64 - 2
  /\ exp2 (medium_prec_bin__mul_pow_10 m (5 * 326))
     = exp2 m + pow10_row_exp2 326 + 128 - 1214.
Proof.
  intros m.
  assert (Hm : mpb_normalized m) by (unfold mpb_normalized, m; simpl; lia).
  split; [exact Hm | split; [lia | ]].
  destruct (mul_pow_10_no_overflow m 326 Hm ltac:(lia)) as (H1 & _ & _ & _ & H5).
  split; [exact H1 | ].
  apply H5. vm_compute. split; discriminate.
Defined.

(** ** The new digits of a left shift *)

(** The table holds, for every shift from 1 to 60, the decimal digits of the
    power of five, and the number of decimal digits of the power of two. *)
Lemma pow5_table_digits_ok (s : Z) :
  1 <= s <= 60 ->
  pow5_table_digits s = decimal_digits (5 ^ s)
  /\ lshift_max_new_digits s = Z.of_nat (length (decimal_digits (2 ^ s)))
  /\ 1 <= lshift_max_new_digits s <= 19
  /\ u32 (Z.land 0x7FF (digit_get hpd_left_shift (s + 1))
          - Z.land 0x7FF (digit_get hpd_left_shift s))
     = Z.of_nat (length (pow5_table_digits s)).
Proof.
  intros Hs.
  assert (H : forallb (fun n : nat =>
                let s := Z.of_nat n + 1 in
                bool_decide (pow5_table_digits s = decimal_digits (5 ^ s))
                && (lshift_max_new_digits s
                    =? Z.of_nat (length (decimal_digits (2 ^ s))))
                && (1 <=? lshift_max_new_digits s)
                && (lshift_max_new_digits s <=? 19)
                && (u32 (Z.land 0x7FF (digit_get hpd_left_shift (s + 1))
                         - Z.land 0x7FF (digit_get hpd_left_shift s))
                    =? Z.of_nat (length (pow5_table_digits s))))
              (seq 0 60) = true) by (vm_compute; reflexivity).
  rewrite forallb_forall in H. specialize (H (Z.to_nat (s - 1))).
  rewrite <- list_elem_of_In, elem_of_seq in H.
  specialize (H ltac:(lia)). cbv zeta in H.
  replace (Z.of_nat (Z.to_nat (s - 1)) + 1) with s in H by lia.
  apply andb_true_iff in H. destruct H as [H H5].
  apply andb_true_iff in H. destruct H as [H H4].
  apply andb_true_iff in H. destruct H as [H H3].
  apply andb_true_iff in H. destruct H as [H1 H2].
  apply bool_decide_eq_true in H1.
  repeat split; try assumption; lia.
Qed.

Lemma digit_get_lookup (l : list Z) (i : nat) (x : Z) :
  l !! i = Some x -> digit_get l (Z.of_nat i) = x.
Proof. intros H. unfold digit_get. rewrite Nat2Z.id, H. reflexivity. Qed.

Lemma digit_get_take_drop (l : list Z) (a n j : nat) :
  (j < n)%nat ->
  digit_get (take n (drop a l)) (Z.of_nat j) = digit_get l (Z.of_nat (a + j)).
Proof.
  intros Hj. unfold digit_get. rewrite !Nat2Z.id.
  rewrite lookup_take_lt by exact Hj. rewrite lookup_drop. reflexivity.
Qed.

Lemma drop_active_nil (h : high_prec_dec) (i : Z) :
  0 <= i -> num_digits h <= i -> drop (Z.to_nat i) (hpd_active_digits h) = [].
Proof.
  intros Hi Hle. apply drop_ge. unfold hpd_active_digits.
  rewrite length_take. lia.
Qed.

Lemma drop_active_cons (h : high_prec_dec) (i : Z) :
  0 <= i < num_digits h -> num_digits h <= Z.of_nat (length (digits h)) ->
  drop (Z.to_nat i) (hpd_active_digits h)
  = digit_get (digits h) i :: drop (Z.to_nat (i + 1)) (hpd_active_digits h).
Proof.
  intros Hi Hlen. unfold hpd_active_digits, digit_get.
  destruct (lookup_lt_is_Some_2 (digits h) (Z.to_nat i) ltac:(lia)) as [x Hx].
  rewrite Hx. cbn [default].
  replace (Z.to_nat (i + 1)) with (S (Z.to_nat i)) by lia.
  apply drop_S. rewrite lookup_take_lt by lia. exact Hx.
Qed.

(** The comparison loop decides the lexicographic order of the active digits
    and the digits of the power of five. *)
Lemma lshift_num_new_digits_loop_lex (h : high_prec_dec) (a N : Z) :
  num_digits h <= Z.of_nat (length (digits h)) ->
  forall (P : list Z) (i : Z),
    0 <= i ->
    (forall j : nat, (j < length P)%nat ->
       digit_get powers_of_5 (a + i + Z.of_nat j) = digit_get P (Z.of_nat j)) ->
    lshift_num_new_digits_loop (length P) i h a N
    = if lex_lt (drop (Z.to_nat i) (hpd_active_digits h)) P
      then u32 (N - 1) else N.
Proof.
  intros Hlen P. induction P as [|y P IH]; intros i Hi HP.
  - cbn [length lshift_num_new_digits_loop].
    destruct (drop (Z.to_nat i) (hpd_active_digits h)); reflexivity.
  - cbn [length lshift_num_new_digits_loop].
    destruct (Z.leb_spec (num_digits h) i) as [Hge|Hlt].
    + rewrite drop_active_nil by lia. reflexivity.
    + rewrite drop_active_cons by lia. cbn [lex_lt].
      pose proof (HP 0%nat ltac:(simpl; lia)) as H0.
      change (digit_get (y :: P) (Z.of_nat 0)) with y in H0.
      rewrite Z.add_0_r in H0. rewrite H0.
      set (x := digit_get (digits h) i).
      destruct (Z.eqb_spec x y) as [E|NE].
      * rewrite E, Z.ltb_irrefl. apply IH; [lia | ].
        intros j Hj. specialize (HP (S j) ltac:(simpl; lia)).
        replace (a + (i + 1) + Z.of_nat j) with (a + i + Z.of_nat (S j)) by lia.
        rewrite HP. unfold digit_get. rewrite !Nat2Z.id. reflexivity.
      * destruct (Z.ltb_spec x y); [reflexivity | ].
        destruct (Z.ltb_spec y x); [reflexivity | lia].
Qed.

Lemma land_63_small (s : Z) : 0 <= s < 64 -> Z.land s 63 = s.
Proof.
  intros H. change 63 with (Z.ones 6). rewrite Z.land_ones by lia.
  apply Z.mod_small. lia.
Qed.

Lemma lshift_num_new_digits_spec (h : high_prec_dec) (s : Z) :
  num_digits h <= Z.of_nat (length (digits h)) -> 1 <= s <= 60 ->
  high_prec_dec__lshift_num_new_digits h s
  = if lex_lt (hpd_active_digits h) (decimal_digits (5 ^ s))
    then lshift_max_new_digits s - 1 else lshift_max_new_digits s.
Proof.
  intros Hlen Hs. unfold high_prec_dec__lshift_num_new_digits.
  rewrite land_63_small by lia.
  destruct (pow5_table_digits_ok s Hs) as (Hp5 & _ & HN & Hn).
  cbv zeta. rewrite Hn, Nat2Z.id.
  rewrite (lshift_num_new_digits_loop_lex h _ _ Hlen (pow5_table_digits s) 0 ltac:(lia)).
  - change (Z.to_nat 0) with 0%nat. rewrite drop_0, Hp5.
    fold (lshift_max_new_digits s).
    rewrite u32_small by lia. reflexivity.
  - intros j Hj. unfold pow5_table_digits in *. cbv zeta in *.
    set (a := Z.land 2047 (digit_get hpd_left_shift s)) in *.
    set (b := Z.land 2047 (digit_get hpd_left_shift (s + 1))) in *.
    assert (Ha : 0 <= a) by (apply Z.land_nonneg; lia).
    rewrite length_take in Hj.
    rewrite digit_get_take_drop by lia.
    f_equal. lia.
Qed.

(** The two loops of [small_lshift] write digits and the truncated flag
    only. *)

Lemma same_frame_refl h : same_frame h h.
Proof. repeat split. Qed.

Lemma same_frame_trans h1 h2 h3 :
  same_frame h1 h2 -> same_frame h2 h3 -> same_frame h1 h3.
Proof. unfold same_frame. intuition congruence. Qed.

Lemma put_down_frame (h : high_prec_dec) (wx rem : Z) :
  same_frame h
    (if wx <? HPD__DIGITS_PRECISION
     then set_digits h (digit_set (digits h) wx (u8 rem))
     else if 0 <? rem then set_truncated h true else h).
Proof.
  destruct (wx <? HPD__DIGITS_PRECISION); [ | destruct (0 <? rem)];
    repeat split. cbn. unfold digit_set. apply length_insert.
Qed.

Lemma small_lshift_pick_frame (cnt : nat) :
  forall shift wx n h,
    same_frame h (small_lshift_pick cnt shift wx n h).2.
Proof.
  induction cnt as [|rx IH]; intros shift wx n h; [apply same_frame_refl | ].
  cbn [small_lshift_pick]. cbv zeta.
  eapply same_frame_trans; [ | apply IH]. apply put_down_frame.
Qed.

Lemma small_lshift_lead_frame (fuel : nat) :
  forall wx n h, same_frame h (small_lshift_lead fuel wx n h).
Proof.
  induction fuel as [|fuel IH]; intros wx n h; [apply same_frame_refl | ].
  cbn [small_lshift_lead]. destruct (0 <? n); [ | apply same_frame_refl].
  cbv zeta. eapply same_frame_trans; [ | apply IH]. apply put_down_frame.
Qed.

Lemma trim_loop_le (n : nat) (ds : list Z) : (trim_loop n ds <= n)%nat.
Proof.
  induction n as [|n IH]; [reflexivity | ].
  cbn [trim_loop]. destruct (digit_get ds (Z.of_nat n) =? 0); lia.
Qed.

Lemma small_lshift_untrimmed_fields (h : high_prec_dec) (s k : Z) :
  0 <= num_digits h <= HPD__DIGITS_PRECISION ->
  high_prec_dec__lshift_num_new_digits h s = k -> 0 <= k <= 19 ->
  num_digits (small_lshift_untrimmed h s)
    = Z.min (num_digits h + k) HPD__DIGITS_PRECISION
  /\ decimal_point (small_lshift_untrimmed h s) = i32 (decimal_point h + k)
  /\ length (digits (small_lshift_untrimmed h s)) = length (digits h).
Proof.
  intros Hnd Hk Hk'. unfold small_lshift_untrimmed. rewrite Hk.
  pose proof (small_lshift_pick_frame (Z.to_nat (num_digits h)) s
                (u32 (num_digits h - 1 + k)) 0 h) as F1.
  destruct (small_lshift_pick (Z.to_nat (num_digits h)) s
              (u32 (num_digits h - 1 + k)) 0 h) as [[wx n] h1].
  cbn [snd] in F1.
  pose proof (small_lshift_lead_frame 20 wx n h1) as F2.
  set (h2 := small_lshift_lead 20 wx n h1) in *.
  destruct (same_frame_trans _ _ _ F1 F2) as (End & Edp & _ & Elen).
  unfold HPD__DIGITS_PRECISION in *.
  cbv zeta. cbn [num_digits set_num_digits]. rewrite End.
  rewrite (u32_small (num_digits h + k)) by lia.
  rewrite (i32_small k) by lia.
  destruct (Z.ltb_spec 800 (num_digits h + k));
    cbn [num_digits decimal_point digits set_num_digits set_decimal_point];
    rewrite Edp; repeat split; try lia; assumption.
Qed.

(** C5 (amended). For a decimal with digits and a shift [s] from 1 to 60,
    [small_lshift] moves the decimal point up by [k], and sets the number
    of digits to [num_digits + k], clamped at 800, before its closing [trim]
    drops the trailing zero digits. Here [k] is [N s] or [N s - 1], the two
    counts that the table entry for [s] encodes, and it is [N s - 1] exactly
    when the digits of [h] are less than the decimal digits of [5^s] in the
    lexicographic order (also when they are a proper prefix of them). *)
Theorem small_lshift_new_digits (h : high_prec_dec) (s : Z) :
  hpd_wf h -> 0 < num_digits h -> 1 <= s <= 60 ->
  let k := high_prec_dec__lshift_num_new_digits h s in
  k = (if lex_lt (hpd_active_digits h) (decimal_digits (5 ^ s))
       then lshift_max_new_digits s - 1 else lshift_max_new_digits s)
  /\ num_digits (small_lshift_untrimmed h s)
     = Z.min (num_digits h + k) HPD__DIGITS_PRECISION
  /\ high_prec_dec__small_lshift h s
     = high_prec_dec__trim (small_lshift_untrimmed h s)
  /\ num_digits (high_prec_dec__small_lshift h s)
     <= Z.min (num_digits h + k) HPD__DIGITS_PRECISION
  /\ decimal_point (high_prec_dec__small_lshift h s)
     = i32 (decimal_point h + k).
Proof.
  intros [Hlen Hnd] Hpos Hs k.
  assert (Hk : k = (if lex_lt (hpd_active_digits h) (decimal_digits (5 ^ s))
                    then lshift_max_new_digits s - 1
                    else lshift_max_new_digits s)).
  { apply lshift_num_new_digits_spec; [ | exact Hs].
    rewrite Hlen. unfold HPD__DIGITS_PRECISION in Hnd. lia. }
  destruct (pow5_table_digits_ok s Hs) as (_ & _ & HN & _).
  assert (Hk' : 0 <= k <= 19).
  { rewrite Hk. destruct (lex_lt _ _); lia. }
  destruct (small_lshift_untrimmed_fields h s k Hnd eq_refl Hk')
    as (End & Edp & _).
  assert (Esl : high_prec_dec__small_lshift h s
                = high_prec_dec__trim (small_lshift_untrimmed h s)).
  { unfold high_prec_dec__small_lshift.
    destruct (Z.eqb_spec (num_digits h) 0); [lia | reflexivity]. }
  split; [exact Hk | split; [exact End | split; [exact Esl | ]]].
  rewrite Esl. unfold high_prec_dec__trim. cbn [num_digits decimal_point set_num_digits].
  split; [ | exact Edp].
  rewrite <- End.
  pose proof (trim_loop_le (Z.to_nat (num_digits (small_lshift_untrimmed h s)))
                (digits (small_lshift_untrimmed h s))).
  lia.
Qed.

Lemma small_lshift_new_digits_witness :
  let h := high_prec_dec__assign hpd_stack 625 false in
  hpd_wf h /\ 0 < num_digits h /\ 1 <= 4 <= 60
  /\ high_prec_dec__lshift_num_new_digits h 4 = lshift_max_new_digits 4
  /\ decimal_point (high_prec_dec__small_lshift h 4) = 5.
Proof.
  intros h.
  assert (Hwf : hpd_wf h) by (split; [vm_compute; reflexivity | vm_compute; split; discriminate]).
  assert (Hpos : 0 < num_digits h) by (vm_compute; reflexivity).
  split; [exact Hwf | split; [exact Hpos | split; [lia | ]]].
  destruct (small_lshift_new_digits h 4 Hwf Hpos ltac:(lia)) as (Hk & _ & _ & _ & Hdp).
  split; [rewrite Hk; reflexivity | rewrite Hdp; reflexivity].
Defined.

(** C5 as stated fails: 25 shifted left by 2 is 100, which [trim] cuts to
    the single digit 1, so the number of digits goes from 2 to 1 although
    the table's counts for a shift by 2 are 1 and 0. *)
Lemma small_lshift_trims_new_digits :
  let h := high_prec_dec__assign hpd_stack 25 false in
  let h' := high_prec_dec__small_lshift h 2 in
  num_digits h = 2 /\ num_digits h' = 1 /\ lshift_max_new_digits 2 = 1
  /\ ~ (num_digits h' = num_digits h + lshift_max_new_digits 2
        \/ num_digits h' = num_digits h + (lshift_max_new_digits 2 - 1)).
Proof.
  intros h h'. repeat split; try reflexivity.
  vm_compute. intros [H|H]; discriminate.
Qed.

(** ** Two defects of the parser *)

(** C2, evaluated where it fails.

    "1.5e37": the digits 15 fit a double and the exponent 36 is in 23..=37,
    so the exact path multiplies by 1e14, finds the product above 1e15 and
    leaves the block, but with [exp10] already overwritten by 22; the
    approximate path then scales 15 by 1e22. The double returned is 1.5e23;
    the double 0x47A691CA32818ED5 is closer to 15 * 10^36.

    "2251799813685248.75" is halfway between two doubles. On the slow path
    the decimal is 0.25... after the right shifts; its leading digit 2 makes
    the left loop shift by 2, which takes it to 1.0..., outside [1/2, 1).
    The rounded integer then has 54 bits and its low bit is dropped without
    rounding: the tie goes to the odd mantissa 2^52 + 1. *)
Theorem parse_number_f64_not_nearest :
  (parse_number_f64 (bytes_of_string "1.5e37") = mk_result_f64 None f64_1_5e23
   /\ Z.abs (f64_mantissa f64_1_5e37 * 2 ^ f64_exponent f64_1_5e37 - 15 * 10 ^ 36)
      < Z.abs (f64_mantissa f64_1_5e23 * 2 ^ f64_exponent f64_1_5e23
               - 15 * 10 ^ 36))
  /\ (let r := 0x4320000000000001 in
      let c := 0x4320000000000002 in
      parse_number_f64 (bytes_of_string "2251799813685248.75")
        = mk_result_f64 None r
      /\ f64_exponent r = -1 /\ f64_exponent c = -1
      /\ Z.abs (f64_mantissa r * 2 - 225179981368524875 * 4 / 100)
         = Z.abs (f64_mantissa c * 2 - 225179981368524875 * 4 / 100)
      /\ 225179981368524875 * 4 mod 100 = 0
      /\ Z.odd (f64_mantissa r) = true /\ Z.even (f64_mantissa c) = true).
Proof.
  split; [split | repeat split]; vm_compute; reflexivity.
Qed.

(** C1, evaluated where it fails: the double 1.5e37 is rendered, with just
    enough precision, as "1.5e+37" (and in fixed point form as 15 followed
    by 36 zeroes); parsing either gives the double 1.5e23. The defect is
    the overwritten [exp10] of the exact path. *)
Theorem render_parse_round_trip_fails :
  let general := render_number_f64 (buffer 64) f64_1_5e37 0
                   RENDER_NUMBER_FXX__JUST_ENOUGH_PRECISION in
  let fixed := render_number_f64 (buffer 64) f64_1_5e37 0
                 (Z.lor RENDER_NUMBER_FXX__JUST_ENOUGH_PRECISION
                    RENDER_NUMBER_FXX__EXPONENT_ABSENT) in
  rendered general = bytes_of_string "1.5e+37"
  /\ parse_number_f64 (rendered general) = mk_result_f64 None f64_1_5e23
  /\ rendered fixed = bytes_of_string "15000000000000000000000000000000000000"
  /\ parse_number_f64 (rendered fixed) = mk_result_f64 None f64_1_5e23
  /\ f64_1_5e23 <> f64_1_5e37.
Proof.
  repeat split; try (vm_compute; reflexivity).
  vm_compute. discriminate.
Qed.

(** ** The statuses of the parser *)

Lemma high_prec_dec__parse_status (h : high_prec_dec) (s : list Z) :
  fst (high_prec_dec__parse (Some h) s) = None
  \/ fst (high_prec_dec__parse (Some h) s) = Some error__bad_argument.
Proof.
  unfold high_prec_dec__parse, make_status.
  destruct (skip_underscores s) as [|c p']; [right; reflexivity | ].
  destruct (if c =? ch "+" then _ else _) as [h1 p].
  destruct (parse_digits_loop p _)
    as [[nd dp sd snz sdot tr ds] p1|[nd dp sd snz sdot tr ds]];
    [ | right; reflexivity].
  destruct (negb sd); [right; reflexivity | ].
  destruct (parse_exponent p1 _) as [[dp' p2]|]; [ | right; reflexivity].
  destruct (negb (is_nil p2)); [right | left]; reflexivity.
Qed.

Lemma high_prec_dec__parse_receiver (h : high_prec_dec) (s : list Z) :
  exists h', snd (high_prec_dec__parse (Some h) s) = Some h'.
Proof.
  unfold high_prec_dec__parse, make_status.
  destruct (skip_underscores s) as [|c p']; [eexists; reflexivity | ].
  destruct (if c =? ch "+" then _ else _) as [h1 p].
  destruct (parse_digits_loop p _)
    as [[nd dp sd snz sdot tr ds] p1|[nd dp sd snz sdot tr ds]];
    [ | eexists; reflexivity].
  destruct (negb sd); [eexists; reflexivity | ].
  destruct (parse_exponent p1 _) as [[dp' p2]|]; [ | eexists; reflexivity].
  destruct (negb (is_nil p2)); eexists; reflexivity.
Qed.

Lemma parse_number_f64_special_status (s : list Z) (fb : option string) :
  result_status (parse_number_f64_special s fb) = None
  \/ result_status (parse_number_f64_special s fb) = fb.
Proof.
  unfold parse_number_f64_special.
  destruct (skip_underscores s) as [|c p']; [right; reflexivity | ].
  destruct (if c =? ch "+" then _ else _) as [neg p].
  destruct (parse_special_token p) as [[nan q]|]; [ | right; reflexivity].
  destruct (negb (is_nil (skip_underscores q))); [right | left]; reflexivity.
Qed.

Lemma parse_zero_status h : result_status (parse_zero h) = None.
Proof. reflexivity. Qed.

Lemma parse_infinity_status h : result_status (parse_infinity h) = None.
Proof. reflexivity. Qed.

(** The slow path returns a null status on every path through it. *)
Lemma parse_number_f64_slow_status (h : high_prec_dec) :
  result_status (parse_number_f64_slow h) = None.
Proof.
  unfold parse_number_f64_slow. cbv zeta.
  destruct (parse_shift_right_loop _ h 0) as [h1 e1|h1|h1]; try reflexivity.
  destruct (parse_shift_left_loop _ h1 e1) as [h2 e2|h2|h2]; try reflexivity.
  destruct (parse_subnormal_loop _ h2 _) as [h3 e3].
  destruct (2047 <=? e3 - -1023); [reflexivity | ].
  destruct (negb (Z.shiftr _ 53 =? 0)).
  - destruct (2047 <=? _ - -1023); reflexivity.
  - destruct (2047 <=? _ - -1023); reflexivity.
Qed.

(** ** The invariants of a high precision decimal *)

Lemma digit_get_set_same (ds : list Z) (i v : Z) :
  0 <= i < Z.of_nat (length ds) -> digit_get (digit_set ds i v) i = v.
Proof.
  intros H. unfold digit_get, digit_set.
  rewrite list_lookup_insert_eq by lia. reflexivity.
Qed.

Lemma digit_get_set_other (ds : list Z) (i j v : Z) :
  0 <= i -> 0 <= j -> i <> j ->
  digit_get (digit_set ds i v) j = digit_get ds j.
Proof.
  intros Hi Hj Hne. unfold digit_get, digit_set.
  rewrite list_lookup_insert_ne by lia. reflexivity.
Qed.

Lemma length_digit_set (ds : list Z) (i v : Z) :
  length (digit_set ds i v) = length ds.
Proof. apply length_insert. Qed.

Lemma trim_loop_last (n : nat) (ds : list Z) :
  trim_loop n ds = 0%nat
  \/ digit_get ds (Z.of_nat (trim_loop n ds) - 1) <> 0.
Proof.
  induction n as [|n IH]; [left; reflexivity | ].
  cbn [trim_loop]. destruct (Z.eqb_spec (digit_get ds (Z.of_nat n)) 0) as [E|N].
  - exact IH.
  - right. replace (Z.of_nat (S n) - 1) with (Z.of_nat n) by lia. exact N.
Qed.

(** [trim] establishes the invariant on digits that are in range. *)
Lemma trim_inv (h : high_prec_dec) :
  hpd_wf h -> hpd_digits_ok h ->
  hpd_wf (high_prec_dec__trim h) /\ hpd_inv (high_prec_dec__trim h).
Proof.
  intros [Hlen Hnd] Hok. unfold high_prec_dec__trim.
  pose proof (trim_loop_le (Z.to_nat (num_digits h)) (digits h)) as Hle.
  pose proof (trim_loop_last (Z.to_nat (num_digits h)) (digits h)) as Hlast.
  set (n := trim_loop (Z.to_nat (num_digits h)) (digits h)) in *.
  split; [split | split].
  - exact Hlen.
  - cbn. lia.
  - unfold hpd_trimmed. cbn. destruct Hlast as [E|N]; [left; lia | right; exact N].
  - intros i Hi. cbn in *. apply Hok. lia.
Qed.

Lemma round_down_inv (h : high_prec_dec) (n : Z) :
  hpd_wf h -> hpd_inv h ->
  hpd_wf (high_prec_dec__round_down h n)
  /\ hpd_inv (high_prec_dec__round_down h n).
Proof.
  intros Hwf Hinv. unfold high_prec_dec__round_down.
  destruct (Z.ltb_spec n 0) as [Hneg|Hpos]; cbn [orb]; [split; assumption | ].
  destruct (Z.leb_spec (num_digits h) (u32 n)) as [Hge|Hlt]; [split; assumption | ].
  destruct Hwf as [Hlen Hnd]. destruct Hinv as [_ Hok].
  assert (0 <= u32 n) by (unfold u32; apply Z.mod_pos_bound; lia).
  apply trim_inv.
  - split; [exact Hlen | cbn; lia].
  - intros i Hi. cbn in *. apply Hok. lia.
Qed.

Lemma round_up_loop_inv (h : high_prec_dec) (cnt : nat) :
  hpd_wf h -> hpd_digits_ok h -> Z.of_nat cnt < num_digits h ->
  hpd_wf (round_up_loop cnt h) /\ hpd_inv (round_up_loop cnt h).
Proof.
  intros [Hlen Hnd] Hok. unfold HPD__DIGITS_PRECISION in Hnd.
  induction cnt as [|cnt IH]; intros Hcnt.
  - cbn [round_up_loop]. split; [split | split].
    + cbn. rewrite length_digit_set. exact Hlen.
    + cbn. unfold HPD__DIGITS_PRECISION. lia.
    + right. cbn. rewrite digit_get_set_same by lia. discriminate.
    + intros i Hi. cbn in *. assert (i = 0) as -> by lia.
      rewrite digit_get_set_same by lia. lia.
  - cbn [round_up_loop]. cbv zeta.
    destruct (Z.ltb_spec (digit_get (digits h) (Z.of_nat cnt)) 9) as [Hlt|Hge];
      [ | apply IH; lia].
    pose proof (Hok (Z.of_nat cnt) ltac:(lia)) as Hd.
    rewrite (u32_small (Z.of_nat cnt + 1)) by lia.
    rewrite u8_small by lia.
    split; [split | split].
    + cbn. rewrite length_digit_set. exact Hlen.
    + cbn. unfold HPD__DIGITS_PRECISION. lia.
    + right. cbn. replace (Z.of_nat cnt + 1 - 1) with (Z.of_nat cnt) by lia.
      rewrite digit_get_set_same by lia. lia.
    + intros i Hi. cbn in *.
      destruct (Z.eq_dec i (Z.of_nat cnt)) as [->|Hne].
      * rewrite digit_get_set_same by lia. lia.
      * rewrite digit_get_set_other by lia. apply Hok. lia.
Qed.

Lemma round_up_inv (h : high_prec_dec) (n : Z) :
  hpd_wf h -> hpd_inv h -> INT32_MIN <= n <= INT32_MAX ->
  hpd_wf (high_prec_dec__round_up h n)
  /\ hpd_inv (high_prec_dec__round_up h n).
Proof.
  intros Hwf Hinv Hn. unfold high_prec_dec__round_up.
  destruct (Z.ltb_spec n 0) as [Hneg|Hpos]; cbn [orb]; [split; assumption | ].
  destruct (Z.leb_spec (num_digits h) (u32 n)) as [Hge|Hlt]; [split; assumption | ].
  unfold INT32_MIN, INT32_MAX in Hn. rewrite u32_small in Hlt by lia.
  apply round_up_loop_inv; [exact Hwf | apply Hinv | lia].
Qed.

Lemma round_nearest_inv (h : high_prec_dec) (n : Z) :
  hpd_wf h -> hpd_inv h -> INT32_MIN <= n <= INT32_MAX ->
  hpd_wf (high_prec_dec__round_nearest h n)
  /\ hpd_inv (high_prec_dec__round_nearest h n).
Proof.
  intros Hwf Hinv Hn. unfold high_prec_dec__round_nearest.
  destruct ((n <? 0) || (num_digits h <=? u32 n)); [split; assumption | ].
  cbv zeta.
  destruct (if _ && _ then _ else _);
    [apply round_up_inv | apply round_down_inv]; assumption.
Qed.

Lemma i32_int32 (x : Z) : INT32_MIN <= i32 x <= INT32_MAX.
Proof. pose proof (i32_range x). unfold INT32_MIN, INT32_MAX. lia. Qed.

Lemma round_just_enough_loop_inv (cnt : nat) :
  forall ui upper_delta inclusive lower upper h,
    hpd_wf h -> hpd_inv h ->
    hpd_wf (round_just_enough_loop cnt ui upper_delta inclusive lower upper h)
    /\ hpd_inv (round_just_enough_loop cnt ui upper_delta inclusive lower upper h).
Proof.
  induction cnt as [|cnt IH]; intros ui ud inclusive lower upper h Hwf Hinv;
    [split; assumption | ].
  cbn [round_just_enough_loop]. cbv zeta.
  destruct (i32 (num_digits h) <=? _); [split; assumption | ].
  destruct (negb _ || _); destruct (_ || _);
    try (apply round_nearest_inv; auto using i32_int32);
    try (apply round_down_inv; auto);
    try (apply round_up_inv; auto using i32_int32).
  apply IH; assumption.
Qed.

Lemma round_just_enough_inv (h : high_prec_dec) (e m : Z) :
  hpd_wf h -> hpd_inv h ->
  hpd_wf (high_prec_dec__round_just_enough h e m)
  /\ hpd_inv (high_prec_dec__round_just_enough h e m).
Proof.
  intros Hwf Hinv. unfold high_prec_dec__round_just_enough.
  destruct (_ || _); [split; assumption | ].
  cbv zeta. destruct (if _ && _ then _ else _) as [l_exp2 l_mantissa].
  apply round_just_enough_loop_inv; assumption.
Qed.

(** *** [assign] *)

Lemma digit_get_dec (l : list Z) (i : Z) :
  Forall is_dec_digit l -> is_dec_digit (digit_get l i).
Proof. intros H. apply digit_get_Forall; [exact H | unfold is_dec_digit; lia]. Qed.

Lemma digit_set_dec (l : list Z) (i v : Z) :
  Forall is_dec_digit l -> is_dec_digit v -> Forall is_dec_digit (digit_set l i v).
Proof. intros Hl Hv. unfold digit_set. apply Forall_insert; assumption. Qed.

Lemma assign_loop_inv (fuel : nat) :
  forall x ptr buf n,
    0 <= x < 2 ^ 64 -> Forall is_dec_digit buf -> 0 <= n ->
    let '(ptr', buf', n') := assign_loop fuel x ptr buf n in
    Forall is_dec_digit buf' /\ 0 <= n' <= n + Z.of_nat fuel.
Proof.
  induction fuel as [|fuel IH]; intros x ptr buf n Hx Hbuf Hn.
  - cbn. split; [exact Hbuf | lia].
  - cbn [assign_loop]. cbv zeta.
    assert (Hrem : u64 (x - x / 10 * 10) = x mod 10).
    { rewrite u64_small; pose proof (Z.mod_pos_bound x 10 ltac:(lia));
        pose proof (Z.div_mod x 10 ltac:(lia)); lia. }
    rewrite Hrem.
    pose proof (Z.mod_pos_bound x 10 ltac:(lia)) as Hm.
    rewrite (u8_small (x mod 10)) by lia.
    assert (Hbuf' : Forall is_dec_digit (digit_set buf (ptr - 1) (x mod 10)))
      by (apply digit_set_dec; [exact Hbuf | unfold is_dec_digit; lia]).
    assert (Hn' : 0 <= u32 (n + 1) <= n + 1).
    { unfold u32. pose proof (Z.mod_pos_bound (n + 1) (2 ^ 32) ltac:(lia)).
      pose proof (Z.mod_le (n + 1) (2 ^ 32) ltac:(lia) ltac:(lia)). lia. }
    destruct (0 <? x / 10).
    + assert (Hx' : 0 <= x / 10 < 2 ^ 64).
      { split; [apply Z.div_pos; lia | ].
        apply Z.div_lt_upper_bound; lia. }
      specialize (IH (x / 10) (ptr - 1) _ (u32 (n + 1)) Hx' Hbuf' ltac:(lia)).
      destruct (assign_loop fuel (x / 10) (ptr - 1) _ (u32 (n + 1)))
        as [[ptr' buf'] n'].
      destruct IH as [IH1 IH2]. split; [exact IH1 | lia].
    + split; [exact Hbuf' | lia].
Qed.

Lemma memcpy_loop_length (len : nat) :
  forall dst d src s, length (memcpy_loop len dst d src s) = length dst.
Proof.
  induction len as [|len IH]; intros dst d src s; [reflexivity | ].
  cbn [memcpy_loop]. rewrite IH. apply length_digit_set.
Qed.

Lemma memcpy_loop_below (len : nat) :
  forall dst d src s i,
    0 <= i < d ->
    digit_get (memcpy_loop len dst d src s) i = digit_get dst i.
Proof.
  induction len as [|len IH]; intros dst d src s i Hi; [reflexivity | ].
  cbn [memcpy_loop]. rewrite IH by lia.
  apply digit_get_set_other; lia.
Qed.

Lemma memcpy_loop_dec (len : nat) :
  forall dst d src s i,
    Forall is_dec_digit src -> 0 <= d ->
    d <= i < d + Z.of_nat len -> i < Z.of_nat (length dst) ->
    is_dec_digit (digit_get (memcpy_loop len dst d src s) i).
Proof.
  induction len as [|len IH]; intros dst d src s i Hsrc Hd Hi Hlen; [lia | ].
  cbn [memcpy_loop].
  destruct (Z.eq_dec i d) as [->|Hne].
  - rewrite memcpy_loop_below by lia.
    rewrite digit_get_set_same by lia. apply digit_get_dec, Hsrc.
  - apply IH; [exact Hsrc | lia | lia | rewrite length_digit_set; exact Hlen].
Qed.

Lemma replicate_dec (n : nat) : Forall is_dec_digit (replicate n 0).
Proof. apply Forall_replicate. unfold is_dec_digit. lia. Qed.

Lemma assign_inv (h : high_prec_dec) (x : Z) (neg : bool) :
  length (digits h) = 800%nat -> 0 <= x < 2 ^ 64 ->
  hpd_wf (high_prec_dec__assign h x neg)
  /\ hpd_inv (high_prec_dec__assign h x neg).
Proof.
  intros Hlen Hx. unfold high_prec_dec__assign.
  destruct (Z.ltb_spec 0 x) as [Hpos|Hzero].
  - pose proof (assign_loop_inv 20 x 20 (replicate 40 0) 0 Hx
                  (replicate_dec 40) ltac:(lia)) as Hloop.
    destruct (assign_loop 20 x 20 (replicate 40 0) 0) as [[ptr buf] n].
    destruct Hloop as [Hbuf Hn]. change (Z.of_nat 20) with 20 in Hn.
    rewrite (i32_small n) by lia.
    apply trim_inv.
    + split; cbn [digits num_digits]; [rewrite memcpy_loop_length; exact Hlen | ].
      unfold HPD__DIGITS_PRECISION. lia.
    + intros i Hi. cbn [digits num_digits] in *.
      apply (memcpy_loop_dec 20 (digits h) 0 buf ptr i Hbuf); lia.
  - apply trim_inv.
    + split; cbn; [exact Hlen | unfold HPD__DIGITS_PRECISION; lia].
    + intros i Hi. cbn in Hi. lia.
Qed.

(** *** [parse] *)

Lemma pds_ok_push (nd dp : Z) (sd snz sdot tr : bool) (ds : list Z) (v : Z)
    dp' sd' snz' sdot' tr' :
  pds_ok (mk_pds nd dp sd snz sdot tr ds) ->
  nd < HPD__DIGITS_PRECISION -> is_dec_digit v ->
  pds_ok (mk_pds (u32 (nd + 1)) dp' sd' snz' sdot' tr' (digit_set ds nd v)).
Proof.
  unfold pds_ok, HPD__DIGITS_PRECISION. cbn. intros (Hlen & Hnd & Hds) Hlt Hv.
  rewrite u32_small by lia. rewrite length_digit_set.
  split; [exact Hlen | split; [lia | ]].
  intros i Hi. destruct (Z.eq_dec i nd) as [->|Hne].
  - rewrite digit_get_set_same by lia. exact Hv.
  - rewrite digit_get_set_other by lia. apply Hds. lia.
Qed.

Lemma pds_ok_keep (nd dp : Z) (sd snz sdot tr : bool) (ds : list Z)
    dp' sd' snz' sdot' tr' :
  pds_ok (mk_pds nd dp sd snz sdot tr ds) ->
  pds_ok (mk_pds nd dp' sd' snz' sdot' tr' ds).
Proof. unfold pds_ok. cbn. tauto. Qed.

Lemma parse_digits_loop_exit_ok (p : list Z) :
  forall st, pds_ok st -> pds_ok (exit_state (parse_digits_loop p st)).
Proof.
  induction p as [|c p IH]; intros st Hst; [exact Hst | ].
  destruct st as [nd dp sd snz sdot tr ds]. cbn [parse_digits_loop].
  destruct (c =? ch "_"); [apply IH, Hst | ].
  destruct ((c =? ch ".") || (c =? ch ",")).
  { destruct sdot; [exact Hst | ]. apply IH. eapply pds_ok_keep, Hst. }
  destruct (ch "0" =? c).
  { destruct (negb sdot && negb snz && sd); [exact Hst | ].
    destruct (nd =? 0).
    { apply IH. eapply pds_ok_keep, Hst. }
    destruct (Z.ltb_spec nd HPD__DIGITS_PRECISION).
    - apply IH.
      eapply pds_ok_push; [exact Hst | assumption | unfold is_dec_digit; lia].
    - apply IH. eapply pds_ok_keep, Hst. }
  destruct (Z.ltb_spec (ch "0") c) as [H0|H0]; cbn [andb]; [ | exact Hst].
  destruct (Z.leb_spec c (ch "9")) as [H9|H9]; [ | exact Hst].
  destruct (negb sdot && negb snz && sd); [exact Hst | ].
  destruct (Z.ltb_spec nd HPD__DIGITS_PRECISION).
  + apply IH.
    eapply pds_ok_push; [exact Hst | assumption | ].
    change (ch "0") with 48 in *. change (ch "9") with 57 in *.
    rewrite u8_small by lia. unfold is_dec_digit. lia.
  + apply IH. eapply pds_ok_keep, Hst.
Qed.

Lemma parse_digits_loop_ok (p : list Z) :
  forall st st' p',
    pds_ok st -> parse_digits_loop p st = digits_left st' p' -> pds_ok st'.
Proof.
  intros st st' p' Hst Hp.
  pose proof (parse_digits_loop_exit_ok p st Hst) as H.
  rewrite Hp in H. exact H.
Qed.

Lemma parse_digits_loop_bad_ok (p : list Z) :
  forall st st',
    pds_ok st -> parse_digits_loop p st = digits_bad st' -> pds_ok st'.
Proof.
  intros st st' Hst Hp.
  pose proof (parse_digits_loop_exit_ok p st Hst) as H.
  rewrite Hp in H. exact H.
Qed.

Lemma parse_inv (h : high_prec_dec) (s : list Z) :
  length (digits h) = 800%nat ->
  exists h', snd (high_prec_dec__parse (Some h) s) = Some h'
             /\ hpd_wf h' /\ hpd_inv h'.
Proof.
  intros Hlen. unfold high_prec_dec__parse, make_status.
  assert (Hzero : forall neg tr ds,
            length ds = 800%nat ->
            hpd_wf (mk_hpd 0 0 neg tr ds) /\ hpd_inv (mk_hpd 0 0 neg tr ds)).
  { intros neg tr ds Hds. split; [split | split]; cbn.
    - exact Hds.
    - unfold HPD__DIGITS_PRECISION. lia.
    - left. reflexivity.
    - intros i Hi. cbn in Hi. lia. }
  destruct (skip_underscores s) as [|c p'];
    [eexists; split; [reflexivity | apply Hzero, Hlen] | ].
  set (h0 := mk_hpd 0 0 false false (digits h)).
  assert (Hsign : exists neg p,
            (if c =? ch "+" then (h0, skip_underscores p')
             else if c =? ch "-" then (set_negative h0 true, skip_underscores p')
             else (h0, c :: p'))
            = (mk_hpd 0 0 neg false (digits h), p)).
  { destruct (c =? ch "+"); [ | destruct (c =? ch "-")]; eexists; eexists;
      reflexivity. }
  destruct Hsign as (neg & p & ->). cbn [truncated digits].
  assert (Hst0 : pds_ok (mk_pds 0 0 false false false false (digits h))).
  { split; [exact Hlen | split; cbn; [unfold HPD__DIGITS_PRECISION; lia | lia]]. }
  destruct (parse_digits_loop p _) as [st p1|stb] eqn:Eloop.
  2: { pose proof (parse_digits_loop_bad_ok _ _ _ Hst0 Eloop) as (Hds & _).
       destruct stb as [nd dp sd snz sdot tr ds]. cbn in Hds.
       eexists; split; [reflexivity | apply Hzero, Hds]. }
  pose proof (parse_digits_loop_ok _ _ _ _ Hst0 Eloop) as Hst.
  destruct st as [nd dp sd snz sdot tr ds]. destruct Hst as (Hds & Hnd & Hdig).
  cbn in Hds, Hnd, Hdig.
  destruct (negb sd); [eexists; split; [reflexivity | apply Hzero, Hds] | ].
  destruct (parse_exponent p1 _) as [[dp' p2]|];
    [ | eexists; split; [reflexivity | apply Hzero, Hds]].
  destruct (negb (is_nil p2)); [eexists; split; [reflexivity | apply Hzero, Hds] | ].
  eexists; split; [reflexivity | ].
  apply trim_inv.
  - split; [ | destruct (nd =? 0); [ | destruct (dp' <? _); [ | destruct (_ <? dp')]];
               cbn; exact Hnd].
    destruct (nd =? 0); [ | destruct (dp' <? _); [ | destruct (_ <? dp')]];
      cbn; exact Hds.
  - intros i Hi.
    destruct (nd =? 0); [ | destruct (dp' <? _); [ | destruct (_ <? dp')]];
      cbn in *; apply Hdig; exact Hi.
Qed.

(** *** [small_rshift] *)

Lemma shr64_small (n s : Z) : 0 <= s < 64 -> shr64 n s = n / 2 ^ s.
Proof.
  intros H. unfold shr64. rewrite Z.mod_small by lia.
  apply Z.shiftr_div_pow2. lia.
Qed.

Lemma shl64_small (x s : Z) :
  0 <= s < 64 -> 0 <= x * 2 ^ s < 2 ^ 64 -> shl64 x s = x * 2 ^ s.
Proof.
  intros H Hx. unfold shl64. rewrite Z.mod_small by lia.
  rewrite Z.shiftl_mul_pow2 by lia. apply u64_small, Hx.
Qed.

Lemma pow2_le_60 (s : Z) : 0 <= s <= 60 -> 0 < 2 ^ s <= 2 ^ 60.
Proof.
  intros H. split; [apply Z.pow_pos_nonneg; lia | ].
  apply Z.pow_le_mono_r; lia.
Qed.

Section SmallRshift.
Variable s : Z.
Hypothesis Hs : 1 <= s <= 60.

Let B : Z := 10 * 2 ^ s.

Lemma rshift_bound : 0 < 2 ^ s /\ B <= 10 * 2 ^ 60 /\ B < 2 ^ 64.
Proof. unfold B. pose proof (pow2_le_60 s ltac:(lia)). lia. Qed.

Lemma rshift_next (n d : Z) :
  0 <= n -> n / 2 ^ s = 0 -> 0 <= d <= 9 -> 0 <= 10 * n + d < B.
Proof.
  intros Hn Hq Hd. pose proof rshift_bound as (Hp & _).
  apply Z.div_small_iff in Hq; [ | lia]. unfold B. lia.
Qed.

Lemma rshift_digit (n : Z) : 0 <= n < B -> 0 <= n / 2 ^ s <= 9.
Proof.
  intros Hn. pose proof rshift_bound as (Hp & _). unfold B in Hn.
  split; [apply Z.div_pos; lia | ].
  assert (n / 2 ^ s < 10) by (apply Z.div_lt_upper_bound; lia). lia.
Qed.

Lemma rshift_mask : u64 (shl64 1 s - 1) = Z.ones s.
Proof.
  pose proof (pow2_le_60 s ltac:(lia)).
  rewrite shl64_small by lia. rewrite Z.ones_equiv.
  rewrite u64_small by lia. lia.
Qed.

Lemma rshift_mask_next (n d : Z) :
  0 <= d <= 9 -> 0 <= 10 * Z.land n (Z.ones s) + d < B.
Proof.
  intros Hd. rewrite Z.land_ones by lia. pose proof rshift_bound as (Hp & _).
  pose proof (Z.mod_pos_bound n (2 ^ s) Hp). unfold B. lia.
Qed.

Variable h : high_prec_dec.
Hypothesis Hwf : hpd_wf h.
Hypothesis Hok : hpd_digits_ok h.

Lemma small_rshift_pick_inv (cnt : nat) :
  forall rx n,
    0 <= rx -> rx + Z.of_nat cnt = num_digits h -> 0 <= n < B ->
    let '(rx', n') := small_rshift_pick cnt s rx n h in
    rx <= rx' <= num_digits h /\ 0 <= n' < B /\ (rx' = rx -> n' = n)
    /\ (n' / 2 ^ s = 0 -> rx' = num_digits h).
Proof.
  destruct Hwf as [Hlen Hnd]. unfold HPD__DIGITS_PRECISION in Hnd.
  pose proof rshift_bound as (Hp & HB & HB').
  induction cnt as [|cnt IH]; intros rx n Hrx Hcnt Hn.
  - cbn. repeat split; lia.
  - cbn [small_rshift_pick]. rewrite shr64_small by lia.
    destruct (Z.eqb_spec (n / 2 ^ s) 0) as [Hq|Hq].
    + pose proof (Hok rx ltac:(lia)) as Hd.
      pose proof (rshift_next n _ ltac:(lia) Hq Hd) as Hn'.
      rewrite (u32_small (rx + 1)) by lia.
      rewrite u64_small by lia.
      specialize (IH (rx + 1) _ ltac:(lia) ltac:(lia) Hn').
      destruct (small_rshift_pick cnt s (rx + 1) _ h) as [rx' n'].
      destruct IH as (H1 & H2 & H3 & H4). repeat split; try lia; auto.
    + repeat split; try lia.
Qed.

Lemma small_rshift_zeroes_inv (fuel : nat) :
  forall rx n,
    0 <= rx -> 0 <= n < B ->
    let '(rx', n') := small_rshift_zeroes fuel s rx n in
    (rx <= rx' \/ 2 ^ 32 <= rx + Z.of_nat fuel) /\ 0 <= rx' /\ 0 <= n' < B.
Proof.
  pose proof rshift_bound as (Hp & HB & HB').
  induction fuel as [|fuel IH]; intros rx n Hrx Hn.
  - cbn. repeat split; lia.
  - cbn [small_rshift_zeroes]. rewrite shr64_small by lia.
    destruct (Z.eqb_spec (n / 2 ^ s) 0) as [Hq|Hq]; [ | repeat split; lia].
    pose proof (rshift_next n 0 ltac:(lia) Hq ltac:(lia)) as Hn'.
    rewrite Z.add_0_r in Hn'. rewrite u64_small by lia.
    assert (Hu : 0 <= u32 (rx + 1)) by (unfold u32; apply Z.mod_pos_bound; lia).
    specialize (IH (u32 (rx + 1)) _ Hu Hn').
    destruct (small_rshift_zeroes fuel s (u32 (rx + 1)) (10 * n)) as [rx' n'].
    destruct IH as (H1 & H2 & H3). split; [ | split; assumption].
    destruct (Z.lt_ge_cases (rx + 1) (2 ^ 32)) as [Hsmall|Hbig]; [ | right; lia].
    rewrite u32_small in H1 by lia. lia.
Qed.

Lemma small_rshift_copy_inv (cnt : nat) :
  forall rx wx n ds,
    0 <= wx < rx -> wx + Z.of_nat cnt <= HPD__DIGITS_PRECISION ->
    (cnt = 0%nat \/ rx + Z.of_nat cnt <= num_digits h) -> 0 <= n < B ->
    length ds = 800%nat ->
    (forall i, 0 <= i < wx -> is_dec_digit (digit_get ds i)) ->
    (forall i, rx <= i < num_digits h -> is_dec_digit (digit_get ds i)) ->
    let '(wx', n', ds') :=
      small_rshift_copy cnt s (Z.ones s) rx wx n ds in
    0 <= wx' <= HPD__DIGITS_PRECISION /\ 0 <= n' < B /\ length ds' = 800%nat
    /\ (forall i, 0 <= i < wx' -> is_dec_digit (digit_get ds' i)).
Proof.
  destruct Hwf as [Hlen Hnd]. unfold HPD__DIGITS_PRECISION in *.
  pose proof rshift_bound as (Hp & HB & HB').
  induction cnt as [|cnt IH]; intros rx wx n ds Hwx Hwx' Hcnt Hn Hds Hlow Hhigh.
  - cbn. split_and!; try lia; assumption.
  - destruct Hcnt as [Hcnt|Hcnt]; [discriminate | ].
    cbn [small_rshift_copy]. cbv zeta. rewrite shr64_small by lia.
    pose proof (rshift_digit n Hn) as Hq.
    pose proof (Hhigh rx ltac:(lia)) as Hd. unfold is_dec_digit in Hd.
    pose proof (rshift_mask_next n _ Hd) as Hn'.
    rewrite (u8_small (n / 2 ^ s)) by lia.
    rewrite (u64_small (10 * Z.land n (Z.ones s) + digit_get ds rx)) by lia.
    rewrite (u32_small (rx + 1)), (u32_small (wx + 1)) by lia.
    apply IH; try lia.
    + rewrite length_digit_set. exact Hds.
    + intros i Hi. destruct (Z.eq_dec i wx) as [->|Hne].
      * rewrite digit_get_set_same by lia. exact Hq.
      * rewrite digit_get_set_other by lia. apply Hlow. lia.
    + intros i Hi. rewrite digit_get_set_other by lia. apply Hhigh. lia.
Qed.

Lemma small_rshift_trail_inv (fuel : nat) :
  forall wx n g,
    0 <= wx <= HPD__DIGITS_PRECISION -> 0 <= n < B ->
    length (digits g) = 800%nat ->
    (forall i, 0 <= i < wx -> is_dec_digit (digit_get (digits g) i)) ->
    let '(wx', g') := small_rshift_trail fuel s (Z.ones s) wx n g in
    0 <= wx' <= HPD__DIGITS_PRECISION /\ length (digits g') = 800%nat
    /\ (forall i, 0 <= i < wx' -> is_dec_digit (digit_get (digits g') i)).
Proof.
  unfold HPD__DIGITS_PRECISION in *.
  pose proof rshift_bound as (Hp & HB & HB').
  induction fuel as [|fuel IH]; intros wx n g Hwx Hn Hlen Hlow.
  - cbn. split_and!; try lia; assumption.
  - cbn [small_rshift_trail].
    destruct (0 <? n); [ | split_and!; try lia; assumption].
    cbv zeta. rewrite shr64_small by lia.
    pose proof (rshift_digit n Hn) as Hq.
    pose proof (rshift_mask_next n 0 ltac:(lia)) as Hn'.
    rewrite Z.add_0_r in Hn'.
    rewrite (u8_small (n / 2 ^ s)) by lia.
    rewrite (u64_small (10 * Z.land n (Z.ones s))) by lia.
    destruct (Z.ltb_spec wx HPD__DIGITS_PRECISION) as [Hlt|Hge];
      unfold HPD__DIGITS_PRECISION in *.
    + rewrite (u32_small (wx + 1)) by lia.
      apply IH; try lia.
      * cbn. rewrite length_digit_set. exact Hlen.
      * intros i Hi. cbn. destruct (Z.eq_dec i wx) as [->|Hne].
        -- rewrite digit_get_set_same by lia. exact Hq.
        -- rewrite digit_get_set_other by lia. apply Hlow. lia.
    + destruct (0 <? n / 2 ^ s); apply IH; try lia; assumption.
Qed.

Lemma small_rshift_tail_inv (rx n dp : Z) :
  0 < rx -> 0 <= n < B ->
  forall wx n1 ds wx' h3,
    small_rshift_copy (Z.to_nat (num_digits h - rx)) s (Z.ones s) rx 0 n
      (digits h) = (wx, n1, ds) ->
    small_rshift_trail 64 s (Z.ones s) wx n1
      (set_digits (set_decimal_point h dp) ds) = (wx', h3) ->
    hpd_wf (high_prec_dec__trim (set_num_digits h3 wx'))
    /\ hpd_inv (high_prec_dec__trim (set_num_digits h3 wx')).
Proof.
  intros Hrx Hn wx n1 ds wx' h3 Ecopy Etrail.
  destruct Hwf as [Hlen Hnd]. unfold HPD__DIGITS_PRECISION in Hnd.
  assert (Hcopy := small_rshift_copy_inv (Z.to_nat (num_digits h - rx))
                    rx 0 n (digits h)).
  rewrite Ecopy in Hcopy.
  destruct Hcopy as (Hwx & Hn1 & Hds & Hlow).
  { lia. }
  { unfold HPD__DIGITS_PRECISION. lia. }
  { destruct (Z.le_gt_cases (num_digits h) rx); [left | right]; lia. }
  { exact Hn. }
  { exact Hlen. }
  { intros i Hi. lia. }
  { intros i Hi. apply Hok. lia. }
  assert (Htrail := small_rshift_trail_inv 64 wx n1
                      (set_digits (set_decimal_point h dp) ds) Hwx Hn1 Hds Hlow).
  rewrite Etrail in Htrail. destruct Htrail as (Hwx' & Hlen3 & Hlow3).
  apply trim_inv.
  - split; [exact Hlen3 | exact Hwx'].
  - intros i Hi. apply Hlow3. exact Hi.
Qed.

Lemma small_rshift_inv :
  hpd_inv h ->
  hpd_wf (high_prec_dec__small_rshift h s)
  /\ hpd_inv (high_prec_dec__small_rshift h s).
Proof.
  intros Hinv. unfold high_prec_dec__small_rshift.
  destruct Hwf as [Hlen Hnd]. unfold HPD__DIGITS_PRECISION in Hnd.
  pose proof rshift_bound as (Hp & HB & HB').
  assert (Hzero : forall ds, length ds = 800%nat ->
            hpd_wf (mk_hpd 0 0 false false ds)
            /\ hpd_inv (mk_hpd 0 0 false false ds)).
  { intros ds Hds. split; [split | split]; cbn.
    - exact Hds.
    - unfold HPD__DIGITS_PRECISION. lia.
    - left. reflexivity.
    - intros i Hi. cbn in Hi. lia. }
  pose proof (small_rshift_pick_inv (Z.to_nat (num_digits h)) 0 0
                ltac:(lia) ltac:(lia) ltac:(lia)) as Hpick.
  destruct (small_rshift_pick (Z.to_nat (num_digits h)) s 0 0 h) as [rx n].
  destruct Hpick as (Hrx & Hn & Hsame & Hend).
  rewrite shr64_small by lia.
  assert (Htail : forall rx' n', 0 < rx' -> 0 <= n' < B ->
    let h1 := set_decimal_point h (i32 (decimal_point h - i32 (rx' - 1))) in
    hpd_wf
      (if decimal_point h1 <? - HPD__DECIMAL_POINT__RANGE
       then mk_hpd 0 0 false false (digits h1)
       else
         let mask := u64 (shl64 1 s - 1) in
         let '(wx, n0, ds) :=
           small_rshift_copy (Z.to_nat (num_digits h1 - rx')) s mask rx' 0 n'
             (digits h1) in
         let h2 := set_digits h1 ds in
         let '(wx0, h3) := small_rshift_trail 64 s mask wx n0 h2 in
         high_prec_dec__trim (set_num_digits h3 wx0))
    /\ hpd_inv
      (if decimal_point h1 <? - HPD__DECIMAL_POINT__RANGE
       then mk_hpd 0 0 false false (digits h1)
       else
         let mask := u64 (shl64 1 s - 1) in
         let '(wx, n0, ds) :=
           small_rshift_copy (Z.to_nat (num_digits h1 - rx')) s mask rx' 0 n'
             (digits h1) in
         let h2 := set_digits h1 ds in
         let '(wx0, h3) := small_rshift_trail 64 s mask wx n0 h2 in
         high_prec_dec__trim (set_num_digits h3 wx0))).
  { intros rx' n' Hrx' Hn' h1.
    destruct (decimal_point h1 <? - HPD__DECIMAL_POINT__RANGE);
      [apply Hzero; exact Hlen | ].
    cbv zeta. rewrite rshift_mask. subst h1.
    cbn [num_digits digits set_decimal_point].
    destruct (small_rshift_copy _ s (Z.ones s) rx' 0 n' (digits h))
      as [[wx n1] ds] eqn:Ecopy.
    destruct (small_rshift_trail 64 s (Z.ones s) wx n1 _) as [wx' h3] eqn:Etrail.
    eapply small_rshift_tail_inv; eauto. }
  destruct (Z.eqb_spec (n / 2 ^ s) 0) as [Hq|Hq]; cbn [andb].
  - destruct (Z.eqb_spec n 0) as [Hn0|Hn0]; [split; [split | ]; assumption | ].
    pose proof (small_rshift_zeroes_inv 64 rx n ltac:(lia) Hn) as Hz.
    destruct (small_rshift_zeroes 64 s rx n) as [rx' n'].
    destruct Hz as (Hrx' & Hrx'0 & Hn').
    apply Htail; [ | exact Hn'].
    assert (rx <> 0) by (intros ->; apply Hn0, Hsame; reflexivity).
    change (Z.of_nat 64) with 64 in Hrx'. lia.
  - apply Htail; [ | exact Hn].
    assert (rx <> 0); [ | lia].
    intros ->. specialize (Hsame eq_refl). subst n. apply Hq. reflexivity.
Qed.
End SmallRshift.

(** *** [small_lshift] *)

Lemma lshift_max_new_digits_pow2 (s : Z) :
  1 <= s <= 60 -> 10 ^ (lshift_max_new_digits s - 1) <= 2 ^ s.
Proof.
  intros Hs.
  assert (H : forallb (fun n : nat =>
                let s := Z.of_nat n + 1 in
                10 ^ (lshift_max_new_digits s - 1) <=? 2 ^ s)
              (seq 0 60) = true) by (vm_compute; reflexivity).
  rewrite forallb_forall in H. specialize (H (Z.to_nat (s - 1))).
  rewrite <- list_elem_of_In, elem_of_seq in H.
  specialize (H ltac:(lia)). cbv zeta in H.
  replace (Z.of_nat (Z.to_nat (s - 1)) + 1) with s in H by lia. lia.
Qed.

Lemma u32_pred (t : Z) : u32 (u32 t - 1) = u32 (t - 1).
Proof. unfold u32. rewrite Zminus_mod_idemp_l. reflexivity. Qed.

Lemma u32_neg (t : Z) : -40 <= t < 0 -> HPD__DIGITS_PRECISION <= u32 t.
Proof.
  intros H. unfold u32, HPD__DIGITS_PRECISION.
  replace t with (t + 2 ^ 32 + (-1) * 2 ^ 32) by lia.
  rewrite Z_mod_plus_full, Z.mod_small; lia.
Qed.

Lemma div10_pow (n e : Z) : 1 <= e -> 10 ^ e <= n -> 10 ^ (e - 1) <= n / 10.
Proof.
  intros He Hn.
  assert (E : 10 ^ e = 10 ^ (e - 1) * 10).
  { replace e with (e - 1 + 1) at 1 by lia.
    rewrite Z.pow_add_r by lia. reflexivity. }
  apply Z.div_le_lower_bound; lia.
Qed.

Section SmallLshift.
Variable s : Z.
Hypothesis Hs : 1 <= s <= 60.
Variable h : high_prec_dec.
Hypothesis Hwf : hpd_wf h.
Hypothesis Hok : hpd_digits_ok h.
Variable k : Z.
Hypothesis Hk : 0 <= k <= 19.

Let top : Z := Z.min (num_digits h + k) HPD__DIGITS_PRECISION.

(** One "put down a digit" step at the position [t]. *)
Lemma put_down_inv (g : high_prec_dec) (t rem : Z) :
  -40 <= t < top -> 0 <= rem <= 9 ->
  length (digits g) = 800%nat ->
  (forall i, 0 <= i <= t -> digit_get (digits g) i = digit_get (digits h) i) ->
  (forall i, 0 <= i -> t < i < top -> is_dec_digit (digit_get (digits g) i)) ->
  let g' := if u32 t <? HPD__DIGITS_PRECISION
            then set_digits g (digit_set (digits g) (u32 t) (u8 rem))
            else if 0 <? rem then set_truncated g true else g in
  length (digits g') = 800%nat
  /\ (forall i, 0 <= i <= t - 1 ->
        digit_get (digits g') i = digit_get (digits h) i)
  /\ (forall i, 0 <= i -> t - 1 < i < top ->
        is_dec_digit (digit_get (digits g') i)).
Proof.
  intros Ht Hrem Hlen Hlow Hhigh. cbv zeta.
  assert (Htop : top <= 800) by (unfold top, HPD__DIGITS_PRECISION; lia).
  destruct (Z.lt_ge_cases t 0) as [Hneg|Hpos].
  - pose proof (u32_neg t ltac:(lia)) as Hu.
    destruct (Z.ltb_spec (u32 t) HPD__DIGITS_PRECISION); [lia | ].
    assert (Hg : forall b : bool, digits (if b then set_truncated g true else g)
                           = digits g) by (intros []; reflexivity).
    rewrite Hg. split_and!; [exact Hlen | intros i Hi; lia | ].
    intros i Hi0 Hi. apply Hhigh; lia.
  - rewrite (u32_small t) by lia.
    destruct (Z.ltb_spec t HPD__DIGITS_PRECISION);
      [ | unfold HPD__DIGITS_PRECISION in *; lia].
    cbn [digits set_digits]. rewrite u8_small by lia.
    split_and!.
    + rewrite length_digit_set. exact Hlen.
    + intros i Hi. rewrite digit_get_set_other by lia. apply Hlow. lia.
    + intros i Hi0 Hi. destruct (Z.eq_dec i t) as [->|Hne].
      * rewrite digit_get_set_same by lia. exact Hrem.
      * rewrite digit_get_set_other by lia. apply Hhigh; lia.
Qed.

Lemma small_lshift_pick_inv (cnt : nat) :
  forall n g,
    Z.of_nat cnt <= num_digits h ->
    0 <= n < 2 ^ s ->
    length (digits g) = 800%nat ->
    (forall i, 0 <= i < Z.of_nat cnt + k ->
       digit_get (digits g) i = digit_get (digits h) i) ->
    (forall i, Z.of_nat cnt + k <= i < top ->
       is_dec_digit (digit_get (digits g) i)) ->
    (Z.of_nat cnt < num_digits h ->
       2 ^ s / 10 ^ (num_digits h - Z.of_nat cnt) <= n) ->
    (Z.of_nat cnt = num_digits h -> hpd_trimmed h) ->
    n * 10 ^ (num_digits h - Z.of_nat cnt)
      <= digits_value (drop cnt (hpd_active_digits h)) * 2 ^ s ->
    (cnt = 0%nat -> k = 0 -> n = 0 ->
       2 ^ s * digit_get (digits h) 0 <= digit_get (digits g) 0) ->
    let '(wx', n', g') :=
      small_lshift_pick cnt s (u32 (Z.of_nat cnt - 1 + k)) n g in
    wx' = u32 (k - 1) /\ 0 <= n' < 2 ^ s
    /\ length (digits g') = 800%nat
    /\ (forall i, 0 <= i < k ->
          digit_get (digits g') i = digit_get (digits h) i)
    /\ (forall i, k <= i < top -> is_dec_digit (digit_get (digits g') i))
    /\ (0 < num_digits h -> 2 ^ s / 10 ^ num_digits h <= n')
    /\ n' * 10 ^ num_digits h <= digits_value (hpd_active_digits h) * 2 ^ s
    /\ (k = 0 -> n' = 0 ->
          2 ^ s * digit_get (digits h) 0 <= digit_get (digits g') 0).
Proof.
  destruct Hwf as [Hlen Hnd]. unfold HPD__DIGITS_PRECISION in Hnd.
  pose proof (pow2_le_60 s ltac:(lia)) as Hp.
  induction cnt as [|rx IH];
    intros n g Hcnt Hn Hg Hlow Hhigh Hcar Htrim Hub Hfirst.
  - cbn [small_lshift_pick]. change (Z.of_nat 0) with 0 in *.
    split; [f_equal; lia | ]. split; [lia | ]. split; [exact Hg | ].
    split; [intros i Hi; apply Hlow; lia | ].
    split; [intros i Hi; apply Hhigh; lia | ].
    split; [intros Hpos; specialize (Hcar Hpos);
            rewrite Z.sub_0_r in Hcar; exact Hcar | ].
    split; [rewrite Z.sub_0_r, drop_0 in Hub; exact Hub | ].
    apply Hfirst. reflexivity.
  - cbn [small_lshift_pick]. cbv zeta.
    assert (Hrd : digit_get (digits g) (Z.of_nat rx) = digit_get (digits h) (Z.of_nat rx))
      by (apply Hlow; lia).
    pose proof (Hok (Z.of_nat rx) ltac:(lia)) as Hd.
    rewrite Hrd. set (d := digit_get (digits h) (Z.of_nat rx)) in *.
    rewrite (shl64_small d s) by nia.
    rewrite (u64_small (n + d * 2 ^ s)) by nia.
    set (n1 := n + d * 2 ^ s).
    assert (Hn1 : 0 <= n1 < 10 * 2 ^ s) by (unfold n1; nia).
    assert (Hrem : u64 (n1 - 10 * (n1 / 10)) = n1 mod 10).
    { pose proof (Z.div_mod n1 10 ltac:(lia)).
      pose proof (Z.mod_pos_bound n1 10 ltac:(lia)).
      rewrite u64_small; lia. }
    rewrite Hrem.
    pose proof (Z.mod_pos_bound n1 10 ltac:(lia)) as Hm.
    assert (Hquo : 0 <= n1 / 10 < 2 ^ s).
    { split; [apply Z.div_pos; lia | apply Z.div_lt_upper_bound; lia]. }
    replace (Z.of_nat (S rx) - 1 + k) with (Z.of_nat rx + k) by lia.
    assert (Ht : -40 <= Z.of_nat rx + k < top \/ top <= Z.of_nat rx + k).
    { unfold top, HPD__DIGITS_PRECISION. lia. }
    rewrite (u32_pred (Z.of_nat rx + k)).
    replace (Z.of_nat rx + k - 1) with (Z.of_nat rx - 1 + k) by lia.
    assert (Hcar' : Z.of_nat rx < num_digits h ->
                    2 ^ s / 10 ^ (num_digits h - Z.of_nat rx) <= n1 / 10).
    { intros _.
      destruct (Z.eq_dec (Z.of_nat (S rx)) (num_digits h)) as [Elast|Nlast].
      - replace (num_digits h - Z.of_nat rx) with 1 by lia.
        destruct (Htrim Elast) as [Hz|Hnz]; [lia | ].
        replace (num_digits h - 1) with (Z.of_nat rx) in Hnz by lia.
        fold d in Hnz. change (10 ^ 1) with 10.
        apply Z.div_le_mono; [lia | unfold n1; nia].
      - specialize (Hcar ltac:(lia)).
        replace (num_digits h - Z.of_nat rx)
          with (num_digits h - Z.of_nat (S rx) + 1) by lia.
        rewrite Z.pow_add_r by lia. change (10 ^ 1) with 10.
        rewrite <- Z.div_div by (try apply Z.pow_pos_nonneg; lia).
        apply Z.div_le_mono; [lia | unfold n1; nia]. }
    assert (Hub' : n1 / 10 * 10 ^ (num_digits h - Z.of_nat rx)
                   <= digits_value (drop rx (hpd_active_digits h)) * 2 ^ s).
    { pose proof (drop_active_cons h (Z.of_nat rx) ltac:(lia) ltac:(lia)) as E.
      rewrite Nat2Z.id in E.
      replace (Z.to_nat (Z.of_nat rx + 1)) with (S rx) in E by lia.
      fold d in E. rewrite E. cbn [digits_value].
      rewrite length_drop. unfold hpd_active_digits at 1.
      rewrite length_take.
      replace (Z.of_nat (Z.to_nat (num_digits h) `min` length (digits h) - S rx))
        with (num_digits h - Z.of_nat (S rx)) by lia.
      set (P := 10 ^ (num_digits h - Z.of_nat (S rx))) in *.
      assert (HP : 0 < P) by (apply Z.pow_pos_nonneg; lia).
      replace (num_digits h - Z.of_nat rx)
        with (num_digits h - Z.of_nat (S rx) + 1) by lia.
      rewrite Z.pow_add_r by lia. fold P. change (10 ^ 1) with 10.
      pose proof (Z.mul_div_le n1 10 ltac:(lia)).
      unfold n1 in *. nia. }
    assert (Hfirst' : forall g1,
              g1 = (if u32 (Z.of_nat rx + k) <? HPD__DIGITS_PRECISION
                    then set_digits g (digit_set (digits g)
                                         (u32 (Z.of_nat rx + k)) (u8 (n1 mod 10)))
                    else if 0 <? n1 mod 10 then set_truncated g true else g) ->
              rx = 0%nat -> k = 0 -> n1 / 10 = 0 ->
              2 ^ s * digit_get (digits h) 0 <= digit_get (digits g1) 0).
    { intros g1 -> E0 Ek Eq.
      assert (Ed : d = digit_get (digits h) 0) by (unfold d; rewrite E0; reflexivity).
      assert (En1 : n1 = n + d * 2 ^ s) by reflexivity.
      pose proof (Z.div_mod n1 10 ltac:(lia)) as Edm. rewrite Eq in Edm.
      rewrite <- Ed, E0, Ek. change (Z.of_nat 0 + 0) with 0.
      rewrite (u32_small 0) by lia.
      change (0 <? HPD__DIGITS_PRECISION) with true.
      cbn [digits set_digits]. rewrite digit_get_set_same by lia.
      rewrite u8_small by lia. nia. }
    destruct Ht as [Ht|Ht].
    + pose proof (put_down_inv g (Z.of_nat rx + k) (n1 mod 10) Ht
                    ltac:(lia) Hg) as Hput.
      cbv zeta in Hput. destruct Hput as (Hg' & Hlow' & Hhigh').
      { intros i Hi. apply Hlow. lia. }
      { intros i Hi0 Hi. apply Hhigh. lia. }
      apply IH;
        [lia | exact Hquo | exact Hg' | intros i Hi; apply Hlow'; lia
        | intros i Hi; apply Hhigh'; lia | exact Hcar' | intros E; lia
        | exact Hub' | apply Hfirst'; reflexivity].
    + (* The position is beyond the array: nothing is written. *)
      assert (Hu : HPD__DIGITS_PRECISION <= u32 (Z.of_nat rx + k)).
      { rewrite u32_small; unfold top, HPD__DIGITS_PRECISION in *; lia. }
      destruct (Z.ltb_spec (u32 (Z.of_nat rx + k)) HPD__DIGITS_PRECISION); [lia | ].
      assert (Hgd : forall b : bool, digits (if b then set_truncated g true else g)
                              = digits g) by (intros []; reflexivity).
      apply IH; rewrite ?Hgd;
        [lia | exact Hquo | exact Hg | intros i Hi; apply Hlow; lia
        | intros i Hi; apply Hhigh; lia | exact Hcar' | intros E; lia
        | exact Hub'
        | intros E0 Ek _; unfold top, HPD__DIGITS_PRECISION in *; lia].
Qed.

Lemma small_lshift_lead_inv (fuel : nat) :
  forall t n g,
    -40 + Z.of_nat fuel <= t < top ->
    0 <= n < 10 ^ Z.of_nat fuel ->
    length (digits g) = 800%nat ->
    (forall i, 0 <= i <= t -> digit_get (digits g) i = digit_get (digits h) i) ->
    (forall i, 0 <= i -> t < i < top -> is_dec_digit (digit_get (digits g) i)) ->
    (t + 1 <= num_digits h \/ 10 ^ (t - num_digits h) <= n) ->
    let g' := small_lshift_lead fuel (u32 t) n g in
    length (digits g') = 800%nat
    /\ (forall i, 0 <= i < top -> is_dec_digit (digit_get (digits g') i)).
Proof.
  assert (Hdone : forall t g,
            length (digits g) = 800%nat ->
            (forall i, 0 <= i <= t ->
               digit_get (digits g) i = digit_get (digits h) i) ->
            (forall i, 0 <= i -> t < i < top ->
               is_dec_digit (digit_get (digits g) i)) ->
            (t + 1 <= num_digits h \/ 10 ^ (t - num_digits h) <= 0) ->
            length (digits g) = 800%nat
            /\ (forall i, 0 <= i < top -> is_dec_digit (digit_get (digits g) i))).
  { intros t g Hg Hlow Hhigh Hneed. split; [exact Hg | ].
    assert (Ht : t + 1 <= num_digits h).
    { destruct Hneed as [H|H]; [exact H | ].
      destruct (Z.lt_ge_cases (t - num_digits h) 0); [lia | ].
      pose proof (Z.pow_pos_nonneg 10 (t - num_digits h) ltac:(lia) ltac:(lia)).
      lia. }
    intros i Hi. destruct (Z.le_gt_cases i t).
    - rewrite Hlow by lia. apply Hok. lia.
    - apply Hhigh; lia. }
  induction fuel as [|fuel IH]; intros t n g Ht Hn Hg Hlow Hhigh Hneed.
  - cbn [small_lshift_lead]. cbv zeta. change (10 ^ Z.of_nat 0) with 1 in Hn.
    assert (n = 0) as -> by lia. eapply Hdone; eauto.
  - cbn [small_lshift_lead]. cbv zeta.
    destruct (Z.ltb_spec 0 n) as [Hpos|Hzero];
      [ | assert (n = 0) as -> by lia; eapply Hdone; eauto].
    assert (Hrem : u64 (n - 10 * (n / 10)) = n mod 10).
    { pose proof (Z.div_mod n 10 ltac:(lia)).
      pose proof (Z.mod_pos_bound n 10 ltac:(lia)).
      rewrite u64_small; lia. }
    rewrite Hrem. pose proof (Z.mod_pos_bound n 10 ltac:(lia)) as Hm.
    pose proof (put_down_inv g t (n mod 10) ltac:(lia) ltac:(lia) Hg Hlow Hhigh)
      as Hput.
    cbv zeta in Hput. destruct Hput as (Hg' & Hlow' & Hhigh').
    rewrite u32_pred.
    apply IH; [lia | | exact Hg' | exact Hlow' | exact Hhigh' | ].
    + split; [apply Z.div_pos; lia | ].
      apply Z.div_lt_upper_bound; [lia | ].
      rewrite Nat2Z.inj_succ, Z.pow_succ_r in Hn by lia. lia.
    + destruct Hneed as [H|H]; [left; lia | ].
      destruct (Z.le_gt_cases t (num_digits h)); [left; lia | right].
      replace (t - 1 - num_digits h) with (t - num_digits h - 1) by lia.
      apply div10_pow; lia.
Qed.

Hypothesis Htrim : hpd_trimmed h.
Hypothesis Hpos : 0 < num_digits h.
Hypothesis HkN : k <= lshift_max_new_digits s.
Hypothesis Hknum : high_prec_dec__lshift_num_new_digits h s = k.

Lemma small_lshift_untrimmed_inv :
  hpd_wf (small_lshift_untrimmed h s)
  /\ hpd_digits_ok (small_lshift_untrimmed h s).
Proof.
  destruct Hwf as [Hlen Hnd].
  destruct (small_lshift_untrimmed_fields h s k Hnd Hknum Hk)
    as (End & _ & Elen).
  split; [split; [rewrite Elen; exact Hlen | rewrite End; unfold HPD__DIGITS_PRECISION in *; lia] | ].
  intros i Hi. rewrite End in Hi. fold top in Hi.
  unfold small_lshift_untrimmed. rewrite Hknum.
  unfold HPD__DIGITS_PRECISION in Hnd.
  pose proof (pow2_le_60 s ltac:(lia)) as Hp.
  pose proof (small_lshift_pick_inv (Z.to_nat (num_digits h)) 0 h
                ltac:(lia) ltac:(lia) Hlen ltac:(reflexivity)) as Hpick.
  rewrite Z2Nat.id in Hpick by lia.
  destruct (small_lshift_pick (Z.to_nat (num_digits h)) s
              (u32 (num_digits h - 1 + k)) 0 h) as [[wx n] g].
  destruct Hpick as (Ewx & Hn & Hg & Hlow & Hhigh & Hcar & _).
  { intros j Hj. unfold top in Hj. lia. }
  { intros Hlt. lia. }
  { intros _. exact Htrim. }
  { rewrite (drop_active_nil h (num_digits h)) by lia. cbn [digits_value]. lia. }
  { intros E. lia. }
  specialize (Hcar Hpos). subst wx.
  pose proof (small_lshift_lead_inv 20 (k - 1) n g) as Hlead.
  cbv zeta in Hlead. destruct Hlead as (_ & Hdec).
  { change (Z.of_nat 20) with 20. unfold top, HPD__DIGITS_PRECISION. lia. }
  { change (Z.of_nat 20) with 20. lia. }
  { exact Hg. }
  { intros j Hj. apply Hlow. lia. }
  { intros j Hj0 Hj. apply Hhigh. lia. }
  { destruct (Z.le_gt_cases k (num_digits h)) as [Hle|Hgt]; [left; lia | right].
    pose proof (lshift_max_new_digits_pow2 s Hs) as HN.
    assert (H1 : 10 ^ (k - 1) <= 2 ^ s).
    { etransitivity; [ | exact HN]. apply Z.pow_le_mono_r; lia. }
    assert (H2 : 10 ^ (k - 1) = 10 ^ (k - 1 - num_digits h) * 10 ^ num_digits h).
    { rewrite <- Z.pow_add_r by lia. f_equal. lia. }
    etransitivity; [ | exact Hcar].
    apply Z.div_le_lower_bound; [apply Z.pow_pos_nonneg; lia | ]. lia. }
  cbv zeta.
  set (g' := small_lshift_lead 20 (u32 (k - 1)) n g) in *.
  assert (Hd : forall g1 : high_prec_dec,
            digits g1 = digits g' -> is_dec_digit (digit_get (digits g1) i)).
  { intros g1 ->. apply Hdec. exact Hi. }
  apply Hd. destruct (HPD__DIGITS_PRECISION <? _); reflexivity.
Qed.
End SmallLshift.

Lemma small_lshift_inv (h : high_prec_dec) (s : Z) :
  hpd_wf h -> hpd_inv h -> 1 <= s <= 60 ->
  hpd_wf (high_prec_dec__small_lshift h s)
  /\ hpd_inv (high_prec_dec__small_lshift h s).
Proof.
  intros Hwf [Htrim Hok] Hs. unfold high_prec_dec__small_lshift.
  destruct (Z.eqb_spec (num_digits h) 0) as [Hz|Hnz];
    [split; [ | split]; assumption | ].
  assert (Hpos : 0 < num_digits h) by (destruct Hwf as [_ ?]; lia).
  assert (Hk : high_prec_dec__lshift_num_new_digits h s
               = if lex_lt (hpd_active_digits h) (decimal_digits (5 ^ s))
                 then lshift_max_new_digits s - 1 else lshift_max_new_digits s).
  { apply lshift_num_new_digits_spec; [ | exact Hs].
    destruct Hwf as [Hlen Hnd]. rewrite Hlen.
    unfold HPD__DIGITS_PRECISION in Hnd. lia. }
  destruct (pow5_table_digits_ok s Hs) as (_ & _ & HN & _).
  set (k := high_prec_dec__lshift_num_new_digits h s) in *.
  assert (Hk' : 0 <= k <= 19 /\ k <= lshift_max_new_digits s)
    by (rewrite Hk; destruct (lex_lt _ _); lia).
  destruct (small_lshift_untrimmed_inv s Hs h Hwf Hok k (proj1 Hk') Htrim Hpos
              (proj2 Hk') eq_refl) as [Hwf' Hok'].
  apply trim_inv; assumption.
Qed.

(** C9. Every operation that changes a high precision decimal keeps the
    invariant: afterwards the decimal has no digits or its last digit is
    not zero, and each of its digits is in 0..=9. [assign] and [parse]
    establish it from any contents of the receiver; the small shifts (by 1
    to 60 bits) and the four roundings preserve it. Each operation also
    keeps the array at 800 digits and the digit count within it. *)
Theorem hpd_invariant_preserved :
  (forall (h : high_prec_dec) (x : Z) (neg : bool),
      length (digits h) = 800%nat -> 0 <= x < 2 ^ 64 ->
      hpd_wf (high_prec_dec__assign h x neg)
      /\ hpd_inv (high_prec_dec__assign h x neg))
  /\ (forall (h : high_prec_dec) (s : list Z),
      length (digits h) = 800%nat ->
      exists h', snd (high_prec_dec__parse (Some h) s) = Some h'
                 /\ hpd_wf h' /\ hpd_inv h')
  /\ (forall (h : high_prec_dec) (shift : Z),
      hpd_wf h -> hpd_inv h -> 1 <= shift <= 60 ->
      hpd_wf (high_prec_dec__small_lshift h shift)
      /\ hpd_inv (high_prec_dec__small_lshift h shift))
  /\ (forall (h : high_prec_dec) (shift : Z),
      hpd_wf h -> hpd_inv h -> 1 <= shift <= 60 ->
      hpd_wf (high_prec_dec__small_rshift h shift)
      /\ hpd_inv (high_prec_dec__small_rshift h shift))
  /\ (forall (h : high_prec_dec) (n : Z),
      hpd_wf h -> hpd_inv h ->
      hpd_wf (high_prec_dec__round_down h n)
      /\ hpd_inv (high_prec_dec__round_down h n))
  /\ (forall (h : high_prec_dec) (n : Z),
      hpd_wf h -> hpd_inv h -> INT32_MIN <= n <= INT32_MAX ->
      hpd_wf (high_prec_dec__round_up h n)
      /\ hpd_inv (high_prec_dec__round_up h n))
  /\ (forall (h : high_prec_dec) (n : Z),
      hpd_wf h -> hpd_inv h -> INT32_MIN <= n <= INT32_MAX ->
      hpd_wf (high_prec_dec__round_nearest h n)
      /\ hpd_inv (high_prec_dec__round_nearest h n))
  /\ (forall (h : high_prec_dec) (exp2 mantissa : Z),
      hpd_wf h -> hpd_inv h ->
      hpd_wf (high_prec_dec__round_just_enough h exp2 mantissa)
      /\ hpd_inv (high_prec_dec__round_just_enough h exp2 mantissa)).
Proof.
  split_and!.
  - exact assign_inv.
  - exact parse_inv.
  - exact small_lshift_inv.
  - intros h shift Hwf Hinv Hs.
    exact (small_rshift_inv shift Hs h Hwf (proj2 Hinv) Hinv).
  - exact round_down_inv.
  - exact round_up_inv.
  - exact round_nearest_inv.
  - exact round_just_enough_inv.
Qed.

Lemma hpd_invariant_preserved_witness :
  let h := high_prec_dec__assign hpd_stack 625 false in
  hpd_wf h /\ hpd_inv h
  /\ hpd_inv (high_prec_dec__small_lshift h 4)
  /\ hpd_inv (high_prec_dec__small_rshift h 4)
  /\ hpd_inv (high_prec_dec__round_up h 2)
  /\ hpd_inv (high_prec_dec__round_just_enough h 9 0x1388000000000).
Proof.
  intros h.
  destruct hpd_invariant_preserved
    as (Hassign & _ & Hl & Hr & _ & Hup & _ & Hrje).
  destruct (Hassign hpd_stack 625 false eq_refl ltac:(lia)) as [Hwf Hinv].
  fold h in Hwf, Hinv.
  split; [exact Hwf | split; [exact Hinv | ]].
  split; [exact (proj2 (Hl h 4 Hwf Hinv ltac:(lia))) | ].
  split; [exact (proj2 (Hr h 4 Hwf Hinv ltac:(lia))) | ].
  split; [ | exact (proj2 (Hrje h 9 _ Hwf Hinv))].
  apply (Hup h 2 Hwf Hinv). vm_compute. split; discriminate.
Defined.

(** ** The bounded loops run to their end

    The loops of the source whose number of rounds depends on the values
    are embedded with a bound on the rounds. The lemmas of this section
    show that the bound is never what stops them: under the conditions of
    their callers, more rounds give the same result. *)

Lemma assign_loop_fuel (fuel extra : nat) :
  forall x ptr buf n,
    0 < x < 10 ^ Z.of_nat fuel ->
    assign_loop (fuel + extra) x ptr buf n = assign_loop fuel x ptr buf n.
Proof.
  induction fuel as [|fuel IH]; intros x ptr buf n Hx.
  - change (10 ^ Z.of_nat 0) with 1 in Hx. lia.
  - cbn [Nat.add assign_loop]. cbv zeta.
    destruct (Z.ltb_spec 0 (x / 10)) as [Hpos|Hzero]; [ | reflexivity].
    apply IH. split; [exact Hpos | ].
    apply Z.div_lt_upper_bound; [lia | ].
    rewrite Nat2Z.inj_succ, Z.pow_succ_r in Hx by lia. lia.
Qed.

Lemma assign_loop_20 (extra : nat) (x ptr : Z) (buf : list Z) (n : Z) :
  0 < x < 2 ^ 64 ->
  assign_loop (20 + extra) x ptr buf n = assign_loop 20 x ptr buf n.
Proof. intros Hx. apply assign_loop_fuel. change (Z.of_nat 20) with 20. lia. Qed.

Lemma small_lshift_lead_fuel (fuel extra : nat) :
  forall wx n h,
    0 <= n < 10 ^ Z.of_nat fuel ->
    small_lshift_lead (fuel + extra) wx n h = small_lshift_lead fuel wx n h.
Proof.
  induction fuel as [|fuel IH]; intros wx n h Hn.
  - change (10 ^ Z.of_nat 0) with 1 in Hn. assert (n = 0) as -> by lia.
    destruct extra; reflexivity.
  - cbn [Nat.add small_lshift_lead].
    destruct (Z.ltb_spec 0 n) as [Hpos|Hzero]; [ | reflexivity].
    cbv zeta. apply IH. split; [apply Z.div_pos; lia | ].
    apply Z.div_lt_upper_bound; [lia | ].
    rewrite Nat2Z.inj_succ, Z.pow_succ_r in Hn by lia. lia.
Qed.

Lemma small_lshift_lead_20 (extra : nat) (wx n : Z) (h : high_prec_dec) :
  0 <= n < 2 ^ 64 ->
  small_lshift_lead (20 + extra) wx n h = small_lshift_lead 20 wx n h.
Proof. intros Hn. apply small_lshift_lead_fuel. change (Z.of_nat 20) with 20. lia. Qed.

Lemma small_rshift_zeroes_fuel (s : Z) (fuel extra : nat) :
  0 <= s <= 60 ->
  forall rx n,
    0 < n < 2 ^ 64 -> 2 ^ s <= n * 10 ^ Z.of_nat fuel ->
    small_rshift_zeroes (fuel + extra) s rx n = small_rshift_zeroes fuel s rx n.
Proof.
  intros Hs. pose proof (pow2_le_60 s Hs) as Hp.
  induction fuel as [|fuel IH]; intros rx n Hn Hbig.
  - change (10 ^ Z.of_nat 0) with 1 in Hbig.
    destruct extra; [reflexivity | ].
    cbn [Nat.add small_rshift_zeroes]. rewrite shr64_small by lia.
    destruct (Z.eqb_spec (n / 2 ^ s) 0) as [Hq|Hq]; [ | reflexivity].
    apply Z.div_small_iff in Hq; lia.
  - cbn [Nat.add small_rshift_zeroes]. rewrite shr64_small by lia.
    destruct (Z.eqb_spec (n / 2 ^ s) 0) as [Hq|Hq]; [ | reflexivity].
    apply Z.div_small_iff in Hq; [ | lia].
    rewrite (u64_small (10 * n)) by lia.
    apply IH; [lia | ].
    rewrite Nat2Z.inj_succ, Z.pow_succ_r in Hbig by lia. lia.
Qed.

Lemma small_rshift_zeroes_64 (s : Z) (extra : nat) (rx n : Z) :
  0 <= s <= 60 -> 0 < n < 2 ^ 64 ->
  small_rshift_zeroes (64 + extra) s rx n = small_rshift_zeroes 64 s rx n.
Proof.
  intros Hs Hn. apply small_rshift_zeroes_fuel; [exact Hs | exact Hn | ].
  pose proof (pow2_le_60 s Hs). change (Z.of_nat 64) with 64.
  assert (2 ^ 60 <= 10 ^ 64) by (vm_compute; discriminate). nia.
Qed.

(** In the third loop of [small_rshift] the value [n] is a multiple of
    [2 ^ j] after [j] rounds; after [s] rounds [n & mask] is zero. *)
Lemma small_rshift_trail_fuel (s : Z) (fuel extra : nat) :
  0 <= s <= 60 ->
  forall j wx n h,
    0 <= j <= s -> 0 <= n -> (2 ^ j | n) ->
    s - j + 1 <= Z.of_nat fuel ->
    small_rshift_trail (fuel + extra) s (Z.ones s) wx n h
    = small_rshift_trail fuel s (Z.ones s) wx n h.
Proof.
  intros Hs. pose proof (pow2_le_60 s Hs) as Hp.
  induction fuel as [|fuel IH]; intros j wx n h Hj Hn Hdiv Hfuel; [lia | ].
  cbn [Nat.add small_rshift_trail].
  destruct (Z.ltb_spec 0 n) as [Hpos|Hzero]; [ | reflexivity].
  cbv zeta. rewrite Z.land_ones by lia.
  pose proof (Z.mod_pos_bound n (2 ^ s) ltac:(lia)) as Hm.
  rewrite (u64_small (10 * (n mod 2 ^ s))) by lia.
  destruct (Z.eq_dec j s) as [->|Hlt].
  - (* [n] is a multiple of [2 ^ s]: the next [n] is zero. *)
    assert (Hz : n mod 2 ^ s = 0) by (apply Z.mod_divide; [lia | exact Hdiv]).
    rewrite Hz. change (10 * 0) with 0.
    assert (Hstop : forall f wx' g, small_rshift_trail f s (Z.ones s) wx' 0 g = (wx', g))
      by (intros [|f] wx' g; reflexivity).
    destruct (wx <? HPD__DIGITS_PRECISION); [ | destruct (0 <? u8 (shr64 n s))];
      rewrite !Hstop; reflexivity.
  - assert (Hdiv' : (2 ^ (j + 1) | 10 * (n mod 2 ^ s))).
    { destruct Hdiv as [q ->].
      replace (2 ^ s) with (2 ^ (s - j) * 2 ^ j)
        by (rewrite <- Z.pow_add_r by lia; f_equal; lia).
      rewrite Z.mul_mod_distr_r
        by (try apply Z.pow_nonzero; try (apply Z.pow_pos_nonneg; lia); lia).
      exists (5 * (q mod 2 ^ (s - j))).
      rewrite Z.pow_add_r by lia. change (2 ^ 1) with 2. lia. }
    destruct (wx <? HPD__DIGITS_PRECISION); [ | destruct (0 <? u8 (shr64 n s))];
      apply (IH (j + 1)); lia || assumption.
Qed.

Lemma small_rshift_trail_64 (s : Z) (extra : nat) (wx n : Z) (h : high_prec_dec) :
  0 <= s <= 60 -> 0 <= n ->
  small_rshift_trail (64 + extra) s (Z.ones s) wx n h
  = small_rshift_trail 64 s (Z.ones s) wx n h.
Proof.
  intros Hs Hn.
  apply (small_rshift_trail_fuel s 64 extra Hs 0);
    [lia | exact Hn | apply Z.divide_1_l | change (Z.of_nat 64) with 64; lia].
Qed.

(** Every round of the subnormal loop raises [exp2] by at least one. *)
Lemma parse_subnormal_loop_fuel (fuel extra : nat) :
  forall h exp2,
    - 2 ^ 31 <= exp2 -> -1022 - exp2 <= Z.of_nat fuel ->
    parse_subnormal_loop (fuel + extra) h exp2 = parse_subnormal_loop fuel h exp2.
Proof.
  induction fuel as [|fuel IH]; intros h exp2 Hmin Hfuel.
  - destruct extra; [reflexivity | ].
    cbn [Nat.add parse_subnormal_loop]. cbv zeta.
    destruct (Z.ltb_spec exp2 (-1023 + 1)); [lia | reflexivity].
  - cbn [Nat.add parse_subnormal_loop]. cbv zeta.
    destruct (Z.ltb_spec exp2 (-1023 + 1)) as [Hlt|Hge]; [ | reflexivity].
    rewrite (u32_small (-1023 + 1 - exp2)) by lia.
    set (n := if HPD__SHIFT__MAX_INCL <? -1023 + 1 - exp2
              then HPD__SHIFT__MAX_INCL else -1023 + 1 - exp2).
    assert (Hn : 1 <= n <= 60 /\ n <= -1022 - exp2).
    { unfold n, HPD__SHIFT__MAX_INCL.
      destruct (Z.ltb_spec 60 (-1023 + 1 - exp2)); lia. }
    rewrite (i32_small n) by lia. rewrite (i32_small (exp2 + n)) by lia.
    apply IH; lia.
Qed.

(** ** The scaling loops of the slow path *)

Lemma trim_loop_first (n : nat) (ds : list Z) :
  (0 < n)%nat -> digit_get ds 0 <> 0 -> (0 < trim_loop n ds)%nat.
Proof.
  induction n as [|n IH]; intros Hn H0; [lia | ].
  cbn [trim_loop]. destruct (Z.eqb_spec (digit_get ds (Z.of_nat n)) 0) as [E|N];
    [ | lia].
  destruct n as [|n]; [contradiction | apply IH; [lia | exact H0]].
Qed.

Lemma trim_canonical (h : high_prec_dec) :
  hpd_wf h -> hpd_digits_ok h -> 0 < num_digits h ->
  digit_get (digits h) 0 <> 0 ->
  hpd_canonical (high_prec_dec__trim h)
  /\ decimal_point (high_prec_dec__trim h) = decimal_point h
  /\ digits (high_prec_dec__trim h) = digits h.
Proof.
  intros Hwf Hok Hpos H0. destruct (trim_inv h Hwf Hok) as [Hwf' Hinv'].
  split; [ | split; reflexivity].
  split; [exact Hwf' | split; [exact Hinv' | split; [ | exact H0]]].
  unfold high_prec_dec__trim. cbn [num_digits set_num_digits].
  pose proof (trim_loop_first (Z.to_nat (num_digits h)) (digits h) ltac:(lia) H0).
  lia.
Qed.

Lemma small_rshift_trail_step (fuel : nat) (s mask wx n : Z) (h : high_prec_dec) :
  small_rshift_trail (S fuel) s mask wx n h
  = if 0 <? n then
      let new_digit := u8 (shr64 n s) in
      let n := u64 (10 * Z.land n mask) in
      if wx <? HPD__DIGITS_PRECISION then
        small_rshift_trail fuel s mask (u32 (wx + 1)) n
          (set_digits h (digit_set (digits h) wx new_digit))
      else if 0 <? new_digit then
        small_rshift_trail fuel s mask wx n (set_truncated h true)
      else small_rshift_trail fuel s mask wx n h
    else (wx, h).
Proof. reflexivity. Qed.

Lemma small_rshift_trail_first (fuel : nat) (s mask n : Z) (h : high_prec_dec) :
  0 < n ->
  small_rshift_trail (S fuel) s mask 0 n h
  = small_rshift_trail fuel s mask 1 (u64 (10 * Z.land n mask))
      (set_digits h (digit_set (digits h) 0 (u8 (shr64 n s)))).
Proof.
  intros Hn. rewrite small_rshift_trail_step.
  destruct (Z.ltb_spec 0 n); [reflexivity | lia].
Qed.

Lemma small_rshift_copy_first (cnt : nat) (s mask rx n : Z) (ds : list Z) :
  small_rshift_copy (S cnt) s mask rx 0 n ds
  = small_rshift_copy cnt s mask (u32 (rx + 1)) 1
      (u64 (10 * Z.land n mask + digit_get ds rx))
      (digit_set ds 0 (u8 (shr64 n s))).
Proof. reflexivity. Qed.

Lemma small_rshift_trail_frame (fuel : nat) (s mask : Z) :
  forall wx n h,
    decimal_point (snd (small_rshift_trail fuel s mask wx n h))
    = decimal_point h.
Proof.
  induction fuel as [|fuel IH]; intros wx n h; [reflexivity | ].
  rewrite small_rshift_trail_step.
  destruct (0 <? n); [ | reflexivity]. cbv zeta.
  destruct (wx <? HPD__DIGITS_PRECISION); [ | destruct (0 <? _)];
    rewrite IH; reflexivity.
Qed.

Section SmallRshiftLeading.
Variable s : Z.
Hypothesis Hs : 1 <= s <= 60.

Lemma small_rshift_copy_keep (cnt : nat) :
  forall rx wx n ds,
    1 <= wx -> wx + Z.of_nat cnt <= HPD__DIGITS_PRECISION ->
    let '(wx', n', ds') := small_rshift_copy cnt s (Z.ones s) rx wx n ds in
    wx' = wx + Z.of_nat cnt /\ digit_get ds' 0 = digit_get ds 0.
Proof.
  unfold HPD__DIGITS_PRECISION.
  induction cnt as [|cnt IH]; intros rx wx n ds Hwx Hcnt.
  - cbn. split; [lia | reflexivity].
  - cbn [small_rshift_copy]. cbv zeta.
    rewrite (u32_small (wx + 1)) by lia.
    specialize (IH (u32 (rx + 1)) (wx + 1)
                  (u64 (10 * Z.land n (Z.ones s) + digit_get ds rx))
                  (digit_set ds wx (u8 (shr64 n s))) ltac:(lia) ltac:(lia)).
    destruct (small_rshift_copy cnt s (Z.ones s) _ (wx + 1) _ _) as [[wx' n'] ds'].
    destruct IH as [H1 H2]. split; [lia | ].
    rewrite H2. apply digit_get_set_other; lia.
Qed.

Lemma small_rshift_trail_keep (fuel : nat) :
  forall wx n g,
    1 <= wx <= HPD__DIGITS_PRECISION ->
    let '(wx', g') := small_rshift_trail fuel s (Z.ones s) wx n g in
    wx <= wx' /\ digit_get (digits g') 0 = digit_get (digits g) 0.
Proof.
  induction fuel as [|fuel IH]; intros wx n g Hwx.
  - cbn. split; [lia | reflexivity].
  - cbn [small_rshift_trail].
    destruct (0 <? n); [ | split; [lia | reflexivity]]. cbv zeta.
    destruct (Z.ltb_spec wx HPD__DIGITS_PRECISION) as [Hlt|Hge];
      unfold HPD__DIGITS_PRECISION in *.
    + rewrite (u32_small (wx + 1)) by lia.
      specialize (IH (wx + 1) (u64 (10 * Z.land n (Z.ones s)))
                    (set_digits g (digit_set (digits g) wx (u8 (shr64 n s))))
                    ltac:(lia)).
      destruct (small_rshift_trail fuel s (Z.ones s) (wx + 1) _ _) as [wx' g'].
      destruct IH as [H1 H2]. split; [lia | ].
      rewrite H2. cbn [digits set_digits]. apply digit_get_set_other; lia.
    + destruct (0 <? u8 (shr64 n s)).
      * specialize (IH wx (u64 (10 * Z.land n (Z.ones s))) (set_truncated g true)
                      ltac:(lia)).
        destruct (small_rshift_trail fuel s (Z.ones s) wx _ _) as [wx' g'].
        exact IH.
      * apply IH. lia.
Qed.

Variable h : high_prec_dec.
Hypothesis Hcan : hpd_canonical h.

(** The digits written from a state [(rx, n)] in which [n >> s] is not
    zero start with [n >> s]. *)
Lemma small_rshift_first_digit (rx n dp : Z) :
  0 < rx -> 0 <= n < 10 * 2 ^ s -> n / 2 ^ s <> 0 ->
  forall wx n1 ds wx' h3,
    small_rshift_copy (Z.to_nat (num_digits h - rx)) s (Z.ones s) rx 0 n
      (digits h) = (wx, n1, ds) ->
    small_rshift_trail 64 s (Z.ones s) wx n1
      (set_digits (set_decimal_point h dp) ds) = (wx', h3) ->
    1 <= wx' /\ digit_get (digits h3) 0 = n / 2 ^ s.
Proof.
  intros Hrx Hn Hq wx n1 ds wx' h3 Ecopy Etrail.
  destruct Hcan as ([Hlen Hnd] & _ & Hpos & _).
  unfold HPD__DIGITS_PRECISION in Hnd.
  pose proof (pow2_le_60 s ltac:(lia)) as Hp.
  assert (Hdig : 0 <= n / 2 ^ s <= 9).
  { split; [apply Z.div_pos; lia | ].
    assert (n / 2 ^ s < 10) by (apply Z.div_lt_upper_bound; lia). lia. }
  destruct (Z.to_nat (num_digits h - rx)) as [|cnt] eqn:Ecnt.
  - (* No digit is left to read: the trailing loop writes the first digit. *)
    cbn [small_rshift_copy] in Ecopy. injection Ecopy as <- <- <-.
    assert (Hnpos : 0 < n).
    { destruct (Z.lt_ge_cases 0 n); [assumption | ].
      exfalso; apply Hq; assert (n = 0) as -> by lia; reflexivity. }
    rewrite (small_rshift_trail_first 63) in Etrail by exact Hnpos.
    pose proof (small_rshift_trail_keep 63 1 (u64 (10 * Z.land n (Z.ones s)))
                  (set_digits (set_digits (set_decimal_point h dp) (digits h))
                     (digit_set (digits (set_digits (set_decimal_point h dp)
                                           (digits h))) 0 (u8 (shr64 n s))))
                  ltac:(unfold HPD__DIGITS_PRECISION; lia)) as Hkeep.
    rewrite Etrail in Hkeep. destruct Hkeep as [H1 H2].
    split; [lia | ]. rewrite H2. cbn [digits set_digits set_decimal_point].
    rewrite digit_get_set_same by lia.
    rewrite shr64_small by lia. apply u8_small. lia.
  - (* The copying loop writes the first digit. *)
    rewrite small_rshift_copy_first in Ecopy.
    pose proof (small_rshift_copy_keep cnt (u32 (rx + 1)) 1
                  (u64 (10 * Z.land n (Z.ones s) + digit_get (digits h) rx))
                  (digit_set (digits h) 0 (u8 (shr64 n s)))
                  ltac:(lia) ltac:(unfold HPD__DIGITS_PRECISION; lia)) as Hkeep.
    rewrite Ecopy in Hkeep. destruct Hkeep as [H1 H2].
    assert (Hwx : 1 <= wx <= HPD__DIGITS_PRECISION)
      by (unfold HPD__DIGITS_PRECISION; lia).
    pose proof (small_rshift_trail_keep 64 wx n1
                  (set_digits (set_decimal_point h dp) ds) Hwx) as Hkeep.
    rewrite Etrail in Hkeep. destruct Hkeep as [H3 H4].
    split; [lia | ]. rewrite H4. cbn [digits set_digits]. rewrite H2.
    rewrite digit_get_set_same by lia.
    rewrite shr64_small by lia. apply u8_small. lia.
Qed.

Lemma small_rshift_zeroes_stop (fuel : nat) (rx n : Z) :
  n / 2 ^ s <> 0 -> small_rshift_zeroes fuel s rx n = (rx, n).
Proof.
  intros Hq. destruct fuel; [reflexivity | ].
  cbn [small_rshift_zeroes]. rewrite shr64_small by lia.
  destruct (Z.eqb_spec (n / 2 ^ s) 0); [contradiction | reflexivity].
Qed.

Lemma small_rshift_zeroes_exit (fuel : nat) :
  forall rx n,
    0 <= rx -> rx + Z.of_nat fuel < 2 ^ 32 ->
    0 < n -> n / 2 ^ s = 0 -> 2 ^ s <= n * 10 ^ Z.of_nat fuel ->
    let '(rx', n') := small_rshift_zeroes fuel s rx n in
    rx < rx' <= rx + Z.of_nat fuel /\ 0 <= n' < 10 * 2 ^ s /\ n' / 2 ^ s <> 0.
Proof.
  pose proof (pow2_le_60 s ltac:(lia)) as Hp.
  induction fuel as [|fuel IH]; intros rx n Hrx Hfuel Hn Hq Hbig.
  - change (10 ^ Z.of_nat 0) with 1 in Hbig.
    apply Z.div_small_iff in Hq; lia.
  - cbn [small_rshift_zeroes]. rewrite shr64_small by lia.
    destruct (Z.eqb_spec (n / 2 ^ s) 0) as [_|Hne]; [ | contradiction].
    apply Z.div_small_iff in Hq; [ | lia].
    rewrite (u64_small (10 * n)) by lia. rewrite (u32_small (rx + 1)) by lia.
    destruct (Z.eq_dec (10 * n / 2 ^ s) 0) as [Hq'|Hq'].
    + specialize (IH (rx + 1) (10 * n) ltac:(lia) ltac:(lia) ltac:(lia) Hq').
      rewrite Nat2Z.inj_succ, Z.pow_succ_r in Hbig by lia.
      specialize (IH ltac:(lia)).
      destruct (small_rshift_zeroes fuel s (rx + 1) (10 * n)) as [rx' n'].
      destruct IH as (H1 & H2 & H3). split_and!; try lia; try assumption.
    + rewrite small_rshift_zeroes_stop by exact Hq'.
      split_and!; try lia; try assumption.
Qed.

Lemma small_rshift_pick_first (cnt : nat) :
  small_rshift_pick (S cnt) s 0 0 h
  = small_rshift_pick cnt s 1 (digit_get (digits h) 0) h.
Proof.
  destruct Hcan as (_ & [_ Hok] & Hpos & _).
  pose proof (Hok 0 ltac:(lia)) as Hd.
  cbn [small_rshift_pick]. unfold shr64. rewrite Z.shiftr_0_l.
  change (0 =? 0) with true. cbv iota.
  change (u32 (0 + 1)) with 1. change (10 * 0) with 0.
  rewrite Z.add_0_l, u64_small by lia. reflexivity.
Qed.

Lemma small_rshift_pick_pos (cnt : nat) :
  forall rx n,
    0 <= rx -> rx + Z.of_nat cnt = num_digits h -> 0 < n < 10 * 2 ^ s ->
    0 < snd (small_rshift_pick cnt s rx n h).
Proof.
  destruct Hcan as ([Hlen Hnd] & [_ Hok] & _).
  unfold HPD__DIGITS_PRECISION in Hnd.
  pose proof (pow2_le_60 s ltac:(lia)) as Hp.
  induction cnt as [|cnt IH]; intros rx n Hrx Hcnt Hn; [cbn; lia | ].
  cbn [small_rshift_pick]. rewrite shr64_small by lia.
  destruct (Z.eqb_spec (n / 2 ^ s) 0) as [Hq|Hq]; [ | cbn; lia].
  apply Z.div_small_iff in Hq; [ | lia].
  pose proof (Hok rx ltac:(lia)) as Hd.
  rewrite (u32_small (rx + 1)) by lia.
  rewrite u64_small by lia.
  apply IH; lia.
Qed.

(** [small_rshift] keeps the canonical form and does not raise the decimal
    point; when the decimal point stays, the first digit gets smaller. *)
Lemma small_rshift_canonical :
  -1000 <= decimal_point h <= 2047 ->
  let h' := high_prec_dec__small_rshift h s in
  hpd_canonical h'
  /\ decimal_point h - 900 <= decimal_point h' <= decimal_point h
  /\ (decimal_point h' = decimal_point h ->
      digit_get (digits h') 0 < digit_get (digits h) 0).
Proof.
  intros Hdp h'.
  destruct Hcan as (Hwf & Hinv & Hpos & H0).
  destruct (small_rshift_inv s Hs h Hwf (proj2 Hinv) Hinv) as [Hwf' Hinv'].
  fold h' in Hwf', Hinv'.
  destruct Hwf as [Hlen Hnd]. unfold HPD__DIGITS_PRECISION in Hnd.
  pose proof (pow2_le_60 s ltac:(lia)) as Hp.
  pose proof (proj2 Hinv 0 ltac:(lia)) as Hd0.
  set (d0 := digit_get (digits h) 0) in *.
  (* What remains once the reading phase has ended in [(rx, n)]. *)
  assert (Htail : forall rx n,
            1 <= rx <= 864 -> 0 <= n < 10 * 2 ^ s -> n / 2 ^ s <> 0 ->
            (rx = 1 -> n = d0) ->
            forall g,
              g = (let h1 := set_decimal_point h
                               (i32 (decimal_point h - i32 (rx - 1))) in
                   if decimal_point h1 <? - HPD__DECIMAL_POINT__RANGE
                   then mk_hpd 0 0 false false (digits h1)
                   else
                     let mask := u64 (shl64 1 s - 1) in
                     let '(wx, n0, ds) :=
                       small_rshift_copy (Z.to_nat (num_digits h1 - rx)) s mask
                         rx 0 n (digits h1) in
                     let h2 := set_digits h1 ds in
                     let '(wx0, h3) := small_rshift_trail 64 s mask wx n0 h2 in
                     high_prec_dec__trim (set_num_digits h3 wx0)) ->
              0 < num_digits g /\ digit_get (digits g) 0 <> 0
              /\ decimal_point h - 900 <= decimal_point g <= decimal_point h
              /\ (decimal_point g = decimal_point h ->
                  digit_get (digits g) 0 < d0)).
  { intros rx n Hrx Hn Hq Hone g ->. cbv zeta.
    rewrite (i32_small (rx - 1)) by lia.
    rewrite (i32_small (decimal_point h - (rx - 1))) by lia.
    cbn [decimal_point set_decimal_point num_digits digits].
    unfold HPD__DECIMAL_POINT__RANGE.
    destruct (Z.ltb_spec (decimal_point h - (rx - 1)) (Z.opp 2047)); [lia | ].
    rewrite rshift_mask by exact Hs.
    destruct (small_rshift_copy _ s (Z.ones s) rx 0 n (digits h))
      as [[wx n1] ds] eqn:Ecopy.
    destruct (small_rshift_trail 64 s (Z.ones s) wx n1 _) as [wx' h3] eqn:Etrail.
    destruct (small_rshift_first_digit rx n _ ltac:(lia) Hn Hq _ _ _ _ _
                Ecopy Etrail) as [Hwx' Hfirst].
    assert (Hdp3 : decimal_point h3 = decimal_point h - (rx - 1)).
    { pose proof (small_rshift_trail_frame 64 s (Z.ones s) wx n1
                    (set_digits (set_decimal_point h (decimal_point h - (rx - 1))) ds))
        as Hfr.
      rewrite Etrail in Hfr. exact Hfr. }
    assert (Hq' : 1 <= n / 2 ^ s).
    { pose proof (Z.div_pos n (2 ^ s) ltac:(lia) ltac:(lia)). lia. }
    unfold high_prec_dec__trim.
    cbn [num_digits digits decimal_point set_num_digits].
    rewrite Hfirst, Hdp3.
    pose proof (trim_loop_first (Z.to_nat wx') (digits h3) ltac:(lia)
                  ltac:(rewrite Hfirst; lia)).
    split_and!; try lia.
    intros E. assert (rx = 1) by lia. rewrite (Hone ltac:(assumption)).
    assert (2 ^ 1 <= 2 ^ s) by (apply Z.pow_le_mono_r; lia).
    apply Z.div_lt_upper_bound; [lia | ]. nia. }
  assert (Hgoal : 0 < num_digits h' /\ digit_get (digits h') 0 <> 0
                  /\ decimal_point h - 900 <= decimal_point h' <= decimal_point h
                  /\ (decimal_point h' = decimal_point h ->
                      digit_get (digits h') 0 < d0)).
  { unfold h', high_prec_dec__small_rshift.
    destruct (Z.to_nat (num_digits h)) as [|cnt] eqn:Ecnt; [lia | ].
    rewrite small_rshift_pick_first. fold d0.
    pose proof (small_rshift_pick_inv s Hs h (conj Hlen Hnd) (proj2 Hinv) cnt 1 d0
                  ltac:(lia) ltac:(lia) ltac:(lia)) as Hpick.
    pose proof (small_rshift_pick_pos cnt 1 d0 ltac:(lia) ltac:(lia) ltac:(lia))
      as Hppos.
    destruct (small_rshift_pick cnt s 1 d0 h) as [rx n].
    cbn [snd] in Hppos.
    destruct Hpick as (Hrx & Hn & Hsame & Hend).
    rewrite shr64_small by lia.
    destruct (Z.eqb_spec (n / 2 ^ s) 0) as [Hq|Hq]; cbn [andb].
    - destruct (Z.eqb_spec n 0) as [Hn0|_]; [lia | ].
      pose proof (small_rshift_zeroes_exit 64 rx n ltac:(lia) ltac:(lia) Hppos Hq)
        as Hz.
      destruct (small_rshift_zeroes 64 s rx n) as [rx' n'].
      destruct Hz as (Hrx' & Hn' & Hq').
      { change (Z.of_nat 64) with 64.
        assert (2 ^ 60 <= 10 ^ 64) by (vm_compute; discriminate). nia. }
      change (Z.of_nat 64) with 64 in Hrx'.
      eapply (Htail rx' n'); [lia | exact Hn' | exact Hq' | lia | reflexivity].
    - eapply (Htail rx n); [lia | exact Hn | exact Hq | | reflexivity].
      intros E. apply Hsame. exact E. }
  destruct Hgoal as (G1 & G2 & G3 & G4).
  split; [split_and!; assumption | split; assumption].
Qed.
End SmallRshiftLeading.

(** *** The carry out of [small_lshift] *)

Lemma digits_value_range (l : list Z) :
  Forall is_dec_digit l -> 0 <= digits_value l < 10 ^ Z.of_nat (length l).
Proof.
  induction 1 as [|d l Hd _ IH]; [cbn; lia | ].
  cbn [digits_value length]. rewrite Nat2Z.inj_succ, Z.pow_succ_r by lia.
  unfold is_dec_digit in Hd.
  assert (0 < 10 ^ Z.of_nat (length l)) by (apply Z.pow_pos_nonneg; lia).
  nia.
Qed.

(** Digit strings compare like the numbers they write, once both are padded
    to the same length. *)
Lemma lex_lt_value (a : list Z) :
  forall b : list Z,
    Forall is_dec_digit a -> Forall is_dec_digit b ->
    (forall n : nat, (n < length b)%nat -> 0 < digits_value (drop n b)) ->
    lex_lt a b = true ->
    digits_value a * 10 ^ Z.of_nat (length b)
    < digits_value b * 10 ^ Z.of_nat (length a).
Proof.
  induction a as [|x a IH]; intros b Ha Hb Hpos Hlex.
  - destruct b as [|y b]; [discriminate | ].
    specialize (Hpos 0%nat ltac:(cbn; lia)). rewrite drop_0 in Hpos.
    cbn [digits_value length] in *. change (Z.of_nat 0) with 0.
    rewrite Z.pow_0_r. lia.
  - destruct b as [|y b]; [discriminate | ].
    apply Forall_cons in Ha as [Hx Ha]. apply Forall_cons in Hb as [Hy Hb].
    pose proof (digits_value_range a Ha) as Ra.
    pose proof (digits_value_range b Hb) as Rb.
    cbn [digits_value length]. rewrite !Nat2Z.inj_succ, !Z.pow_succ_r by lia.
    set (A := 10 ^ Z.of_nat (length a)) in *.
    set (B := 10 ^ Z.of_nat (length b)) in *.
    assert (HA : 0 < A) by (apply Z.pow_pos_nonneg; lia).
    assert (HB : 0 < B) by (apply Z.pow_pos_nonneg; lia).
    cbn [lex_lt] in Hlex.
    destruct (Z.ltb_spec x y) as [Hlt|Hge].
    + assert (H1 : (x * A + digits_value a) * B < (x + 1) * A * B) by nia.
      assert (H2 : (x + 1) * A * B <= (y * B + digits_value b) * A) by nia.
      nia.
    + destruct (Z.ltb_spec y x) as [Hgt|Hle]; [discriminate | ].
      assert (x = y) as -> by lia.
      assert (IH' : digits_value a * B < digits_value b * A).
      { apply IH; [exact Ha | exact Hb | | exact Hlex].
        intros n Hn. apply (Hpos (S n)). cbn. lia. }
      nia.
Qed.

(** What the tables say about a shift by [s]: the digits of [5^s] write
    [5^s], none of their suffixes writes zero, the larger count of new digits
    and the length of [5^s] add up to [s + 1], and [2^s] has at most that
    many digits. *)
Lemma pow5_digits_facts (s : Z) :
  1 <= s <= 60 ->
  let b := decimal_digits (5 ^ s) in
  Forall is_dec_digit b
  /\ digits_value b = 5 ^ s
  /\ (forall n : nat, (n < length b)%nat -> 0 < digits_value (drop n b))
  /\ lshift_max_new_digits s - 1 + Z.of_nat (length b) = s
  /\ 2 ^ s < 10 ^ lshift_max_new_digits s.
Proof.
  intros Hs.
  assert (H : forallb (fun n : nat =>
                let s := Z.of_nat n + 1 in
                let b := decimal_digits (5 ^ s) in
                forallb (fun d => (0 <=? d) && (d <=? 9)) b
                && (digits_value b =? 5 ^ s)
                && forallb (fun n : nat => 0 <? digits_value (drop n b))
                     (seq 0 (length b))
                && (lshift_max_new_digits s - 1 + Z.of_nat (length b) =? s)
                && (2 ^ s <? 10 ^ lshift_max_new_digits s))
              (seq 0 60) = true) by (vm_compute; reflexivity).
  rewrite forallb_forall in H. specialize (H (Z.to_nat (s - 1))).
  rewrite <- list_elem_of_In, elem_of_seq in H.
  specialize (H ltac:(lia)). cbv zeta in H.
  replace (Z.of_nat (Z.to_nat (s - 1)) + 1) with s in H by lia.
  apply andb_true_iff in H. destruct H as [H H5].
  apply andb_true_iff in H. destruct H as [H H4].
  apply andb_true_iff in H. destruct H as [H H3].
  apply andb_true_iff in H. destruct H as [H1 H2].
  cbv zeta. split_and!; try lia.
  - rewrite forallb_forall in H1. apply Forall_forall. intros d Hd.
    apply list_elem_of_In in Hd. specialize (H1 d Hd). unfold is_dec_digit. lia.
  - rewrite forallb_forall in H3. intros n Hn.
    specialize (H3 n). rewrite <- list_elem_of_In, elem_of_seq in H3.
    specialize (H3 ltac:(lia)). lia.
Qed.

Lemma active_digits_dec (h : high_prec_dec) :
  hpd_wf h -> hpd_digits_ok h ->
  Forall is_dec_digit (hpd_active_digits h)
  /\ Z.of_nat (length (hpd_active_digits h)) = num_digits h.
Proof.
  intros [Hlen Hnd] Hok. unfold HPD__DIGITS_PRECISION in Hnd. split.
  - apply Forall_lookup_2. intros i x Hx. unfold hpd_active_digits in Hx.
    apply lookup_take_Some in Hx as [Hx Hi].
    rewrite <- (digit_get_lookup _ _ _ Hx). apply Hok. lia.
  - unfold hpd_active_digits. rewrite length_take. lia.
Qed.

(** The carry that the first loop leaves is below [10^k], for [k] the number
    of new digits: the second loop has room for all of it. *)
Lemma small_lshift_carry_bound (h : high_prec_dec) (s n : Z) :
  hpd_wf h -> hpd_digits_ok h -> 1 <= s <= 60 ->
  n * 10 ^ num_digits h <= digits_value (hpd_active_digits h) * 2 ^ s ->
  n < 10 ^ high_prec_dec__lshift_num_new_digits h s.
Proof.
  intros Hwf Hok Hs Hn.
  destruct (active_digits_dec h Hwf Hok) as [Hdec Hlen].
  destruct Hwf as [Hl Hnd]. unfold HPD__DIGITS_PRECISION in Hnd.
  rewrite lshift_num_new_digits_spec by (rewrite ?Hl; lia).
  destruct (pow5_digits_facts s Hs) as (Hb & Hv & Hsuf & HN & H2).
  cbv zeta in *.
  destruct (pow5_table_digits_ok s Hs) as (_ & _ & HNr & _).
  pose proof (digits_value_range _ Hdec) as HV. rewrite Hlen in HV.
  set (V := digits_value (hpd_active_digits h)) in *.
  set (D := 10 ^ num_digits h) in *.
  assert (HD : 0 < D) by (apply Z.pow_pos_nonneg; lia).
  assert (H2s : 0 < 2 ^ s) by (apply Z.pow_pos_nonneg; lia).
  destruct (lex_lt (hpd_active_digits h) (decimal_digits (5 ^ s))) eqn:Hlex.
  - pose proof (lex_lt_value _ _ Hdec Hb Hsuf Hlex) as Hlt.
    rewrite Hv, Hlen in Hlt. fold V D in Hlt.
    set (L := Z.of_nat (length (decimal_digits (5 ^ s)))) in *.
    set (K := 10 ^ (lshift_max_new_digits s - 1)).
    assert (HL : 0 < 10 ^ L) by (apply Z.pow_pos_nonneg; lia).
    assert (E : 2 ^ s * 5 ^ s = K * 10 ^ L).
    { unfold K. rewrite <- Z.pow_mul_l, <- Z.pow_add_r by lia.
      f_equal. lia. }
    apply Z.nle_gt. intros Hge.
    assert (K * D <= V * 2 ^ s) by nia.
    assert (K * D * 10 ^ L <= V * 2 ^ s * 10 ^ L) by nia.
    assert (V * 10 ^ L * 2 ^ s < 5 ^ s * D * 2 ^ s) by nia.
    nia.
  - apply Z.nle_gt. intros Hge.
    set (K := 10 ^ lshift_max_new_digits s) in *.
    assert (K * D <= V * 2 ^ s) by nia.
    assert (V * 2 ^ s < D * K) by nia.
    lia.
Qed.

(** The second loop writes the first digit last, and that digit is not
    zero. *)
Lemma small_lshift_lead_first (fuel : nat) :
  forall (t n : Z) (g : high_prec_dec),
    0 <= t < 800 -> t + 1 <= Z.of_nat fuel ->
    0 <= n < 10 ^ (t + 1) ->
    length (digits g) = 800%nat ->
    digit_get (digits g) 0 <> 0 ->
    digit_get (digits (small_lshift_lead fuel (u32 t) n g)) 0 <> 0.
Proof.
  induction fuel as [|fuel IH]; intros t n g Ht Hf Hn Hg H0; [lia | ].
  cbn [small_lshift_lead]. cbv zeta.
  destruct (Z.ltb_spec 0 n) as [Hpos|Hzero]; [ | exact H0].
  assert (Hrem : u64 (n - 10 * (n / 10)) = n mod 10).
  { pose proof (Z.div_mod n 10 ltac:(lia)).
    pose proof (Z.mod_pos_bound n 10 ltac:(lia)).
    rewrite u64_small; lia. }
  rewrite Hrem. pose proof (Z.mod_pos_bound n 10 ltac:(lia)) as Hm.
  rewrite (u32_small t) by lia.
  destruct (Z.ltb_spec t HPD__DIGITS_PRECISION);
    [ | unfold HPD__DIGITS_PRECISION in *; lia].
  rewrite u8_small by lia.
  destruct (Z.eq_dec t 0) as [->|Hne].
  - change (10 ^ (0 + 1)) with 10 in Hn.
    rewrite (Z.mod_small n 10), (Z.div_small n 10) by lia.
    assert (Hend : forall wx g1,
              small_lshift_lead fuel wx 0 g1 = g1) by (destruct fuel; reflexivity).
    rewrite Hend. cbn [digits set_digits].
    rewrite digit_get_set_same by lia. lia.
  - replace t with (t - 1 + 1) in Hn by lia.
    rewrite Z.pow_add_r in Hn by lia. change (10 ^ 1) with 10 in Hn.
    apply IH; [lia | lia | | cbn [digits set_digits]; rewrite length_digit_set; exact Hg | ].
    + split; [apply Z.div_pos; lia | apply Z.div_lt_upper_bound; lia].
    + cbn [digits set_digits]. rewrite digit_get_set_other by lia. exact H0.
Qed.

(** A left shift by 1 to 60 bits keeps the canonical form. It raises the
    decimal point by the number of new digits; when there is none, the first
    digit grows by the factor [2^s] at least. *)
Lemma small_lshift_canonical (h : high_prec_dec) (s : Z) :
  hpd_canonical h -> 1 <= s <= 60 ->
  -2047 <= decimal_point h <= 2047 ->
  let k := high_prec_dec__lshift_num_new_digits h s in
  let h' := high_prec_dec__small_lshift h s in
  hpd_canonical h' /\ 0 <= k <= 19
  /\ decimal_point h' = decimal_point h + k
  /\ (k = 0 -> 2 ^ s * digit_get (digits h) 0 <= digit_get (digits h') 0).
Proof.
  intros (Hwf & [Htrim Hok] & Hpos & Hd0) Hs Hdp k h'.
  pose proof Hwf as [Hlen Hnd]. unfold HPD__DIGITS_PRECISION in Hnd.
  assert (Ek : k = if lex_lt (hpd_active_digits h) (decimal_digits (5 ^ s))
                   then lshift_max_new_digits s - 1 else lshift_max_new_digits s).
  { apply lshift_num_new_digits_spec; [rewrite Hlen; lia | exact Hs]. }
  destruct (pow5_table_digits_ok s Hs) as (_ & _ & HN & _).
  assert (Hk : 0 <= k <= 19 /\ k <= lshift_max_new_digits s)
    by (rewrite Ek; destruct (lex_lt _ _); lia).
  destruct Hk as [Hk HkN].
  destruct (small_lshift_untrimmed_inv s Hs h Hwf Hok k Hk Htrim Hpos HkN eq_refl)
    as [Hwf' Hok'].
  destruct (small_lshift_untrimmed_fields h s k ltac:(unfold HPD__DIGITS_PRECISION; lia)
              eq_refl Hk) as (End & Edp & _).
  assert (Hfirst : digit_get (digits (small_lshift_untrimmed h s)) 0 <> 0
                   /\ (k = 0 -> 2 ^ s * digit_get (digits h) 0
                                <= digit_get (digits (small_lshift_untrimmed h s)) 0)).
  { unfold small_lshift_untrimmed. fold k.
    pose proof (pow2_le_60 s ltac:(lia)) as Hp.
    pose proof (small_lshift_pick_inv s Hs h Hwf Hok k Hk
                  (Z.to_nat (num_digits h)) 0 h
                  ltac:(lia) ltac:(lia) Hlen ltac:(reflexivity)) as Hpick.
    rewrite Z2Nat.id in Hpick by lia.
    destruct (small_lshift_pick (Z.to_nat (num_digits h)) s
                (u32 (num_digits h - 1 + k)) 0 h) as [[wx n] g].
    destruct Hpick as (Ewx & Hn & Hg & Hlow & _ & _ & Hub & Hgrow).
    { intros j Hj. lia. }
    { intros Hlt. lia. }
    { intros _. exact Htrim. }
    { rewrite (drop_active_nil h (num_digits h)) by lia. cbn [digits_value]. lia. }
    { intros E. lia. }
    pose proof (small_lshift_carry_bound h s n Hwf Hok Hs Hub) as Hc.
    fold k in Hc. subst wx.
    set (g' := small_lshift_lead 20 (u32 (k - 1)) n g).
    assert (Hg' : digit_get (digits g') 0 <> 0
                  /\ (k = 0 -> 2 ^ s * digit_get (digits h) 0
                               <= digit_get (digits g') 0)).
    { destruct (Z.eq_dec k 0) as [E0|Hne].
      - rewrite E0 in Hc. change (10 ^ 0) with 1 in Hc.
        assert (n = 0) as -> by lia.
        assert (Eg : g' = g) by reflexivity.
        rewrite Eg. specialize (Hgrow E0 eq_refl).
        assert (0 < 2 ^ s) by (apply Z.pow_pos_nonneg; lia).
        pose proof (Hok 0 ltac:(lia)).
        split; [nia | intros _; exact Hgrow].
      - split; [ | intros E; lia].
        apply small_lshift_lead_first;
          [lia | change (Z.of_nat 20) with 20; lia
          | replace (k - 1 + 1) with k by lia; lia | exact Hg | ].
        rewrite Hlow by lia. exact Hd0. }
    cbv zeta.
    assert (Hd : forall g1 : high_prec_dec,
              digits g1 = digits g' ->
              digit_get (digits g1) 0 <> 0
              /\ (k = 0 -> 2 ^ s * digit_get (digits h) 0
                           <= digit_get (digits g1) 0)).
    { intros g1 ->. exact Hg'. }
    apply Hd. destruct (HPD__DIGITS_PRECISION <? _); reflexivity. }
  destruct Hfirst as [Hnz Hgrow].
  assert (Esl : h' = high_prec_dec__trim (small_lshift_untrimmed h s)).
  { unfold h', high_prec_dec__small_lshift.
    destruct (Z.eqb_spec (num_digits h) 0); [lia | reflexivity]. }
  destruct (trim_canonical (small_lshift_untrimmed h s) Hwf' Hok'
              ltac:(rewrite End; unfold HPD__DIGITS_PRECISION; lia) Hnz) as (Hcan & Edp' & Edig).
  rewrite Esl. split; [exact Hcan | split; [exact Hk | split]].
  - rewrite Edp', Edp. apply i32_small. lia.
  - rewrite Edig. exact Hgrow.
Qed.

(** *** The two scaling loops end *)

Lemma powers_range (n : Z) :
  1 <= n < num_powers -> 3 <= digit_get powers n <= 59.
Proof.
  intros Hn. unfold num_powers in Hn.
  assert (H : forallb (fun i : nat =>
                let n := Z.of_nat i + 1 in
                (3 <=? digit_get powers n) && (digit_get powers n <=? 59))
              (seq 0 18) = true) by (vm_compute; reflexivity).
  rewrite forallb_forall in H. specialize (H (Z.to_nat (n - 1))).
  rewrite <- list_elem_of_In, elem_of_seq in H.
  specialize (H ltac:(lia)). cbv zeta in H.
  replace (Z.of_nat (Z.to_nat (n - 1)) + 1) with n in H by lia. lia.
Qed.

Lemma powers_shift_range (n : Z) :
  1 <= n ->
  1 <= (if n <? num_powers then digit_get powers n else HPD__SHIFT__MAX_INCL)
    <= 60.
Proof.
  intros Hn. destruct (Z.ltb_spec n num_powers) as [Hlt|Hge].
  - pose proof (powers_range n ltac:(lia)). lia.
  - unfold HPD__SHIFT__MAX_INCL. lia.
Qed.

Lemma canonical_first_digit (h : high_prec_dec) :
  hpd_canonical h -> 1 <= digit_get (digits h) 0 <= 9.
Proof.
  intros (_ & [_ Hok] & Hpos & Hnz). specialize (Hok 0 ltac:(lia)). lia.
Qed.

(** The right loop: with fuel for [10 * decimal_point + first digit] rounds
    it leaves by its own test, at a decimal point that is not positive, and
    more fuel changes nothing. *)
Lemma parse_shift_right_loop_ends (fuel : nat) :
  forall (h : high_prec_dec) (e : Z),
    hpd_canonical h -> -900 <= decimal_point h <= 2047 ->
    (0 < decimal_point h ->
     10 * decimal_point h + digit_get (digits h) 0 <= Z.of_nat fuel) ->
    exists h' e',
      (forall extra : nat,
          parse_shift_right_loop (fuel + extra) h e = scaled_next h' e')
      /\ hpd_canonical h' /\ -900 <= decimal_point h' <= 0.
Proof.
  assert (Hstop : forall (n : nat) h e,
            decimal_point h <= 0 ->
            parse_shift_right_loop n h e = scaled_next h e).
  { intros [|n] h e Hle; [reflexivity | ].
    cbn [parse_shift_right_loop].
    destruct (Z.ltb_spec 0 (decimal_point h)); [lia | reflexivity]. }
  induction fuel as [|fuel IH]; intros h e Hcan Hdp Hfuel.
  - pose proof (canonical_first_digit h Hcan) as Hd.
    assert (Hle : decimal_point h <= 0).
    { destruct (Z.le_gt_cases (decimal_point h) 0) as [H|H]; [exact H | ].
      specialize (Hfuel H). change (Z.of_nat 0) with 0 in Hfuel. lia. }
    exists h, e. split; [intros extra; apply Hstop, Hle | split; [exact Hcan | lia]].
  - destruct (Z.le_gt_cases (decimal_point h) 0) as [Hle|Hgt].
    { exists h, e.
      split; [intros extra; apply Hstop, Hle | split; [exact Hcan | lia]]. }
    specialize (Hfuel Hgt).
    pose proof (canonical_first_digit h Hcan) as Hd.
    set (shift := if u32 (decimal_point h) <? num_powers
                  then digit_get powers (u32 (decimal_point h))
                  else HPD__SHIFT__MAX_INCL).
    assert (Hshift : 1 <= shift <= 60).
    { unfold shift. rewrite (u32_small (decimal_point h)) by lia.
      apply powers_shift_range. lia. }
    pose proof (small_rshift_canonical shift Hshift h Hcan ltac:(lia))
      as Hstep.
    cbv zeta in Hstep. destruct Hstep as (Hcan1 & Hdp1 & Hless).
    set (h1 := high_prec_dec__small_rshift h shift) in *.
    pose proof (canonical_first_digit h1 Hcan1) as Hd1.
    destruct (IH h1 (i32 (e + i32 shift)) Hcan1 ltac:(lia)) as (h' & e' & Hrun & Hres).
    { intros Hpos1. rewrite Nat2Z.inj_succ in Hfuel.
      destruct (Z.eq_dec (decimal_point h1) (decimal_point h)) as [E|NE].
      - specialize (Hless E). lia.
      - lia. }
    exists h', e'. split; [ | exact Hres].
    intros extra. change (S fuel + extra)%nat with (S (fuel + extra)).
    cbn [parse_shift_right_loop].
    destruct (Z.ltb_spec 0 (decimal_point h)); [ | lia].
    cbv zeta. fold shift. fold h1.
    destruct (Z.ltb_spec (decimal_point h1) (- HPD__DECIMAL_POINT__RANGE)) as [Hz|_].
    { unfold HPD__DECIMAL_POINT__RANGE in Hz. lia. }
    apply Hrun.
Qed.

(** The left loop: with fuel for [10 * (- decimal_point) + 9 - first digit]
    rounds it leaves by one of its own two tests, with the decimal in
    [1/2, 10^19), and more fuel changes nothing. *)
Lemma parse_shift_left_loop_ends (fuel : nat) :
  forall (h : high_prec_dec) (e : Z),
    hpd_canonical h -> -2000 <= decimal_point h <= 19 ->
    (decimal_point h <= 0 ->
     10 * (- decimal_point h) + 9 - digit_get (digits h) 0 <= Z.of_nat fuel) ->
    exists h' e',
      (forall extra : nat,
          parse_shift_left_loop (fuel + extra) h e = scaled_next h' e')
      /\ hpd_canonical h'
      /\ (0 < decimal_point h' <= 19
          \/ (decimal_point h' = 0 /\ 5 <= digit_get (digits h') 0)).
Proof.
  assert (Hstop : forall (n : nat) h e,
            0 < decimal_point h
            \/ (decimal_point h = 0 /\ 5 <= digit_get (digits h) 0) ->
            parse_shift_left_loop n h e = scaled_next h e).
  { intros [|n] h e Hex; [reflexivity | ].
    cbn [parse_shift_left_loop].
    destruct (Z.leb_spec (decimal_point h) 0) as [Hle|Hgt]; [ | reflexivity].
    destruct Hex as [Hpos|[E0 H5]]; [lia | ].
    destruct (Z.eqb_spec (decimal_point h) 0); [ | lia].
    destruct (Z.leb_spec 5 (digit_get (digits h) 0)); [reflexivity | lia]. }
  induction fuel as [|fuel IH]; intros h e Hcan Hdp Hfuel;
    pose proof (canonical_first_digit h Hcan) as Hd.
  - assert (Hex : 0 < decimal_point h
                  \/ (decimal_point h = 0 /\ 5 <= digit_get (digits h) 0)).
    { destruct (Z.le_gt_cases (decimal_point h) 0) as [H|H]; [ | left; exact H].
      specialize (Hfuel H). change (Z.of_nat 0) with 0 in Hfuel. lia. }
    exists h, e.
    split; [intros extra; apply Hstop, Hex | split; [exact Hcan | lia]].
  - destruct (Z.le_gt_cases (decimal_point h) 0) as [Hle|Hgt];
      [ | exists h, e; split; [intros extra; apply Hstop; lia
                              | split; [exact Hcan | lia]]].
    destruct (Z.le_gt_cases 5 (digit_get (digits h) 0)) as [H5|H5];
      [destruct (Z.eq_dec (decimal_point h) 0) as [E0|N0];
       [exists h, e; split; [intros extra; apply Hstop; lia
                            | split; [exact Hcan | lia]] | ] | ].
    all: specialize (Hfuel Hle); rewrite Nat2Z.inj_succ in Hfuel.
    all: set (shift := if decimal_point h =? 0
                       then (if digit_get (digits h) 0 <=? 2 then 2 else 1)
                       else if u32 (- decimal_point h) <? num_powers
                            then digit_get powers (u32 (- decimal_point h))
                            else HPD__SHIFT__MAX_INCL).
    all: assert (Hshift : 1 <= shift <= 60)
      by (unfold shift; destruct (Z.eqb_spec (decimal_point h) 0);
          [destruct (digit_get (digits h) 0 <=? 2); lia
          | rewrite (u32_small (- decimal_point h)) by lia;
            apply powers_shift_range; lia]).
    all: pose proof (small_lshift_canonical h shift Hcan Hshift ltac:(lia))
      as Hstep; cbv zeta in Hstep;
      destruct Hstep as (Hcan1 & Hk & Hdp1 & Hgrow);
      set (k := high_prec_dec__lshift_num_new_digits h shift) in *;
      set (h1 := high_prec_dec__small_lshift h shift) in *;
      pose proof (canonical_first_digit h1 Hcan1) as Hd1;
      assert (H2s : 2 ^ 1 <= 2 ^ shift) by (apply Z.pow_le_mono_r; lia);
      change (2 ^ 1) with 2 in H2s.
    all: destruct (IH h1 (i32 (e - i32 shift)) Hcan1 ltac:(lia))
      as (h' & e' & Hrun & Hres);
      [intros Hle1; destruct (Z.eq_dec k 0) as [E|NE];
       [specialize (Hgrow E); nia | lia] | ].
    all: exists h', e'; split; [ | exact Hres].
    all: intros extra; change (S fuel + extra)%nat with (S (fuel + extra));
      cbn [parse_shift_left_loop];
      destruct (Z.leb_spec (decimal_point h) 0); [ | lia].
    all: assert (Econd : (decimal_point h =? 0)
                         && (5 <=? digit_get (digits h) 0) = false)
      by (apply andb_false_iff;
          destruct (Z.eqb_spec (decimal_point h) 0);
          destruct (Z.leb_spec 5 (digit_get (digits h) 0)); auto; lia).
    all: rewrite Econd; cbv zeta; fold shift; fold h1.
    all: destruct (Z.ltb_spec HPD__DECIMAL_POINT__RANGE (decimal_point h1))
      as [Hinf|_]; [unfold HPD__DECIMAL_POINT__RANGE in Hinf; lia | ].
    all: apply Hrun.
Qed.

(** *** The slow path runs its loops to their end *)

(** [parse] never stores a leading zero: it lowers the decimal point
    instead. *)
Lemma parse_digits_loop_first (p : list Z) :
  forall st st' p',
    pds_ok st ->
    (0 < pds_nd st -> digit_get (pds_digits st) 0 <> 0) ->
    parse_digits_loop p st = digits_left st' p' ->
    0 < pds_nd st' -> digit_get (pds_digits st') 0 <> 0.
Proof.
  induction p as [|c p IH]; intros st st' p' Hst H0 Hp.
  - cbn in Hp. injection Hp as <- _. exact H0.
  - destruct st as [nd dp sd snz sdot tr ds]. cbn [parse_digits_loop] in Hp.
    cbn [pds_nd pds_digits] in H0.
    pose proof Hst as (Hlen & Hnd & _). cbn in Hlen, Hnd.
    unfold HPD__DIGITS_PRECISION in Hnd.
    assert (Hpush : forall v, v <> 0 \/ 0 < nd -> nd < 800 ->
              0 < u32 (nd + 1) -> digit_get (digit_set ds nd v) 0 <> 0).
    { intros v Hv Hlt _. destruct (Z.eq_dec nd 0) as [->|Hne].
      - rewrite digit_get_set_same by lia. destruct Hv; [assumption | lia].
      - rewrite digit_get_set_other by lia. apply H0. lia. }
    destruct (c =? ch "_"); [eapply IH; eauto | ].
    destruct ((c =? ch ".") || (c =? ch ",")).
    { destruct sdot; [discriminate | ].
      eapply IH; [ | | exact Hp]; [eapply pds_ok_keep, Hst | exact H0]. }
    destruct (ch "0" =? c).
    { destruct (negb sdot && negb snz && sd); [discriminate | ].
      destruct (Z.eqb_spec nd 0).
      { eapply IH; [ | | exact Hp]; [eapply pds_ok_keep, Hst | exact H0]. }
      destruct (Z.ltb_spec nd HPD__DIGITS_PRECISION) as [Hlt|Hge].
      - eapply IH; [ | | exact Hp].
        + eapply pds_ok_push; [exact Hst | assumption | unfold is_dec_digit; lia].
        + cbn [pds_nd pds_digits]. apply Hpush;
            [right; lia | unfold HPD__DIGITS_PRECISION in Hlt; lia].
      - eapply IH; [ | | exact Hp]; [eapply pds_ok_keep, Hst | exact H0]. }
    destruct (Z.ltb_spec (ch "0") c) as [Hc0|Hc0]; cbn [andb] in Hp;
      [ | injection Hp as <- _; exact H0].
    destruct (Z.leb_spec c (ch "9")) as [H9|H9];
      [ | injection Hp as <- _; exact H0].
    destruct (negb sdot && negb snz && sd); [discriminate | ].
    change (ch "0") with 48 in *. change (ch "9") with 57 in *.
    destruct (Z.ltb_spec nd HPD__DIGITS_PRECISION) as [Hlt|Hge].
    + eapply IH; [ | | exact Hp].
      * eapply pds_ok_push; [exact Hst | assumption | ].
        rewrite u8_small by lia. unfold is_dec_digit. lia.
      * cbn [pds_nd pds_digits]. apply Hpush;
          [left; rewrite u8_small by lia; lia
          | unfold HPD__DIGITS_PRECISION in Hlt; lia].
    + eapply IH; [ | | exact Hp]; [eapply pds_ok_keep, Hst | exact H0].
Qed.

(** A decimal that [parse] accepts has no digits or is canonical, and its
    decimal point is within 2048 of zero. *)
Lemma parse_canonical (h : high_prec_dec) (s : list Z) (h' : high_prec_dec) :
  length (digits h) = 800%nat ->
  high_prec_dec__parse (Some h) s = (None, Some h') ->
  -2048 <= decimal_point h' <= 2048
  /\ (num_digits h' = 0 \/ hpd_canonical h').
Proof.
  intros Hlen. unfold high_prec_dec__parse, make_status.
  destruct (skip_underscores s) as [|c p']; [discriminate | ].
  set (h0 := mk_hpd 0 0 false false (digits h)).
  assert (Hsign : exists neg p,
            (if c =? ch "+" then (h0, skip_underscores p')
             else if c =? ch "-" then (set_negative h0 true, skip_underscores p')
             else (h0, c :: p'))
            = (mk_hpd 0 0 neg false (digits h), p)).
  { destruct (c =? ch "+"); [ | destruct (c =? ch "-")]; eexists; eexists;
      reflexivity. }
  destruct Hsign as (neg & p & ->). cbn [truncated digits].
  assert (Hst0 : pds_ok (mk_pds 0 0 false false false false (digits h))).
  { split; [exact Hlen | split; cbn; [unfold HPD__DIGITS_PRECISION; lia | lia]]. }
  destruct (parse_digits_loop p _) as [st p1|[? ? ? ? ? ? ?]] eqn:Eloop; [ | discriminate].
  pose proof (parse_digits_loop_ok _ _ _ _ Hst0 Eloop) as Hst.
  pose proof (parse_digits_loop_first _ _ _ _ Hst0 ltac:(cbn; lia) Eloop) as Hfst.
  destruct st as [nd dp sd snz sdot tr ds]. destruct Hst as (Hds & Hnd & Hdig).
  cbn in Hds, Hnd, Hdig, Hfst.
  destruct (negb sd); [discriminate | ].
  destruct (parse_exponent p1 _) as [[dp' p2]|]; [ | discriminate].
  destruct (negb (is_nil p2)); [discriminate | ].
  intros E. injection E as <-.
  set (g := if nd =? 0 then _ else _).
  assert (Hg : num_digits g = nd /\ digits g = ds
               /\ -2048 <= decimal_point g <= 2048).
  { unfold g, HPD__DECIMAL_POINT__RANGE.
    destruct (nd =? 0); [cbn; split_and!; try reflexivity; lia | ].
    destruct (Z.ltb_spec dp' (Z.opp 2047)); [cbn; split_and!; try reflexivity; lia | ].
    destruct (Z.ltb_spec 2047 dp'); cbn; split_and!; try reflexivity; lia. }
  destruct Hg as (End & Edig & Hdp).
  split; [exact Hdp | ].
  destruct (Z.eq_dec nd 0) as [E0|N0].
  - left. unfold high_prec_dec__trim. cbn [num_digits set_num_digits].
    rewrite End, E0. reflexivity.
  - right. apply trim_canonical.
    + split; [rewrite Edig; exact Hds | rewrite End; exact Hnd].
    + intros i Hi. rewrite End in Hi. rewrite Edig. apply Hdig, Hi.
    + rewrite End. lia.
    + rewrite Edig. apply Hfst. lia.
Qed.

(** On the slow path, both scaling loops of [parse_number_f64] run with the
    fuel that the model gives them until their own tests end them: neither
    takes the exit to zero or to infinity, more fuel changes nothing, and
    the decimal that is left is in [1/2, 10^19). *)
Lemma parse_number_f64_slow_scaling (h : high_prec_dec) :
  hpd_canonical h -> -326 <= decimal_point h <= 310 ->
  exists h1 e1 h2 e2,
    (forall extra : nat,
        parse_shift_right_loop
          (Z.to_nat (10 * decimal_point h + 10) + extra) h 0
        = scaled_next h1 e1)
    /\ (forall extra : nat,
           parse_shift_left_loop
             (Z.to_nat (10 * (- decimal_point h1) + 10) + extra) h1 e1
           = scaled_next h2 e2)
    /\ hpd_canonical h2
    /\ (0 < decimal_point h2 <= 19
        \/ (decimal_point h2 = 0 /\ 5 <= digit_get (digits h2) 0)).
Proof.
  intros Hcan Hdp.
  pose proof (canonical_first_digit h Hcan) as Hd.
  destruct (parse_shift_right_loop_ends
              (Z.to_nat (10 * decimal_point h + 10)) h 0 Hcan ltac:(lia))
    as (h1 & e1 & Hrun1 & Hcan1 & Hdp1); [intros Hpos; lia | ].
  pose proof (canonical_first_digit h1 Hcan1) as Hd1.
  destruct (parse_shift_left_loop_ends
              (Z.to_nat (10 * (- decimal_point h1) + 10)) h1 e1 Hcan1 ltac:(lia))
    as (h2 & e2 & Hrun2 & Hcan2 & Hend); [intros Hle; lia | ].
  exists h1, e1, h2, e2. split_and!; assumption.
Qed.

(** The loops of [lshift] take 60 bits per round; the counts that bound
    them are enough to bring the shift within 60. *)
Lemma lshift_left_loop_ends (cnt : nat) :
  forall (h : high_prec_dec) (shift : Z),
    0 < shift < 2 ^ 31 -> shift / HPD__SHIFT__MAX_INCL <= Z.of_nat cnt ->
    0 < snd (lshift_left_loop cnt h shift) <= HPD__SHIFT__MAX_INCL.
Proof.
  unfold HPD__SHIFT__MAX_INCL.
  induction cnt as [|cnt IH]; intros h shift Hs Hc; cbn [lshift_left_loop].
  - change (Z.of_nat 0) with 0 in Hc.
    assert (shift < 60) by (pose proof (Z.div_mod shift 60 ltac:(lia));
                            pose proof (Z.mod_pos_bound shift 60 ltac:(lia));
                            pose proof (Z.div_pos shift 60 ltac:(lia) ltac:(lia));
                            lia).
    cbn [snd]. lia.
  - unfold HPD__SHIFT__MAX_INCL.
    destruct (Z.ltb_spec 60 shift) as [Hgt|Hle]; [ | cbn [snd]; lia].
    rewrite i32_small by lia. apply IH; [lia | ].
    replace shift with (shift - 60 + 1 * 60) in Hc by lia.
    rewrite Z.div_add in Hc by lia. lia.
Qed.

Lemma lshift_right_loop_ends (cnt : nat) :
  forall (h : high_prec_dec) (shift : Z),
    - 2 ^ 31 < shift < 0 -> - shift / HPD__SHIFT__MAX_INCL <= Z.of_nat cnt ->
    - HPD__SHIFT__MAX_INCL <= snd (lshift_right_loop cnt h shift) < 0.
Proof.
  unfold HPD__SHIFT__MAX_INCL.
  induction cnt as [|cnt IH]; intros h shift Hs Hc; cbn [lshift_right_loop].
  - change (Z.of_nat 0) with 0 in Hc.
    assert (- shift < 60) by (pose proof (Z.div_mod (- shift) 60 ltac:(lia));
                              pose proof (Z.mod_pos_bound (- shift) 60 ltac:(lia));
                              pose proof (Z.div_pos (- shift) 60 ltac:(lia) ltac:(lia));
                              lia).
    cbn [snd]. lia.
  - unfold HPD__SHIFT__MAX_INCL.
    destruct (Z.ltb_spec shift (Z.opp 60)) as [Hlt|Hge]; [ | cbn [snd]; lia].
    rewrite i32_small by lia. apply IH; [lia | ].
    replace (- shift) with (- (shift + 60) + 1 * 60) in Hc by lia.
    rewrite Z.div_add in Hc by lia. lia.
Qed.

(** ** The result of [parse_number_f64] *)

Lemma parse_number_f64_slow_ends (h : high_prec_dec) :
  hpd_canonical h -> -326 <= decimal_point h <= 310 -> slow_scaling_ends h.
Proof.
  intros Hcan Hdp.
  destruct (parse_number_f64_slow_scaling h Hcan Hdp)
    as (h1 & e1 & h2 & e2 & Hr & Hl & _).
  exists h1, e1, h2, e2. split; [exact Hr | split; [exact Hl | ]].
  intros extra. pose proof (i32_range (e2 - 1)) as He.
  apply parse_subnormal_loop_fuel; lia.
Qed.

(** C10. [parse_number_f64] returns a null status or the bad argument
    status, never the bad receiver status nor the status of a failed fast
    path: the receiver that it hands to [high_prec_dec__parse] is not NULL,
    and a failure of the fast path is followed by the slow path, whose
    status is null. The slow path does return: whenever the decimal that
    [high_prec_dec__parse] produced has digits and a decimal point from -326
    to 310, which is when the slow path can be entered, its loops end. *)
Theorem parse_number_f64_status (s : list Z) :
  (result_status (parse_number_f64 s) = None
   \/ result_status (parse_number_f64 s) = Some error__bad_argument)
  /\ result_status (parse_number_f64 s) <> Some error__bad_receiver
  /\ result_status (parse_number_f64 s) <> Some error__mpb_failed
  /\ (forall h : high_prec_dec,
         high_prec_dec__parse (Some hpd_stack) s = (None, Some h) ->
         num_digits h <> 0 -> -326 <= decimal_point h <= 310 ->
         slow_scaling_ends h).
Proof.
  assert (H : result_status (parse_number_f64 s) = None
              \/ result_status (parse_number_f64 s) = Some error__bad_argument).
  { unfold parse_number_f64.
    pose proof (high_prec_dec__parse_status hpd_stack s) as Hst.
    destruct (high_prec_dec__parse_receiver hpd_stack s) as [h' Hh'].
    destruct (high_prec_dec__parse (Some hpd_stack) s) as [st oh].
    cbn [fst snd] in *. subst oh.
    destruct Hst as [-> | ->].
    - destruct ((num_digits h' =? 0) || (decimal_point h' <? -326));
        [left; reflexivity | ].
      destruct (310 <? decimal_point h'); [left; reflexivity | ].
      destruct (result_status (medium_prec_bin__parse_number_f64 _ h' false))
        eqn:E; [ | left; exact E].
      left. apply parse_number_f64_slow_status.
    - apply parse_number_f64_special_status. }
  split; [exact H | ].
  split; [destruct H as [-> | ->]; discriminate | ].
  split; [destruct H as [-> | ->]; discriminate | ].
  intros h Hp Hnd Hdp.
  destruct (parse_canonical hpd_stack s h eq_refl Hp) as (_ & [Hz|Hcan]);
    [contradiction | ].
  apply parse_number_f64_slow_ends; assumption.
Qed.

Lemma parse_number_f64_status_witness :
  exists h : high_prec_dec,
    high_prec_dec__parse (Some hpd_stack)
      (bytes_of_string "2251799813685248.75") = (None, Some h)
    /\ num_digits h <> 0 /\ -326 <= decimal_point h <= 310
    /\ slow_scaling_ends h.
Proof.
  eexists. split; [vm_compute; reflexivity | ].
  split; [vm_compute; discriminate | ].
  split; [vm_compute; split; discriminate | ].
  apply (proj2 (proj2 (proj2
           (parse_number_f64_status (bytes_of_string "2251799813685248.75"))))).
  - vm_compute. reflexivity.
  - vm_compute. discriminate.
  - vm_compute. split; discriminate.
Defined.

(** * Further properties of the code *)

(** ** The number that a high precision decimal holds *)

Lemma digits_value_app (l1 l2 : list Z) :
  digits_value (l1 ++ l2)
  = digits_value l1 * 10 ^ Z.of_nat (length l2) + digits_value l2.
Proof.
  induction l1 as [|d l1 IH]; [cbn; lia | ].
  cbn [app digits_value]. rewrite IH, length_app, Nat2Z.inj_add.
  rewrite Z.pow_add_r by lia. ring.
Qed.

Lemma take_S_digit (ds : list Z) (k : nat) :
  (k < length ds)%nat -> take (S k) ds = take k ds ++ [digit_get ds (Z.of_nat k)].
Proof.
  intros Hk. destruct (lookup_lt_is_Some_2 ds k Hk) as [x Hx].
  rewrite (digit_get_lookup _ _ _ Hx). apply take_S_r, Hx.
Qed.

Lemma take_digit_get_ext (l1 l2 : list Z) (n : nat) :
  (n <= length l1)%nat -> (n <= length l2)%nat ->
  (forall i : nat, (i < n)%nat ->
     digit_get l1 (Z.of_nat i) = digit_get l2 (Z.of_nat i)) ->
  take n l1 = take n l2.
Proof.
  revert l1 l2. induction n as [|n IH]; intros l1 l2 H1 H2 Hext; [reflexivity | ].
  rewrite !take_S_digit by lia. rewrite (Hext n) by lia.
  f_equal. apply IH; [lia | lia | ]. intros i Hi. apply Hext. lia.
Qed.

Lemma trim_loop_value (n : nat) (ds : list Z) :
  (n <= length ds)%nat ->
  digits_value (take n ds)
  = digits_value (take (trim_loop n ds) ds)
    * 10 ^ (Z.of_nat n - Z.of_nat (trim_loop n ds)).
Proof.
  induction n as [|n IH]; intros Hn; [cbn; lia | ].
  cbn [trim_loop].
  destruct (Z.eqb_spec (digit_get ds (Z.of_nat n)) 0) as [E|N].
  - rewrite take_S_digit by lia. rewrite digits_value_app, E, IH by lia.
    cbn [length digits_value]. change (10 ^ Z.of_nat 1) with 10.
    pose proof (trim_loop_le n ds).
    replace (Z.of_nat (S n) - Z.of_nat (trim_loop n ds))
      with (Z.of_nat n - Z.of_nat (trim_loop n ds) + 1) by lia.
    rewrite Z.pow_add_r by lia. lia.
  - rewrite Z.sub_diag. lia.
Qed.

Lemma trim_loop_idem (n : nat) (ds : list Z) :
  trim_loop (trim_loop n ds) ds = trim_loop n ds.
Proof.
  induction n as [|n IH]; [reflexivity | ].
  cbn [trim_loop].
  destruct (Z.eqb_spec (digit_get ds (Z.of_nat n)) 0) as [E|N]; [exact IH | ].
  cbn [trim_loop]. destruct (Z.eqb_spec (digit_get ds (Z.of_nat n)) 0); [lia | reflexivity].
Qed.

Lemma trim_value (h : high_prec_dec) :
  hpd_wf h ->
  digits_value (hpd_active_digits h)
  = digits_value (hpd_active_digits (high_prec_dec__trim h))
    * 10 ^ (num_digits h - num_digits (high_prec_dec__trim h)).
Proof.
  intros [Hlen Hnd]. unfold HPD__DIGITS_PRECISION in Hnd.
  unfold hpd_active_digits, high_prec_dec__trim.
  cbn [num_digits digits set_num_digits]. rewrite Nat2Z.id.
  rewrite (trim_loop_value (Z.to_nat (num_digits h)) (digits h)) by lia.
  rewrite Z2Nat.id by lia. reflexivity.
Qed.

(** X1. [trim] drops trailing zero digits only: the digits that are left
    write the same number once the dropped zeroes are put back, the last of
    them is not zero, no other field changes, and trimming again changes
    nothing. *)
Theorem trim_keeps_value (h : high_prec_dec) :
  hpd_wf h ->
  let h' := high_prec_dec__trim h in
  hpd_trimmed h'
  /\ 0 <= num_digits h' <= num_digits h
  /\ digits_value (hpd_active_digits h)
     = digits_value (hpd_active_digits h') * 10 ^ (num_digits h - num_digits h')
  /\ decimal_point h' = decimal_point h /\ negative h' = negative h
  /\ truncated h' = truncated h /\ digits h' = digits h
  /\ high_prec_dec__trim h' = h'.
Proof.
  intros Hwf h'. pose proof (trim_value h Hwf) as Hv.
  destruct Hwf as [Hlen Hnd].
  pose proof (trim_loop_le (Z.to_nat (num_digits h)) (digits h)) as Hle.
  pose proof (trim_loop_last (Z.to_nat (num_digits h)) (digits h)) as Hlast.
  split_and!; try reflexivity.
  - unfold hpd_trimmed, h', high_prec_dec__trim. cbn [num_digits digits set_num_digits].
    destruct Hlast as [E|N]; [left; lia | right; exact N].
  - unfold h', high_prec_dec__trim. cbn. lia.
  - unfold h', high_prec_dec__trim. cbn. lia.
  - exact Hv.
  - unfold h', high_prec_dec__trim. cbn [num_digits digits set_num_digits].
    rewrite Nat2Z.id, trim_loop_idem. reflexivity.
Qed.

Lemma trim_keeps_value_witness :
  let h := mk_hpd 3 1 false false ([1; 2; 0] ++ replicate 797 0) in
  hpd_wf h /\ num_digits (high_prec_dec__trim h) = 2
  /\ digits_value (hpd_active_digits h)
     = digits_value (hpd_active_digits (high_prec_dec__trim h)) * 10 ^ (3 - 2).
Proof.
  intros h.
  assert (Hwf : hpd_wf h) by (split; [reflexivity | vm_compute; split; discriminate]).
  split; [exact Hwf | split; [reflexivity | ]].
  exact (proj1 (proj2 (proj2 (trim_keeps_value h Hwf)))).
Defined.

(** ** [assign] *)

Lemma memcpy_loop_copied (len : nat) :
  forall dst d src s i,
    0 <= d -> d <= i < d + Z.of_nat len -> i < Z.of_nat (length dst) ->
    digit_get (memcpy_loop len dst d src s) i = digit_get src (s + (i - d)).
Proof.
  induction len as [|len IH]; intros dst d src s i Hd Hi Hlen; [lia | ].
  cbn [memcpy_loop].
  destruct (Z.eq_dec i d) as [->|Hne].
  - rewrite memcpy_loop_below by lia.
    rewrite digit_get_set_same by lia. f_equal. lia.
  - rewrite IH by (rewrite ?length_digit_set; lia). f_equal. lia.
Qed.

Lemma digit_get_drop (l : list Z) (p i : nat) :
  digit_get (drop p l) (Z.of_nat i) = digit_get l (Z.of_nat (p + i)).
Proof. unfold digit_get. rewrite !Nat2Z.id, lookup_drop. reflexivity. Qed.

(** The digit loop of [assign] writes the decimal digits of [x], the most
    significant one last, and counts them. *)
Lemma assign_loop_value (fuel : nat) :
  forall (x ptr : Z) (buf : list Z) (n X : Z),
    0 < x < 10 ^ Z.of_nat fuel -> x < 2 ^ 64 ->
    0 <= n -> ptr = 20 - n -> n + Z.of_nat fuel <= 20 ->
    length buf = 40%nat -> Forall is_dec_digit buf ->
    X = x * 10 ^ n + digits_value (take (Z.to_nat n) (drop (Z.to_nat ptr) buf)) ->
    let '(ptr', buf', n') := assign_loop fuel x ptr buf n in
    ptr' = 20 - n' /\ n < n' <= n + Z.of_nat fuel
    /\ length buf' = 40%nat /\ Forall is_dec_digit buf'
    /\ X = digits_value (take (Z.to_nat n') (drop (Z.to_nat ptr') buf'))
    /\ 10 ^ (n' - 1) <= X.
Proof.
  induction fuel as [|fuel IH]; intros x ptr buf n X Hx Hx64 Hn Hptr Hroom Hlen Hbuf HX.
  - change (10 ^ Z.of_nat 0) with 1 in Hx. lia.
  - cbn [assign_loop]. cbv zeta.
    assert (Hrem : u64 (x - x / 10 * 10) = x mod 10).
    { rewrite u64_small; pose proof (Z.mod_pos_bound x 10 ltac:(lia));
        pose proof (Z.div_mod x 10 ltac:(lia)); lia. }
    rewrite Hrem.
    pose proof (Z.mod_pos_bound x 10 ltac:(lia)) as Hm.
    pose proof (Z.div_mod x 10 ltac:(lia)) as Hdm.
    rewrite (u8_small (x mod 10)) by lia.
    rewrite (u32_small (n + 1)) by lia.
    set (buf1 := digit_set buf (ptr - 1) (x mod 10)).
    assert (Hbuf1 : Forall is_dec_digit buf1)
      by (apply digit_set_dec; [exact Hbuf | unfold is_dec_digit; lia]).
    assert (Hlen1 : length buf1 = 40%nat)
      by (unfold buf1; rewrite length_digit_set; exact Hlen).
    assert (Hval : digits_value (take (Z.to_nat (n + 1)) (drop (Z.to_nat (ptr - 1)) buf1))
                   = x mod 10 * 10 ^ n
                     + digits_value (take (Z.to_nat n) (drop (Z.to_nat ptr) buf))).
    { assert (E1 : drop (Z.to_nat (ptr - 1)) buf1
                   = x mod 10 :: drop (Z.to_nat ptr) buf).
      { replace (Z.to_nat ptr) with (S (Z.to_nat (ptr - 1))) by lia.
        unfold buf1, digit_set.
        erewrite drop_S;
          [ | apply list_lookup_insert_eq; lia].
        f_equal. apply drop_insert_lt. lia. }
      rewrite E1. replace (Z.to_nat (n + 1)) with (S (Z.to_nat n)) by lia.
      cbn [take digits_value]. rewrite length_take, length_drop.
      replace (Z.of_nat (Z.to_nat n `min` (length buf - Z.to_nat ptr))) with n by lia.
      reflexivity. }
    assert (Hge : 0 <= digits_value (take (Z.to_nat n) (drop (Z.to_nat ptr) buf))).
    { apply digits_value_range. apply Forall_take, Forall_drop, Hbuf. }
    assert (Hp : 0 < 10 ^ n) by (apply Z.pow_pos_nonneg; lia).
    destruct (Z.ltb_spec 0 (x / 10)) as [Hpos|Hzero].
    + specialize (IH (x / 10) (ptr - 1) buf1 (n + 1) X).
      destruct (assign_loop fuel (x / 10) (ptr - 1) buf1 (n + 1))
        as [[ptr' buf'] n'].
      destruct IH as (E1 & E2 & E3 & E4 & E5 & E6);
        [ | lia | lia | lia | lia | exact Hlen1 | exact Hbuf1 | | ];
        [ split; [lia | ]; apply Z.div_lt_upper_bound; [lia | ];
          rewrite Nat2Z.inj_succ, Z.pow_succ_r in Hx by lia; lia
        | rewrite Hval, HX, Z.pow_add_r by lia; change (10 ^ 1) with 10; nia
        | split_and!; try assumption; lia ].
    + assert (x / 10 = 0) by (pose proof (Z.div_pos x 10 ltac:(lia) ltac:(lia)); lia).
      replace (n + 1 - 1) with n by lia.
      split_and!; try assumption; try lia.
      rewrite HX. nia.
Qed.

Lemma assign_value_aux (h : high_prec_dec) (x : Z) (neg : bool) :
  length (digits h) = 800%nat -> 0 <= x < 2 ^ 64 ->
  let h' := high_prec_dec__assign h x neg in
  digits_value (hpd_active_digits h')
    * 10 ^ (decimal_point h' - num_digits h') = x
  /\ 0 <= num_digits h' <= decimal_point h' /\ decimal_point h' <= 20
  /\ (0 < x -> 10 ^ (decimal_point h' - 1) <= x < 10 ^ decimal_point h')
  /\ (x = 0 -> decimal_point h' = 0)
  /\ negative h' = neg /\ truncated h' = false.
Proof.
  intros Hlen Hx h'. unfold h', high_prec_dec__assign.
  destruct (Z.ltb_spec 0 x) as [Hpos|Hzero].
  - pose proof (assign_loop_value 20 x 20 (replicate 40 0) 0 x) as Hloop.
    destruct (assign_loop 20 x 20 (replicate 40 0) 0) as [[ptr buf] n].
    destruct Hloop as (Eptr & Hn & Hbl & Hbuf & HX & Hlow);
      [change (Z.of_nat 20) with 20;
       split; [lia | apply Z.lt_trans with (2 ^ 64); [lia | reflexivity]]
      | lia | lia | reflexivity
      | change (Z.of_nat 20) with 20; lia | reflexivity | apply replicate_dec
      | change (Z.to_nat 0) with 0%nat; rewrite take_0, Z.pow_0_r;
        cbn [digits_value]; lia | ].
    change (Z.of_nat 20) with 20 in Hn. rewrite (i32_small n) by lia.
    set (g := mk_hpd n n neg false (memcpy_loop 20 (digits h) 0 buf ptr)).
    assert (Hwf : hpd_wf g).
    { split; cbn [g digits num_digits]; [rewrite memcpy_loop_length; exact Hlen | ].
      unfold HPD__DIGITS_PRECISION. lia. }
    assert (Hact : hpd_active_digits g = take (Z.to_nat n) (drop (Z.to_nat ptr) buf)).
    { unfold hpd_active_digits. cbn [g digits num_digits].
      apply take_digit_get_ext;
        [rewrite memcpy_loop_length; lia | rewrite length_drop; lia | ].
      intros i Hi. rewrite digit_get_drop.
      rewrite memcpy_loop_copied by (change (Z.of_nat 20) with 20; lia).
      f_equal. lia. }
    pose proof (trim_value g Hwf) as Hv. rewrite Hact, <- HX in Hv.
    pose proof (trim_loop_le (Z.to_nat n) (digits g)) as Hle.
    assert (End : num_digits (high_prec_dec__trim g)
                  = Z.of_nat (trim_loop (Z.to_nat n) (digits g))) by reflexivity.
    assert (Hup : x < 10 ^ n).
    { rewrite HX. replace n with (Z.of_nat (length (take (Z.to_nat n) (drop (Z.to_nat ptr) buf)))) at 2
        by (rewrite length_take, length_drop; lia).
      apply digits_value_range, Forall_take, Forall_drop, Hbuf. }
    change (decimal_point (high_prec_dec__trim g)) with n.
    change (num_digits g) with n in Hv.
    split_and!; try reflexivity; lia.
  - assert (x = 0) as -> by lia. change (0 <? 0) with false. cbv iota.
    change (i32 0) with 0. cbn. split_and!; try reflexivity; lia.
Qed.

(** X2. [assign] sets the decimal to the integer [x]: the digits left after
    the trim, followed by [decimal_point - num_digits] zeroes, write [x];
    the decimal point is the number of decimal digits of [x] (0 for
    [x = 0]); the sign is the argument's and the truncated flag is off. *)
Theorem assign_value (h : high_prec_dec) (x : Z) (neg : bool) :
  length (digits h) = 800%nat -> 0 <= x < 2 ^ 64 ->
  let h' := high_prec_dec__assign h x neg in
  digits_value (hpd_active_digits h')
    * 10 ^ (decimal_point h' - num_digits h') = x
  /\ 0 <= num_digits h' <= decimal_point h' /\ decimal_point h' <= 20
  /\ (0 < x -> 10 ^ (decimal_point h' - 1) <= x < 10 ^ decimal_point h')
  /\ (x = 0 -> decimal_point h' = 0)
  /\ negative h' = neg /\ truncated h' = false.
Proof. exact (assign_value_aux h x neg). Qed.

Lemma assign_value_witness :
  let h' := high_prec_dec__assign hpd_stack 1200 true in
  digits_value (hpd_active_digits h') * 10 ^ (4 - 2) = 1200
  /\ num_digits h' = 2 /\ decimal_point h' = 4.
Proof.
  intros h'.
  pose proof (assign_value hpd_stack 1200 true eq_refl ltac:(lia)) as H.
  cbv zeta in H. fold h' in H.
  assert (E1 : num_digits h' = 2) by (vm_compute; reflexivity).
  assert (E2 : decimal_point h' = 4) by (vm_compute; reflexivity).
  rewrite E1, E2 in H. split; [exact (proj1 H) | split; assumption].
Defined.

Lemma prefix_value_take (h : high_prec_dec) (n : nat) :
  hpd_wf h -> Z.of_nat n <= num_digits h ->
  hpd_prefix_value h n = digits_value (take n (digits h)).
Proof.
  intros [Hlen Hnd] Hn. unfold HPD__DIGITS_PRECISION in Hnd.
  induction n as [|n IH]; [reflexivity | ].
  cbn [hpd_prefix_value]. rewrite IH by lia.
  rewrite take_S_digit by lia. rewrite digits_value_app.
  cbn [length digits_value]. change (10 ^ Z.of_nat 1) with 10.
  unfold hpd_digit.
  destruct (Z.leb_spec 0 (Z.of_nat n)); [ | lia].
  destruct (Z.ltb_spec (Z.of_nat n) (num_digits h)); [ | lia].
  cbn [andb]. change (10 ^ Z.of_nat 0) with 1. lia.
Qed.

Lemma prefix_value_beyond (h : high_prec_dec) (k : nat) :
  hpd_wf h ->
  hpd_prefix_value h (Z.to_nat (num_digits h) + k)
  = digits_value (hpd_active_digits h) * 10 ^ Z.of_nat k.
Proof.
  intros Hwf. pose proof Hwf as [Hlen Hnd].
  induction k as [|k IH].
  - rewrite Nat.add_0_r, prefix_value_take by (try assumption; lia).
    unfold hpd_active_digits. change (10 ^ Z.of_nat 0) with 1. lia.
  - replace (Z.to_nat (num_digits h) + S k)%nat
      with (S (Z.to_nat (num_digits h) + k)) by lia.
    cbn [hpd_prefix_value]. rewrite IH.
    unfold hpd_digit.
    destruct (Z.ltb_spec (Z.of_nat (Z.to_nat (num_digits h) + k)) (num_digits h));
      [lia | ].
    rewrite andb_false_r, Nat2Z.inj_succ, Z.pow_succ_r by lia. lia.
Qed.

(** X3. [assign] followed by [rounded_integer] gives the integer back when
    it has at most 18 decimal digits, and [UINT64_MAX] when it has more. *)
Theorem assign_rounded_integer (h : high_prec_dec) (x : Z) (neg : bool) :
  length (digits h) = 800%nat -> 0 <= x < 2 ^ 64 ->
  high_prec_dec__rounded_integer (high_prec_dec__assign h x neg)
  = if x <? 10 ^ 18 then x else UINT64_MAX.
Proof.
  intros Hlen Hx.
  destruct (assign_value_aux h x neg Hlen Hx) as (Hv & Hnd & Hdp & Hdig & Hz & _).
  destruct (assign_inv h x neg Hlen Hx) as (Hwf & _ & Hok).
  set (h' := high_prec_dec__assign h x neg) in *.
  unfold high_prec_dec__rounded_integer.
  destruct (Z.eqb_spec (num_digits h') 0) as [E0|N0].
  - cbn [orb]. assert (x = 0) as ->; [ | reflexivity].
    unfold hpd_active_digits in Hv. rewrite E0 in Hv.
    change (Z.to_nat 0) with 0%nat in Hv. rewrite take_0 in Hv.
    cbn [digits_value] in Hv. lia.
  - destruct (Z.ltb_spec (decimal_point h') 0) as [Hneg|_]; [lia | ].
    cbn [orb].
    assert (Hpos : 0 < x).
    { destruct (Z.eq_dec x 0) as [E|N]; [specialize (Hz E); lia | lia]. }
    specialize (Hdig Hpos).
    destruct (Z.ltb_spec 18 (decimal_point h')) as [Hbig|Hsmall].
    + assert (10 ^ 18 <= 10 ^ (decimal_point h' - 1))
        by (apply Z.pow_le_mono_r; lia).
      destruct (Z.ltb_spec x (10 ^ 18)); [lia | reflexivity].
    + assert (10 ^ decimal_point h' <= 10 ^ 18)
        by (apply Z.pow_le_mono_r; lia).
      destruct (Z.ltb_spec x (10 ^ 18)); [ | lia].
      cbv zeta. rewrite (u32_small (decimal_point h')) by lia.
      destruct (Z.ltb_spec (decimal_point h') (num_digits h')); [lia | ].
      pose proof (rounded_integer_loop_spec h' (Z.to_nat (decimal_point h')) Hok
                    0%nat 0 ltac:(lia) eq_refl) as Hl.
      change (Z.of_nat 0) with 0 in Hl. rewrite Hl.
      replace (0 + Z.to_nat (decimal_point h'))%nat
        with (Z.to_nat (num_digits h')
              + Z.to_nat (decimal_point h' - num_digits h'))%nat by lia.
      rewrite prefix_value_beyond by exact Hwf.
      rewrite Z2Nat.id by lia. exact Hv.
Qed.

Lemma assign_rounded_integer_witness :
  high_prec_dec__rounded_integer (high_prec_dec__assign hpd_stack 1200 false)
  = 1200.
Proof.
  exact (assign_rounded_integer hpd_stack 1200 false eq_refl ltac:(lia)).
Defined.

(** ** [lshift] *)

Lemma lshift_left_loop_inv (cnt : nat) :
  forall (h : high_prec_dec) (shift : Z),
    hpd_wf h -> hpd_inv h ->
    hpd_wf (fst (lshift_left_loop cnt h shift))
    /\ hpd_inv (fst (lshift_left_loop cnt h shift)).
Proof.
  induction cnt as [|cnt IH]; intros h shift Hwf Hinv; [split; assumption | ].
  cbn [lshift_left_loop].
  destruct (HPD__SHIFT__MAX_INCL <? shift); [ | split; assumption].
  destruct (small_lshift_inv h HPD__SHIFT__MAX_INCL Hwf Hinv
              ltac:(unfold HPD__SHIFT__MAX_INCL; lia)) as [Hwf' Hinv'].
  apply IH; assumption.
Qed.

Lemma lshift_right_loop_inv (cnt : nat) :
  forall (h : high_prec_dec) (shift : Z),
    hpd_wf h -> hpd_inv h ->
    hpd_wf (fst (lshift_right_loop cnt h shift))
    /\ hpd_inv (fst (lshift_right_loop cnt h shift)).
Proof.
  induction cnt as [|cnt IH]; intros h shift Hwf Hinv; [split; assumption | ].
  cbn [lshift_right_loop].
  destruct (shift <? - HPD__SHIFT__MAX_INCL); [ | split; assumption].
  destruct (small_rshift_inv HPD__SHIFT__MAX_INCL
              ltac:(unfold HPD__SHIFT__MAX_INCL; lia) h Hwf (proj2 Hinv) Hinv)
    as [Hwf' Hinv'].
  apply IH; assumption.
Qed.

(** X4. [lshift] by any number of bits, left for a positive and right for a
    negative [shift], keeps the invariant of a high precision decimal: it
    works in rounds of at most 60 bits, and the last round shifts by 1 to
    60 bits. ([shift] is an [int32_t] other than [INT32_MIN], which the code
    cannot negate.) *)
Theorem lshift_keeps_invariant (h : high_prec_dec) (shift : Z) :
  hpd_wf h -> hpd_inv h -> - 2 ^ 31 < shift < 2 ^ 31 ->
  hpd_wf (high_prec_dec__lshift h shift)
  /\ hpd_inv (high_prec_dec__lshift h shift).
Proof.
  intros Hwf Hinv Hs. unfold high_prec_dec__lshift.
  destruct (Z.ltb_spec 0 shift) as [Hpos|Hnpos].
  - pose proof (lshift_left_loop_inv
                  (Z.to_nat (shift / HPD__SHIFT__MAX_INCL)) h shift Hwf Hinv) as Hl.
    pose proof (lshift_left_loop_ends
                  (Z.to_nat (shift / HPD__SHIFT__MAX_INCL)) h shift ltac:(lia)) as He.
    destruct (lshift_left_loop _ h shift) as [h1 s1]. cbn [fst snd] in *.
    destruct Hl as [Hwf1 Hinv1]. unfold HPD__SHIFT__MAX_INCL in He.
    destruct He as [He1 He2].
    { pose proof (Z.div_pos shift 60 ltac:(lia) ltac:(lia)). lia. }
    rewrite (u32_small s1) by lia.
    apply small_lshift_inv; [assumption | assumption | lia].
  - destruct (Z.ltb_spec shift 0) as [Hneg|Hzero]; [ | split; assumption].
    pose proof (lshift_right_loop_inv
                  (Z.to_nat (- shift / HPD__SHIFT__MAX_INCL)) h shift Hwf Hinv) as Hl.
    pose proof (lshift_right_loop_ends
                  (Z.to_nat (- shift / HPD__SHIFT__MAX_INCL)) h shift ltac:(lia)) as He.
    destruct (lshift_right_loop _ h shift) as [h1 s1]. cbn [fst snd] in *.
    destruct Hl as [Hwf1 Hinv1]. unfold HPD__SHIFT__MAX_INCL in He.
    destruct He as [He1 He2].
    { pose proof (Z.div_pos (- shift) 60 ltac:(lia) ltac:(lia)). lia. }
    rewrite (u32_small (- s1)) by lia.
    apply small_rshift_inv; [lia | assumption | exact (proj2 Hinv1) | assumption].
Qed.

Lemma lshift_keeps_invariant_witness :
  let h := high_prec_dec__assign hpd_stack 12345 false in
  hpd_wf (high_prec_dec__lshift h (-130))
  /\ hpd_inv (high_prec_dec__lshift h (-130)).
Proof.
  intros h.
  destruct (assign_inv hpd_stack 12345 false eq_refl ltac:(lia)) as [Hwf Hinv].
  exact (lshift_keeps_invariant h (-130) Hwf Hinv ltac:(lia)).
Defined.

(** ** Normalizing a medium precision binary *)

(** X5. [normalize] shifts a nonzero mantissa left until its high bit is
    set: the mantissa is multiplied by [2^shift] without loss, the exponent
    is lowered by [shift] (as an [int32_t]), and the shift returned is the
    number of leading zero bits, below 64. A zero mantissa is left alone
    and the shift returned is 0. *)
Theorem normalize_sets_high_bit (m : medium_prec_bin) :
  0 <= mantissa m < 2 ^ 64 ->
  let '(shift, m') := medium_prec_bin__normalize m in
  (mantissa m = 0 -> shift = 0 /\ m' = m)
  /\ (0 < mantissa m ->
      mpb_normalized m' /\ 0 <= shift <= 63
      /\ mantissa m' = mantissa m * 2 ^ shift
      /\ exp2 m' = i32 (exp2 m - shift)
      /\ 2 ^ (63 - shift) <= mantissa m < 2 ^ (64 - shift)).
Proof.
  intros Hm. unfold medium_prec_bin__normalize.
  destruct (Z.eqb_spec (mantissa m) 0) as [E|N].
  - split; [intros _; split; reflexivity | lia].
  - split; [intros E; contradiction | intros Hpos].
    unfold count_leading_zeroes_u64.
    destruct (Z.eqb_spec (mantissa m) 0) as [E|_]; [contradiction | ].
    pose proof (Z.log2_spec (mantissa m) Hpos) as [Hlo Hhi].
    pose proof (Z.log2_nonneg (mantissa m)) as Hl0.
    assert (Hl : Z.log2 (mantissa m) < 64).
    { apply Z.log2_lt_pow2; lia. }
    set (l := Z.log2 (mantissa m)) in *.
    assert (E1 : 2 ^ 63 = 2 ^ l * 2 ^ (63 - l))
      by (rewrite <- Z.pow_add_r by lia; f_equal; lia).
    assert (E2 : 2 ^ 64 = 2 ^ Z.succ l * 2 ^ (63 - l))
      by (rewrite <- Z.pow_add_r by lia; f_equal; lia).
    assert (Hp : 0 < 2 ^ (63 - l)) by (apply Z.pow_pos_nonneg; lia).
    assert (Hsh : shl64 (mantissa m) (63 - l) = mantissa m * 2 ^ (63 - l)).
    { unfold shl64. rewrite (Z.mod_small (63 - l) 64) by lia.
      rewrite Z.shiftl_mul_pow2 by lia. apply u64_small. nia. }
    cbn [mantissa exp2]. rewrite Hsh, (i32_small (63 - l)) by lia.
    replace (63 - (63 - l)) with l by lia.
    replace (64 - (63 - l)) with (Z.succ l) by lia.
    unfold mpb_normalized. cbn [mantissa].
    split_and!; try reflexivity; try lia; nia.
Qed.

Lemma normalize_sets_high_bit_witness :
  medium_prec_bin__normalize (mk_mpb 5 0) = (61, mk_mpb (5 * 2 ^ 61) (-61))
  /\ mpb_normalized (mk_mpb (5 * 2 ^ 61) (-61)).
Proof.
  pose proof (normalize_sets_high_bit (mk_mpb 5 0) ltac:(cbn; lia)) as H.
  assert (E : medium_prec_bin__normalize (mk_mpb 5 0)
              = (61, mk_mpb (5 * 2 ^ 61) (-61))) by reflexivity.
  rewrite E in H. split; [exact E | ].
  exact (proj1 (proj2 H ltac:(cbn; lia))).
Defined.

(** ** Infinities *)

(** An input that is a sign and a token which the decimal parser cannot
    start to read goes to the special token parser. *)
Lemma parse_number_f64_token (us1 sg us2 us3 q : list Z) (c : Z) (neg nan : bool) :
  all_underscores us1 -> sign_token sg neg -> all_underscores us2 ->
  all_underscores us3 ->
  c <> ch "_" -> c <> ch "+" -> c <> ch "-" ->
  (forall st, parse_digits_loop (c :: q) st = digits_left st (c :: q)) ->
  parse_special_token (c :: q) = Some (nan, us3) ->
  parse_number_f64 (us1 ++ sg ++ us2 ++ c :: q)
  = mk_result_f64 None
      (Z.lor (if nan then 0x7FFFFFFFFFFFFFFF else 0x7FF0000000000000)
         (if neg then 0x8000000000000000 else 0)).
Proof.
  intros H1 Hsg H2 H3 Hc1 Hc2 Hc3 Hloop Htok.
  assert (Hskip : skip_underscores (us2 ++ c :: q) = c :: q).
  { rewrite skip_underscores_app by exact H2.
    apply skip_underscores_cons, Hc1. }
  assert (Hspecial :
    parse_number_f64_special (us1 ++ sg ++ us2 ++ c :: q) (Some error__bad_argument)
    = mk_result_f64 None
        (Z.lor (if nan then 0x7FFFFFFFFFFFFFFF else 0x7FF0000000000000)
           (if neg then 0x8000000000000000 else 0))).
  { unfold parse_number_f64_special.
    rewrite skip_underscores_app by exact H1.
    destruct Hsg; simpl app.
    - rewrite Hskip. apply Z.eqb_neq in Hc2, Hc3. rewrite Hc2, Hc3.
      rewrite Htok, skip_underscores_all by exact H3. reflexivity.
    - rewrite skip_underscores_cons by discriminate.
      change (ch "+" =? ch "+") with true. cbv iota. rewrite Hskip.
      rewrite Htok, skip_underscores_all by exact H3. reflexivity.
    - rewrite skip_underscores_cons by discriminate.
      change (ch "-" =? ch "+") with false. change (ch "-" =? ch "-") with true.
      cbv iota. rewrite Hskip.
      rewrite Htok, skip_underscores_all by exact H3. reflexivity. }
  assert (Hparse :
    fst (high_prec_dec__parse (Some hpd_stack) (us1 ++ sg ++ us2 ++ c :: q))
    = Some error__bad_argument).
  { unfold high_prec_dec__parse.
    rewrite skip_underscores_app by exact H1.
    destruct Hsg; simpl app.
    - rewrite Hskip. apply Z.eqb_neq in Hc2, Hc3. rewrite Hc2, Hc3.
      rewrite Hloop. reflexivity.
    - rewrite skip_underscores_cons by discriminate.
      change (ch "+" =? ch "+") with true. cbv iota. rewrite Hskip.
      rewrite Hloop. reflexivity.
    - rewrite skip_underscores_cons by discriminate.
      change (ch "-" =? ch "+") with false. change (ch "-" =? ch "-") with true.
      cbv iota. rewrite Hskip.
      rewrite Hloop. reflexivity. }
  unfold parse_number_f64.
  destruct (high_prec_dec__parse (Some hpd_stack) (us1 ++ sg ++ us2 ++ c :: q))
    as [st oh]. simpl in Hparse. subst st. exact Hspecial.
Qed.

Lemma at_end_or_underscore_all (us : list Z) :
  all_underscores us -> at_end_or_underscore us = true.
Proof. intros [|c us' Hc _]; [reflexivity | subst c; reflexivity]. Qed.

Lemma parse_special_token_inf (l us3 : list Z) :
  inf_letters l -> all_underscores us3 ->
  parse_special_token (l ++ us3) = Some (false, us3).
Proof.
  intros Hl Hus. pose proof (at_end_or_underscore_all us3 Hus) as Hend.
  destruct Hl as [(c0 & c1 & c2 & -> & H0 & H1 & H2)
                 |(c0 & c1 & c2 & c3 & c4 & c5 & c6 & c7 & -> & H0 & H1 & H2
                   & H3 & H4 & H5 & H6 & H7)].
  - cbn [app parse_special_token]. rewrite H0, H1, H2. cbn [negb orb].
    rewrite Hend. reflexivity.
  - cbn [app parse_special_token]. rewrite H0, H1, H2. cbn [negb orb].
    assert (E : at_end_or_underscore (c3 :: c4 :: c5 :: c6 :: c7 :: us3) = false).
    { apply is_ch2_cases in H3. destruct H3; subst c3; reflexivity. }
    rewrite E, H3, H4, H5, H6, H7. cbn [negb orb]. rewrite Hend. reflexivity.
Qed.

Lemma inf_letters_head (l p : list Z) :
  inf_letters l ->
  exists c q, l ++ p = c :: q /\ is_ch2 c "I" "i" = true.
Proof.
  intros [(c0 & c1 & c2 & -> & H0 & _)
         |(c0 & c1 & c2 & c3 & c4 & c5 & c6 & c7 & -> & H0 & _)];
    eexists; eexists; (split; [reflexivity | exact H0]).
Qed.

(** X6. An input of the shape: underscores, an optional sign, underscores,
    "inf" or "infinity" in any letter case, underscores, parses with a null
    status to the infinity of its sign. *)
Theorem parse_number_f64_inf (s : list Z) (neg : bool) :
  inf_input s neg ->
  parse_number_f64 s
  = mk_result_f64 None (if neg then f64_inf_negative else f64_inf_positive).
Proof.
  intros (us1 & sg & us2 & l & us3 & -> & H1 & Hsg & H2 & Hl & H3).
  destruct (inf_letters_head l us3 Hl) as (c & q & Hcq & Hc).
  pose proof (parse_special_token_inf l us3 Hl H3) as Htok.
  rewrite Hcq in *.
  assert (Hcc : c = ch "I" \/ c = ch "i") by (apply is_ch2_cases, Hc).
  rewrite (parse_number_f64_token us1 sg us2 us3 q c neg false);
    try assumption.
  - destruct neg; reflexivity.
  - destruct Hcc; subst c; discriminate.
  - destruct Hcc; subst c; discriminate.
  - destruct Hcc; subst c; discriminate.
  - intros st. destruct st. destruct Hcc; subst c; reflexivity.
Qed.

Lemma inf_input_example : inf_input (bytes_of_string "_-_InFiNiTy__") true.
Proof.
  exists [ch "_"], [ch "-"], [ch "_"], (bytes_of_string "InFiNiTy"),
    [ch "_"; ch "_"].
  split; [reflexivity | ].
  split; [repeat constructor | ]. split; [constructor | ].
  split; [repeat constructor | ]. split; [ | repeat constructor].
  right. exists (ch "I"), (ch "n"), (ch "F"), (ch "i"), (ch "N"), (ch "i"),
    (ch "T"), (ch "y"). repeat split.
Qed.

Lemma parse_number_f64_inf_witness :
  parse_number_f64 (bytes_of_string "_-_InFiNiTy__")
  = mk_result_f64 None f64_inf_negative.
Proof. exact (parse_number_f64_inf _ true inf_input_example). Defined.

Lemma render_number_f64_inf (dst : list Z) (neg : bool) (precision options : Z) :
  render_number_f64 dst (if neg then f64_inf_negative else f64_inf_positive)
    precision options
  = render_inf dst neg options.
Proof. destruct neg; reflexivity. Qed.

(** X7. An infinity is rendered as "Inf", "-Inf", or "+Inf" under the
    leading plus sign option, whatever the precision and the other options:
    always at the start of the buffer, also under [ALIGN_RIGHT], and with
    the rest of the buffer untouched. Parsing the rendered bytes gives the
    infinity back. *)
Theorem render_inf_round_trip (dst : list Z) (neg : bool) (precision options : Z) :
  4 <= slice_len dst ->
  let x := if neg then f64_inf_negative else f64_inf_positive in
  let r := render_number_f64 dst x precision options in
  rendered r
  = bytes_of_string
      (if neg then "-Inf"
       else if has_flag options RENDER_NUMBER_XXX__LEADING_PLUS_SIGN
            then "+Inf" else "Inf")
  /\ drop (Z.to_nat (fst r)) (snd r) = drop (Z.to_nat (fst r)) dst
  /\ parse_number_f64 (rendered r) = mk_result_f64 None x.
Proof.
  intros Hlen x r. unfold r, x. rewrite render_number_f64_inf.
  unfold slice_len in Hlen.
  destruct dst as [|a [|b [|c [|d dst]]]]; cbn [length] in Hlen; try lia.
  unfold render_inf, slice_len.
  destruct (Z.ltb_spec (Z.of_nat (length (a :: b :: c :: d :: dst))) 4) as [H|_];
    [cbn [length] in H; lia | ].
  destruct (Z.ltb_spec (Z.of_nat (length (a :: b :: c :: d :: dst))) 3) as [H|_];
    [cbn [length] in H; lia | ].
  destruct neg; [split_and!; reflexivity | ].
  destruct (has_flag options RENDER_NUMBER_XXX__LEADING_PLUS_SIGN);
    split_and!; reflexivity.
Qed.

Lemma render_inf_round_trip_witness :
  parse_number_f64
    (rendered (render_number_f64 (buffer 8) f64_inf_negative 3
                 RENDER_NUMBER_XXX__ALIGN_RIGHT))
  = mk_result_f64 None f64_inf_negative.
Proof.
  exact (proj2 (proj2 (render_inf_round_trip (buffer 8) true 3
                         RENDER_NUMBER_XXX__ALIGN_RIGHT
                         ltac:(vm_compute; discriminate)))).
Defined.

(** ** Inputs without digits *)

(** X8. An input without any digit or letter (empty, underscores only, or a
    sign among underscores) is rejected: the status is the bad argument
    status and the value is 0. *)
Theorem parse_number_f64_no_digits (us1 sg us2 : list Z) (neg : bool) :
  all_underscores us1 -> sign_token sg neg -> all_underscores us2 ->
  parse_number_f64 (us1 ++ sg ++ us2)
  = mk_result_f64 (Some error__bad_argument) 0.
Proof.
  intros H1 Hsg H2.
  assert (Hspecial :
    parse_number_f64_special (us1 ++ sg ++ us2) (Some error__bad_argument)
    = mk_result_f64 (Some error__bad_argument) 0).
  { unfold parse_number_f64_special.
    rewrite skip_underscores_app by exact H1.
    destruct Hsg; simpl app.
    - rewrite skip_underscores_all by exact H2. reflexivity.
    - rewrite skip_underscores_cons by discriminate.
      change (ch "+" =? ch "+") with true. cbv iota.
      rewrite skip_underscores_all by exact H2. reflexivity.
    - rewrite skip_underscores_cons by discriminate.
      change (ch "-" =? ch "+") with false. change (ch "-" =? ch "-") with true.
      cbv iota. rewrite skip_underscores_all by exact H2. reflexivity. }
  assert (Hparse :
    fst (high_prec_dec__parse (Some hpd_stack) (us1 ++ sg ++ us2))
    = Some error__bad_argument).
  { unfold high_prec_dec__parse.
    rewrite skip_underscores_app by exact H1.
    destruct Hsg; simpl app.
    - rewrite skip_underscores_all by exact H2. reflexivity.
    - rewrite skip_underscores_cons by discriminate.
      change (ch "+" =? ch "+") with true. cbv iota.
      rewrite skip_underscores_all by exact H2. reflexivity.
    - rewrite skip_underscores_cons by discriminate.
      change (ch "-" =? ch "+") with false. change (ch "-" =? ch "-") with true.
      cbv iota. rewrite skip_underscores_all by exact H2. reflexivity. }
  unfold parse_number_f64.
  destruct (high_prec_dec__parse (Some hpd_stack) (us1 ++ sg ++ us2))
    as [st oh]. simpl in Hparse. subst st. exact Hspecial.
Qed.

Lemma parse_number_f64_no_digits_witness :
  parse_number_f64 [] = mk_result_f64 (Some error__bad_argument) 0
  /\ parse_number_f64 (bytes_of_string "__-_")
     = mk_result_f64 (Some error__bad_argument) 0.
Proof.
  split.
  - exact (parse_number_f64_no_digits [] [] [] false
             ltac:(constructor) sign_token_none ltac:(constructor)).
  - exact (parse_number_f64_no_digits [ch "_"; ch "_"] [ch "-"] [ch "_"] true
             ltac:(repeat constructor) sign_token_minus ltac:(repeat constructor)).
Defined.

(** ** What rendering does to the buffer *)

Lemma put_length (st : Z * list Z) (c : Z) :
  length (snd (put st c)) = length (snd st).
Proof. unfold put. cbn [snd]. apply length_digit_set. Qed.

Lemma put_digits_length (cnt : nat) :
  forall i h st, length (snd (put_digits cnt i h st)) = length (snd st).
Proof.
  induction cnt as [|cnt IH]; intros i h st; [reflexivity | ].
  cbn [put_digits]. rewrite IH. apply put_length.
Qed.

Lemma put_zeroes_length (cnt : nat) :
  forall st, length (snd (put_zeroes cnt st)) = length (snd st).
Proof.
  induction cnt as [|cnt IH]; intros st; [reflexivity | ].
  cbn [put_zeroes]. rewrite IH. apply put_length.
Qed.

Lemma put_fraction_length (cnt : nat) :
  forall i h st, length (snd (put_fraction cnt i h st)) = length (snd st).
Proof.
  induction cnt as [|cnt IH]; intros i h st; [reflexivity | ].
  cbn [put_fraction]. cbv zeta. rewrite IH. apply put_length.
Qed.

Lemma put_sign_length (h : high_prec_dec) (options : Z) (st : Z * list Z) :
  length (snd (put_sign h options st)) = length (snd st).
Proof.
  unfold put_sign. destruct (negative h); [apply put_length | ].
  destruct (has_flag _ _); [apply put_length | reflexivity].
Qed.

Lemma u32_nonneg (x : Z) : 0 <= u32 x.
Proof. unfold u32. apply Z.mod_pos_bound. lia. Qed.

Lemma render_exponent_absent_ok (dst : list Z) (h : high_prec_dec)
    (precision options : Z) :
  render_result_ok dst
    (high_prec_dec__render_exponent_absent dst h precision options).
Proof.
  unfold high_prec_dec__render_exponent_absent. cbv zeta.
  set (n0 := if negative h || has_flag options RENDER_NUMBER_XXX__LEADING_PLUS_SIGN
             then 1 else 0).
  assert (H0 : 0 <= n0) by (unfold n0; destruct (_ || _); lia).
  set (n1 := if decimal_point h <=? 0 then n0 + 1 else n0 + decimal_point h).
  assert (H1 : 1 <= n1)
    by (unfold n1; destruct (Z.leb_spec (decimal_point h) 0); lia).
  set (n2 := if 0 <? precision then n1 + u32 (precision + 1) else n1).
  assert (H2 : 1 <= n2).
  { unfold n2. pose proof (u32_nonneg (precision + 1)).
    destruct (0 <? precision); lia. }
  destruct (Z.ltb_spec (slice_len dst) n2) as [Hshort|Hfits].
  - unfold render_result_ok. cbn [fst snd].
    split_and!; [lia | unfold slice_len; lia | reflexivity | reflexivity].
  - unfold render_result_ok. cbn [fst snd].
    split_and!; [lia | lia | | intros E; lia].
    destruct (0 <? precision);
      [rewrite put_fraction_length, put_length | ];
      (destruct (decimal_point h <=? 0);
       [rewrite put_length | rewrite put_zeroes_length, put_digits_length]);
      apply put_sign_length.
Qed.

Lemma render_exponent_present_ok (dst : list Z) (h : high_prec_dec)
    (precision options : Z) :
  render_result_ok dst
    (high_prec_dec__render_exponent_present dst h precision options).
Proof.
  unfold high_prec_dec__render_exponent_present. cbv zeta.
  set (exp0 := if 0 <? num_digits h then i32 (decimal_point h - 1) else 0).
  set (exp := if exp0 <? 0 then i32 (- exp0) else exp0).
  set (n0 := if negative h || has_flag options RENDER_NUMBER_XXX__LEADING_PLUS_SIGN
             then 4 else 3).
  assert (H0 : 3 <= n0) by (unfold n0; destruct (_ || _); lia).
  set (n1 := if 0 <? precision then n0 + u32 (precision + 1) else n0).
  assert (H1 : 3 <= n1).
  { unfold n1. pose proof (u32_nonneg (precision + 1)).
    destruct (0 <? precision); lia. }
  set (n2 := n1 + (if exp <? 100 then 2 else 3)).
  assert (H2 : 5 <= n2) by (unfold n2; destruct (exp <? 100); lia).
  destruct (Z.ltb_spec (slice_len dst) n2) as [Hshort|Hfits].
  - unfold render_result_ok. cbn [fst snd].
    split_and!; [lia | unfold slice_len; lia | reflexivity | reflexivity].
  - unfold render_result_ok. cbn [fst snd].
    split_and!; [lia | lia | | intros E; lia].
    destruct (exp <? 10); [ | destruct (exp <? 100)];
      rewrite !put_length;
      (destruct (0 <? precision);
       [rewrite put_zeroes_length, put_digits_length, put_length | ]);
      (destruct (0 <? num_digits h); rewrite put_length; apply put_sign_length).
Qed.

Lemma render_inf_ok (dst : list Z) (neg : bool) (options : Z) :
  render_result_ok dst (render_inf dst neg options).
Proof.
  unfold render_inf, render_result_ok, store_u32le, store_u24le.
  destruct neg; [ | destruct (has_flag _ _)];
    (match goal with
     | |- context [slice_len dst <? ?k] =>
         destruct (Z.ltb_spec (slice_len dst) k) as [Hs|Hs]
     end;
     cbn [fst snd]; rewrite ?length_digit_set;
     split_and!; try reflexivity; unfold slice_len in *; lia).
Qed.

Lemma render_nan_ok (dst : list Z) : render_result_ok dst (render_nan dst).
Proof.
  unfold render_nan, render_result_ok, store_u24le.
  destruct (Z.ltb_spec (slice_len dst) 3) as [Hs|Hs];
    cbn [fst snd]; rewrite ?length_digit_set;
    split_and!; try reflexivity; unfold slice_len in *; lia.
Qed.

(** X9. For every double, precision and options word, [render_number_f64]
    returns a count that is at most the length of the buffer, and whenever
    the count is zero (the rendering did not fit) no byte of the buffer has
    been changed. *)
Theorem render_number_f64_result (dst : list Z) (x precision options : Z) :
  let r := render_number_f64 dst x precision options in
  0 <= fst r <= slice_len dst
  /\ length (snd r) = length dst
  /\ (fst r = 0 -> snd r = dst).
Proof.
  cbv zeta. fold (render_result_ok dst (render_number_f64 dst x precision options)).
  unfold render_number_f64. cbv zeta.
  destruct (_ =? 2047); [destruct (negb _); [apply render_nan_ok | apply render_inf_ok] | ].
  destruct (if _ =? 0 then _ else _) as [e2 man].
  destruct (_ =? RENDER_NUMBER_FXX__EXPONENT_ABSENT).
  { destruct (if has_flag _ _ then _ else _) as [h p].
    apply render_exponent_absent_ok. }
  destruct (_ =? RENDER_NUMBER_FXX__EXPONENT_PRESENT).
  { destruct (if has_flag _ _ then _ else _) as [h p].
    apply render_exponent_present_ok. }
  destruct (if has_flag _ _ then _ else _) as [[h p] et].
  destruct (_ || _);
    [apply render_exponent_present_ok | apply render_exponent_absent_ok].
Qed.

(** ** Underscores in a decimal *)

Lemma remove_underscores_cons (c : Z) (p : list Z) :
  c <> ch "_" -> remove_underscores (c :: p) = c :: remove_underscores p.
Proof.
  intros H. cbn [remove_underscores].
  destruct (Z.eqb_spec c (ch "_")); [contradiction | reflexivity].
Qed.

Lemma skip_underscores_clean (p : list Z) :
  clean_head p -> skip_underscores p = p.
Proof.
  destruct p as [|c p]; [reflexivity | ]. cbn [clean_head]. intros H.
  apply skip_underscores_cons, H.
Qed.

Lemma skip_underscores_spec (s : list Z) :
  clean_head (skip_underscores s)
  /\ remove_underscores (skip_underscores s) = remove_underscores s.
Proof.
  induction s as [|c s IH]; [split; [exact I | reflexivity] | ].
  cbn [skip_underscores remove_underscores].
  destruct (Z.eqb_spec c (ch "_")) as [E|N]; [exact IH | ].
  split; [exact N | ]. cbn [remove_underscores].
  destruct (Z.eqb_spec c (ch "_")); [contradiction | reflexivity].
Qed.

Lemma remove_underscores_clean (p : list Z) :
  clean_head p -> clean_head (remove_underscores p)
  /\ is_nil (remove_underscores p) = is_nil p.
Proof.
  destruct p as [|c p]; [split; [exact I | reflexivity] | ].
  cbn [clean_head]. intros H. rewrite remove_underscores_cons by exact H.
  split; [exact H | reflexivity].
Qed.

(** The digit loop reads the same state from an input and from the input
    without its underscores, and stops at the same place. *)
Lemma parse_digits_loop_underscores (p : list Z) :
  forall st,
    match parse_digits_loop p st with
    | digits_bad st' =>
        parse_digits_loop (remove_underscores p) st = digits_bad st'
    | digits_left st' p1 =>
        parse_digits_loop (remove_underscores p) st
        = digits_left st' (remove_underscores p1)
        /\ clean_head p1
    end.
Proof.
  induction p as [|c p IH]; intros st.
  - cbn. split; [reflexivity | exact I].
  - destruct st as [nd dp sd snz sdot tr ds].
    cbn [parse_digits_loop remove_underscores].
    destruct (Z.eqb_spec c (ch "_")) as [E|N]; [apply IH | ].
    cbn [parse_digits_loop].
    destruct (Z.eqb_spec c (ch "_")) as [E|_]; [contradiction | ].
    destruct ((c =? ch ".") || (c =? ch ","));
      [destruct sdot; [reflexivity | apply IH] | ].
    destruct (ch "0" =? c).
    { destruct (negb sdot && negb snz && sd); [reflexivity | ].
      destruct (nd =? 0); [apply IH | ].
      destruct (nd <? HPD__DIGITS_PRECISION); apply IH. }
    destruct ((ch "0" <? c) && (c <=? ch "9")).
    { destruct (negb sdot && negb snz && sd); [reflexivity | ].
      destruct (nd <? HPD__DIGITS_PRECISION); apply IH. }
    split; [ | exact N].
    rewrite remove_underscores_cons by exact N. reflexivity.
Qed.

Lemma parse_exp_loop_underscores (p : list Z) :
  forall exp saw,
    let '(exp', saw', p1) := parse_exp_loop p exp saw in
    parse_exp_loop (remove_underscores p) exp saw
    = (exp', saw', remove_underscores p1)
    /\ clean_head p1.
Proof.
  induction p as [|c p IH]; intros exp saw.
  - cbn. split; [reflexivity | exact I].
  - cbn [parse_exp_loop remove_underscores].
    destruct (Z.eqb_spec c (ch "_")) as [E|N]; [apply IH | ].
    cbn [parse_exp_loop].
    destruct (Z.eqb_spec c (ch "_")) as [E|_]; [contradiction | ].
    destruct ((ch "0" <=? c) && (c <=? ch "9")); [apply IH | ].
    split; [ | exact N].
    rewrite remove_underscores_cons by exact N. reflexivity.
Qed.

Lemma parse_exponent_underscores (p : list Z) (dp : Z) :
  clean_head p ->
  match parse_exponent p dp with
  | None => parse_exponent (remove_underscores p) dp = None
  | Some (dp', p1) =>
      parse_exponent (remove_underscores p) dp
      = Some (dp', remove_underscores p1)
      /\ clean_head p1
  end.
Proof.
  intros Hp. destruct p as [|c p1]; [split; [reflexivity | exact I] | ].
  cbn [clean_head] in Hp. rewrite remove_underscores_cons by exact Hp.
  cbn [parse_exponent].
  destruct ((c =? ch "E") || (c =? ch "e"));
    [ | split; [rewrite remove_underscores_cons by exact Hp; reflexivity
               | exact Hp]].
  cbv zeta.
  destruct (skip_underscores_spec p1) as [Hc2 Hr2].
  destruct (skip_underscores_spec (remove_underscores p1)) as [Hc2' _].
  assert (Hsk : skip_underscores (remove_underscores p1) = remove_underscores p1).
  { clear. induction p1 as [|c p IH]; [reflexivity | ].
    cbn [remove_underscores].
    destruct (Z.eqb_spec c (ch "_")); [exact IH | ].
    apply skip_underscores_cons. assumption. }
  rewrite Hsk, <- Hr2.
  destruct (skip_underscores p1) as [|c2 p3]; [reflexivity | ].
  cbn [clean_head] in Hc2. rewrite remove_underscores_cons by exact Hc2.
  assert (Hsign : forall (q : list Z) (sg : Z),
            match (let '(exp, saw, p5) := parse_exp_loop q 0 false in
                   if negb saw then None
                   else Some (i32 (dp + i32 (sg * exp)), p5)) with
            | None =>
                (let '(exp, saw, p5) :=
                   parse_exp_loop (remove_underscores q) 0 false in
                 if negb saw then None
                 else Some (i32 (dp + i32 (sg * exp)), p5)) = None
            | Some (dp', p6) =>
                (let '(exp, saw, p5) :=
                   parse_exp_loop (remove_underscores q) 0 false in
                 if negb saw then None
                 else Some (i32 (dp + i32 (sg * exp)), p5))
                = Some (dp', remove_underscores p6)
                /\ clean_head p6
            end).
  { intros q sg. pose proof (parse_exp_loop_underscores q 0 false) as H.
    destruct (parse_exp_loop q 0 false) as [[e sw] p5].
    destruct H as [-> Hc5].
    destruct (negb sw); [reflexivity | split; [reflexivity | exact Hc5]]. }
  destruct (c2 =? ch "+"); [apply Hsign | ].
  destruct (c2 =? ch "-"); [apply Hsign | ].
  specialize (Hsign (c2 :: p3) 1).
  rewrite remove_underscores_cons in Hsign by exact Hc2. exact Hsign.
Qed.

Lemma skip_remove_underscores (p : list Z) :
  skip_underscores (remove_underscores p) = remove_underscores p.
Proof.
  induction p as [|c p IH]; [reflexivity | ].
  cbn [remove_underscores].
  destruct (Z.eqb_spec c (ch "_")); [exact IH | ].
  apply skip_underscores_cons. assumption.
Qed.

Lemma high_prec_dec__parse_underscores (oh : option high_prec_dec) (s : list Z) :
  high_prec_dec__parse oh (remove_underscores s) = high_prec_dec__parse oh s.
Proof.
  destruct oh as [h|]; [ | reflexivity].
  unfold high_prec_dec__parse. cbv zeta.
  rewrite skip_remove_underscores.
  destruct (skip_underscores_spec s) as [Hc Hr]. rewrite <- Hr.
  destruct (skip_underscores s) as [|c p']; [reflexivity | ].
  cbn [clean_head] in Hc. rewrite remove_underscores_cons by exact Hc.
  set (h0 := mk_hpd 0 0 false false (digits h)).
  assert (Hrest : forall (g : high_prec_dec) (p : list Z),
    match parse_digits_loop (remove_underscores p)
            (mk_pds 0 0 false false false (truncated g) (digits g)) with
    | digits_bad (mk_pds _ _ _ _ _ trunc ds) =>
        (make_status (Some error__bad_argument),
         Some (set_digits (set_truncated g trunc) ds))
    | digits_left (mk_pds nd dp saw_digits _ saw_dot trunc ds) p1 =>
        let g1 := set_digits (set_truncated g trunc) ds in
        if negb saw_digits then (make_status (Some error__bad_argument), Some g1)
        else
          match parse_exponent p1 (if negb saw_dot then i32 nd else dp) with
          | None => (make_status (Some error__bad_argument), Some g1)
          | Some (dp1, p2) =>
              if negb (is_nil p2)
              then (make_status (Some error__bad_argument), Some g1)
              else
                let g2 := set_num_digits g1 nd in
                let g3 :=
                  if nd =? 0 then set_decimal_point g2 0
                  else if dp1 <? - HPD__DECIMAL_POINT__RANGE then
                    set_decimal_point g2 (- HPD__DECIMAL_POINT__RANGE - 1)
                  else if HPD__DECIMAL_POINT__RANGE <? dp1 then
                    set_decimal_point g2 (HPD__DECIMAL_POINT__RANGE + 1)
                  else set_decimal_point g2 dp1 in
                (make_status None, Some (high_prec_dec__trim g3))
          end
    end
    = match parse_digits_loop p
              (mk_pds 0 0 false false false (truncated g) (digits g)) with
      | digits_bad (mk_pds _ _ _ _ _ trunc ds) =>
          (make_status (Some error__bad_argument),
           Some (set_digits (set_truncated g trunc) ds))
      | digits_left (mk_pds nd dp saw_digits _ saw_dot trunc ds) p1 =>
          let g1 := set_digits (set_truncated g trunc) ds in
          if negb saw_digits then (make_status (Some error__bad_argument), Some g1)
          else
            match parse_exponent p1 (if negb saw_dot then i32 nd else dp) with
            | None => (make_status (Some error__bad_argument), Some g1)
            | Some (dp1, p2) =>
                if negb (is_nil p2)
                then (make_status (Some error__bad_argument), Some g1)
                else
                  let g2 := set_num_digits g1 nd in
                  let g3 :=
                    if nd =? 0 then set_decimal_point g2 0
                    else if dp1 <? - HPD__DECIMAL_POINT__RANGE then
                      set_decimal_point g2 (- HPD__DECIMAL_POINT__RANGE - 1)
                    else if HPD__DECIMAL_POINT__RANGE <? dp1 then
                      set_decimal_point g2 (HPD__DECIMAL_POINT__RANGE + 1)
                    else set_decimal_point g2 dp1 in
                  (make_status None, Some (high_prec_dec__trim g3))
            end
      end).
  { intros g p.
    pose proof (parse_digits_loop_underscores p
                  (mk_pds 0 0 false false false (truncated g) (digits g))) as Hl.
    destruct (parse_digits_loop p _) as [st p1|[? ? ? ? ? ? ?]]; [ | rewrite Hl; reflexivity].
    destruct Hl as [-> Hc1].
    destruct st as [nd dp sd snz sdot tr ds]. cbv zeta.
    destruct (negb sd); [reflexivity | ].
    pose proof (parse_exponent_underscores p1
                  (if negb sdot then i32 nd else dp) Hc1) as He.
    destruct (parse_exponent p1 _) as [[dp1 p2]|]; [ | rewrite He; reflexivity].
    destruct He as [-> Hc2].
    destruct (remove_underscores_clean p2 Hc2) as [_ ->]. reflexivity. }
  destruct (c =? ch "+").
  { rewrite skip_remove_underscores.
    destruct (skip_underscores_spec p') as [_ <-]. apply Hrest. }
  destruct (c =? ch "-").
  { rewrite skip_remove_underscores.
    destruct (skip_underscores_spec p') as [_ <-]. apply Hrest. }
  rewrite <- (remove_underscores_cons c p') by exact Hc. apply Hrest.
Qed.

(** X10. The decimal parser ignores underscores wherever they stand:
    [high_prec_dec__parse] gives the same status and the same decimal for an
    input and for the input without its underscores, and so does
    [parse_number_f64] for every input that [high_prec_dec__parse] accepts.
    (The special tokens are different: "i_nf" is not "inf".) *)
Theorem parse_ignores_underscores (s : list Z) :
  (forall oh : option high_prec_dec,
      high_prec_dec__parse oh (remove_underscores s)
      = high_prec_dec__parse oh s)
  /\ (fst (high_prec_dec__parse (Some hpd_stack) s) = None ->
      parse_number_f64 (remove_underscores s) = parse_number_f64 s).
Proof.
  split; [intros oh; apply high_prec_dec__parse_underscores | ].
  intros Hok. unfold parse_number_f64.
  rewrite high_prec_dec__parse_underscores.
  pose proof (high_prec_dec__parse_receiver hpd_stack s) as [h' Hh'].
  destruct (high_prec_dec__parse (Some hpd_stack) s) as [[e|] [h|]];
    [discriminate | discriminate | reflexivity | discriminate].
Qed.

Lemma parse_ignores_underscores_witness :
  parse_number_f64 (bytes_of_string "1000.5e+3")
  = parse_number_f64 (bytes_of_string "_1_000._5_e_+_3__").
Proof.
  exact (proj2 (parse_ignores_underscores (bytes_of_string "_1_000._5_e_+_3__"))
           ltac:(vm_compute; reflexivity)).
Defined.

(** ** The left shift multiplies by a power of two *)

Lemma lex_ge_value (a : list Z) :
  forall b : list Z,
    Forall is_dec_digit a -> Forall is_dec_digit b ->
    lex_lt a b = false ->
    digits_value b * 10 ^ Z.of_nat (length a)
    <= digits_value a * 10 ^ Z.of_nat (length b).
Proof.
  induction a as [|x a IH]; intros b Ha Hb Hlex.
  - destruct b as [|y b]; [cbn; lia | discriminate].
  - pose proof (digits_value_range _ Ha) as Rxa.
    apply Forall_cons in Ha as [Hx Ha].
    pose proof (digits_value_range a Ha) as Ra.
    destruct b as [|y b].
    { change (digits_value []) with 0.
      change (10 ^ Z.of_nat (length (@nil Z))) with 1. lia. }
    apply Forall_cons in Hb as [Hy Hb].
    pose proof (digits_value_range b Hb) as Rb.
    cbn [digits_value length]. rewrite !Nat2Z.inj_succ, !Z.pow_succ_r by lia.
    set (A := 10 ^ Z.of_nat (length a)) in *.
    set (B := 10 ^ Z.of_nat (length b)) in *.
    assert (HA : 0 < A) by (apply Z.pow_pos_nonneg; lia).
    assert (HB : 0 < B) by (apply Z.pow_pos_nonneg; lia).
    cbn [lex_lt] in Hlex. unfold is_dec_digit in *.
    destruct (Z.ltb_spec x y) as [Hlt|Hge]; [discriminate | ].
    destruct (Z.ltb_spec y x) as [Hgt|Hle].
    + assert (H1 : (y * B + digits_value b) * A < (y + 1) * B * A) by nia.
      assert (H2 : (y + 1) * B * A <= (x * A + digits_value a) * B) by nia.
      nia.
    + assert (x = y) as -> by lia.
      specialize (IH b Ha Hb Hlex). nia.
Qed.

(** The first loop of [small_lshift], when every digit that it puts down
    has a place in the array: the carry and the digits put down so far hold
    the product of the digits picked up and [2^s]. *)
Lemma small_lshift_pick_exact (h : high_prec_dec) (s k : Z) :
  hpd_wf h -> hpd_digits_ok h -> 1 <= s <= 60 ->
  0 <= k -> num_digits h + k <= 800 ->
  forall (cnt : nat) (n : Z) (g : high_prec_dec),
    Z.of_nat cnt <= num_digits h ->
    0 <= n < 2 ^ s ->
    length (digits g) = 800%nat -> truncated g = truncated h ->
    (forall i, 0 <= i < Z.of_nat cnt + k ->
       digit_get (digits g) i = digit_get (digits h) i) ->
    Forall is_dec_digit
      (take (Z.to_nat (num_digits h - Z.of_nat cnt))
         (drop (Z.to_nat (Z.of_nat cnt + k)) (digits g))) ->
    n * 10 ^ (num_digits h - Z.of_nat cnt)
    + digits_value (take (Z.to_nat (num_digits h - Z.of_nat cnt))
                      (drop (Z.to_nat (Z.of_nat cnt + k)) (digits g)))
    = digits_value (drop cnt (hpd_active_digits h)) * 2 ^ s ->
    let '(wx', n', g') :=
      small_lshift_pick cnt s (u32 (Z.of_nat cnt - 1 + k)) n g in
    wx' = u32 (k - 1) /\ 0 <= n' < 2 ^ s
    /\ length (digits g') = 800%nat /\ truncated g' = truncated h
    /\ (forall i, 0 <= i < k ->
          digit_get (digits g') i = digit_get (digits h) i)
    /\ Forall is_dec_digit
         (take (Z.to_nat (num_digits h)) (drop (Z.to_nat k) (digits g')))
    /\ n' * 10 ^ num_digits h
       + digits_value (take (Z.to_nat (num_digits h))
                         (drop (Z.to_nat k) (digits g')))
       = digits_value (hpd_active_digits h) * 2 ^ s.
Proof.
  intros [Hlen Hnd] Hok Hs Hk Hfit. unfold HPD__DIGITS_PRECISION in Hnd.
  pose proof (pow2_le_60 s ltac:(lia)) as Hp.
  induction cnt as [|rx IH]; intros n g Hcnt Hn Hg Htr Hlow Hdec Hval.
  - cbn [small_lshift_pick]. change (Z.of_nat 0) with 0 in *.
    rewrite Z.sub_0_r, Z.add_0_l in *. rewrite drop_0 in Hval.
    split_and!; try assumption; try lia;
      try (f_equal; lia); try (intros i Hi; apply Hlow; lia).
  - cbn [small_lshift_pick]. cbv zeta.
    assert (Hrd : digit_get (digits g) (Z.of_nat rx)
                  = digit_get (digits h) (Z.of_nat rx)) by (apply Hlow; lia).
    pose proof (Hok (Z.of_nat rx) ltac:(lia)) as Hd.
    rewrite Hrd. set (d := digit_get (digits h) (Z.of_nat rx)) in *.
    rewrite (shl64_small d s) by nia.
    rewrite (u64_small (n + d * 2 ^ s)) by nia.
    set (n1 := n + d * 2 ^ s).
    assert (Hn1 : 0 <= n1 < 10 * 2 ^ s) by (unfold n1; nia).
    pose proof (Z.div_mod n1 10 ltac:(lia)) as Hdm.
    pose proof (Z.mod_pos_bound n1 10 ltac:(lia)) as Hm.
    assert (Hrem : u64 (n1 - 10 * (n1 / 10)) = n1 mod 10)
      by (rewrite u64_small; lia).
    rewrite Hrem.
    assert (Hquo : 0 <= n1 / 10 < 2 ^ s).
    { split; [apply Z.div_pos; lia | apply Z.div_lt_upper_bound; lia]. }
    replace (Z.of_nat (S rx) - 1 + k) with (Z.of_nat rx + k) by lia.
    rewrite (u32_small (Z.of_nat rx + k)) by lia.
    destruct (Z.ltb_spec (Z.of_nat rx + k) HPD__DIGITS_PRECISION);
      [ | unfold HPD__DIGITS_PRECISION in *; lia].
    rewrite (u8_small (n1 mod 10)) by lia.
    replace (u32 (Z.of_nat rx + k - 1)) with (u32 (Z.of_nat rx - 1 + k))
      by (f_equal; lia).
    set (g1 := set_digits g (digit_set (digits g) (Z.of_nat rx + k) (n1 mod 10))).
    assert (Edrop : drop (Z.to_nat (Z.of_nat rx + k)) (digits g1)
                    = n1 mod 10
                      :: drop (Z.to_nat (Z.of_nat (S rx) + k)) (digits g)).
    { replace (Z.to_nat (Z.of_nat (S rx) + k))
        with (S (Z.to_nat (Z.of_nat rx + k))) by lia.
      unfold g1, digit_set. cbn [digits set_digits].
      erewrite drop_S; [ | apply list_lookup_insert_eq; lia].
      f_equal. apply drop_insert_lt. lia. }
    assert (Etake : take (Z.to_nat (num_digits h - Z.of_nat rx))
                      (drop (Z.to_nat (Z.of_nat rx + k)) (digits g1))
                    = n1 mod 10
                      :: take (Z.to_nat (num_digits h - Z.of_nat (S rx)))
                           (drop (Z.to_nat (Z.of_nat (S rx) + k)) (digits g))).
    { rewrite Edrop.
      replace (Z.to_nat (num_digits h - Z.of_nat rx))
        with (S (Z.to_nat (num_digits h - Z.of_nat (S rx)))) by lia.
      reflexivity. }
    apply IH.
    + lia.
    + exact Hquo.
    + unfold g1. cbn [digits set_digits]. rewrite length_digit_set. exact Hg.
    + exact Htr.
    + intros i Hi. unfold g1. cbn [digits set_digits].
      rewrite digit_get_set_other by lia. apply Hlow. lia.
    + rewrite Etake. apply Forall_cons. split; [unfold is_dec_digit; lia | exact Hdec].
    + rewrite Etake. cbn [digits_value]. rewrite length_take, length_drop.
      replace (Z.of_nat (Z.to_nat (num_digits h - Z.of_nat (S rx))
                         `min` (length (digits g)
                                - Z.to_nat (Z.of_nat (S rx) + k))))
        with (num_digits h - Z.of_nat (S rx)) by lia.
      pose proof (drop_active_cons h (Z.of_nat rx) ltac:(lia) ltac:(lia)) as E.
      rewrite Nat2Z.id in E.
      replace (Z.to_nat (Z.of_nat rx + 1)) with (S rx) in E by lia.
      fold d in E. rewrite E. cbn [digits_value].
      rewrite length_drop. unfold hpd_active_digits at 1. rewrite length_take.
      replace (Z.of_nat (Z.to_nat (num_digits h) `min` length (digits h) - S rx))
        with (num_digits h - Z.of_nat (S rx)) by lia.
      set (P := 10 ^ (num_digits h - Z.of_nat (S rx))) in *.
      replace (num_digits h - Z.of_nat rx)
        with (num_digits h - Z.of_nat (S rx) + 1) by lia.
      rewrite Z.pow_add_r by lia. fold P. change (10 ^ 1) with 10.
      unfold n1 in *. nia.
Qed.

(** The second loop of [small_lshift] puts down a carry of exactly [t + 1]
    decimal digits in the places [0 .. t]. *)
Lemma small_lshift_lead_exact (fuel : nat) :
  forall (t n : Z) (g : high_prec_dec),
    0 <= t < 800 -> t + 1 <= Z.of_nat fuel ->
    10 ^ t <= n < 10 ^ (t + 1) ->
    length (digits g) = 800%nat ->
    let g' := small_lshift_lead fuel (u32 t) n g in
    truncated g' = truncated g
    /\ exists pre : list Z,
        digits g' = pre ++ drop (Z.to_nat (t + 1)) (digits g)
        /\ Z.of_nat (length pre) = t + 1
        /\ digits_value pre = n
        /\ Forall is_dec_digit pre.
Proof.
  induction fuel as [|fuel IH]; intros t n g Ht Hf Hn Hg; [lia | ].
  cbn [small_lshift_lead]. cbv zeta.
  assert (Hpos : 0 < n).
  { assert (0 < 10 ^ t) by (apply Z.pow_pos_nonneg; lia). lia. }
  destruct (Z.ltb_spec 0 n) as [_|Hzero]; [ | lia].
  pose proof (Z.div_mod n 10 ltac:(lia)) as Hdm.
  pose proof (Z.mod_pos_bound n 10 ltac:(lia)) as Hm.
  assert (Hrem : u64 (n - 10 * (n / 10)) = n mod 10) by (rewrite u64_small; lia).
  rewrite Hrem, (u32_small t) by lia.
  destruct (Z.ltb_spec t HPD__DIGITS_PRECISION);
    [ | unfold HPD__DIGITS_PRECISION in *; lia].
  rewrite u8_small by lia.
  set (g1 := set_digits g (digit_set (digits g) t (n mod 10))).
  assert (Eg1 : digits g1
                = take (Z.to_nat t) (digits g)
                  ++ n mod 10 :: drop (Z.to_nat (t + 1)) (digits g)).
  { unfold g1, digit_set. cbn [digits set_digits].
    replace (Z.to_nat (t + 1)) with (S (Z.to_nat t)) by lia.
    apply insert_take_drop. lia. }
  destruct (Z.eq_dec t 0) as [->|Hne].
  - change (10 ^ (0 + 1)) with 10 in Hn.
    rewrite (Z.div_small n 10) by lia.
    assert (Hend : forall wx g0, small_lshift_lead fuel wx 0 g0 = g0)
      by (destruct fuel; reflexivity).
    rewrite Hend. split; [reflexivity | ].
    exists [n mod 10]. rewrite Eg1. change (Z.to_nat 0) with 0%nat.
    rewrite take_0. split_and!; [reflexivity | reflexivity | | ].
    + cbn. rewrite Z.mod_small by lia. lia.
    + constructor; [unfold is_dec_digit; lia | constructor].
  - assert (Hq : 10 ^ (t - 1) <= n / 10 < 10 ^ (t - 1 + 1)).
    { replace (t - 1 + 1) with t by lia.
      assert (E : 10 ^ t = 10 ^ (t - 1) * 10).
      { replace t with (t - 1 + 1) at 1 by lia.
        rewrite Z.pow_add_r by lia. reflexivity. }
      assert (E' : 10 ^ (t + 1) = 10 ^ t * 10)
        by (rewrite Z.pow_add_r by lia; reflexivity).
      split; [apply Z.div_le_lower_bound; lia
             | apply Z.div_lt_upper_bound; lia]. }
    destruct (IH (t - 1) (n / 10) g1 ltac:(lia) ltac:(lia) Hq) as (Htr & pre & Ed & El & Ev & Hp).
    { unfold g1. cbn [digits set_digits]. rewrite length_digit_set. exact Hg. }
    split; [rewrite Htr; reflexivity | ].
    exists (pre ++ [n mod 10]).
    replace (t - 1 + 1) with t in * by lia.
    assert (Edrop : drop (Z.to_nat t) (digits g1)
                    = n mod 10 :: drop (Z.to_nat (t + 1)) (digits g)).
    { rewrite Eg1. rewrite drop_app_length'; [reflexivity | ].
      rewrite length_take. lia. }
    split_and!.
    + rewrite Ed, Edrop, <- app_assoc. reflexivity.
    + rewrite length_app. cbn [length]. lia.
    + rewrite digits_value_app, Ev. cbn [length digits_value].
      change (10 ^ Z.of_nat 1) with 10. change (10 ^ Z.of_nat 0) with 1. lia.
    + apply Forall_app. split; [exact Hp | ].
      constructor; [unfold is_dec_digit; lia | constructor].
Qed.

Lemma canonical_value_lower (h : high_prec_dec) :
  hpd_canonical h ->
  10 ^ (num_digits h - 1) <= digits_value (hpd_active_digits h).
Proof.
  intros (Hwf & [_ Hok] & Hpos & Hnz).
  destruct (active_digits_dec h Hwf Hok) as [Hdec Hlen].
  pose proof Hwf as [Hl Hnd]. unfold HPD__DIGITS_PRECISION in Hnd.
  pose proof (drop_active_cons h 0 ltac:(lia) ltac:(lia)) as E.
  change (Z.to_nat 0) with 0%nat in E. rewrite drop_0 in E.
  rewrite E in Hlen, Hdec |- *. cbn [length digits_value] in *.
  apply Forall_cons in Hdec as [Hd0 Hdec].
  pose proof (digits_value_range _ Hdec) as Hr.
  replace (num_digits h - 1)
    with (Z.of_nat (length (drop (Z.to_nat (0 + 1)) (hpd_active_digits h))))
    by lia.
  set (P := 10 ^ Z.of_nat _) in *.
  unfold is_dec_digit in Hd0. nia.
Qed.

Lemma small_lshift_untrimmed_exact (h : high_prec_dec) (s : Z) :
  hpd_canonical h -> 1 <= s <= 60 ->
  let k := high_prec_dec__lshift_num_new_digits h s in
  num_digits h + k <= 800 ->
  let g := small_lshift_untrimmed h s in
  digits_value (hpd_active_digits g)
  = digits_value (hpd_active_digits h) * 2 ^ s
  /\ num_digits g = num_digits h + k
  /\ truncated g = truncated h /\ negative g = negative h
  /\ 10 ^ (num_digits h + k - 1)
     <= digits_value (hpd_active_digits h) * 2 ^ s
     < 10 ^ (num_digits h + k).
Proof.
  intros Hcan Hs k Hfit g.
  pose proof (canonical_value_lower h Hcan) as Hvlow.
  destruct Hcan as (Hwf & [Htrim Hok] & Hpos & Hd0).
  pose proof Hwf as [Hlen Hnd]. unfold HPD__DIGITS_PRECISION in Hnd.
  assert (Ek : k = if lex_lt (hpd_active_digits h) (decimal_digits (5 ^ s))
                   then lshift_max_new_digits s - 1 else lshift_max_new_digits s).
  { apply lshift_num_new_digits_spec; [rewrite Hlen; lia | exact Hs]. }
  destruct (pow5_table_digits_ok s Hs) as (_ & _ & HN & _).
  destruct (pow5_digits_facts s Hs) as (Hb & Hv5 & Hsuf & HNL & H2N).
  cbv zeta in Hb, Hv5, Hsuf, HNL.
  pose proof (lshift_max_new_digits_pow2 s Hs) as HN2.
  assert (Hk : 0 <= k <= 19) by (rewrite Ek; destruct (lex_lt _ _); lia).
  destruct (active_digits_dec h Hwf Hok) as [Hdec HlenA].
  pose proof (pow2_le_60 s ltac:(lia)) as Hp.
  set (V := digits_value (hpd_active_digits h)) in *.
  set (D := 10 ^ num_digits h) in *.
  assert (HD : 0 < D) by (apply Z.pow_pos_nonneg; lia).
  assert (ED : D = 10 ^ (num_digits h - 1) * 10).
  { unfold D. replace (num_digits h) with (num_digits h - 1 + 1) at 1 by lia.
    rewrite Z.pow_add_r by lia. reflexivity. }
  (* The first loop. *)
  pose proof (small_lshift_pick_exact h s k Hwf Hok Hs ltac:(lia) Hfit
                (Z.to_nat (num_digits h)) 0 h) as Hpick.
  rewrite Z2Nat.id in Hpick by lia.
  pose proof (small_lshift_pick_frame (Z.to_nat (num_digits h)) s
                (u32 (num_digits h - 1 + k)) 0 h) as F1.
  unfold g, small_lshift_untrimmed. fold k.
  destruct (small_lshift_pick (Z.to_nat (num_digits h)) s
              (u32 (num_digits h - 1 + k)) 0 h) as [[wx c] g1].
  cbn [snd] in F1.
  destruct Hpick as (Ewx & Hc & Hg1 & Htr1 & Hlow & Hdec1 & Hval);
    [lia | lia | exact Hlen | reflexivity | intros i Hi; reflexivity
    | rewrite Z.sub_diag; change (Z.to_nat 0) with 0%nat; rewrite take_0;
      constructor
    | rewrite Z.sub_diag, (drop_active_nil h (num_digits h)) by lia;
      change (Z.to_nat 0) with 0%nat; rewrite take_0; cbn [digits_value]; lia
    | ].
  fold V D in Hval. subst wx.
  set (W := digits_value (take (Z.to_nat (num_digits h))
                            (drop (Z.to_nat k) (digits g1)))) in *.
  assert (HW : 0 <= W < D).
  { pose proof (digits_value_range _ Hdec1) as HR. fold W in HR.
    rewrite length_take, length_drop in HR.
    replace (Z.of_nat (Z.to_nat (num_digits h)
                       `min` (length (digits g1) - Z.to_nat k)))
      with (num_digits h) in HR by lia.
    exact HR. }
  assert (Hcup : c < 10 ^ k).
  { apply (small_lshift_carry_bound h s c Hwf Hok Hs). fold V D. lia. }
  assert (Hclow : 1 <= k -> 10 ^ (k - 1) <= c).
  { intros Hk1.
    assert (EK : 10 ^ k = 10 ^ (k - 1) * 10).
    { replace k with (k - 1 + 1) at 1 by lia.
      rewrite Z.pow_add_r by lia. reflexivity. }
    assert (HK : 0 < 10 ^ (k - 1)) by (apply Z.pow_pos_nonneg; lia).
    assert (Hprod : 10 ^ (k - 1) * D <= V * 2 ^ s).
    { destruct (lex_lt (hpd_active_digits h) (decimal_digits (5 ^ s))) eqn:Hlex.
      - (* k = N - 1: the first digit is not zero and 2^s has N digits. *)
        rewrite Ek in *.
        assert (10 ^ (lshift_max_new_digits s - 1 - 1) * 10
                = 10 ^ (lshift_max_new_digits s - 1)) by lia.
        nia.
      - (* k = N: the digits are not below those of 5^s. *)
        pose proof (lex_ge_value _ _ Hdec Hb Hlex) as Hge.
        rewrite Hv5, HlenA in Hge. fold V D in Hge.
        set (L := Z.of_nat (length (decimal_digits (5 ^ s)))) in *.
        assert (HL : 0 < 10 ^ L) by (apply Z.pow_pos_nonneg; lia).
        assert (E : 2 ^ s * 5 ^ s = 10 ^ (k - 1) * 10 ^ L).
        { rewrite Ek, <- Z.pow_mul_l, <- Z.pow_add_r by lia. f_equal. lia. }
        assert (10 ^ (k - 1) * 10 ^ L * D <= V * 2 ^ s * 10 ^ L) by nia.
        nia. }
    apply Z.lt_succ_r. apply Z.nle_gt. intros Hbad. nia. }
  (* The second loop. *)
  assert (Hlead : truncated (small_lshift_lead 20 (u32 (k - 1)) c g1)
                  = truncated h
                  /\ digits_value
                       (take (Z.to_nat (num_digits h + k))
                          (digits (small_lshift_lead 20 (u32 (k - 1)) c g1)))
                     = c * D + W).
  { destruct (Z.eq_dec k 0) as [E0|Hne].
    - assert (Ec : c = 0)
        by (rewrite E0 in Hcup; change (10 ^ 0) with 1 in Hcup; lia).
      rewrite Ec.
      assert (Eg : small_lshift_lead 20 (u32 (k - 1)) 0 g1 = g1) by reflexivity.
      rewrite Eg. split; [exact Htr1 | ]. unfold W. rewrite E0, Z.add_0_r.
      change (Z.to_nat 0) with 0%nat. rewrite drop_0. lia.
    - destruct (small_lshift_lead_exact 20 (k - 1) c g1 ltac:(lia)
                  ltac:(change (Z.of_nat 20) with 20; lia)) as (Htr2 & pre & Ed & El & Ev & Hpre);
        [replace (k - 1 + 1) with k by lia; split; [apply Hclow; lia | exact Hcup]
        | exact Hg1 | ].
      replace (k - 1 + 1) with k in * by lia.
      split; [rewrite Htr2; exact Htr1 | ].
      rewrite Ed.
      replace (Z.to_nat (num_digits h + k))
        with (length pre + Z.to_nat (num_digits h))%nat by lia.
      rewrite take_app_add, digits_value_app, Ev. fold W.
      rewrite length_take, length_drop.
      replace (Z.of_nat (Z.to_nat (num_digits h)
                         `min` (length (digits g1) - Z.to_nat k)))
        with (num_digits h) by lia.
      reflexivity. }
  destruct Hlead as [Htr2 Hval2].
  set (g2 := small_lshift_lead 20 (u32 (k - 1)) c g1) in *.
  pose proof (small_lshift_lead_frame 20 (u32 (k - 1)) c g1) as F2.
  fold g2 in F2.
  destruct (same_frame_trans _ _ _ F1 F2) as (End2 & _ & Eneg2 & _).
  cbv zeta. cbn [num_digits set_num_digits]. rewrite End2.
  rewrite (u32_small (num_digits h + k)) by lia.
  destruct (Z.ltb_spec HPD__DIGITS_PRECISION (num_digits h + k)) as [Hbig|_];
    [unfold HPD__DIGITS_PRECISION in Hbig; lia | ].
  unfold hpd_active_digits.
  cbn [num_digits digits truncated negative set_num_digits set_decimal_point].
  rewrite Hval2, Htr2, Eneg2.
  assert (EDK : 10 ^ (num_digits h + k) = D * 10 ^ k)
    by (unfold D; rewrite Z.pow_add_r by lia; reflexivity).
  assert (HK : 0 < 10 ^ k) by (apply Z.pow_pos_nonneg; lia).
  split_and!; try reflexivity; try lia.
  - destruct (Z.eq_dec k 0) as [E0|Hne].
    + rewrite E0, Z.add_0_r. nia.
    + specialize (Hclow ltac:(lia)).
      replace (num_digits h + k - 1) with (num_digits h + (k - 1)) by lia.
      rewrite Z.pow_add_r by lia. fold D. nia.
  - nia.
Qed.

(** X11. [small_lshift] multiplies by [2^s] exactly. For a decimal with a
    first digit that is not zero, a shift from 1 to 60 bits, and room in the
    array for the new digits: the digits after the shift write the product
    of the digits before it and [2^s] (once the zeroes that the closing trim
    dropped are put back), the decimal point moves up by the number [k] of
    new digits, and [k] is exactly the number of decimal digits that the
    product has more than the operand. The sign and the truncated flag are
    kept, and the result again has a first digit that is not zero. *)
Theorem small_lshift_multiplies (h : high_prec_dec) (s : Z) :
  hpd_canonical h -> 1 <= s <= 60 ->
  -2047 <= decimal_point h <= 2047 ->
  let k := high_prec_dec__lshift_num_new_digits h s in
  num_digits h + k <= 800 ->
  let h' := high_prec_dec__small_lshift h s in
  digits_value (hpd_active_digits h')
    * 10 ^ (num_digits h + k - num_digits h')
  = digits_value (hpd_active_digits h) * 2 ^ s
  /\ 0 < num_digits h' <= num_digits h + k
  /\ decimal_point h' = decimal_point h + k
  /\ 10 ^ (num_digits h + k - 1)
     <= digits_value (hpd_active_digits h) * 2 ^ s
     < 10 ^ (num_digits h + k)
  /\ truncated h' = truncated h /\ negative h' = negative h
  /\ hpd_canonical h'.
Proof.
  intros Hcan Hs Hdp k Hfit h'.
  destruct (small_lshift_untrimmed_exact h s Hcan Hs Hfit)
    as (Hv & End & Htr & Hneg & Hrange).
  destruct (small_lshift_canonical h s Hcan Hs Hdp) as (Hcan' & Hk & Edp & _).
  fold k in End, Hrange, Hk, Edp. fold h' in Hcan', Edp.
  pose proof Hcan as (Hwf & [Htrim Hok] & Hpos & Hd0).
  destruct (pow5_table_digits_ok s Hs) as (_ & _ & HN & _).
  assert (HkN : k <= lshift_max_new_digits s).
  { unfold k. rewrite lshift_num_new_digits_spec;
      [destruct (lex_lt _ _); lia | | exact Hs].
    destruct Hwf as [Hl Hn]. rewrite Hl.
    unfold HPD__DIGITS_PRECISION in Hn. lia. }
  destruct (small_lshift_untrimmed_inv s Hs h Hwf Hok k Hk Htrim Hpos HkN eq_refl)
    as [Hwfu _].
  assert (Esl : h' = high_prec_dec__trim (small_lshift_untrimmed h s)).
  { unfold h', high_prec_dec__small_lshift.
    destruct (Z.eqb_spec (num_digits h) 0); [lia | reflexivity]. }
  pose proof (trim_value (small_lshift_untrimmed h s) Hwfu) as Htv.
  rewrite <- Esl, End, Hv in Htv.
  pose proof (trim_loop_le (Z.to_nat (num_digits (small_lshift_untrimmed h s)))
                (digits (small_lshift_untrimmed h s))) as Hle.
  assert (End' : num_digits h' <= num_digits h + k).
  { rewrite Esl. unfold high_prec_dec__trim. cbn [num_digits set_num_digits].
    lia. }
  destruct Hcan' as (Hwf' & Hinv' & Hpos' & Hd0').
  split_and!; try assumption; try lia.
  - rewrite Esl. exact Htr.
  - rewrite Esl. exact Hneg.
  - split_and!; assumption.
Qed.

Lemma small_lshift_multiplies_witness :
  let h := high_prec_dec__assign hpd_stack 625 false in
  let h' := high_prec_dec__small_lshift h 4 in
  digits_value (hpd_active_digits h') * 10 ^ (3 + 2 - 1)
  = digits_value (hpd_active_digits h) * 2 ^ 4
  /\ decimal_point h' = 5.
Proof.
  intros h h'.
  assert (Hcan : hpd_canonical h).
  { destruct (assign_inv hpd_stack 625 false eq_refl ltac:(lia)) as [Hwf Hinv].
    split_and!; [exact Hwf | exact Hinv | vm_compute; reflexivity
                | vm_compute; discriminate]. }
  pose proof (small_lshift_multiplies h 4 Hcan ltac:(lia)
                ltac:(vm_compute; split; discriminate)
                ltac:(vm_compute; discriminate)) as H.
  cbv zeta in H. fold h' in H.
  destruct H as (Hv & _ & Hdp & _).
  assert (E1 : num_digits h = 3) by (vm_compute; reflexivity).
  assert (E2 : high_prec_dec__lshift_num_new_digits h 4 = 2)
    by (vm_compute; reflexivity).
  assert (E3 : num_digits h' = 1) by (vm_compute; reflexivity).
  assert (E4 : decimal_point h = 3) by (vm_compute; reflexivity).
  rewrite E1, E2, E3 in Hv. rewrite E2, E4 in Hdp.
  split; [exact Hv | exact Hdp].
Defined.

(** ** The right shift divides by a power of two *)

Section SmallRshiftExact.
Variable s : Z.
Hypothesis Hs : 1 <= s <= 60.
Variable h : high_prec_dec.
Hypothesis Hwf : hpd_wf h.
Hypothesis Hok : hpd_digits_ok h.

(** The number read so far: the first [rx] digits, implicit zeroes
    included. *)
Let pv (rx : Z) : Z := hpd_prefix_value h (Z.to_nat rx).

Lemma pv_succ (rx : Z) :
  0 <= rx -> pv (rx + 1) = 10 * pv rx + hpd_digit h rx.
Proof.
  intros Hrx. unfold pv. replace (Z.to_nat (rx + 1)) with (S (Z.to_nat rx)) by lia.
  cbn [hpd_prefix_value]. rewrite Z2Nat.id by lia. reflexivity.
Qed.

Lemma hpd_digit_inside (rx : Z) :
  0 <= rx < num_digits h -> hpd_digit h rx = digit_get (digits h) rx.
Proof.
  intros H. unfold hpd_digit.
  destruct (Z.leb_spec 0 rx); [ | lia].
  destruct (Z.ltb_spec rx (num_digits h)); [reflexivity | lia].
Qed.

Lemma hpd_digit_outside (rx : Z) :
  num_digits h <= rx -> hpd_digit h rx = 0.
Proof.
  intros H. unfold hpd_digit.
  destruct (Z.ltb_spec rx (num_digits h)); [lia | ].
  rewrite andb_false_r. reflexivity.
Qed.

Lemma small_rshift_pick_exact (cnt : nat) :
  forall rx n,
    0 <= rx -> rx + Z.of_nat cnt = num_digits h -> 0 <= n < 10 * 2 ^ s ->
    n = pv rx ->
    let '(rx', n') := small_rshift_pick cnt s rx n h in n' = pv rx'.
Proof.
  destruct Hwf as [Hlen Hnd]. unfold HPD__DIGITS_PRECISION in Hnd.
  pose proof (pow2_le_60 s ltac:(lia)) as Hp.
  induction cnt as [|cnt IH]; intros rx n Hrx Hcnt Hn Hv; [exact Hv | ].
  cbn [small_rshift_pick]. rewrite shr64_small by lia.
  destruct (Z.eqb_spec (n / 2 ^ s) 0) as [Hq|Hq]; [ | exact Hv].
  apply Z.div_small_iff in Hq; [ | lia].
  pose proof (Hok rx ltac:(lia)) as Hd.
  rewrite (u32_small (rx + 1)) by lia. rewrite u64_small by lia.
  apply IH; [lia | lia | lia | ].
  rewrite pv_succ, hpd_digit_inside by lia. lia.
Qed.

Lemma small_rshift_zeroes_exact (fuel : nat) :
  forall rx n,
    num_digits h <= rx -> rx + Z.of_nat fuel < 2 ^ 32 -> 0 <= n ->
    n = pv rx ->
    let '(rx', n') := small_rshift_zeroes fuel s rx n in n' = pv rx'.
Proof.
  destruct Hwf as [Hlen Hnd]. unfold HPD__DIGITS_PRECISION in Hnd.
  pose proof (pow2_le_60 s ltac:(lia)) as Hp.
  induction fuel as [|fuel IH]; intros rx n Hrx Hfuel Hn Hv; [exact Hv | ].
  cbn [small_rshift_zeroes]. rewrite shr64_small by lia.
  destruct (Z.eqb_spec (n / 2 ^ s) 0) as [Hq|Hq]; [ | exact Hv].
  apply Z.div_small_iff in Hq; [ | lia].
  rewrite (u32_small (rx + 1)) by lia. rewrite u64_small by lia.
  apply IH; [lia | lia | lia | ].
  rewrite pv_succ, hpd_digit_outside by lia. lia.
Qed.

Lemma small_rshift_copy_exact (cnt : nat) :
  forall rx wx n ds,
    0 <= wx < rx -> (cnt = 0%nat \/ rx + Z.of_nat cnt = num_digits h) ->
    0 <= n < 10 * 2 ^ s -> length ds = 800%nat ->
    (forall i, rx <= i < num_digits h -> digit_get ds i = digit_get (digits h) i) ->
    pv rx = 2 ^ s * 10 * digits_value (take (Z.to_nat wx) ds) + n ->
    let '(wx', n', ds') := small_rshift_copy cnt s (Z.ones s) rx wx n ds in
    wx' = wx + Z.of_nat cnt /\ 0 <= n' < 10 * 2 ^ s /\ length ds' = 800%nat
    /\ pv (rx + Z.of_nat cnt)
       = 2 ^ s * 10 * digits_value (take (Z.to_nat wx') ds') + n'.
Proof.
  destruct Hwf as [Hlen Hnd]. unfold HPD__DIGITS_PRECISION in Hnd.
  pose proof (pow2_le_60 s ltac:(lia)) as Hp.
  induction cnt as [|cnt IH]; intros rx wx n ds Hwx Hcnt Hn Hds Hun Hv.
  - cbn [small_rshift_copy]. change (Z.of_nat 0) with 0. rewrite !Z.add_0_r.
    split_and!; try assumption; lia.
  - destruct Hcnt as [Hcnt|Hcnt]; [discriminate | ].
    cbn [small_rshift_copy]. cbv zeta.
    pose proof (Hok rx ltac:(lia)) as Hd. rewrite <- Hun in Hd by lia.
    rewrite shr64_small, Z.land_ones by lia.
    pose proof (Z.mod_pos_bound n (2 ^ s) ltac:(lia)) as Hm.
    pose proof (Z.div_mod n (2 ^ s) ltac:(lia)) as Hdm.
    assert (Hq : 0 <= n / 2 ^ s <= 9).
    { split; [apply Z.div_pos; lia | ].
      assert (n / 2 ^ s < 10) by (apply Z.div_lt_upper_bound; lia). lia. }
    rewrite (u8_small (n / 2 ^ s)) by lia.
    rewrite (u64_small (10 * (n mod 2 ^ s) + digit_get ds rx)) by lia.
    rewrite (u32_small (rx + 1)), (u32_small (wx + 1)) by lia.
    specialize (IH (rx + 1) (wx + 1) (10 * (n mod 2 ^ s) + digit_get ds rx)
                  (digit_set ds wx (n / 2 ^ s))).
    destruct (small_rshift_copy cnt s (Z.ones s) (rx + 1) (wx + 1) _ _)
      as [[wx' n'] ds'].
    destruct IH as (E1 & E2 & E3 & E4);
      [lia | destruct cnt; [left; reflexivity | right; lia] | lia
      | rewrite length_digit_set; exact Hds | | | ].
    + intros i Hi. rewrite digit_get_set_other by lia. apply Hun. lia.
    + rewrite pv_succ, hpd_digit_inside, <- Hun, Hv by lia.
      replace (Z.to_nat (wx + 1)) with (S (Z.to_nat wx)) by lia.
      rewrite take_S_digit by (rewrite length_digit_set; lia).
      rewrite Z2Nat.id by lia. rewrite digit_get_set_same by lia.
      unfold digit_set. rewrite take_insert_ge by lia.
      rewrite digits_value_app. cbn [length digits_value].
      change (10 ^ Z.of_nat 1) with 10. change (10 ^ Z.of_nat 0) with 1. lia.
    + replace (rx + Z.of_nat (S cnt)) with (rx + 1 + Z.of_nat cnt) by lia.
      split_and!; try assumption; lia.
Qed.
End SmallRshiftExact.

Lemma small_rshift_trail_truncated (fuel : nat) (s mask : Z) :
  forall wx n g,
    truncated g = true ->
    truncated (snd (small_rshift_trail fuel s mask wx n g)) = true.
Proof.
  induction fuel as [|fuel IH]; intros wx n g Hg; [exact Hg | ].
  rewrite small_rshift_trail_step.
  destruct (0 <? n); [ | exact Hg]. cbv zeta.
  destruct (wx <? HPD__DIGITS_PRECISION); [ | destruct (0 <? _)];
    apply IH; try exact Hg; reflexivity.
Qed.

(** The third loop of [small_rshift] goes on dividing, with implicit zeroes
    for the digits that it reads. Once the array is full it drops the digits
    that it computes, and raises the truncated flag for one that is not
    zero: [z] counts the zero digits dropped. *)
Lemma small_rshift_trail_exact (s : Z) (fuel : nat) :
  1 <= s <= 60 ->
  forall (j wx n : Z) (g : high_prec_dec) (z T : Z),
    0 <= j <= s -> 0 <= n < 10 * 2 ^ s -> (2 ^ j | n) ->
    s - j + 1 <= Z.of_nat fuel ->
    0 <= wx <= 800 -> length (digits g) = 800%nat ->
    0 <= z -> (0 < z -> wx = 800) ->
    T = 2 ^ s * 10 * digits_value (take (Z.to_nat wx) (digits g)) * 10 ^ z + n ->
    let '(wx', g') := small_rshift_trail fuel s (Z.ones s) wx n g in
    truncated g' = false ->
    exists m z',
      0 <= m /\ 0 <= z' /\ wx' + z' = wx + z + m /\ 0 <= wx' <= 800
      /\ T * 10 ^ m
         = 2 ^ s * 10 * digits_value (take (Z.to_nat wx') (digits g')) * 10 ^ z'.
Proof.
  intros Hs. pose proof (pow2_le_60 s ltac:(lia)) as Hp.
  induction fuel as [|fuel IH];
    intros j wx n g z T Hj Hn Hdiv Hfuel Hwx Hg Hz Hzwx HT; [lia | ].
  rewrite small_rshift_trail_step.
  destruct (Z.ltb_spec 0 n) as [Hpos|Hzero].
  2:{ intros _. exists 0, z. rewrite HT. change (10 ^ 0) with 1.
      split_and!; lia. }
  cbv zeta. rewrite shr64_small, Z.land_ones by lia.
  pose proof (Z.mod_pos_bound n (2 ^ s) ltac:(lia)) as Hm.
  pose proof (Z.div_mod n (2 ^ s) ltac:(lia)) as Hdm.
  assert (Hq : 0 <= n / 2 ^ s <= 9).
  { split; [apply Z.div_pos; lia | ].
    assert (n / 2 ^ s < 10) by (apply Z.div_lt_upper_bound; lia). lia. }
  rewrite (u8_small (n / 2 ^ s)) by lia.
  rewrite (u64_small (10 * (n mod 2 ^ s))) by lia.
  set (n1 := 10 * (n mod 2 ^ s)).
  (* What the rest of the loop does from the next state. *)
  assert (Hnext : forall wx1 g1 z1,
            0 <= wx1 <= 800 -> length (digits g1) = 800%nat ->
            0 <= z1 -> (0 < z1 -> wx1 = 800) ->
            wx1 + z1 = wx + z + 1 ->
            10 * T = 2 ^ s * 10
                     * digits_value (take (Z.to_nat wx1) (digits g1)) * 10 ^ z1
                     + n1 ->
            let '(wx', g') := small_rshift_trail fuel s (Z.ones s) wx1 n1 g1 in
            truncated g' = false ->
            exists m z',
              0 <= m /\ 0 <= z' /\ wx' + z' = wx + z + m /\ 0 <= wx' <= 800
              /\ T * 10 ^ m
                 = 2 ^ s * 10 * digits_value (take (Z.to_nat wx') (digits g'))
                   * 10 ^ z').
  { intros wx1 g1 z1 Hwx1 Hg1 Hz1 Hzwx1 Hsum HT1.
    destruct (Z.eq_dec j s) as [Ej|Hlt].
    - assert (Hz0 : n mod 2 ^ s = 0).
      { apply Z.mod_divide; [lia | ]. rewrite <- Ej. exact Hdiv. }
      assert (En1 : n1 = 0) by (unfold n1; lia). rewrite En1 in *.
      assert (Hstop : small_rshift_trail fuel s (Z.ones s) wx1 0 g1 = (wx1, g1))
        by (destruct fuel; reflexivity).
      rewrite Hstop. intros _. exists 1, z1. change (10 ^ 1) with 10.
      split_and!; lia.
    - assert (Hdiv' : (2 ^ (j + 1) | n1)).
      { unfold n1. destruct Hdiv as [q ->].
        replace (2 ^ s) with (2 ^ (s - j) * 2 ^ j)
          by (rewrite <- Z.pow_add_r by lia; f_equal; lia).
        rewrite Z.mul_mod_distr_r
          by (try apply Z.pow_nonzero; try (apply Z.pow_pos_nonneg; lia); lia).
        exists (5 * (q mod 2 ^ (s - j))).
        rewrite Z.pow_add_r by lia. change (2 ^ 1) with 2. lia. }
      specialize (IH (j + 1) wx1 n1 g1 z1 (10 * T) ltac:(lia)
                    ltac:(unfold n1; lia) Hdiv' ltac:(lia) Hwx1 Hg1 Hz1 Hzwx1 HT1).
      destruct (small_rshift_trail fuel s (Z.ones s) wx1 n1 g1) as [wx' g'].
      intros Htr. destruct (IH Htr) as (m & z' & Hm0 & Hz' & Hsum' & Hwx' & HT').
      exists (m + 1), z'. rewrite Z.pow_add_r by lia. change (10 ^ 1) with 10.
      split_and!; lia. }
  destruct (Z.ltb_spec wx HPD__DIGITS_PRECISION) as [Hroom|Hfull];
    unfold HPD__DIGITS_PRECISION in *.
  - assert (z = 0) as -> by lia. change (10 ^ 0) with 1 in HT.
    rewrite (u32_small (wx + 1)) by lia.
    apply (Hnext (wx + 1) _ 0);
      [lia | cbn [digits set_digits]; rewrite length_digit_set; exact Hg
      | lia | lia | lia | ].
    cbn [digits set_digits]. change (10 ^ 0) with 1.
    replace (Z.to_nat (wx + 1)) with (S (Z.to_nat wx)) by lia.
    rewrite take_S_digit by (rewrite length_digit_set; lia).
    rewrite Z2Nat.id by lia. rewrite digit_get_set_same by lia.
    unfold digit_set. rewrite take_insert_ge by lia.
    rewrite digits_value_app. cbn [length digits_value].
    change (10 ^ Z.of_nat 1) with 10. change (10 ^ Z.of_nat 0) with 1.
    unfold n1. lia.
  - destruct (Z.ltb_spec 0 (n / 2 ^ s)) as [Hdrop|Hzero].
    + pose proof (small_rshift_trail_truncated fuel s (Z.ones s) wx n1
                    (set_truncated g true) eq_refl) as Htrue.
      destruct (small_rshift_trail fuel s (Z.ones s) wx n1 (set_truncated g true))
        as [wx' g']. cbn [snd] in Htrue. intros Hfalse. congruence.
    + assert (Eq0 : n / 2 ^ s = 0) by lia.
      apply (Hnext wx g (z + 1)); [lia | exact Hg | lia | lia | lia | ].
      rewrite Z.pow_add_r by lia. change (10 ^ 1) with 10.
      unfold n1. nia.
Qed.

(** With room for [s - j + 1] more digits the third loop drops none. *)
Lemma small_rshift_trail_room (s : Z) (fuel : nat) :
  1 <= s <= 60 ->
  forall (j wx n : Z) (g : high_prec_dec),
    0 <= j <= s -> 0 <= n < 10 * 2 ^ s -> (2 ^ j | n) ->
    0 <= wx -> wx + (s - j + 1) <= 800 ->
    truncated (snd (small_rshift_trail fuel s (Z.ones s) wx n g)) = truncated g.
Proof.
  intros Hs. pose proof (pow2_le_60 s ltac:(lia)) as Hp.
  induction fuel as [|fuel IH]; intros j wx n g Hj Hn Hdiv Hwx Hroom;
    [reflexivity | ].
  rewrite small_rshift_trail_step.
  destruct (Z.ltb_spec 0 n) as [Hpos|Hzero]; [ | reflexivity].
  cbv zeta. rewrite Z.land_ones by lia.
  pose proof (Z.mod_pos_bound n (2 ^ s) ltac:(lia)) as Hm.
  rewrite (u64_small (10 * (n mod 2 ^ s))) by lia.
  destruct (Z.ltb_spec wx HPD__DIGITS_PRECISION) as [_|Hfull];
    [ | unfold HPD__DIGITS_PRECISION in Hfull; lia].
  rewrite (u32_small (wx + 1)) by lia.
  destruct (Z.eq_dec j s) as [Ej|Hlt].
  - assert (Hz0 : n mod 2 ^ s = 0).
    { apply Z.mod_divide; [lia | ]. rewrite <- Ej. exact Hdiv. }
    rewrite Hz0. change (10 * 0) with 0.
    assert (Hstop : forall wx1 g1,
              small_rshift_trail fuel s (Z.ones s) wx1 0 g1 = (wx1, g1))
      by (destruct fuel; reflexivity).
    rewrite Hstop. reflexivity.
  - assert (Hdiv' : (2 ^ (j + 1) | 10 * (n mod 2 ^ s))).
    { destruct Hdiv as [q ->].
      replace (2 ^ s) with (2 ^ (s - j) * 2 ^ j)
        by (rewrite <- Z.pow_add_r by lia; f_equal; lia).
      rewrite Z.mul_mod_distr_r
        by (try apply Z.pow_nonzero; try (apply Z.pow_pos_nonneg; lia); lia).
      exists (5 * (q mod 2 ^ (s - j))).
      rewrite Z.pow_add_r by lia. change (2 ^ 1) with 2. lia. }
    rewrite (IH (j + 1)); [reflexivity | lia | lia | exact Hdiv' | lia | lia].
Qed.

Lemma pow10_shift_exponents (A B a b x y : Z) :
  0 <= a -> 0 <= b -> 0 <= x -> 0 <= y -> a + y = b + x ->
  A * 10 ^ a = B * 10 ^ b -> A * 10 ^ x = B * 10 ^ y.
Proof.
  intros Ha Hb Hx Hy Hsum E.
  assert (H1 : 10 ^ b * 10 ^ x = 10 ^ a * 10 ^ y)
    by (rewrite <- !Z.pow_add_r by lia; f_equal; lia).
  assert (Hp : 0 < 10 ^ a) by (apply Z.pow_pos_nonneg; lia).
  apply (Z.mul_cancel_r _ _ (10 ^ a)); [lia | ].
  transitivity (A * 10 ^ a * 10 ^ x); [ring | ].
  rewrite E. transitivity (B * (10 ^ b * 10 ^ x)); [ring | ].
  rewrite H1. ring.
Qed.

Lemma small_rshift_exact (h : high_prec_dec) (s : Z) :
  hpd_canonical h -> 1 <= s <= 60 -> -1000 <= decimal_point h <= 2047 ->
  let h' := high_prec_dec__small_rshift h s in
  (truncated h' = false ->
   digits_value (hpd_active_digits h)
     * 10 ^ (decimal_point h - decimal_point h' + num_digits h')
   = 2 ^ s * digits_value (hpd_active_digits h') * 10 ^ num_digits h)
  /\ (num_digits h + s <= 800 -> truncated h' = truncated h).
Proof.
  intros Hcan Hs Hdp h'.
  pose proof Hcan as (Hwf & Hinv & Hpos & H0).
  pose proof Hwf as [Hlen Hnd]. unfold HPD__DIGITS_PRECISION in Hnd.
  pose proof (pow2_le_60 s ltac:(lia)) as Hp.
  pose proof (proj2 Hinv 0 ltac:(lia)) as Hd0.
  set (d0 := digit_get (digits h) 0) in *.
  set (V := digits_value (hpd_active_digits h)).
  assert (Hbeyond : forall r, num_digits h <= r ->
            hpd_prefix_value h (Z.to_nat r) = V * 10 ^ (r - num_digits h)).
  { intros r Hr.
    replace (Z.to_nat r)
      with (Z.to_nat (num_digits h) + Z.to_nat (r - num_digits h))%nat by lia.
    rewrite prefix_value_beyond by exact Hwf.
    rewrite Z2Nat.id by lia. reflexivity. }
  assert (Htail : forall rx n,
            1 <= rx <= 864 -> 0 <= n < 10 * 2 ^ s ->
            n = hpd_prefix_value h (Z.to_nat rx) ->
            forall g,
              g = (let h1 := set_decimal_point h
                               (i32 (decimal_point h - i32 (rx - 1))) in
                   if decimal_point h1 <? - HPD__DECIMAL_POINT__RANGE
                   then mk_hpd 0 0 false false (digits h1)
                   else
                     let mask := u64 (shl64 1 s - 1) in
                     let '(wx, n0, ds) :=
                       small_rshift_copy (Z.to_nat (num_digits h1 - rx)) s mask
                         rx 0 n (digits h1) in
                     let h2 := set_digits h1 ds in
                     let '(wx0, h3) := small_rshift_trail 64 s mask wx n0 h2 in
                     high_prec_dec__trim (set_num_digits h3 wx0)) ->
              (truncated g = false ->
               V * 10 ^ (decimal_point h - decimal_point g + num_digits g)
               = 2 ^ s * digits_value (hpd_active_digits g) * 10 ^ num_digits h)
              /\ (num_digits h + s <= 800 -> truncated g = truncated h)).
  { intros rx n Hrx Hn Hv g ->. cbv zeta.
    rewrite (i32_small (rx - 1)) by lia.
    rewrite (i32_small (decimal_point h - (rx - 1))) by lia.
    cbn [decimal_point set_decimal_point num_digits digits].
    unfold HPD__DECIMAL_POINT__RANGE.
    destruct (Z.ltb_spec (decimal_point h - (rx - 1)) (Z.opp 2047)); [lia | ].
    rewrite rshift_mask by exact Hs.
    set (cnt := Z.to_nat (num_digits h - rx)).
    pose proof (small_rshift_copy_exact s Hs h Hwf (proj2 Hinv) cnt rx 0 n
                  (digits h)) as Hcopy.
    destruct (small_rshift_copy cnt s (Z.ones s) rx 0 n (digits h))
      as [[wx n1] ds] eqn:Ecopy.
    destruct Hcopy as (Ewx & Hn1 & Hds & Hv1);
      [lia | unfold cnt; lia | exact Hn | exact Hlen
      | intros i Hi; reflexivity
      | change (Z.to_nat 0) with 0%nat; rewrite take_0; cbn [digits_value]; lia
      | ].
    set (g2 := set_digits (set_decimal_point h (decimal_point h - (rx - 1))) ds).
    pose proof (small_rshift_trail_exact s 64 Hs 0 wx n1 g2 0
                  (hpd_prefix_value h (Z.to_nat (rx + Z.of_nat cnt)))
                  ltac:(lia) Hn1 (Z.divide_1_l n1)
                  ltac:(change (Z.of_nat 64) with 64; lia)
                  ltac:(unfold cnt in Ewx; lia) Hds ltac:(lia) ltac:(lia))
      as Htrail.
    pose proof (small_rshift_tail_inv s Hs h Hwf (proj2 Hinv) rx n
                  (decimal_point h - (rx - 1)) ltac:(lia) Hn wx n1 ds) as Hwf3.
    pose proof (small_rshift_trail_frame 64 s (Z.ones s) wx n1 g2) as Hfr.
    assert (Hkeep : num_digits h + s <= 800 ->
              truncated (snd (small_rshift_trail 64 s (Z.ones s) wx n1 g2))
              = truncated h).
    { intros Hroom.
      apply (small_rshift_trail_room s 64 Hs 0 wx n1 g2 ltac:(lia) Hn1
               (Z.divide_1_l n1) ltac:(lia) ltac:(unfold cnt in Ewx; lia)). }
    fold g2 in Hwf3.
    destruct (small_rshift_trail 64 s (Z.ones s) wx n1 g2) as [wx' h3].
    cbn [snd] in Hfr, Hkeep.
    specialize (Hwf3 wx' h3 Ecopy eq_refl). destruct Hwf3 as [[Hlen3 _] _].
    split; [ | exact Hkeep].
    intros Htr.
    destruct Htrail as (m & z' & Hm & Hz' & Hsum & Hwx' & HT);
      [change (10 ^ 0) with 1; cbn [digits g2 set_digits]; lia | exact Htr | ].
    set (u := set_num_digits h3 wx') in *.
    assert (Hwfu : hpd_wf u).
    { split; [exact Hlen3 | cbn; unfold HPD__DIGITS_PRECISION; lia]. }
    pose proof (trim_value u Hwfu) as Htv.
    pose proof (trim_loop_le (Z.to_nat (num_digits u)) (digits u)) as Hle.
    assert (End' : num_digits (high_prec_dec__trim u)
                   = Z.of_nat (trim_loop (Z.to_nat (num_digits u)) (digits u)))
      by reflexivity.
    assert (Edp' : decimal_point (high_prec_dec__trim u)
                   = decimal_point h - (rx - 1)) by exact Hfr.
    assert (Eact : hpd_active_digits u = take (Z.to_nat wx') (digits h3))
      by reflexivity.
    rewrite Eact in Htv. rewrite Htv in HT.
    change (num_digits u) with wx' in *.
    set (nd' := num_digits (high_prec_dec__trim u)) in *.
    set (V' := digits_value (hpd_active_digits (high_prec_dec__trim u))) in *.
    rewrite Edp'.
    rewrite Hbeyond in HT by (unfold cnt; lia).
    apply (pow10_shift_exponents V (2 ^ s * V')
             (rx + Z.of_nat cnt - num_digits h + m) (1 + (wx' - nd') + z'));
      [unfold cnt; lia | lia | lia | lia | unfold cnt in *; lia | ].
    rewrite !Z.pow_add_r by (unfold cnt; lia). change (10 ^ 1) with 10.
    lia. }
  unfold h', high_prec_dec__small_rshift.
  destruct (Z.to_nat (num_digits h)) as [|cnt] eqn:Ecnt; [lia | ].
  rewrite (small_rshift_pick_first s h Hcan). fold d0.
  assert (Hv1 : d0 = hpd_prefix_value h (Z.to_nat 1)).
  { change (Z.to_nat 1) with 1%nat. cbn [hpd_prefix_value].
    unfold hpd_digit. change (Z.of_nat 0) with 0.
    destruct (Z.ltb_spec 0 (num_digits h)); [reflexivity | lia]. }
  pose proof (small_rshift_pick_inv s Hs h Hwf (proj2 Hinv) cnt 1 d0
                ltac:(lia) ltac:(lia) ltac:(lia)) as Hpick.
  pose proof (small_rshift_pick_pos s Hs h Hcan cnt 1 d0
                ltac:(lia) ltac:(lia) ltac:(lia)) as Hppos.
  pose proof (small_rshift_pick_exact s Hs h Hwf (proj2 Hinv) cnt 1 d0
                ltac:(lia) ltac:(lia) ltac:(lia) Hv1) as Hpv.
  destruct (small_rshift_pick cnt s 1 d0 h) as [rx n].
  cbn [snd] in Hppos.
  destruct Hpick as (Hrx & Hn & Hsame & Hend).
  rewrite shr64_small by lia.
  destruct (Z.eqb_spec (n / 2 ^ s) 0) as [Hq|Hq]; cbn [andb].
  - destruct (Z.eqb_spec n 0) as [Hn0|_]; [lia | ].
    specialize (Hend Hq).
    pose proof (small_rshift_zeroes_exit s Hs 64 rx n ltac:(lia) ltac:(lia) Hppos Hq)
      as Hz.
    pose proof (small_rshift_zeroes_exact s Hs h Hwf 64 rx n ltac:(lia)
                  ltac:(lia) ltac:(lia) Hpv) as Hzv.
    destruct (small_rshift_zeroes 64 s rx n) as [rx' n'].
    destruct Hz as (Hrx' & Hn' & Hq').
    { change (Z.of_nat 64) with 64.
      assert (2 ^ 60 <= 10 ^ 64) by (vm_compute; discriminate). nia. }
    change (Z.of_nat 64) with 64 in Hrx'.
    apply (Htail rx' n'); [lia | exact Hn' | exact Hzv | reflexivity].
  - apply (Htail rx n); [lia | exact Hn | exact Hpv | reflexivity].
Qed.

(** X12. [small_rshift] divides by [2^s] exactly, unless it has to drop
    digits. For a decimal with a first digit that is not zero, a shift from
    1 to 60 bits, and a decimal point that the shift keeps in range:
    whenever the truncated flag is off after the shift, the digits [V'] and
    the decimal point after it hold the quotient of the number before it by
    [2^s]; as an equation between integers,
    [V * 10^(dp - dp' + nd') = 2^s * V' * 10^nd]. The decimal point does not
    go up. With room for [s] more digits in the array no digit is dropped
    and the flag is as before. *)
Theorem small_rshift_divides (h : high_prec_dec) (s : Z) :
  hpd_canonical h -> 1 <= s <= 60 -> -1000 <= decimal_point h <= 2047 ->
  let h' := high_prec_dec__small_rshift h s in
  (truncated h' = false ->
   digits_value (hpd_active_digits h)
     * 10 ^ (decimal_point h - decimal_point h' + num_digits h')
   = 2 ^ s * digits_value (hpd_active_digits h') * 10 ^ num_digits h)
  /\ decimal_point h' <= decimal_point h
  /\ (num_digits h + s <= 800 -> truncated h' = truncated h)
  /\ hpd_canonical h'.
Proof.
  intros Hcan Hs Hdp h'.
  destruct (small_rshift_canonical s Hs h Hcan Hdp) as (Hcan' & Hdp' & _).
  split_and!.
  - apply (small_rshift_exact h s Hcan Hs Hdp).
  - fold h' in Hdp'. lia.
  - apply (small_rshift_exact h s Hcan Hs Hdp).
  - exact Hcan'.
Qed.

Lemma small_rshift_divides_witness :
  let h := high_prec_dec__assign hpd_stack 10 false in
  let h' := high_prec_dec__small_rshift h 4 in
  digits_value (hpd_active_digits h) * 10 ^ (2 - 0 + 3)
  = 2 ^ 4 * digits_value (hpd_active_digits h') * 10 ^ 1.
Proof.
  intros h h'.
  assert (Hcan : hpd_canonical h).
  { destruct (assign_inv hpd_stack 10 false eq_refl ltac:(lia)) as [Hwf Hinv].
    split_and!; [exact Hwf | exact Hinv | vm_compute; reflexivity
                | vm_compute; discriminate]. }
  pose proof (small_rshift_divides h 4 Hcan ltac:(lia)
                ltac:(vm_compute; split; discriminate)) as H.
  cbv zeta in H. fold h' in H. destruct H as (Hv & _).
  specialize (Hv ltac:(vm_compute; reflexivity)).
  assert (E1 : decimal_point h = 2) by (vm_compute; reflexivity).
  assert (E2 : decimal_point h' = 0) by (vm_compute; reflexivity).
  assert (E3 : num_digits h' = 3) by (vm_compute; reflexivity).
  assert (E4 : num_digits h = 1) by (vm_compute; reflexivity).
  rewrite E1, E2, E3, E4 in Hv. exact Hv.
Defined.

(** ** The values of the roundings *)

Lemma round_up_loop_value (h : high_prec_dec) (cnt : nat) :
  hpd_wf h -> hpd_digits_ok h -> 0 < num_digits h ->
  Z.of_nat cnt < num_digits h ->
  - 2 ^ 31 <= decimal_point h < 2 ^ 31 - 1 ->
  let h' := round_up_loop cnt h in
  0 < num_digits h'
  /\ 0 <= Z.of_nat cnt - num_digits h' + (decimal_point h' - decimal_point h)
  /\ digits_value (hpd_active_digits h')
     * 10 ^ (Z.of_nat cnt - num_digits h' + (decimal_point h' - decimal_point h))
     = hpd_prefix_value h cnt + 1.
Proof.
  intros Hwf Hok Hpos Hcnt Hdp. pose proof Hwf as [Hlen Hnd].
  unfold HPD__DIGITS_PRECISION in Hnd.
  induction cnt as [|c IH].
  - cbn [round_up_loop]. rewrite i32_small by lia.
    unfold hpd_active_digits.
    cbn [num_digits digits decimal_point set_num_digits set_digits
         set_decimal_point hpd_prefix_value].
    change (Z.to_nat 1) with 1%nat. rewrite take_S_digit by (rewrite length_digit_set; lia).
    change (Z.of_nat 0) with 0. rewrite digit_get_set_same by lia.
    rewrite take_0.
    replace (0 - 1 + (decimal_point h + 1 - decimal_point h)) with 0 by lia.
    cbn [app digits_value length]. change (10 ^ Z.of_nat 0) with 1.
    change (10 ^ 0) with 1. split_and!; lia.
  - cbn [round_up_loop]. cbv zeta.
    pose proof (Hok (Z.of_nat c) ltac:(lia)) as Hd.
    destruct (Z.ltb_spec (digit_get (digits h) (Z.of_nat c)) 9) as [Hlt|Hge].
    + rewrite u8_small, (u32_small (Z.of_nat c + 1)) by lia.
      unfold hpd_active_digits.
      cbn [num_digits digits decimal_point set_num_digits set_digits
           hpd_prefix_value].
      replace (Z.to_nat (Z.of_nat c + 1)) with (S c) by lia.
      rewrite take_S_digit by (rewrite length_digit_set; lia).
      rewrite digit_get_set_same by lia.
      unfold digit_set. rewrite Nat2Z.id, take_insert_ge by lia.
      rewrite digits_value_app. cbn [length digits_value].
      change (10 ^ Z.of_nat 1) with 10. change (10 ^ Z.of_nat 0) with 1.
      rewrite prefix_value_take by (try exact Hwf; lia).
      unfold hpd_digit.
      destruct (Z.leb_spec 0 (Z.of_nat c)); [ | lia].
      destruct (Z.ltb_spec (Z.of_nat c) (num_digits h)); [ | lia].
      cbn [andb].
      replace (Z.of_nat (S c) - (Z.of_nat c + 1)
               + (decimal_point h - decimal_point h)) with 0 by lia.
      change (10 ^ 0) with 1. split_and!; lia.
    + specialize (IH ltac:(lia)). cbv zeta in IH.
      destruct IH as (IH0 & IH1 & IH2).
      set (h' := round_up_loop c h) in *.
      set (e := Z.of_nat c - num_digits h' + (decimal_point h' - decimal_point h)) in *.
      replace (Z.of_nat (S c) - num_digits h' + (decimal_point h' - decimal_point h))
        with (e + 1) by lia.
      rewrite Z.pow_add_r by lia. change (10 ^ 1) with 10.
      cbn [hpd_prefix_value]. unfold hpd_digit.
      destruct (Z.leb_spec 0 (Z.of_nat c)); [ | lia].
      destruct (Z.ltb_spec (Z.of_nat c) (num_digits h)); [ | lia].
      cbn [andb]. split_and!; lia.
Qed.

Lemma round_nearest_up_flag (h : high_prec_dec) (n : Z) :
  hpd_wf h -> hpd_digits_ok h -> 0 <= n < num_digits h ->
  (let up := 5 <=? digit_get (digits h) n in
   if (digit_get (digits h) n =? 5) && (i32 (n + 1) =? i32 (num_digits h)) then
     truncated h
     || ((0 <? n) && negb (Z.land (digit_get (digits h) (n - 1)) 1 =? 0))
   else up)
  = hpd_rounds_up h n.
Proof.
  intros [Hlen Hnd] Hok Hn. unfold HPD__DIGITS_PRECISION in Hnd.
  cbv zeta. unfold hpd_rounds_up.
  destruct (Z.ltb_spec n (num_digits h)) as [_|Hge]; [ | lia].
  assert (Hd : hpd_digit h n = digit_get (digits h) n).
  { unfold hpd_digit. destruct (Z.leb_spec 0 n); [ | lia].
    destruct (Z.ltb_spec n (num_digits h)); [reflexivity | lia]. }
  rewrite Hd, !i32_small by lia.
  set (d := digit_get (digits h) n).
  destruct (Z.eqb_spec d 5) as [E5|N5].
  - rewrite E5. change (5 <? 5) with false. cbn [andb].
    destruct (Z.eqb_spec (n + 1) (num_digits h)) as [Elast|Nlast];
      [ | reflexivity].
    f_equal. rewrite Z.land_comm, land_1_odd.
    destruct (Z.ltb_spec 0 n) as [Hpos|Hzero]; cbn [andb].
    + unfold hpd_digit.
      destruct (Z.leb_spec 0 (n - 1)); [ | lia].
      destruct (Z.ltb_spec (n - 1) (num_digits h)); [reflexivity | lia].
    + unfold hpd_digit.
      destruct (Z.leb_spec 0 (n - 1)); [lia | reflexivity].
  - cbn [andb].
    destruct (Z.leb_spec 5 d); destruct (Z.ltb_spec d 5); destruct (Z.ltb_spec 5 d);
      try reflexivity; lia.
Qed.

Lemma round_down_value (h : high_prec_dec) (n : Z) :
  hpd_wf h -> 0 <= n < num_digits h ->
  let h' := high_prec_dec__round_down h n in
  0 <= num_digits h' <= n /\ decimal_point h' = decimal_point h
  /\ digits_value (hpd_active_digits h') * 10 ^ (n - num_digits h')
     = hpd_prefix_value h (Z.to_nat n).
Proof.
  intros Hwf Hn h'. pose proof Hwf as [Hlen Hnd].
  unfold HPD__DIGITS_PRECISION in Hnd.
  unfold h', high_prec_dec__round_down.
  destruct (Z.ltb_spec n 0); [lia | ]. rewrite (u32_small n) by lia.
  destruct (Z.leb_spec (num_digits h) n); [lia | ]. cbn [orb].
  set (u := set_num_digits h n).
  assert (Hwfu : hpd_wf u)
    by (split; [exact Hlen | cbn; unfold HPD__DIGITS_PRECISION; lia]).
  pose proof (trim_value u Hwfu) as Hv.
  pose proof (trim_loop_le (Z.to_nat (num_digits u)) (digits u)) as Hle.
  change (num_digits u) with n in *.
  assert (End : num_digits (high_prec_dec__trim u)
                = Z.of_nat (trim_loop (Z.to_nat n) (digits u))) by reflexivity.
  rewrite <- Hv. rewrite prefix_value_take by (try exact Hwf; lia).
  split_and!; [lia | lia | reflexivity | reflexivity].
Qed.

(** X13. The three roundings to [n] digits, for [n] below the number of
    digits. With [P] the first [n] digits read as an integer, a rounded
    decimal [h'] holds the number [R * 10^(decimal_point - n)], where [R] is
    [P] for [round_down], [P + 1] for [round_up], and for [round_nearest]
    [P + 1] or [P] as the digits from the [n]-th on are above or below one
    half, with ties (a lone final 5 and no truncated digits) going to the
    even [P]. The equation is stated on integers: the digits of [h'] times
    [10^e] are [R], for [e = n - num_digits h' + (decimal_point h' -
    decimal_point h)], which is not negative. *)
Theorem rounding_values (h : high_prec_dec) (n : Z) :
  hpd_wf h -> hpd_digits_ok h -> 0 <= n < num_digits h ->
  - 2 ^ 31 <= decimal_point h < 2 ^ 31 - 1 ->
  let P := hpd_prefix_value h (Z.to_nat n) in
  let e := fun h' : high_prec_dec =>
             n - num_digits h' + (decimal_point h' - decimal_point h) in
  let rounded := fun (h' : high_prec_dec) (R : Z) =>
                   0 <= e h'
                   /\ digits_value (hpd_active_digits h') * 10 ^ e h' = R in
  rounded (high_prec_dec__round_down h n) P
  /\ rounded (high_prec_dec__round_up h n) (P + 1)
  /\ rounded (high_prec_dec__round_nearest h n)
       (if hpd_rounds_up h n then P + 1 else P).
Proof.
  intros Hwf Hok Hn Hdp P e rounded.
  pose proof Hwf as [Hlen Hnd]. unfold HPD__DIGITS_PRECISION in Hnd.
  assert (Hdown : rounded (high_prec_dec__round_down h n) P).
  { destruct (round_down_value h n Hwf Hn) as (H1 & H2 & H3).
    unfold rounded, e. rewrite H2.
    replace (n - num_digits (high_prec_dec__round_down h n)
             + (decimal_point h - decimal_point h))
      with (n - num_digits (high_prec_dec__round_down h n)) by lia.
    split; [lia | exact H3]. }
  assert (Hup : rounded (high_prec_dec__round_up h n) (P + 1)).
  { unfold rounded, e, high_prec_dec__round_up.
    destruct (Z.ltb_spec n 0); [lia | ]. rewrite (u32_small n) by lia.
    destruct (Z.leb_spec (num_digits h) n); [lia | ]. cbn [orb].
    destruct (round_up_loop_value h (Z.to_nat n) Hwf Hok ltac:(lia) ltac:(lia) Hdp)
      as (H1 & H2 & H3).
    rewrite Z2Nat.id in H2, H3 by lia. split; [exact H2 | exact H3]. }
  split; [exact Hdown | split; [exact Hup | ]].
  unfold high_prec_dec__round_nearest.
  destruct (Z.ltb_spec n 0); [lia | ]. rewrite (u32_small n) by lia.
  destruct (Z.leb_spec (num_digits h) n); [lia | ]. cbn [orb].
  pose proof (round_nearest_up_flag h n Hwf Hok Hn) as Hflag.
  cbv zeta in Hflag |- *. rewrite Hflag.
  destruct (hpd_rounds_up h n); assumption.
Qed.

Lemma rounding_values_witness :
  let h := high_prec_dec__assign hpd_stack 2995 false in
  digits_value (hpd_active_digits (high_prec_dec__round_nearest h 3))
    * 10 ^ (3 - 1 + (4 - 4))
  = 300.
Proof.
  intros h.
  destruct (assign_inv hpd_stack 2995 false eq_refl ltac:(lia)) as [Hwf [_ Hok]].
  pose proof (rounding_values h 3 Hwf Hok ltac:(vm_compute; split; [discriminate | reflexivity])
                ltac:(vm_compute; split; [discriminate | reflexivity])) as H.
  cbv zeta in H. destruct H as (_ & _ & _ & H).
  assert (E1 : num_digits (high_prec_dec__round_nearest h 3) = 1)
    by (vm_compute; reflexivity).
  assert (E2 : decimal_point (high_prec_dec__round_nearest h 3) = 4)
    by (vm_compute; reflexivity).
  assert (E3 : decimal_point h = 4) by (vm_compute; reflexivity).
  assert (E4 : (if hpd_rounds_up h 3
                then hpd_prefix_value h (Z.to_nat 3) + 1
                else hpd_prefix_value h (Z.to_nat 3)) = 300)
    by (vm_compute; reflexivity).
  rewrite E1, E2, E3, E4 in H. exact H.
Defined.

(** ** The tables *)

(** X14. Every row of [powers_of_10] is what the comment above the table
    says: for each of the 637 rows, standing for [10^e] with [e] from -326
    to 310, the 128-bit mantissa has its high bit set and, with the row's
    exponent of 2, is the power of ten truncated to 128 bits. The 64-bit
    mantissa that [mul_pow_10] reads from the row is the high half of it, the
    power of ten truncated to 64 bits. *)
Theorem powers_of_10_rows (r : Z) :
  0 <= r <= 636 ->
  2 ^ 127 <= pow10_row_mantissa128 r < 2 ^ 128
  /\ truncates_pow10 (pow10_row_mantissa128 r) (pow10_row_E r) (pow10_row_e10 r)
  /\ pow10_row_mantissa r = pow10_row_mantissa128 r / 2 ^ 64
  /\ truncates_pow10 (pow10_row_mantissa r) (pow10_row_E r + 64)
       (pow10_row_e10 r).
Proof.
  intros Hr.
  assert (H : forallb (fun n : nat =>
                let r := Z.of_nat n in
                (2 ^ 127 <=? pow10_row_mantissa128 r)
                && (pow10_row_mantissa128 r <? 2 ^ 128)
                && truncates_pow10b (pow10_row_mantissa128 r) (pow10_row_E r)
                     (pow10_row_e10 r)
                && (pow10_row_mantissa r =? pow10_row_mantissa128 r / 2 ^ 64)
                && truncates_pow10b (pow10_row_mantissa r) (pow10_row_E r + 64)
                     (pow10_row_e10 r))
              (seq 0 637) = true) by (vm_compute; reflexivity).
  rewrite forallb_forall in H. specialize (H (Z.to_nat r)).
  rewrite <- list_elem_of_In, elem_of_seq in H.
  specialize (H ltac:(lia)). cbv zeta in H.
  rewrite Z2Nat.id in H by lia.
  apply andb_true_iff in H. destruct H as [H H5].
  apply andb_true_iff in H. destruct H as [H H4].
  apply andb_true_iff in H. destruct H as [H H3].
  apply andb_true_iff in H. destruct H as [H1 H2].
  unfold truncates_pow10b in H3, H5.
  apply andb_true_iff in H3. destruct H3 as [H3a H3b].
  apply andb_true_iff in H5. destruct H5 as [H5a H5b].
  unfold truncates_pow10. split_and!; lia.
Qed.

Lemma powers_of_10_rows_witness :
  pow10_row_mantissa 330 = 0x9C40000000000000
  /\ truncates_pow10 0x9C40000000000000 (-50) 4.
Proof.
  destruct (powers_of_10_rows 330 ltac:(lia)) as (_ & _ & _ & H).
  split; [reflexivity | exact H].
Defined.

(** X15. The two tables of the left shift are what [small_lshift] takes them
    for. For each shift [s] from 1 to 60: the digits that the low 11 bits of
    the entries [s] and [s + 1] of [hpd_left_shift] cut out of [powers_of_5]
    are the decimal digits of [5^s], and the high 5 bits are the number of
    decimal digits of [2^s]. *)
Theorem left_shift_tables (s : Z) :
  1 <= s <= 60 ->
  let N := lshift_max_new_digits s in
  pow5_table_digits s = decimal_digits (5 ^ s)
  /\ Forall is_dec_digit (pow5_table_digits s)
  /\ digits_value (pow5_table_digits s) = 5 ^ s
  /\ 10 ^ (N - 1) <= 2 ^ s < 10 ^ N.
Proof.
  intros Hs N.
  destruct (pow5_table_digits_ok s Hs) as (E & _).
  destruct (pow5_digits_facts s Hs) as (Hb & Hv & _ & _ & H2).
  cbv zeta in Hb, Hv.
  pose proof (lshift_max_new_digits_pow2 s Hs) as H1.
  rewrite E. split_and!; try assumption; reflexivity.
Qed.

Lemma left_shift_tables_witness :
  pow5_table_digits 4 = [6; 2; 5] /\ lshift_max_new_digits 4 = 2.
Proof.
  destruct (left_shift_tables 4 ltac:(lia)) as (E & _).
  split; [rewrite E; reflexivity | reflexivity].
Defined.

(** ** The decimals that [parse] accepts *)

Lemma parse_zero_point (h : high_prec_dec) (s : list Z) (h' : high_prec_dec) :
  length (digits h) = 800%nat ->
  high_prec_dec__parse (Some h) s = (None, Some h') ->
  num_digits h' = 0 -> decimal_point h' = 0.
Proof.
  intros Hlen. unfold high_prec_dec__parse, make_status.
  destruct (skip_underscores s) as [|c p']; [discriminate | ].
  set (h0 := mk_hpd 0 0 false false (digits h)).
  assert (Hsign : exists neg p,
            (if c =? ch "+" then (h0, skip_underscores p')
             else if c =? ch "-" then (set_negative h0 true, skip_underscores p')
             else (h0, c :: p'))
            = (mk_hpd 0 0 neg false (digits h), p)).
  { destruct (c =? ch "+"); [ | destruct (c =? ch "-")]; eexists; eexists;
      reflexivity. }
  destruct Hsign as (neg & p & ->). cbn [truncated digits].
  assert (Hst0 : pds_ok (mk_pds 0 0 false false false false (digits h))).
  { split; [exact Hlen | split; cbn; [unfold HPD__DIGITS_PRECISION; lia | lia]]. }
  destruct (parse_digits_loop p _) as [st p1|[? ? ? ? ? ? ?]] eqn:Eloop; [ | discriminate].
  pose proof (parse_digits_loop_ok _ _ _ _ Hst0 Eloop) as Hst.
  pose proof (parse_digits_loop_first _ _ _ _ Hst0 ltac:(cbn; lia) Eloop) as Hfst.
  destruct st as [nd dp sd snz sdot tr ds]. destruct Hst as (Hds & Hnd & Hdig).
  cbn in Hds, Hnd, Hdig, Hfst.
  destruct (negb sd); [discriminate | ].
  destruct (parse_exponent p1 _) as [[dp' p2]|]; [ | discriminate].
  destruct (negb (is_nil p2)); [discriminate | ].
  intros E. injection E as <-.
  unfold high_prec_dec__trim.
  destruct (Z.eqb_spec nd 0) as [E0|N0]; [intros _; reflexivity | ].
  intros Hz. exfalso.
  set (g := if dp' <? _ then _ else _) in *.
  assert (Hg : num_digits g = nd /\ digits g = ds).
  { unfold g. destruct (dp' <? _); [ | destruct (_ <? dp')]; split; reflexivity. }
  destruct Hg as [End Edig]. cbn [num_digits set_num_digits] in Hz.
  rewrite End, Edig in Hz.
  pose proof (trim_loop_first (Z.to_nat nd) ds ltac:(lia) (Hfst ltac:(lia))).
  lia.
Qed.

(** X16. A decimal that [parse] accepts is well formed: it has at most 800
    digits, each in 0..=9; it has no digits and a decimal point of zero, or
    a first and a last digit that are not zero (leading zeroes are not
    stored, they lower the decimal point); and its decimal point is within
    -2048 and 2048, whatever the exponent in the input. *)
Theorem parse_accepts_canonical (h : high_prec_dec) (s : list Z)
    (h' : high_prec_dec) :
  length (digits h) = 800%nat ->
  high_prec_dec__parse (Some h) s = (None, Some h') ->
  hpd_wf h' /\ hpd_inv h'
  /\ -2048 <= decimal_point h' <= 2048
  /\ (num_digits h' = 0 -> decimal_point h' = 0)
  /\ (0 < num_digits h' -> digit_get (digits h') 0 <> 0).
Proof.
  intros Hlen Hp.
  destruct (parse_inv h s Hlen) as (h'' & Hsnd & Hwf & Hinv).
  rewrite Hp in Hsnd. cbn [snd] in Hsnd. injection Hsnd as <-.
  destruct (parse_canonical h s h' Hlen Hp) as (Hdp & Hcan).
  split_and!; try assumption; try lia.
  - apply (parse_zero_point h s h' Hlen Hp).
  - intros Hpos. destruct Hcan as [Hz|(_ & _ & _ & Hnz)]; [lia | exact Hnz].
Qed.

Lemma parse_accepts_canonical_witness :
  exists h' : high_prec_dec,
    high_prec_dec__parse (Some hpd_stack) (bytes_of_string "-0.00120e99999")
    = (None, Some h')
    /\ decimal_point h' = 2048 /\ digit_get (digits h') 0 = 1
    /\ num_digits h' = 2 /\ hpd_inv h'.
Proof.
  eexists. split; [vm_compute; reflexivity | ].
  split; [reflexivity | ]. split; [reflexivity | ].
  split; [reflexivity | ].
  refine (proj1 (proj2 (parse_accepts_canonical hpd_stack
                          (bytes_of_string "-0.00120e99999") _ eq_refl _))).
  vm_compute. reflexivity.
Defined.

(** ** The bytes that a rendering writes *)

Lemma writes_nil : writes (fun st => st) [].
Proof.
  intros ptr dst Hp Hl. cbn [length app]. change (Z.of_nat 0) with 0.
  rewrite Z.add_0_r, take_drop. reflexivity.
Qed.

Lemma writes_put (c : Z) : writes (fun st => put st c) [c].
Proof.
  intros ptr dst Hp Hl. unfold put, slice_len in *. cbn [fst snd length] in *.
  f_equal. unfold digit_set.
  replace (Z.to_nat (ptr + Z.of_nat 1)) with (S (Z.to_nat ptr)) by lia.
  apply insert_take_drop. lia.
Qed.

Lemma writes_comp (w1 w2 : Z * list Z -> Z * list Z) (b1 b2 : list Z) :
  writes w1 b1 -> writes w2 b2 -> writes (fun st => w2 (w1 st)) (b1 ++ b2).
Proof.
  intros H1 H2 ptr dst Hp Hl. unfold slice_len in *.
  rewrite length_app, Nat2Z.inj_add in Hl.
  rewrite (H1 ptr dst Hp) by (unfold slice_len; lia).
  set (d1 := take (Z.to_nat ptr) dst ++ b1
             ++ drop (Z.to_nat (ptr + Z.of_nat (length b1))) dst).
  assert (Hd1 : length d1 = length dst).
  { unfold d1. rewrite !length_app, length_take, length_drop. lia. }
  rewrite (H2 (ptr + Z.of_nat (length b1)) d1 ltac:(lia))
    by (unfold slice_len; lia).
  rewrite length_app, Nat2Z.inj_add. f_equal; [lia | ].
  assert (E1 : take (Z.to_nat (ptr + Z.of_nat (length b1))) d1
               = take (Z.to_nat ptr) dst ++ b1).
  { unfold d1. rewrite app_assoc. apply take_app_length'.
    rewrite length_app, length_take. lia. }
  assert (E2 : drop (Z.to_nat (ptr + Z.of_nat (length b1) + Z.of_nat (length b2))) d1
               = drop (Z.to_nat (ptr + (Z.of_nat (length b1) + Z.of_nat (length b2)))) dst).
  { unfold d1. rewrite app_assoc.
    replace (Z.to_nat (ptr + Z.of_nat (length b1) + Z.of_nat (length b2)))
      with (length (take (Z.to_nat ptr) dst ++ b1) + length b2)%nat
      by (rewrite length_app, length_take; lia).
    rewrite drop_app_add, drop_drop. f_equal. lia. }
  rewrite E1, E2, <- !app_assoc. reflexivity.
Qed.

Lemma writes_put_digits (cnt : nat) :
  forall i h, exists bs,
    length bs = cnt /\ writes (put_digits cnt i h) bs.
Proof.
  induction cnt as [|cnt IH]; intros i h.
  - exists []. split; [reflexivity | apply writes_nil].
  - destruct (IH (i + 1) h) as (bs & Hl & Hw).
    exists ([u8 (Z.lor (ch "0") (digit_get (digits h) i))] ++ bs).
    split; [cbn; lia | ].
    apply (writes_comp (fun st => put st _) (put_digits cnt (i + 1) h));
      [apply writes_put | exact Hw].
Qed.

Lemma writes_put_zeroes (cnt : nat) :
  exists bs, length bs = cnt /\ writes (put_zeroes cnt) bs.
Proof.
  induction cnt as [|cnt IH].
  - exists []. split; [reflexivity | apply writes_nil].
  - destruct IH as (bs & Hl & Hw). exists ([ch "0"] ++ bs).
    split; [cbn; lia | ].
    apply (writes_comp (fun st => put st _) (put_zeroes cnt));
      [apply writes_put | exact Hw].
Qed.

Lemma writes_put_fraction (cnt : nat) :
  forall i h, exists bs,
    length bs = cnt /\ writes (put_fraction cnt i h) bs.
Proof.
  induction cnt as [|cnt IH]; intros i h.
  - exists []. split; [reflexivity | apply writes_nil].
  - destruct (IH (i + 1) h) as (bs & Hl & Hw).
    eexists ([_] ++ bs). split; [cbn; lia | ].
    apply (writes_comp (fun st => put st _) (put_fraction cnt (i + 1) h));
      [apply writes_put | exact Hw].
Qed.

Lemma writes_ext (w1 w2 : Z * list Z -> Z * list Z) (bs : list Z) :
  (forall st, w1 st = w2 st) -> writes w1 bs -> writes w2 bs.
Proof. intros E H ptr dst Hp Hl. rewrite <- E. apply H; assumption. Qed.

Lemma writes_put_sign (h : high_prec_dec) (options : Z) :
  exists bs,
    Z.of_nat (length bs)
    = (if negative h || has_flag options RENDER_NUMBER_XXX__LEADING_PLUS_SIGN
       then 1 else 0)
    /\ writes (put_sign h options) bs.
Proof.
  unfold put_sign. destruct (negative h).
  - exists [ch "-"]. split; [reflexivity | apply writes_put].
  - destruct (has_flag options RENDER_NUMBER_XXX__LEADING_PLUS_SIGN).
    + exists [ch "+"]. split; [reflexivity | apply writes_put].
    + exists []. split; [reflexivity | apply writes_nil].
Qed.

(** The body of [render_exponent_absent] after the size check, as a writer,
    and the size that the check has computed. *)
Lemma render_exponent_absent_writes (h : high_prec_dec) (precision options : Z) :
  0 <= num_digits h -> - 2 ^ 31 <= decimal_point h < 2 ^ 31 ->
  0 <= precision < 2 ^ 32 - 1 ->
  exists bs,
    Z.of_nat (length bs)
    = (let n :=
         if negative h || has_flag options RENDER_NUMBER_XXX__LEADING_PLUS_SIGN
         then 1 else 0 in
       let n := if decimal_point h <=? 0 then n + 1 else n + decimal_point h in
       if 0 <? precision then n + u32 (precision + 1) else n)
    /\ writes
         (fun st =>
            let st := put_sign h options st in
            let st :=
              if decimal_point h <=? 0 then put st (ch "0")
              else
                let m := Z.min (num_digits h) (u32 (decimal_point h)) in
                let st := put_digits (Z.to_nat m) 0 h st in
                put_zeroes (Z.to_nat (u32 (decimal_point h) - m)) st in
            if 0 <? precision then
              put_fraction (Z.to_nat precision) 0 h (put st (separator options))
            else st) bs.
Proof.
  intros Hnd Hdp Hprec. cbv zeta.
  destruct (writes_put_sign h options) as (b1 & L1 & W1).
  assert (Hint : exists b2,
            Z.of_nat (length b2)
            = (if decimal_point h <=? 0 then 1 else decimal_point h)
            /\ writes
                 (fun st =>
                    if decimal_point h <=? 0 then put st (ch "0")
                    else
                      put_zeroes
                        (Z.to_nat (u32 (decimal_point h)
                                   - Z.min (num_digits h) (u32 (decimal_point h))))
                        (put_digits
                           (Z.to_nat (Z.min (num_digits h) (u32 (decimal_point h))))
                           0 h st)) b2).
  { destruct (Z.leb_spec (decimal_point h) 0) as [Hle|Hgt].
    - exists [ch "0"]. split; [reflexivity | apply writes_put].
    - rewrite (u32_small (decimal_point h)) by lia.
      set (m := Z.min (num_digits h) (decimal_point h)).
      destruct (writes_put_digits (Z.to_nat m) 0 h) as (bd & Ld & Wd).
      destruct (writes_put_zeroes (Z.to_nat (decimal_point h - m))) as (bz & Lz & Wz).
      exists (bd ++ bz). split; [rewrite length_app; unfold m in *; lia | ].
      apply (writes_comp _ _ _ _ Wd Wz). }
  destruct Hint as (b2 & L2 & W2).
  assert (Hfrac : exists b3,
            Z.of_nat (length b3)
            = (if 0 <? precision then u32 (precision + 1) else 0)
            /\ writes
                 (fun st =>
                    if 0 <? precision then
                      put_fraction (Z.to_nat precision) 0 h
                        (put st (separator options))
                    else st) b3).
  { destruct (Z.ltb_spec 0 precision) as [Hpos|Hzero].
    - rewrite (u32_small (precision + 1)) by lia.
      destruct (writes_put_fraction (Z.to_nat precision) 0 h) as (bf & Lf & Wf).
      exists ([separator options] ++ bf). split; [cbn [app length]; lia | ].
      apply (writes_comp (fun st => put st _) _ _ _ (writes_put _) Wf).
    - exists []. split; [reflexivity | apply writes_nil]. }
  destruct Hfrac as (b3 & L3 & W3).
  exists ((b1 ++ b2) ++ b3). split.
  - rewrite !length_app, !Nat2Z.inj_add, L1, L2, L3.
    destruct (_ || _); destruct (decimal_point h <=? 0);
      destruct (0 <? precision); lia.
  - pose proof (writes_comp _ _ _ _ (writes_comp _ _ _ _ W1 W2) W3) as W.
    eapply writes_ext; [ | exact W]. intros st. cbv beta.
    destruct (decimal_point h <=? 0); reflexivity.
Qed.

Lemma render_exponent_present_writes (h : high_prec_dec) (precision options : Z) :
  0 <= num_digits h -> 0 <= precision < 2 ^ 32 - 1 ->
  exists bs,
    Z.of_nat (length bs)
    = (let exp := if 0 <? num_digits h then i32 (decimal_point h - 1) else 0 in
       let exp := if exp <? 0 then i32 (- exp) else exp in
       let n :=
         if negative h || has_flag options RENDER_NUMBER_XXX__LEADING_PLUS_SIGN
         then 4 else 3 in
       let n := if 0 <? precision then n + u32 (precision + 1) else n in
       n + (if exp <? 100 then 2 else 3))
    /\ writes
         (fun st =>
            let exp := if 0 <? num_digits h then i32 (decimal_point h - 1) else 0 in
            let negative_exp := exp <? 0 in
            let exp := if negative_exp then i32 (- exp) else exp in
            let st := put_sign h options st in
            let st :=
              if 0 <? num_digits h
              then put st (u8 (Z.lor (ch "0") (digit_get (digits h) 0)))
              else put st (ch "0") in
            let st :=
              if 0 <? precision then
                let st := put st (separator options) in
                let j := Z.min (num_digits h) (u32 (precision + 1)) in
                let st := put_digits (Z.to_nat (j - 1)) 1 h st in
                put_zeroes (Z.to_nat (precision + 1 - Z.max 1 j)) st
              else st in
            let st := put st (ch "e") in
            let st := put st (if negative_exp then ch "-" else ch "+") in
            if exp <? 10 then
              put (put st (ch "0")) (u8 (Z.lor (ch "0") exp))
            else if exp <? 100 then
              put (put st (u8 (Z.lor (ch "0") (exp / 10))))
                (u8 (Z.lor (ch "0") (exp mod 10)))
            else
              let e := exp / 100 in
              let exp := i32 (exp - e * 100) in
              put (put (put st (u8 (Z.lor (ch "0") e)))
                     (u8 (Z.lor (ch "0") (exp / 10))))
                (u8 (Z.lor (ch "0") (exp mod 10)))) bs.
Proof.
  intros Hnd Hprec. cbv zeta.
  set (exp0 := if 0 <? num_digits h then i32 (decimal_point h - 1) else 0).
  set (exp := if exp0 <? 0 then i32 (- exp0) else exp0).
  destruct (writes_put_sign h options) as (b1 & L1 & W1).
  assert (Hint : exists b2,
            Z.of_nat (length b2) = 1
            /\ writes
                 (fun st =>
                    if 0 <? num_digits h
                    then put st (u8 (Z.lor (ch "0") (digit_get (digits h) 0)))
                    else put st (ch "0")) b2).
  { destruct (0 <? num_digits h); eexists [_];
      (split; [reflexivity | apply writes_put]). }
  destruct Hint as (b2 & L2 & W2).
  assert (Hfrac : exists b3,
            Z.of_nat (length b3)
            = (if 0 <? precision then u32 (precision + 1) else 0)
            /\ writes
                 (fun st =>
                    if 0 <? precision then
                      put_zeroes
                        (Z.to_nat (precision + 1
                                   - Z.max 1 (Z.min (num_digits h)
                                                (u32 (precision + 1)))))
                        (put_digits
                           (Z.to_nat (Z.min (num_digits h) (u32 (precision + 1)) - 1))
                           1 h (put st (separator options)))
                    else st) b3).
  { destruct (Z.ltb_spec 0 precision) as [Hpos|Hzero].
    - rewrite (u32_small (precision + 1)) by lia.
      set (j := Z.min (num_digits h) (precision + 1)).
      destruct (writes_put_digits (Z.to_nat (j - 1)) 1 h) as (bd & Ld & Wd).
      destruct (writes_put_zeroes (Z.to_nat (precision + 1 - Z.max 1 j)))
        as (bz & Lz & Wz).
      exists (([separator options] ++ bd) ++ bz).
      split; [rewrite !length_app; cbn [length]; unfold j in *; lia | ].
      apply (writes_comp _ _ _ _
               (writes_comp (fun st => put st _) _ _ _ (writes_put _) Wd) Wz).
    - exists []. split; [reflexivity | apply writes_nil]. }
  destruct Hfrac as (b3 & L3 & W3).
  assert (He : exists b4,
            Z.of_nat (length b4) = 2 + (if exp <? 100 then 2 else 3)
            /\ writes
                 (fun st =>
                    let st := put st (ch "e") in
                    let st := put st (if exp0 <? 0 then ch "-" else ch "+") in
                    if exp <? 10 then
                      put (put st (ch "0")) (u8 (Z.lor (ch "0") exp))
                    else if exp <? 100 then
                      put (put st (u8 (Z.lor (ch "0") (exp / 10))))
                        (u8 (Z.lor (ch "0") (exp mod 10)))
                    else
                      put (put (put st (u8 (Z.lor (ch "0") (exp / 100))))
                             (u8 (Z.lor (ch "0")
                                    (i32 (exp - exp / 100 * 100) / 10))))
                        (u8 (Z.lor (ch "0")
                               (i32 (exp - exp / 100 * 100) mod 10)))) b4).
  { cbv zeta.
    destruct (Z.ltb_spec exp 10) as [H10|H10].
    - destruct (Z.ltb_spec exp 100); [ | lia].
      eexists ((([_] ++ [_]) ++ [_]) ++ [_]). split; [reflexivity | ].
      apply (writes_comp _ (fun st => put st _) _ _
               (writes_comp _ (fun st => put st _) _ _
                  (writes_comp (fun st => put st _) (fun st => put st _) _ _
                     (writes_put _) (writes_put _))
                  (writes_put _))
               (writes_put _)).
    - destruct (Z.ltb_spec exp 100).
      + eexists ((([_] ++ [_]) ++ [_]) ++ [_]). split; [reflexivity | ].
        apply (writes_comp _ (fun st => put st _) _ _
                 (writes_comp _ (fun st => put st _) _ _
                    (writes_comp (fun st => put st _) (fun st => put st _) _ _
                       (writes_put _) (writes_put _))
                    (writes_put _))
                 (writes_put _)).
      + eexists (((([_] ++ [_]) ++ [_]) ++ [_]) ++ [_]).
        split; [reflexivity | ].
        apply (writes_comp _ (fun st => put st _) _ _
                 (writes_comp _ (fun st => put st _) _ _
                    (writes_comp _ (fun st => put st _) _ _
                       (writes_comp (fun st => put st _) (fun st => put st _) _ _
                          (writes_put _) (writes_put _))
                       (writes_put _))
                    (writes_put _))
                 (writes_put _)). }
  destruct He as (b4 & L4 & W4).
  exists (((b1 ++ b2) ++ b3) ++ b4). split.
  - rewrite !length_app, !Nat2Z.inj_add, L1, L2, L3, L4.
    destruct (_ || _); destruct (0 <? precision); destruct (exp <? 100); lia.
  - pose proof (writes_comp _ _ _ _
                  (writes_comp _ _ _ _ (writes_comp _ _ _ _ W1 W2) W3) W4) as W.
    eapply writes_ext; [ | exact W]. intros st. cbv beta zeta.
    destruct (0 <? precision); destruct (exp <? 10); destruct (exp <? 100);
      reflexivity.
Qed.

Lemma put_sign_flag (h : high_prec_dec) (o o' : Z) :
  has_flag o' RENDER_NUMBER_XXX__LEADING_PLUS_SIGN
  = has_flag o RENDER_NUMBER_XXX__LEADING_PLUS_SIGN ->
  put_sign h o' = put_sign h o.
Proof. intros E. unfold put_sign. rewrite E. reflexivity. Qed.

Lemma separator_flag (o o' : Z) :
  has_flag o' RENDER_NUMBER_FXX__DECIMAL_SEPARATOR_IS_A_COMMA
  = has_flag o RENDER_NUMBER_FXX__DECIMAL_SEPARATOR_IS_A_COMMA ->
  separator o' = separator o.
Proof. intros E. unfold separator. rewrite E. reflexivity. Qed.

Lemma writes_window (w : Z * list Z -> Z * list Z) (bs dst : list Z)
    (right : bool) (n : Z) :
  writes w bs -> Z.of_nat (length bs) = n ->
  (if slice_len dst <? n then (0, dst)
   else (n, snd (w (if right then slice_len dst - n else 0, dst))))
  = written_window dst bs right.
Proof.
  intros W L. unfold written_window. cbv zeta. rewrite L.
  destruct (Z.ltb_spec (slice_len dst) n) as [Hlt|Hge]; [reflexivity | ].
  assert (0 <= n) by lia.
  rewrite W by (destruct right; lia). rewrite L. reflexivity.
Qed.

(** X17. Both renderings of a decimal write a byte string that depends only
    on the decimal, the precision, the plus sign flag and the separator flag:
    not on the destination and not on the alignment. When the string fits
    it is placed at the left end of the destination, or at its right end
    under ALIGN_RIGHT, the returned length is the string's length and no
    other byte changes; when it does not fit, the destination is left as it
    was and 0 is returned. *)
Theorem render_exponent_window (h : high_prec_dec) (precision options : Z) :
  0 <= num_digits h -> - 2 ^ 31 <= decimal_point h < 2 ^ 31 ->
  0 <= precision < 2 ^ 32 - 1 ->
  exists ba bp : list Z,
    (0 < length ba)%nat /\ (5 <= length bp)%nat
    /\ forall (dst : list Z) (options' : Z),
         has_flag options' RENDER_NUMBER_XXX__LEADING_PLUS_SIGN
         = has_flag options RENDER_NUMBER_XXX__LEADING_PLUS_SIGN ->
         has_flag options' RENDER_NUMBER_FXX__DECIMAL_SEPARATOR_IS_A_COMMA
         = has_flag options RENDER_NUMBER_FXX__DECIMAL_SEPARATOR_IS_A_COMMA ->
         high_prec_dec__render_exponent_absent dst h precision options'
         = written_window dst ba
             (has_flag options' RENDER_NUMBER_XXX__ALIGN_RIGHT)
         /\ high_prec_dec__render_exponent_present dst h precision options'
            = written_window dst bp
                (has_flag options' RENDER_NUMBER_XXX__ALIGN_RIGHT).
Proof.
  intros Hnd Hdp Hprec.
  destruct (render_exponent_absent_writes h precision options Hnd Hdp Hprec)
    as (ba & La & Wa).
  destruct (render_exponent_present_writes h precision options Hnd Hprec)
    as (bp & Lp & Wp).
  exists ba, bp. split_and!.
  - cbv zeta in La.
    destruct (_ || _), (decimal_point h <=? 0) eqn:E, (0 <? precision) eqn:E';
      try apply Z.leb_gt in E; try apply Z.ltb_lt in E';
      try rewrite (u32_small (precision + 1)) in La by lia; lia.
  - cbv zeta in Lp.
    destruct (_ || _), (0 <? precision) eqn:E', (_ <? 100);
      try apply Z.ltb_lt in E';
      try rewrite (u32_small (precision + 1)) in Lp by lia; lia.
  - intros dst options' Eplus Ecomma. split.
    + unfold high_prec_dec__render_exponent_absent. cbv zeta.
      rewrite (put_sign_flag h options options' Eplus),
        (separator_flag options options' Ecomma), Eplus.
      cbv zeta in La, Wa. apply (writes_window _ _ _ _ _ Wa La).
    + unfold high_prec_dec__render_exponent_present. cbv zeta.
      rewrite (put_sign_flag h options options' Eplus),
        (separator_flag options options' Ecomma), Eplus.
      cbv zeta in Lp, Wp. apply (writes_window _ _ _ _ _ Wp Lp).
Qed.

Lemma render_exponent_window_witness :
  let h := high_prec_dec__assign hpd_stack 125 false in
  exists ba bp : list Z,
    (0 < length ba)%nat /\ (5 <= length bp)%nat
    /\ forall (dst : list Z) (options' : Z),
         has_flag options' RENDER_NUMBER_XXX__LEADING_PLUS_SIGN
         = has_flag RENDER_NUMBER_XXX__LEADING_PLUS_SIGN
             RENDER_NUMBER_XXX__LEADING_PLUS_SIGN ->
         has_flag options' RENDER_NUMBER_FXX__DECIMAL_SEPARATOR_IS_A_COMMA
         = has_flag RENDER_NUMBER_XXX__LEADING_PLUS_SIGN
             RENDER_NUMBER_FXX__DECIMAL_SEPARATOR_IS_A_COMMA ->
         high_prec_dec__render_exponent_absent dst h 2 options'
         = written_window dst ba
             (has_flag options' RENDER_NUMBER_XXX__ALIGN_RIGHT)
         /\ high_prec_dec__render_exponent_present dst h 2 options'
            = written_window dst bp
                (has_flag options' RENDER_NUMBER_XXX__ALIGN_RIGHT).
Proof.
  intros h.
  apply (render_exponent_window h 2 RENDER_NUMBER_XXX__LEADING_PLUS_SIGN).
  - vm_compute. discriminate.
  - vm_compute. split; [discriminate | reflexivity].
  - lia.
Defined.

(** ** Packing a medium precision binary into a double *)

Lemma lor_disjoint_add (f e k : Z) :
  0 <= k -> 0 <= f < 2 ^ k -> Z.lor f (e * 2 ^ k) = f + e * 2 ^ k.
Proof.
  intros Hk Hf.
  assert (Hland : Z.land f (e * 2 ^ k) = 0).
  { apply Z.bits_inj'. intros n Hn. rewrite Z.land_spec, Z.bits_0.
    destruct (Z.lt_ge_cases n k) as [Hlt|Hge].
    - rewrite Z.mul_pow2_bits_low by lia. apply andb_false_r.
    - destruct (Z.eq_dec f 0) as [->|Hnz]; [rewrite Z.bits_0; reflexivity | ].
      rewrite (Z.bits_above_log2 f n); [reflexivity | lia | ].
      apply Z.lt_le_trans with k; [ | exact Hge].
      apply Z.log2_lt_pow2; lia. }
  rewrite <- Z.lxor_lor by exact Hland.
  symmetry. apply Z.add_nocarry_lxor, Hland.
Qed.

Lemma land_pow2_testbit (a k : Z) :
  0 <= k -> Z.land a (2 ^ k) = if Z.testbit a k then 2 ^ k else 0.
Proof.
  intros Hk. apply Z.bits_inj'. intros n Hn.
  rewrite Z.land_spec, Z.pow2_bits_eqb by lia.
  destruct (Z.eqb_spec k n) as [->|Hne].
  - destruct (Z.testbit a n); [ | rewrite Z.bits_0; reflexivity].
    rewrite Z.pow2_bits_true by lia. reflexivity.
  - rewrite andb_false_r.
    destruct (Z.testbit a k); [ | rewrite Z.bits_0; reflexivity].
    rewrite Z.pow2_bits_false by lia. reflexivity.
Qed.

(** The 53 bits that [as_f64] keeps of a 64-bit mantissa: the high 53 bits,
    plus one when the highest dropped bit is set. *)
Lemma round_bit_10 (a : Z) :
  0 <= a ->
  (a + 2 ^ 10) / 2 ^ 11
  = Z.shiftr a 11 + (if Z.land a 1024 =? 0 then 0 else 1).
Proof.
  intros Ha. rewrite Z.shiftr_div_pow2 by lia.
  change 1024 with (2 ^ 10). rewrite land_pow2_testbit by lia.
  rewrite Z.testbit_odd, Z.shiftr_div_pow2 by lia.
  assert (Hb : Z.odd (a / 2 ^ 10) = ((a / 2 ^ 10) mod 2 =? 1)).
  { rewrite Zodd_mod. reflexivity. }
  rewrite Hb. clear Hb.
  change (2 ^ 11) with 2048. change (2 ^ 10) with 1024.
  destruct (Z.eqb_spec ((a / 1024) mod 2) 1) as [E|E]; cbn [Z.eqb];
    Z.div_mod_to_equations; lia.
Qed.

(** The fields of a double's bit pattern that is the sum of a sign, an
    exponent field and a fraction. *)
Lemma SF_of_bits_fields (neg : bool) (e f : Z) :
  0 <= e < 2 ^ 11 -> 0 <= f < 2 ^ 52 ->
  let b := f + e * 2 ^ 52 + (if neg then 2 ^ 63 else 0) in
  Z.testbit b 63 = neg
  /\ Z.land (Z.shiftr b 52) 0x7FF = e
  /\ Z.land b 0x000FFFFFFFFFFFFF = f.
Proof.
  intros He Hf b.
  change 0x7FF with (Z.ones 11). change 0x000FFFFFFFFFFFFF with (Z.ones 52).
  rewrite !Z.land_ones, Z.testbit_odd, !Z.shiftr_div_pow2 by lia.
  assert (E63 : b / 2 ^ 63 = if neg then 1 else 0).
  { unfold b. destruct neg; Z.div_mod_to_equations; lia. }
  assert (E52 : (b / 2 ^ 52) mod 2 ^ 11 = e).
  { unfold b. destruct neg; Z.div_mod_to_equations; lia. }
  assert (E0 : b mod 2 ^ 52 = f).
  { unfold b. destruct neg; Z.div_mod_to_equations; lia. }
  rewrite E63, E52, E0. destruct neg; split_and!; reflexivity.
Qed.

(** X18. [as_f64] of a normalized medium precision binary whose exponent is
    not below the normal doubles: the 64-bit mantissa is rounded to 53 bits,
    to nearest and halfway cases up, [M = (mantissa + 2^10) / 2^11], so the
    error is at most half a unit of the 53rd bit. The double returned has
    the sign asked for and is [M * 2^(exp2 + 11)]; when rounding carries to
    [2^53] it is [2^52 * 2^(exp2 + 12)]; it is the infinity when the
    exponent of the result would exceed 1023. *)
Theorem as_f64_rounds (m : medium_prec_bin) (neg : bool) :
  mpb_normalized m -> -1085 <= exp2 m <= 2 ^ 31 - 65 ->
  let M := (mantissa m + 2 ^ 10) / 2 ^ 11 in
  2 ^ 52 <= M <= 2 ^ 53
  /\ Z.abs (M * 2 ^ 11 - mantissa m) <= 2 ^ 10
  /\ SF_of_bits (medium_prec_bin__as_f64 m neg)
     = (if 960 <? exp2 m then S754_infinity neg
        else if M <? 2 ^ 53 then S754_finite neg (Z.to_pos M) (exp2 m + 11)
        else if exp2 m <? 960
             then S754_finite neg (Z.to_pos (2 ^ 52)) (exp2 m + 12)
             else S754_infinity neg).
Proof.
  intros Hn He M. unfold mpb_normalized in Hn.
  assert (HM : 2 ^ 52 <= M <= 2 ^ 53).
  { unfold M. change (2 ^ 52) with 4503599627370496.
    change (2 ^ 53) with 9007199254740992.
    change (2 ^ 63) with 9223372036854775808 in Hn.
    change (2 ^ 64) with 18446744073709551616 in Hn.
    change (2 ^ 10) with 1024. change (2 ^ 11) with 2048.
    Z.div_mod_to_equations. lia. }
  assert (Herr : Z.abs (M * 2 ^ 11 - mantissa m) <= 2 ^ 10).
  { unfold M. change (2 ^ 10) with 1024. change (2 ^ 11) with 2048.
    Z.div_mod_to_equations. lia. }
  split; [exact HM | split; [exact Herr | ]].
  (* The mantissa and the exponent before packing. *)
  assert (Hpack : forall mant e,
            0 <= mant < 2 ^ 53 -> (e < 1024 -> 2 ^ 52 <= mant) ->
            -1022 <= e < 2 ^ 31 ->
            SF_of_bits
              (let '(mantissa53, exp2) :=
                 if 1024 <=? e then (0, 1024)
                 else if Z.shiftr mant 52 =? 0 then (mant, -1023)
                 else (mant, e) in
               let f64_bias := -1023 in
               let exp2_bits := Z.land (exp2 - f64_bias) 0x07FF in
               Z.lor (Z.lor (Z.land mantissa53 0x000FFFFFFFFFFFFF)
                        (u64 (Z.shiftl exp2_bits 52)))
                 (if neg then 0x8000000000000000 else 0))
            = if 1024 <=? e then S754_infinity neg
              else S754_finite neg (Z.to_pos mant) (e - 52)).
  { intros mant e Hmant Hlow Hexp.
    assert (Hfields : forall f ee,
              0 <= f < 2 ^ 52 -> 0 <= ee < 2 ^ 11 ->
              Z.lor (Z.lor (Z.land f 0x000FFFFFFFFFFFFF)
                       (u64 (Z.shiftl (Z.land ee 0x07FF) 52)))
                (if neg then 0x8000000000000000 else 0)
              = f + ee * 2 ^ 52 + (if neg then 2 ^ 63 else 0)).
    { intros f ee Hf Hee.
      change 0x7FF with (Z.ones 11).
      change 0x000FFFFFFFFFFFFF with (Z.ones 52).
      rewrite !Z.land_ones by lia.
      rewrite (Z.mod_small f), (Z.mod_small ee) by lia.
      rewrite Z.shiftl_mul_pow2 by lia.
      rewrite u64_small by (change (2 ^ 64) with (2 * (2 ^ 11 * 2 ^ 52));
                            change (2 ^ 52) with 4503599627370496 in *; nia).
      rewrite lor_disjoint_add by lia.
      destruct neg.
      - change 0x8000000000000000 with (1 * 2 ^ 63).
        rewrite lor_disjoint_add; [lia | lia | ].
        change (2 ^ 63) with (2 ^ 11 * 2 ^ 52).
        change (2 ^ 52) with 4503599627370496 in *. nia.
      - rewrite Z.lor_0_r. lia. }
    destruct (Z.leb_spec 1024 e) as [Hinf|Hfin].
    - cbv zeta. change (1024 - -1023) with 2047.
      rewrite (Hfields 0 2047) by (split; [lia | reflexivity]).
      destruct (SF_of_bits_fields neg 2047 0 ltac:(split; [lia | reflexivity])
                  ltac:(split; [lia | reflexivity])) as (Hs & Hx & Hf).
      cbv zeta in Hs, Hx, Hf. unfold SF_of_bits. cbv zeta.
      rewrite Hs, Hx, Hf. reflexivity.
    - specialize (Hlow Hfin).
      assert (Hsh : (Z.shiftr mant 52 =? 0) = false).
      { apply Z.eqb_neq. rewrite Z.shiftr_div_pow2 by lia.
        change (2 ^ 52) with 4503599627370496 in *.
        Z.div_mod_to_equations. lia. }
      rewrite Hsh. cbv zeta.
      assert (Hsplit : Z.land mant 0x000FFFFFFFFFFFFF = mant - 2 ^ 52).
      { change 0x000FFFFFFFFFFFFF with (Z.ones 52).
        rewrite Z.land_ones by lia.
        change (2 ^ 52) with 4503599627370496 in *.
        change (2 ^ 53) with 9007199254740992 in *.
        Z.div_mod_to_equations. lia. }
      assert (Hland : Z.land mant 0x000FFFFFFFFFFFFF
                      = Z.land (mant - 2 ^ 52) 0x000FFFFFFFFFFFFF).
      { rewrite Hsplit. change 0x000FFFFFFFFFFFFF with (Z.ones 52).
        rewrite Z.land_ones by lia. symmetry. apply Z.mod_small.
        change (2 ^ 53) with (2 * 2 ^ 52) in Hmant. lia. }
      rewrite Hland.
      replace (e - -1023) with (e + 1023) by lia.
      rewrite (Hfields (mant - 2 ^ 52) (e + 1023))
        by (change (2 ^ 53) with (2 * 2 ^ 52) in Hmant;
            change (2 ^ 11) with 2048; lia).
      destruct (SF_of_bits_fields neg (e + 1023) (mant - 2 ^ 52)
                  ltac:(change (2 ^ 11) with 2048; lia)
                  ltac:(change (2 ^ 53) with (2 * 2 ^ 52) in Hmant; lia))
        as (Hs & Hx & Hf).
      cbv zeta in Hs, Hx, Hf. unfold SF_of_bits. cbv zeta.
      rewrite Hs, Hx, Hf.
      destruct (Z.eqb_spec (e + 1023) 0x7FF) as [E|_];
        [change 0x7FF with 2047 in E; lia | ].
      destruct (Z.eqb_spec (e + 1023) 0) as [E|_]; [lia | ].
      change 0x0010000000000000 with (1 * 2 ^ 52).
      rewrite lor_disjoint_add
        by (change (2 ^ 53) with (2 * 2 ^ 52) in Hmant; lia).
      replace (mant - 2 ^ 52 + 1 * 2 ^ 52) with mant by lia.
      destruct mant as [|p|p]; [ | | ];
        try (change (2 ^ 52) with 4503599627370496 in Hlow; lia).
      cbn [Z.to_pos]. f_equal. lia. }
  cbv zeta in Hpack.
  unfold medium_prec_bin__as_f64. cbv zeta.
  rewrite (i32_small (exp2 m + 63)) by lia.
  destruct (Z.ltb_spec (exp2 m + 63) (-1022)) as [Hlt|_]; [lia | ].
  pose proof (round_bit_10 (mantissa m) ltac:(lia)) as Hround. fold M in Hround.
  destruct (Z.eqb_spec (Z.land (mantissa m) 1024) 0) as [Hbit|Hbit];
    cbn [negb].
  - (* The dropped bit is clear. *)
    assert (EM : Z.shiftr (mantissa m) 11 = M) by lia.
    assert (HM53 : M < 2 ^ 53).
    { rewrite <- EM, Z.shiftr_div_pow2 by lia.
      change (2 ^ 53) with 9007199254740992.
      change (2 ^ 64) with 18446744073709551616 in Hn.
      change (2 ^ 11) with 2048. Z.div_mod_to_equations. lia. }
    rewrite EM. cbv beta iota.
    rewrite (Hpack M (exp2 m + 63)) by lia.
    destruct (Z.ltb_spec 960 (exp2 m)), (Z.leb_spec 1024 (exp2 m + 63));
      try lia; [reflexivity | ].
    destruct (Z.ltb_spec M (2 ^ 53)); [ | lia].
    f_equal. lia.
  - (* The dropped bit is set: round up, and renormalize after a carry. *)
    assert (EM : Z.shiftr (mantissa m) 11 + 1 = M) by lia.
    rewrite (u64_small (Z.shiftr (mantissa m) 11 + 1))
      by (rewrite EM; split; [lia | ];
          apply Z.le_lt_trans with (2 ^ 53); [lia | reflexivity]).
    rewrite EM.
    destruct (Z.eqb_spec (Z.shiftr M 53) 0) as [Hno|Hcarry]; cbn [negb].
    + assert (HM53 : M < 2 ^ 53).
      { rewrite Z.shiftr_div_pow2 in Hno by lia.
        change (2 ^ 53) with 9007199254740992 in *.
        Z.div_mod_to_equations. lia. }
      rewrite (Hpack M (exp2 m + 63)) by lia.
      destruct (Z.ltb_spec 960 (exp2 m)), (Z.leb_spec 1024 (exp2 m + 63));
        try lia; [reflexivity | ].
      destruct (Z.ltb_spec M (2 ^ 53)); [ | lia].
      f_equal. lia.
    + assert (HM53 : M = 2 ^ 53).
      { rewrite Z.shiftr_div_pow2 in Hcarry by lia.
        change (2 ^ 53) with 9007199254740992 in *.
        Z.div_mod_to_equations. lia. }
      rewrite HM53. change (Z.shiftr (2 ^ 53) 1) with (2 ^ 52).
      rewrite (i32_small (exp2 m + 63 + 1)) by lia.
      rewrite (Hpack (2 ^ 52) (exp2 m + 63 + 1))
        by (try (intros _); lia || (split; [lia | reflexivity])).
      destruct (Z.ltb_spec 960 (exp2 m)), (Z.leb_spec 1024 (exp2 m + 63 + 1));
        try lia; [reflexivity | | ].
      * change (2 ^ 53 <? 2 ^ 53) with false. cbv iota.
        destruct (Z.ltb_spec (exp2 m) 960); [lia | reflexivity].
      * change (2 ^ 53 <? 2 ^ 53) with false. cbv iota.
        destruct (Z.ltb_spec (exp2 m) 960); [ | lia].
        f_equal. lia.
Qed.

Lemma as_f64_rounds_witness :
  let m := mk_mpb (2 ^ 63 + 2 ^ 10) (-63) in
  let M := (mantissa m + 2 ^ 10) / 2 ^ 11 in
  2 ^ 52 <= M <= 2 ^ 53
  /\ Z.abs (M * 2 ^ 11 - mantissa m) <= 2 ^ 10
  /\ SF_of_bits (medium_prec_bin__as_f64 m true)
     = (if 960 <? exp2 m then S754_infinity true
        else if M <? 2 ^ 53 then S754_finite true (Z.to_pos M) (exp2 m + 11)
        else if exp2 m <? 960
             then S754_finite true (Z.to_pos (2 ^ 52)) (exp2 m + 12)
             else S754_infinity true).
Proof.
  intros m.
  apply (as_f64_rounds m true).
  - unfold mpb_normalized. cbn [mantissa m]. lia.
  - cbn [exp2 m]. lia.
Defined.

(** ** Reading back what [render_exponent_absent] writes *)

Lemma digit_chars_length (h : high_prec_dec) (n : nat) :
  forall a, length (digit_chars h a n) = n.
Proof. induction n as [|n IH]; intros a; cbn; [ | rewrite IH]; reflexivity. Qed.

Lemma digit_chars_app (h : high_prec_dec) (n m : nat) :
  forall a,
    digit_chars h a (n + m)
    = digit_chars h a n ++ digit_chars h (a + Z.of_nat n) m.
Proof.
  induction n as [|n IH]; intros a.
  - cbn [digit_chars Nat.add app]. f_equal. lia.
  - cbn [digit_chars Nat.add app]. rewrite IH. do 3 f_equal. lia.
Qed.

Lemma digit_char_lor (d : Z) :
  0 <= d <= 9 -> u8 (Z.lor (ch "0") d) = ch "0" + d.
Proof.
  intros Hd.
  assert (H : d = 0 \/ d = 1 \/ d = 2 \/ d = 3 \/ d = 4 \/ d = 5 \/ d = 6
              \/ d = 7 \/ d = 8 \/ d = 9) by lia.
  repeat (destruct H as [-> | H]; [reflexivity | ]). subst d. reflexivity.
Qed.

Lemma hpd_digit_in (h : high_prec_dec) (i : Z) :
  0 <= i < num_digits h -> hpd_digit h i = digit_get (digits h) i.
Proof.
  intros Hi. unfold hpd_digit.
  destruct (Z.leb_spec 0 i); [ | lia].
  destruct (Z.ltb_spec i (num_digits h)); [reflexivity | lia].
Qed.

Lemma hpd_digit_out (h : high_prec_dec) (i : Z) :
  i < 0 \/ num_digits h <= i -> hpd_digit h i = 0.
Proof.
  intros Hi. unfold hpd_digit.
  destruct (Z.leb_spec 0 i); [ | reflexivity].
  destruct (Z.ltb_spec i (num_digits h)); [lia | reflexivity].
Qed.

Lemma hpd_digit_ok (h : high_prec_dec) (i : Z) :
  hpd_digits_ok h -> 0 <= hpd_digit h i <= 9.
Proof.
  intros Hok. unfold hpd_digit.
  destruct (Z.leb_spec 0 i); cbn [andb]; [ | lia].
  destruct (Z.ltb_spec i (num_digits h)); [apply Hok; lia | lia].
Qed.

Lemma writes_digit_chars_digits (h : high_prec_dec) (cnt : nat) :
  hpd_digits_ok h ->
  forall i, 0 <= i -> i + Z.of_nat cnt <= num_digits h ->
    writes (put_digits cnt i h) (digit_chars h i cnt).
Proof.
  intros Hok. induction cnt as [|cnt IH]; intros i Hi Hle.
  - apply writes_nil.
  - cbn [put_digits digit_chars].
    rewrite digit_char_lor by (apply Hok; lia).
    rewrite (hpd_digit_in h i) by lia.
    apply (writes_comp (fun st => put st _) (put_digits cnt (i + 1) h) [_]);
      [apply writes_put | apply IH; lia].
Qed.

Lemma writes_digit_chars_zeroes (h : high_prec_dec) (cnt : nat) :
  forall i, num_digits h <= i ->
    writes (put_zeroes cnt) (digit_chars h i cnt).
Proof.
  induction cnt as [|cnt IH]; intros i Hi.
  - apply writes_nil.
  - cbn [put_zeroes digit_chars].
    rewrite (hpd_digit_out h i) by lia. rewrite Z.add_0_r.
    apply (writes_comp (fun st => put st _) (put_zeroes cnt) [_]);
      [apply writes_put | apply IH; lia].
Qed.

Lemma writes_digit_chars_fraction (h : high_prec_dec) (cnt : nat) :
  hpd_digits_ok h -> 0 <= num_digits h <= 800 ->
  - 2 ^ 31 <= decimal_point h < 2 ^ 31 ->
  forall i, 0 <= i -> i + Z.of_nat cnt < 2 ^ 31 ->
    writes (put_fraction cnt i h)
      (digit_chars h (decimal_point h + i) cnt).
Proof.
  intros Hok Hnd Hdp. induction cnt as [|cnt IH]; intros i Hi Hle.
  - apply writes_nil.
  - cbn [put_fraction digit_chars]. cbv zeta.
    assert (E : (if u32 (u32 (decimal_point h) + i) <? num_digits h
                 then digit_get (digits h) (u32 (u32 (decimal_point h) + i))
                 else 0)
                = hpd_digit h (decimal_point h + i)).
    { unfold u32. rewrite Zplus_mod_idemp_l.
      destruct (Z.lt_ge_cases (decimal_point h + i) 0) as [Hneg|Hpos].
      - rewrite (hpd_digit_out h (decimal_point h + i)) by lia.
        replace ((decimal_point h + i) mod 2 ^ 32)
          with (decimal_point h + i + 2 ^ 32)
          by (apply Z.mod_unique with (-1); lia).
        destruct (Z.ltb_spec (decimal_point h + i + 2 ^ 32) (num_digits h));
          [lia | reflexivity].
      - rewrite Z.mod_small by lia. unfold hpd_digit.
        destruct (Z.leb_spec 0 (decimal_point h + i)); [ | lia].
        reflexivity. }
    rewrite E, digit_char_lor by (apply hpd_digit_ok, Hok).
    replace (decimal_point h + i + 1) with (decimal_point h + (i + 1)) by lia.
    apply (writes_comp (fun st => put st _) (put_fraction cnt (i + 1) h) [_]);
      [apply writes_put | apply IH; lia].
Qed.

(** What [render_exponent_absent] writes is the fixed point notation. *)
Lemma render_exponent_absent_text (dst : list Z) (h : high_prec_dec)
    (precision options : Z) :
  hpd_digits_ok h -> 0 <= num_digits h <= 800 ->
  - 2 ^ 31 <= decimal_point h < 2 ^ 31 - 1 ->
  0 <= precision < 2 ^ 31 - 1 ->
  high_prec_dec__render_exponent_absent dst h precision options
  = written_window dst
      (fixed_point_text h precision
         (has_flag options RENDER_NUMBER_XXX__LEADING_PLUS_SIGN)
         (has_flag options RENDER_NUMBER_FXX__DECIMAL_SEPARATOR_IS_A_COMMA))
      (has_flag options RENDER_NUMBER_XXX__ALIGN_RIGHT).
Proof.
  intros Hok Hnd Hdp Hprec.
  set (w1 := put_sign h options).
  set (w2 := fun st : Z * list Z =>
               if decimal_point h <=? 0 then put st (ch "0")
               else put_zeroes
                      (Z.to_nat (u32 (decimal_point h)
                                 - Z.min (num_digits h) (u32 (decimal_point h))))
                      (put_digits
                         (Z.to_nat (Z.min (num_digits h) (u32 (decimal_point h))))
                         0 h st)).
  set (w3 := fun st : Z * list Z =>
               if 0 <? precision
               then put_fraction (Z.to_nat precision) 0 h
                      (put st (separator options))
               else st).
  assert (W1 : writes w1
                 (if negative h then [ch "-"]
                  else if has_flag options RENDER_NUMBER_XXX__LEADING_PLUS_SIGN
                       then [ch "+"] else [])).
  { unfold w1, put_sign. destruct (negative h); [apply writes_put | ].
    destruct (has_flag options RENDER_NUMBER_XXX__LEADING_PLUS_SIGN);
      [apply writes_put | apply writes_nil]. }
  assert (W2 : writes w2
                 (if decimal_point h <=? 0 then [ch "0"]
                  else digit_chars h 0 (Z.to_nat (decimal_point h)))).
  { unfold w2.
    destruct (Z.leb_spec (decimal_point h) 0) as [Hle|Hgt];
      [apply writes_put | ].
    rewrite (u32_small (decimal_point h)) by lia.
    set (m := Z.min (num_digits h) (decimal_point h)).
    replace (Z.to_nat (decimal_point h))
      with (Z.to_nat m + Z.to_nat (decimal_point h - m))%nat
      by (unfold m; lia).
    rewrite digit_chars_app.
    apply (writes_comp (put_digits _ 0 h) (put_zeroes _)).
    - apply writes_digit_chars_digits; [exact Hok | lia | unfold m; lia].
    - destruct (Z.le_gt_cases (num_digits h) (decimal_point h)) as [H|H].
      + apply writes_digit_chars_zeroes. unfold m. lia.
      + replace (Z.to_nat (decimal_point h - m)) with 0%nat
          by (unfold m; lia).
        apply writes_nil. }
  assert (W3 : writes w3
                 (if 0 <? precision
                  then (if has_flag options
                             RENDER_NUMBER_FXX__DECIMAL_SEPARATOR_IS_A_COMMA
                        then ch "," else ch ".")
                       :: digit_chars h (decimal_point h) (Z.to_nat precision)
                  else [])).
  { unfold w3.
    destruct (Z.ltb_spec 0 precision) as [Hpos|Hzero]; [ | apply writes_nil].
    apply (writes_comp (fun st => put st _) (put_fraction _ 0 h) [_]).
    - unfold separator.
      destruct (has_flag options
                  RENDER_NUMBER_FXX__DECIMAL_SEPARATOR_IS_A_COMMA);
        apply writes_put.
    - pose proof (writes_digit_chars_fraction h (Z.to_nat precision)
                    Hok Hnd ltac:(lia) 0 ltac:(lia) ltac:(lia)) as W.
      rewrite Z.add_0_r in W. exact W. }
  pose proof (writes_comp _ _ _ _ (writes_comp _ _ _ _ W1 W2) W3) as W.
  rewrite <- app_assoc in W.
  unfold high_prec_dec__render_exponent_absent. cbv zeta.
  apply (writes_window _ _ _ _ _ W).
  unfold fixed_point_text.
  rewrite !length_app, !Nat2Z.inj_add.
  destruct (negative h); cbn [orb];
    [ | destruct (has_flag options RENDER_NUMBER_XXX__LEADING_PLUS_SIGN) ];
    (destruct (Z.leb_spec (decimal_point h) 0);
     destruct (Z.ltb_spec 0 precision);
     cbn [length]; rewrite ?digit_chars_length;
     rewrite ?(u32_small (precision + 1)) by lia; lia).
Qed.

Lemma parse_digits_run (h : high_prec_dec) :
  hpd_canonical h ->
  forall (n : nat) (a : Z) (st : parse_digits_state) (rest : list Z),
    0 <= a -> run_state h a st ->
    exists st',
      parse_digits_loop (digit_chars h a n ++ rest) st
      = parse_digits_loop rest st'
      /\ run_state h (a + Z.of_nat n) st'
      /\ pds_dp st' = pds_dp st
      /\ pds_saw_dot st' = pds_saw_dot st
      /\ ((0 < n)%nat -> pds_saw_digits st' = true)
      /\ (n = 0%nat -> st' = st).
Proof.
  intros ((Hlen & Hnd) & (Htrim & Hok) & Hpos & Hfirst).
  unfold HPD__DIGITS_PRECISION in Hnd.
  induction n as [|n IH]; intros a st rest Ha Hst.
  - exists st. cbn [digit_chars app]. rewrite Z.add_0_r.
    split_and!; [reflexivity | exact Hst | reflexivity | reflexivity
                | lia | reflexivity].
  - destruct st as [nd dp sd snz sdot tr ds].
    destruct Hst as (End & Hl & Hds & Etr & Hlead).
    cbn [pds_nd pds_digits pds_truncated pds_saw_dot pds_saw_digits
         pds_saw_non_zero_digits] in *.
    subst tr.
    pose proof (hpd_digit_ok h a Hok) as Hd.
    set (d := hpd_digit h a) in *.
    cbn [digit_chars app parse_digits_loop]. fold d.
    assert (E1 : (ch "0" + d =? ch "_") = false)
      by (apply Z.eqb_neq; change (ch "0") with 48; change (ch "_") with 95; lia).
    assert (E2 : ((ch "0" + d =? ch ".") || (ch "0" + d =? ch ",")) = false).
    { apply orb_false_iff. split; apply Z.eqb_neq;
        change (ch "0") with 48; [change (ch ".") with 46 | change (ch ",") with 44];
        lia. }
    rewrite E1, E2.
    assert (Hnext : forall st1,
              run_state h (a + 1) st1 -> pds_dp st1 = dp ->
              pds_saw_dot st1 = sdot -> pds_saw_digits st1 = true ->
              exists st',
                parse_digits_loop (digit_chars h (a + 1) n ++ rest) st1
                = parse_digits_loop rest st'
                /\ run_state h (a + Z.of_nat (S n)) st'
                /\ pds_dp st' = dp /\ pds_saw_dot st' = sdot
                /\ ((0 < S n)%nat -> pds_saw_digits st' = true)
                /\ (S n = 0%nat -> st' = mk_pds nd dp sd snz sdot false ds)).
    { intros st1 Hst1 Edp Edot Esd.
      destruct (IH (a + 1) st1 rest ltac:(lia) Hst1)
        as (st' & Hrun & Hst' & Edp' & Edot' & Esd' & Esame).
      exists st'. split; [exact Hrun | ].
      replace (a + Z.of_nat (S n)) with (a + 1 + Z.of_nat n) by lia.
      split_and!; [exact Hst' | congruence | congruence | | lia].
      intros _. destruct n as [|n]; [ | apply Esd'; lia].
      rewrite (Esame eq_refl). exact Esd. }
    destruct (Z.eq_dec d 0) as [Ez|Enz].
    + (* A zero, which is not the first digit. *)
      assert (Ha0 : 0 < a).
      { destruct (Z.eq_dec a 0) as [->|]; [ | lia].
        unfold d in Ez. rewrite hpd_digit_in in Ez by lia. contradiction. }
      rewrite Ez, Z.add_0_r, Z.eqb_refl.
      assert (Echeck : negb sdot && negb snz && sd = false).
      { destruct Hlead as [-> | [-> | [_ ->]]];
          [reflexivity | apply andb_false_iff; left; apply andb_false_r | lia]. }
      rewrite Echeck.
      destruct (Z.eqb_spec nd 0) as [E0|_]; [lia | ].
      unfold HPD__DIGITS_PRECISION.
      destruct (Z.ltb_spec nd 800) as [Hlt|Hge].
      * apply Hnext; try reflexivity.
        assert (Ea : nd = a) by lia. clear End. subst nd.
        rewrite (u32_small (a + 1)) by lia.
        split_and!; cbn [pds_nd pds_digits pds_truncated pds_saw_dot
                         pds_saw_digits pds_saw_non_zero_digits].
        -- lia.
        -- rewrite length_digit_set. exact Hl.
        -- intros i Hi. destruct (Z.eq_dec i a) as [->|Hne].
           ++ rewrite digit_get_set_same by lia. symmetry. exact Ez.
           ++ rewrite digit_get_set_other by lia. apply Hds. lia.
        -- reflexivity.
        -- destruct Hlead as [H | [H | [_ H]]]; [left | right; left | lia];
             exact H.
      * apply Hnext; try reflexivity.
        split_and!; cbn [pds_nd pds_digits pds_truncated pds_saw_dot
                         pds_saw_digits pds_saw_non_zero_digits].
        -- lia.
        -- exact Hl.
        -- exact Hds.
        -- reflexivity.
        -- destruct Hlead as [H | [H | [_ H]]]; [left | right; left | lia];
             exact H.
    + (* A digit that is not zero is an active digit of [h]. *)
      assert (Hin : a < num_digits h).
      { destruct (Z.lt_ge_cases a (num_digits h)) as [H|H]; [exact H | ].
        unfold d in Enz. rewrite hpd_digit_out in Enz by lia. contradiction. }
      destruct (Z.eqb_spec (ch "0") (ch "0" + d)) as [E|_]; [lia | ].
      assert (E3 : (ch "0" <? ch "0" + d) && (ch "0" + d <=? ch "9") = true).
      { apply andb_true_iff. split; [apply Z.ltb_lt | apply Z.leb_le];
          change (ch "0") with 48; change (ch "9") with 57; lia. }
      rewrite E3.
      assert (Echeck : negb sdot && negb snz && sd = false).
      { destruct Hlead as [-> | [-> | [-> _]]];
          [reflexivity | apply andb_false_iff; left; apply andb_false_r
          | apply andb_false_r]. }
      rewrite Echeck.
      unfold HPD__DIGITS_PRECISION.
      assert (Ea : nd = a) by lia. clear End. subst nd.
      destruct (Z.ltb_spec a 800) as [_|Hge]; [ | lia].
      apply Hnext; try reflexivity.
      rewrite (u32_small (a + 1)) by lia.
      replace (ch "0" + d - ch "0") with d by lia.
      rewrite (u8_small d) by lia.
      split_and!; cbn [pds_nd pds_digits pds_truncated pds_saw_dot
                       pds_saw_digits pds_saw_non_zero_digits].
      * lia.
      * rewrite length_digit_set. exact Hl.
      * intros i Hi. destruct (Z.eq_dec i a) as [->|Hne].
        -- rewrite digit_get_set_same by lia. reflexivity.
        -- rewrite digit_get_set_other by lia. apply Hds. lia.
      * reflexivity.
      * right. left. reflexivity.
Qed.

(** After the separator and before the first digit that is stored, a zero
    lowers the decimal point. *)
Lemma parse_digits_zeroes (h : high_prec_dec) (n : nat) :
  forall (a dp : Z) (sd snz tr : bool) (ds rest : list Z),
    a + Z.of_nat n <= 0 -> - 2 ^ 31 <= dp - Z.of_nat n -> dp < 2 ^ 31 ->
    parse_digits_loop (digit_chars h a n ++ rest)
      (mk_pds 0 dp sd snz true tr ds)
    = parse_digits_loop rest
        (mk_pds 0 (dp - Z.of_nat n) (sd || negb (Nat.eqb n 0)) snz true tr ds).
Proof.
  induction n as [|n IH]; intros a dp sd snz tr ds rest Ha Hlo Hhi.
  - cbn [digit_chars app Nat.eqb negb]. rewrite orb_false_r, Z.sub_0_r.
    reflexivity.
  - cbn [digit_chars app parse_digits_loop].
    rewrite (hpd_digit_out h a) by lia. rewrite Z.add_0_r.
    change (ch "0" =? ch "_") with false.
    change ((ch "0" =? ch ".") || (ch "0" =? ch ",")) with false.
    rewrite Z.eqb_refl. cbn [negb andb]. rewrite Z.eqb_refl.
    rewrite (i32_small (dp - 1)) by lia.
    rewrite IH by lia. cbn [Nat.eqb negb orb]. rewrite orb_true_r.
    do 2 f_equal. lia.
Qed.

Lemma trim_loop_to (ds : list Z) (m : nat) :
  (m = 0%nat \/ digit_get ds (Z.of_nat m - 1) <> 0) ->
  forall n : nat,
    (m <= n)%nat ->
    (forall i, Z.of_nat m <= i < Z.of_nat n -> digit_get ds i = 0) ->
    trim_loop n ds = m.
Proof.
  intros Hm. induction n as [|n IH]; intros Hle Hz.
  - cbn. lia.
  - cbn [trim_loop].
    destruct (Nat.eq_dec m (S n)) as [E|NE].
    + destruct Hm as [Hm|Hm]; [lia | ].
      subst m. replace (Z.of_nat (S n) - 1) with (Z.of_nat n) in Hm by lia.
      destruct (Z.eqb_spec (digit_get ds (Z.of_nat n)) 0); [contradiction | ].
      reflexivity.
    + rewrite (Hz (Z.of_nat n)) by lia. rewrite Z.eqb_refl.
      apply IH; [lia | intros i Hi; apply Hz; lia].
Qed.

(** [parse] of an optional sign and a number without exponent, in terms of
    the state in which the digits loop reaches the end of the input. *)
Lemma parse_sign_digits (h0 : high_prec_dec) (sg : list Z) (b : bool)
    (c : Z) (p : list Z) (stf : parse_digits_state) :
  sign_token sg b ->
  c <> ch "_" -> c <> ch "+" -> c <> ch "-" ->
  parse_digits_loop (c :: p)
    (mk_pds 0 0 false false false false (digits h0)) = digits_left stf [] ->
  pds_saw_digits stf = true ->
  high_prec_dec__parse (Some h0) (sg ++ c :: p)
  = (None,
     Some (high_prec_dec__trim
             (mk_hpd (pds_nd stf)
                (let dp := if negb (pds_saw_dot stf) then i32 (pds_nd stf)
                           else pds_dp stf in
                 if pds_nd stf =? 0 then 0
                 else if dp <? - HPD__DECIMAL_POINT__RANGE
                      then - HPD__DECIMAL_POINT__RANGE - 1
                 else if HPD__DECIMAL_POINT__RANGE <? dp
                      then HPD__DECIMAL_POINT__RANGE + 1
                 else dp)
                b (pds_truncated stf) (pds_digits stf)))).
Proof.
  intros Hsg Hc1 Hc2 Hc3 Hrun Hsd.
  assert (Eskip : skip_underscores (c :: p) = c :: p).
  { cbn [skip_underscores]. destruct (Z.eqb_spec c (ch "_")); [contradiction | ].
    reflexivity. }
  assert (E2 : (c =? ch "+") = false) by (apply Z.eqb_neq; exact Hc2).
  assert (E3 : (c =? ch "-") = false) by (apply Z.eqb_neq; exact Hc3).
  destruct stf as [nd dp sd snz sdot tr ds].
  cbn [pds_nd pds_dp pds_saw_dot pds_saw_digits pds_truncated pds_digits] in *.
  subst sd.
  assert (Hfinish : forall hi : high_prec_dec,
            digits hi = digits h0 -> truncated hi = false ->
            num_digits hi = 0 -> decimal_point hi = 0 -> negative hi = b ->
            match
              parse_digits_loop (c :: p)
                (mk_pds 0 0 false false false (truncated hi) (digits hi))
            with
            | digits_bad (mk_pds _ _ _ _ _ trunc ds) =>
                (make_status (Some error__bad_argument),
                 Some (set_digits (set_truncated hi trunc) ds))
            | digits_left (mk_pds nd dp saw_digits _ saw_dot trunc ds) p =>
                let h := set_digits (set_truncated hi trunc) ds in
                if negb saw_digits
                then (make_status (Some error__bad_argument), Some h)
                else
                  let dp := if negb saw_dot then i32 nd else dp in
                  match parse_exponent p dp with
                  | None => (make_status (Some error__bad_argument), Some h)
                  | Some (dp, p) =>
                      if negb (is_nil p)
                      then (make_status (Some error__bad_argument), Some h)
                      else
                        let h := set_num_digits h nd in
                        let h :=
                          if nd =? 0 then set_decimal_point h 0
                          else if dp <? - HPD__DECIMAL_POINT__RANGE then
                            set_decimal_point h (- HPD__DECIMAL_POINT__RANGE - 1)
                          else if HPD__DECIMAL_POINT__RANGE <? dp then
                            set_decimal_point h (HPD__DECIMAL_POINT__RANGE + 1)
                          else set_decimal_point h dp in
                        (make_status None, Some (high_prec_dec__trim h))
                  end
            end
            = (None,
               Some (high_prec_dec__trim
                       (mk_hpd nd
                          (let dp := if negb sdot then i32 nd else dp in
                           if nd =? 0 then 0
                           else if dp <? - HPD__DECIMAL_POINT__RANGE
                                then - HPD__DECIMAL_POINT__RANGE - 1
                           else if HPD__DECIMAL_POINT__RANGE <? dp
                                then HPD__DECIMAL_POINT__RANGE + 1
                           else dp)
                          b tr ds)))).
  { intros hi Ed Et En Edp Eneg. rewrite Ed, Et, Hrun.
    cbn [negb]. cbv zeta. cbn [parse_exponent is_nil negb].
    unfold make_status.
    destruct hi as [n0 d0 b0 t0 ds0]. cbn in Ed, Et, En, Edp, Eneg. subst.
    destruct (nd =? 0);
      [ | destruct (_ <? - HPD__DECIMAL_POINT__RANGE);
          [ | destruct (HPD__DECIMAL_POINT__RANGE <? _)]];
      reflexivity. }
  destruct Hsg; unfold high_prec_dec__parse; cbn [app]; cbv zeta.
  - rewrite Eskip. cbv beta iota. rewrite E2, E3.
    apply (Hfinish (mk_hpd 0 0 false false (digits h0))); reflexivity.
  - change (skip_underscores (ch "+" :: c :: p)) with (ch "+" :: c :: p).
    cbv beta iota. rewrite Z.eqb_refl, Eskip.
    apply (Hfinish (mk_hpd 0 0 false false (digits h0))); reflexivity.
  - change (skip_underscores (ch "-" :: c :: p)) with (ch "-" :: c :: p).
    cbv beta iota.
    change (ch "-" =? ch "+") with false. rewrite Z.eqb_refl, Eskip.
    apply (Hfinish (set_negative (mk_hpd 0 0 false false (digits h0)) true));
      reflexivity.
Qed.

(** X19. The fixed point notation round trips. For a decimal in canonical
    form, [render_exponent_absent] writes its fixed point notation (into the
    window that fits it, at the left or at the right end of the
    destination). When the decimal point is from -2048 to 800 and the
    precision covers all digits after the decimal point, [parse] reads that
    text back as the same decimal: the same digits, decimal point and sign,
    and nothing truncated. *)
Theorem fixed_point_round_trip (h h0 : high_prec_dec) (precision options : Z) :
  hpd_canonical h -> length (digits h0) = 800%nat ->
  -2048 <= decimal_point h <= 800 ->
  num_digits h - decimal_point h <= precision ->
  0 <= precision < 2 ^ 31 - 1 ->
  let text :=
    fixed_point_text h precision
      (has_flag options RENDER_NUMBER_XXX__LEADING_PLUS_SIGN)
      (has_flag options RENDER_NUMBER_FXX__DECIMAL_SEPARATOR_IS_A_COMMA) in
  (forall dst : list Z,
      high_prec_dec__render_exponent_absent dst h precision options
      = written_window dst text
          (has_flag options RENDER_NUMBER_XXX__ALIGN_RIGHT))
  /\ exists h' : high_prec_dec,
       high_prec_dec__parse (Some h0) text = (None, Some h')
       /\ num_digits h' = num_digits h
       /\ decimal_point h' = decimal_point h
       /\ negative h' = negative h
       /\ truncated h' = false
       /\ hpd_active_digits h' = hpd_active_digits h.
Proof.
  intros Hcan Hl0 Hdp Hcover Hprec text.
  pose proof Hcan as ((Hlen & Hnd) & (Htrim & Hok) & Hpos & Hfirst).
  unfold HPD__DIGITS_PRECISION in Hnd.
  split.
  { intros dst. apply render_exponent_absent_text; [exact Hok | lia | lia | lia]. }
  set (plus := has_flag options RENDER_NUMBER_XXX__LEADING_PLUS_SIGN) in *.
  set (comma :=
         has_flag options RENDER_NUMBER_FXX__DECIMAL_SEPARATOR_IS_A_COMMA) in *.
  set (sg := if negative h then [ch "-"] else if plus then [ch "+"] else []).
  set (body :=
         (if decimal_point h <=? 0 then [ch "0"]
          else digit_chars h 0 (Z.to_nat (decimal_point h)))
         ++ (if 0 <? precision
             then (if comma then ch "," else ch ".")
                  :: digit_chars h (decimal_point h) (Z.to_nat precision)
             else [])).
  assert (Htext : text = sg ++ body) by reflexivity.
  assert (Hsg : sign_token sg (negative h)).
  { unfold sg. destruct (negative h); [constructor | ].
    destruct plus; constructor. }
  set (st0 := mk_pds 0 0 false false false false (digits h0)).
  assert (Hst0 : run_state h 0 st0).
  { unfold run_state, st0. cbn. split_and!; try reflexivity; [exact Hl0 | lia | ].
    right. right. split; reflexivity. }
  pose proof (hpd_digit_ok h 0 Hok) as Hd0.
  (* The digits loop reads the body to its end. *)
  assert (Hloop : exists stf A,
            parse_digits_loop body st0 = digits_left stf []
            /\ pds_saw_digits stf = true
            /\ run_state h A stf /\ num_digits h <= A
            /\ (if negb (pds_saw_dot stf) then i32 (pds_nd stf)
                else pds_dp stf) = decimal_point h).
  { unfold body.
    destruct (Z.leb_spec (decimal_point h) 0) as [Hle|Hgt].
    - (* No digits before the decimal point. *)
      destruct (Z.ltb_spec 0 precision) as [Hp|Hp]; [ | lia].
      replace (Z.to_nat precision)
        with (Z.to_nat (- decimal_point h)
              + Z.to_nat (precision + decimal_point h))%nat by lia.
      rewrite digit_chars_app.
      replace (decimal_point h + Z.of_nat (Z.to_nat (- decimal_point h)))
        with 0 by lia.
      destruct (parse_digits_run h Hcan
                  (Z.to_nat (precision + decimal_point h)) 0
                  (mk_pds 0 (decimal_point h)
                     (true || negb (Nat.eqb (Z.to_nat (- decimal_point h)) 0))
                     false true false (digits h0)) [] ltac:(lia))
        as (stf & Hrun & Hstf & Edp & Edot & Esd & _).
      { unfold run_state. cbn. split_and!; try reflexivity; [exact Hl0 | lia | ].
        left. reflexivity. }
      exists stf, (0 + Z.of_nat (Z.to_nat (precision + decimal_point h))).
      split_and!.
      + unfold st0. cbn [app parse_digits_loop].
        change (ch "0" =? ch "_") with false.
        change ((ch "0" =? ch ".") || (ch "0" =? ch ",")) with false.
        cbv iota. rewrite Z.eqb_refl. cbn [negb andb]. rewrite Z.eqb_refl.
        assert (Esep : forall c,
                  c = (if comma then ch "," else ch ".") ->
                  (c =? ch "_") = false
                  /\ ((c =? ch ".") || (c =? ch ",")) = true).
        { intros c ->. destruct comma; split; reflexivity. }
        destruct (Esep _ eq_refl) as [Es1 Es2]. rewrite Es1, Es2.
        change (i32 0) with 0. rewrite app_nil_r in Hrun.
        rewrite (parse_digits_zeroes h (Z.to_nat (- decimal_point h))
                   (decimal_point h) 0 true false false (digits h0))
          by lia.
        replace (0 - Z.of_nat (Z.to_nat (- decimal_point h)))
          with (decimal_point h) by lia.
        rewrite Hrun. reflexivity.
      + apply Esd. lia.
      + exact Hstf.
      + lia.
      + rewrite Edot. cbn [pds_saw_dot negb]. rewrite Edp. reflexivity.
    - (* The digits before the decimal point, with their trailing zeroes. *)
      destruct (Z.ltb_spec 0 precision) as [Hp|Hp].
      + destruct (parse_digits_run h Hcan (Z.to_nat (decimal_point h)) 0 st0
                    ((if comma then ch "," else ch ".")
                     :: digit_chars h (decimal_point h) (Z.to_nat precision)
                        ++ [])
                    ltac:(lia) Hst0)
          as (st1 & Hrun1 & Hst1 & Edp1 & Edot1 & Esd1 & _).
        replace (0 + Z.of_nat (Z.to_nat (decimal_point h)))
          with (decimal_point h) in Hst1 by lia.
        destruct st1 as [nd1 dp1 sd1 snz1 sdot1 tr1 ds1].
        cbn [pds_dp pds_saw_dot pds_saw_digits st0] in Edp1, Edot1, Esd1.
        subst dp1 sdot1. rewrite (Esd1 ltac:(lia)) in *.
        pose proof Hst1 as (End1 & Hl1 & Hds1 & Etr1 & Hlead1).
        cbn [pds_nd pds_digits pds_truncated pds_saw_dot pds_saw_digits
             pds_saw_non_zero_digits] in End1, Hl1, Hds1, Etr1, Hlead1.
        destruct (parse_digits_run h Hcan (Z.to_nat precision)
                    (decimal_point h)
                    (mk_pds nd1 (i32 nd1) true snz1 true tr1 ds1) []
                    ltac:(lia))
          as (stf & Hrun & Hstf & Edp & Edot & Esd & _).
        { split_and!; cbn [pds_nd pds_digits pds_truncated pds_saw_dot
                           pds_saw_digits pds_saw_non_zero_digits];
            [exact End1 | exact Hl1 | exact Hds1 | exact Etr1 | ].
          left. reflexivity. }
        exists stf, (decimal_point h + Z.of_nat (Z.to_nat precision)).
        split_and!.
        * rewrite app_nil_r in Hrun1. rewrite Hrun1.
          cbn [parse_digits_loop].
          assert (Esep : forall c,
                    c = (if comma then ch "," else ch ".") ->
                    (c =? ch "_") = false
                    /\ ((c =? ch ".") || (c =? ch ",")) = true).
          { intros c ->. destruct comma; split; reflexivity. }
          destruct (Esep _ eq_refl) as [Es1 Es2]. rewrite Es1, Es2.
          rewrite <- (app_nil_r (digit_chars h (decimal_point h)
                                   (Z.to_nat precision))).
          rewrite Hrun. reflexivity.
        * apply Esd. lia.
        * exact Hstf.
        * lia.
        * rewrite Edot. cbn [pds_saw_dot negb]. rewrite Edp. cbn [pds_dp].
          rewrite End1, i32_small; lia.
      + destruct (parse_digits_run h Hcan (Z.to_nat (decimal_point h)) 0 st0
                    [] ltac:(lia) Hst0)
          as (stf & Hrun & Hstf & Edp & Edot & Esd & _).
        exists stf, (0 + Z.of_nat (Z.to_nat (decimal_point h))).
        split_and!.
        * rewrite Hrun. reflexivity.
        * apply Esd. lia.
        * exact Hstf.
        * lia.
        * rewrite Edot. cbn [pds_saw_dot st0 negb].
          destruct Hstf as (End & _). rewrite End, i32_small; lia. }
  destruct Hloop as (stf & A & Hrun & Hsd & Hstf & HA & Efinal).
  (* The body starts with a digit. *)
  assert (Hhead : exists c p,
            body = c :: p /\ c <> ch "_" /\ c <> ch "+" /\ c <> ch "-").
  { unfold body. destruct (Z.leb_spec (decimal_point h) 0) as [Hle|Hgt].
    - eexists _, _. split; [reflexivity | ].
      split_and!; discriminate.
    - destruct (Z.to_nat (decimal_point h)) as [|k] eqn:Ek; [lia | ].
      cbn [digit_chars app]. eexists _, _. split; [reflexivity | ].
      change (ch "0") with 48. change (ch "_") with 95.
      change (ch "+") with 43. change (ch "-") with 45.
      split_and!; lia. }
  destruct Hhead as (c & p & Ebody & Hc1 & Hc2 & Hc3).
  rewrite Htext, Ebody. rewrite Ebody in Hrun.
  rewrite (parse_sign_digits h0 sg (negative h) c p stf Hsg Hc1 Hc2 Hc3 Hrun Hsd).
  cbv zeta. rewrite Efinal.
  destruct Hstf as (End & Hlf & Hdsf & Etrf & _).
  assert (Hndf : num_digits h <= pds_nd stf <= 800) by lia.
  destruct (Z.eqb_spec (pds_nd stf) 0) as [E0|_]; [lia | ].
  unfold HPD__DECIMAL_POINT__RANGE.
  assert (Eclamp : (if decimal_point h <? Z.opp 2047 then Z.opp 2047 - 1
                    else if 2047 <? decimal_point h then 2047 + 1
                    else decimal_point h) = decimal_point h).
  { destruct (Z.ltb_spec (decimal_point h) (Z.opp 2047)); [lia | ].
    destruct (Z.ltb_spec 2047 (decimal_point h)); [lia | reflexivity]. }
  rewrite Eclamp.
  eexists. split; [reflexivity | ].
  unfold high_prec_dec__trim.
  cbn [num_digits decimal_point negative truncated digits set_num_digits].
  assert (Etrim : trim_loop (Z.to_nat (pds_nd stf)) (pds_digits stf)
                  = Z.to_nat (num_digits h)).
  { apply trim_loop_to.
    - right. rewrite Z2Nat.id by lia. rewrite Hdsf by lia.
      rewrite hpd_digit_in by lia.
      destruct Htrim as [Hz|Hnz]; [lia | exact Hnz].
    - lia.
    - intros i Hi. rewrite Hdsf by lia. apply hpd_digit_out. lia. }
  rewrite Etrim.
  split_and!; [lia | reflexivity | reflexivity | exact Etrf | ].
  unfold hpd_active_digits.
  cbn [num_digits digits set_num_digits]. rewrite Nat2Z.id.
  apply take_digit_get_ext; [lia | lia | ].
  intros i Hi. rewrite Hdsf by lia. apply hpd_digit_in. lia.
Qed.

Lemma fixed_point_round_trip_witness :
  let h := high_prec_dec__assign hpd_stack 12500 true in
  let text := fixed_point_text h 2 false false in
  text = bytes_of_string "-12500.00"
  /\ exists h' : high_prec_dec,
       high_prec_dec__parse (Some hpd_stack) text = (None, Some h')
       /\ num_digits h' = num_digits h
       /\ decimal_point h' = decimal_point h
       /\ negative h' = negative h
       /\ truncated h' = false
       /\ hpd_active_digits h' = hpd_active_digits h.
Proof.
  intros h text.
  assert (Hcan : hpd_canonical h).
  { destruct (assign_inv hpd_stack 12500 true eq_refl ltac:(lia)) as [Hwf Hinv].
    split_and!; [exact Hwf | exact Hinv | vm_compute; reflexivity
                | vm_compute; discriminate]. }
  split; [vm_compute; reflexivity | ].
  exact (proj2 (fixed_point_round_trip h hpd_stack 2 0 Hcan eq_refl
                  ltac:(vm_compute; split; discriminate)
                  ltac:(vm_compute; discriminate)
                  ltac:(lia))).
Defined.

(** ** Reading back what [render_exponent_present] writes *)

Lemma exponent_chars_length (e : Z) :
  Z.of_nat (length (exponent_chars e)) = if e <? 100 then 2 else 3.
Proof. unfold exponent_chars. destruct (e <? 100); reflexivity. Qed.

(** What [render_exponent_present] writes is the scientific notation. *)
Lemma render_exponent_present_text (dst : list Z) (h : high_prec_dec)
    (precision options : Z) :
  hpd_digits_ok h -> 0 < num_digits h <= 800 ->
  -998 <= decimal_point h <= 1000 ->
  0 <= precision < 2 ^ 31 - 1 ->
  high_prec_dec__render_exponent_present dst h precision options
  = written_window dst
      (scientific_text h precision
         (has_flag options RENDER_NUMBER_XXX__LEADING_PLUS_SIGN)
         (has_flag options RENDER_NUMBER_FXX__DECIMAL_SEPARATOR_IS_A_COMMA))
      (has_flag options RENDER_NUMBER_XXX__ALIGN_RIGHT).
Proof.
  intros Hok Hnd Hdp Hprec.
  set (e := Z.abs (decimal_point h - 1)).
  assert (He : 0 <= e <= 999) by (unfold e; lia).
  assert (Eexp : (if (if 0 <? num_digits h then i32 (decimal_point h - 1) else 0)
                     <? 0
                  then i32 (- (if 0 <? num_digits h
                               then i32 (decimal_point h - 1) else 0))
                  else if 0 <? num_digits h then i32 (decimal_point h - 1)
                       else 0) = e).
  { destruct (Z.ltb_spec 0 (num_digits h)); [ | lia].
    rewrite (i32_small (decimal_point h - 1)) by lia.
    destruct (Z.ltb_spec (decimal_point h - 1) 0);
      [rewrite i32_small by lia | ]; unfold e; lia. }
  assert (Eneg : ((if 0 <? num_digits h then i32 (decimal_point h - 1) else 0)
                  <? 0) = (decimal_point h - 1 <? 0)).
  { destruct (Z.ltb_spec 0 (num_digits h)); [ | lia].
    rewrite (i32_small (decimal_point h - 1)) by lia. reflexivity. }
  set (w1 := put_sign h options).
  set (w2 := fun st : Z * list Z =>
               if 0 <? num_digits h
               then put st (u8 (Z.lor (ch "0") (digit_get (digits h) 0)))
               else put st (ch "0")).
  set (w3 := fun st : Z * list Z =>
               if 0 <? precision then
                 put_zeroes
                   (Z.to_nat (precision + 1
                              - Z.max 1 (Z.min (num_digits h)
                                           (u32 (precision + 1)))))
                   (put_digits
                      (Z.to_nat (Z.min (num_digits h) (u32 (precision + 1)) - 1))
                      1 h (put st (separator options)))
               else st).
  set (w4 := fun st : Z * list Z =>
               put (put st (ch "e"))
                 (if decimal_point h - 1 <? 0 then ch "-" else ch "+")).
  set (w5 := fun st : Z * list Z =>
               if e <? 10 then
                 put (put st (ch "0")) (u8 (Z.lor (ch "0") e))
               else if e <? 100 then
                 put (put st (u8 (Z.lor (ch "0") (e / 10))))
                   (u8 (Z.lor (ch "0") (e mod 10)))
               else
                 put (put (put st (u8 (Z.lor (ch "0") (e / 100))))
                        (u8 (Z.lor (ch "0") (i32 (e - e / 100 * 100) / 10))))
                   (u8 (Z.lor (ch "0") (i32 (e - e / 100 * 100) mod 10)))).
  assert (W1 : writes w1
                 (if negative h then [ch "-"]
                  else if has_flag options RENDER_NUMBER_XXX__LEADING_PLUS_SIGN
                       then [ch "+"] else [])).
  { unfold w1, put_sign. destruct (negative h); [apply writes_put | ].
    destruct (has_flag options RENDER_NUMBER_XXX__LEADING_PLUS_SIGN);
      [apply writes_put | apply writes_nil]. }
  assert (W2 : writes w2 (digit_chars h 0 1)).
  { unfold w2. destruct (Z.ltb_spec 0 (num_digits h)); [ | lia].
    cbn [digit_chars]. rewrite hpd_digit_in by lia.
    rewrite digit_char_lor by (apply Hok; lia). apply writes_put. }
  assert (W3 : writes w3
                 (if 0 <? precision
                  then (if has_flag options
                             RENDER_NUMBER_FXX__DECIMAL_SEPARATOR_IS_A_COMMA
                        then ch "," else ch ".")
                       :: digit_chars h 1 (Z.to_nat precision)
                  else [])).
  { unfold w3.
    destruct (Z.ltb_spec 0 precision) as [Hpos|Hzero]; [ | apply writes_nil].
    rewrite (u32_small (precision + 1)) by lia.
    set (j := Z.min (num_digits h) (precision + 1)).
    replace (Z.max 1 j) with j by (unfold j; lia).
    replace (Z.to_nat precision)
      with (Z.to_nat (j - 1) + Z.to_nat (precision + 1 - j))%nat
      by (unfold j; lia).
    rewrite digit_chars_app.
    apply (writes_comp (fun st => put_digits _ 1 h (put st _)) (put_zeroes _)
             ([_] ++ _)).
    - apply (writes_comp (fun st => put st _) (put_digits _ 1 h) [_]).
      + unfold separator.
        destruct (has_flag options
                    RENDER_NUMBER_FXX__DECIMAL_SEPARATOR_IS_A_COMMA);
          apply writes_put.
      + apply writes_digit_chars_digits; [exact Hok | lia | unfold j; lia].
    - destruct (Z.le_gt_cases (num_digits h) (precision + 1)) as [H|H].
      + apply writes_digit_chars_zeroes. unfold j. lia.
      + replace (Z.to_nat (precision + 1 - j)) with 0%nat by (unfold j; lia).
        apply writes_nil. }
  assert (W4 : writes w4
                 [ch "e"; if decimal_point h - 1 <? 0 then ch "-" else ch "+"]).
  { unfold w4.
    apply (writes_comp (fun st => put st _) (fun st => put st _) [_] [_]);
      apply writes_put. }
  assert (W5 : writes w5 (exponent_chars e)).
  { unfold w5, exponent_chars.
    assert (Hdiv : 0 <= e / 10 <= 99 /\ 0 <= e mod 10 <= 9
                   /\ 0 <= e / 100 <= 9 /\ 0 <= e mod 100 / 10 <= 9)
      by (Z.div_mod_to_equations; lia).
    destruct (Z.ltb_spec e 10) as [H10|H10].
    - destruct (Z.ltb_spec e 100); [ | lia].
      rewrite (Z.div_small e 10), (Z.mod_small e 10) by lia.
      rewrite Z.add_0_r, digit_char_lor by lia.
      apply (writes_comp (fun st => put st _) (fun st => put st _) [_] [_]);
        apply writes_put.
    - destruct (Z.ltb_spec e 100) as [H100|H100].
      + rewrite !digit_char_lor by (Z.div_mod_to_equations; lia).
        apply (writes_comp (fun st => put st _) (fun st => put st _) [_] [_]);
          apply writes_put.
      + rewrite (i32_small (e - e / 100 * 100))
          by (Z.div_mod_to_equations; lia).
        replace (e - e / 100 * 100) with (e mod 100)
          by (Z.div_mod_to_equations; lia).
        replace (e mod 100 mod 10) with (e mod 10)
          by (Z.div_mod_to_equations; lia).
        rewrite !digit_char_lor by (Z.div_mod_to_equations; lia).
        apply (writes_comp (fun st => put (put st _) _) (fun st => put st _)
                 ([_] ++ [_]) [_]); [ | apply writes_put].
        apply (writes_comp (fun st => put st _) (fun st => put st _) [_] [_]);
          apply writes_put. }
  pose proof (writes_comp _ _ _ _
                (writes_comp _ _ _ _
                   (writes_comp _ _ _ _ (writes_comp _ _ _ _ W1 W2) W3) W4) W5)
    as W.
  rewrite <- !app_assoc in W.
  unfold high_prec_dec__render_exponent_present. cbv zeta.
  rewrite Eexp, Eneg.
  assert (L : Z.of_nat
                (length
                   (scientific_text h precision
                      (has_flag options RENDER_NUMBER_XXX__LEADING_PLUS_SIGN)
                      (has_flag options
                         RENDER_NUMBER_FXX__DECIMAL_SEPARATOR_IS_A_COMMA)))
              = (if negative h
                    || has_flag options RENDER_NUMBER_XXX__LEADING_PLUS_SIGN
                 then 4 else 3)
                + (if 0 <? precision then u32 (precision + 1) else 0)
                + (if e <? 100 then 2 else 3)).
  { unfold scientific_text. fold e.
    rewrite !length_app, !Nat2Z.inj_add, exponent_chars_length.
    destruct (negative h); cbn [orb];
      [ | destruct (has_flag options RENDER_NUMBER_XXX__LEADING_PLUS_SIGN) ];
      (destruct (Z.ltb_spec 0 precision);
       cbn [length]; rewrite ?digit_chars_length;
       rewrite ?(u32_small (precision + 1)) by lia; lia). }
  assert (En : (if 0 <? precision
                then (if negative h
                         || has_flag options RENDER_NUMBER_XXX__LEADING_PLUS_SIGN
                      then 4 else 3) + u32 (precision + 1)
                else if negative h
                        || has_flag options RENDER_NUMBER_XXX__LEADING_PLUS_SIGN
                     then 4 else 3)
               + (if e <? 100 then 2 else 3)
               = (if negative h
                     || has_flag options RENDER_NUMBER_XXX__LEADING_PLUS_SIGN
                  then 4 else 3)
                 + (if 0 <? precision then u32 (precision + 1) else 0)
                 + (if e <? 100 then 2 else 3)).
  { destruct (0 <? precision); lia. }
  rewrite En.
  pose proof (writes_window _ _ dst
                (has_flag options RENDER_NUMBER_XXX__ALIGN_RIGHT) _ W L) as HW.
  unfold scientific_text. fold e.
  rewrite <- HW. unfold w5, w4, w3, w2, w1.
  destruct (slice_len dst <? _); [reflexivity | ].
  destruct (0 <? precision); destruct (e <? 10); destruct (e <? 100);
    reflexivity.
Qed.

Lemma parse_digits_loop_stop (c : Z) (p : list Z) (st : parse_digits_state) :
  c = ch "e" -> parse_digits_loop (c :: p) st = digits_left st (c :: p).
Proof. intros ->. destruct st. reflexivity. Qed.

Lemma parse_exp_loop_digit (d : Z) (p : list Z) (exp : Z) (saw : bool) :
  0 <= d <= 9 -> 0 <= exp < 100 ->
  parse_exp_loop ((ch "0" + d) :: p) exp saw
  = parse_exp_loop p (10 * exp + d) true.
Proof.
  intros Hd He. cbn [parse_exp_loop].
  assert (E1 : (ch "0" + d =? ch "_") = false)
    by (apply Z.eqb_neq; change (ch "0") with 48; change (ch "_") with 95; lia).
  assert (E2 : (ch "0" <=? ch "0" + d) && (ch "0" + d <=? ch "9") = true).
  { apply andb_true_iff. split; apply Z.leb_le;
      change (ch "0") with 48; change (ch "9") with 57; lia. }
  rewrite E1, E2. cbv zeta.
  unfold HPD__DECIMAL_POINT__RANGE, HPD__DIGITS_PRECISION.
  destruct (Z.ltb_spec exp (2047 + 800)); [ | lia].
  replace (ch "0" + d - ch "0") with d by lia.
  rewrite (i32_small d), i32_small by lia. reflexivity.
Qed.

Lemma parse_exp_loop_chars (e : Z) :
  0 <= e <= 999 ->
  parse_exp_loop (exponent_chars e) 0 false = (e, true, []).
Proof.
  intros He. unfold exponent_chars.
  destruct (Z.ltb_spec e 100).
  - rewrite !parse_exp_loop_digit by (Z.div_mod_to_equations; lia).
    cbn [parse_exp_loop]. do 2 f_equal. Z.div_mod_to_equations. lia.
  - rewrite !parse_exp_loop_digit by (Z.div_mod_to_equations; lia).
    cbn [parse_exp_loop]. do 2 f_equal. Z.div_mod_to_equations. lia.
Qed.

Lemma parse_exponent_chars (x dp : Z) :
  -999 <= x <= 999 -> - 2 ^ 30 <= dp <= 2 ^ 30 ->
  parse_exponent
    ([ch "e"; if x <? 0 then ch "-" else ch "+"]
     ++ exponent_chars (Z.abs x)) dp
  = Some (dp + x, []).
Proof.
  intros Hx Hdp. cbn [app parse_exponent].
  change ((ch "e" =? ch "E") || (ch "e" =? ch "e")) with true. cbv iota.
  destruct (Z.ltb_spec x 0) as [Hneg|Hpos].
  - change (skip_underscores (ch "-" :: exponent_chars (Z.abs x)))
      with (ch "-" :: exponent_chars (Z.abs x)).
    cbv iota. change (ch "-" =? ch "+") with false. rewrite Z.eqb_refl.
    rewrite parse_exp_loop_chars by lia. cbn [negb].
    rewrite (i32_small (-1 * Z.abs x)), i32_small by lia.
    do 2 f_equal. lia.
  - change (skip_underscores (ch "+" :: exponent_chars (Z.abs x)))
      with (ch "+" :: exponent_chars (Z.abs x)).
    cbv iota. rewrite Z.eqb_refl.
    rewrite parse_exp_loop_chars by lia. cbn [negb].
    rewrite (i32_small (1 * Z.abs x)), i32_small by lia.
    do 2 f_equal. lia.
Qed.

(** [parse] of an optional sign and a number with an exponent, in terms
    of the state in which the digits loop stops and of the decimal point
    that the exponent gives. *)
Lemma parse_sign_digits_exponent (h0 : high_prec_dec) (sg : list Z) (b : bool)
    (c : Z) (p rest : list Z) (stf : parse_digits_state) (dpe : Z) :
  sign_token sg b ->
  c <> ch "_" -> c <> ch "+" -> c <> ch "-" ->
  parse_digits_loop (c :: p)
    (mk_pds 0 0 false false false false (digits h0)) = digits_left stf rest ->
  pds_saw_digits stf = true ->
  parse_exponent rest
    (if negb (pds_saw_dot stf) then i32 (pds_nd stf) else pds_dp stf)
  = Some (dpe, []) ->
  high_prec_dec__parse (Some h0) (sg ++ c :: p)
  = (None,
     Some (high_prec_dec__trim
             (mk_hpd (pds_nd stf)
                (if pds_nd stf =? 0 then 0
                 else if dpe <? - HPD__DECIMAL_POINT__RANGE
                      then - HPD__DECIMAL_POINT__RANGE - 1
                 else if HPD__DECIMAL_POINT__RANGE <? dpe
                      then HPD__DECIMAL_POINT__RANGE + 1
                 else dpe)
                b (pds_truncated stf) (pds_digits stf)))).
Proof.
  intros Hsg Hc1 Hc2 Hc3 Hrun Hsd Hexp.
  assert (Eskip : skip_underscores (c :: p) = c :: p).
  { cbn [skip_underscores]. destruct (Z.eqb_spec c (ch "_")); [contradiction | ].
    reflexivity. }
  assert (E2 : (c =? ch "+") = false) by (apply Z.eqb_neq; exact Hc2).
  assert (E3 : (c =? ch "-") = false) by (apply Z.eqb_neq; exact Hc3).
  destruct stf as [nd dp sd snz sdot tr ds].
  cbn [pds_nd pds_dp pds_saw_dot pds_saw_digits pds_truncated pds_digits] in *.
  subst sd.
  assert (Hfinish : forall hi : high_prec_dec,
            digits hi = digits h0 -> truncated hi = false ->
            num_digits hi = 0 -> decimal_point hi = 0 -> negative hi = b ->
            match
              parse_digits_loop (c :: p)
                (mk_pds 0 0 false false false (truncated hi) (digits hi))
            with
            | digits_bad (mk_pds _ _ _ _ _ trunc ds) =>
                (make_status (Some error__bad_argument),
                 Some (set_digits (set_truncated hi trunc) ds))
            | digits_left (mk_pds nd dp saw_digits _ saw_dot trunc ds) p =>
                let h := set_digits (set_truncated hi trunc) ds in
                if negb saw_digits
                then (make_status (Some error__bad_argument), Some h)
                else
                  let dp := if negb saw_dot then i32 nd else dp in
                  match parse_exponent p dp with
                  | None => (make_status (Some error__bad_argument), Some h)
                  | Some (dp, p) =>
                      if negb (is_nil p)
                      then (make_status (Some error__bad_argument), Some h)
                      else
                        let h := set_num_digits h nd in
                        let h :=
                          if nd =? 0 then set_decimal_point h 0
                          else if dp <? - HPD__DECIMAL_POINT__RANGE then
                            set_decimal_point h (- HPD__DECIMAL_POINT__RANGE - 1)
                          else if HPD__DECIMAL_POINT__RANGE <? dp then
                            set_decimal_point h (HPD__DECIMAL_POINT__RANGE + 1)
                          else set_decimal_point h dp in
                        (make_status None, Some (high_prec_dec__trim h))
                  end
            end
            = (None,
               Some (high_prec_dec__trim
                       (mk_hpd nd
                          (if nd =? 0 then 0
                           else if dpe <? - HPD__DECIMAL_POINT__RANGE
                                then - HPD__DECIMAL_POINT__RANGE - 1
                           else if HPD__DECIMAL_POINT__RANGE <? dpe
                                then HPD__DECIMAL_POINT__RANGE + 1
                           else dpe)
                          b tr ds)))).
  { intros hi Ed Et En Edp Eneg. rewrite Ed, Et, Hrun.
    cbn [negb]. cbv zeta. rewrite Hexp. cbn [is_nil negb].
    unfold make_status.
    destruct hi as [n0 d0 b0 t0 ds0]. cbn in Ed, Et, En, Edp, Eneg. subst.
    destruct (nd =? 0);
      [ | destruct (_ <? - HPD__DECIMAL_POINT__RANGE);
          [ | destruct (HPD__DECIMAL_POINT__RANGE <? _)]];
      reflexivity. }
  destruct Hsg; unfold high_prec_dec__parse; cbn [app]; cbv zeta.
  - rewrite Eskip. cbv beta iota. rewrite E2, E3.
    apply (Hfinish (mk_hpd 0 0 false false (digits h0))); reflexivity.
  - change (skip_underscores (ch "+" :: c :: p)) with (ch "+" :: c :: p).
    cbv beta iota. rewrite Z.eqb_refl, Eskip.
    apply (Hfinish (mk_hpd 0 0 false false (digits h0))); reflexivity.
  - change (skip_underscores (ch "-" :: c :: p)) with (ch "-" :: c :: p).
    cbv beta iota.
    change (ch "-" =? ch "+") with false. rewrite Z.eqb_refl, Eskip.
    apply (Hfinish (set_negative (mk_hpd 0 0 false false (digits h0)) true));
      reflexivity.
Qed.

(** X20. The scientific notation round trips. For a decimal in canonical
    form whose exponent [decimal_point - 1] has at most three digits,
    [render_exponent_present] writes its scientific notation (into the
    window that fits it, at the left or at the right end of the
    destination). When the precision covers all digits after the first,
    [parse] reads that text back as the same decimal: the same digits,
    decimal point and sign, and nothing truncated. *)
Theorem scientific_round_trip (h h0 : high_prec_dec) (precision options : Z) :
  hpd_canonical h -> length (digits h0) = 800%nat ->
  -998 <= decimal_point h <= 1000 ->
  num_digits h - 1 <= precision ->
  0 <= precision < 2 ^ 31 - 1 ->
  let text :=
    scientific_text h precision
      (has_flag options RENDER_NUMBER_XXX__LEADING_PLUS_SIGN)
      (has_flag options RENDER_NUMBER_FXX__DECIMAL_SEPARATOR_IS_A_COMMA) in
  (forall dst : list Z,
      high_prec_dec__render_exponent_present dst h precision options
      = written_window dst text
          (has_flag options RENDER_NUMBER_XXX__ALIGN_RIGHT))
  /\ exists h' : high_prec_dec,
       high_prec_dec__parse (Some h0) text = (None, Some h')
       /\ num_digits h' = num_digits h
       /\ decimal_point h' = decimal_point h
       /\ negative h' = negative h
       /\ truncated h' = false
       /\ hpd_active_digits h' = hpd_active_digits h.
Proof.
  intros Hcan Hl0 Hdp Hcover Hprec text.
  pose proof Hcan as ((Hlen & Hnd) & (Htrim & Hok) & Hpos & Hfirst).
  unfold HPD__DIGITS_PRECISION in Hnd.
  split.
  { intros dst. apply render_exponent_present_text; [exact Hok | lia | lia | lia]. }
  set (plus := has_flag options RENDER_NUMBER_XXX__LEADING_PLUS_SIGN) in *.
  set (comma :=
         has_flag options RENDER_NUMBER_FXX__DECIMAL_SEPARATOR_IS_A_COMMA) in *.
  set (sg := if negative h then [ch "-"] else if plus then [ch "+"] else []).
  set (tail := [ch "e"; if decimal_point h - 1 <? 0 then ch "-" else ch "+"]
               ++ exponent_chars (Z.abs (decimal_point h - 1))).
  set (frac := if 0 <? precision
               then (if comma then ch "," else ch ".")
                    :: digit_chars h 1 (Z.to_nat precision)
               else []).
  assert (Htext : text = sg ++ (ch "0" + hpd_digit h 0) :: (frac ++ tail))
    by reflexivity.
  assert (Hsg : sign_token sg (negative h)).
  { unfold sg. destruct (negative h); [constructor | ].
    destruct plus; constructor. }
  set (st0 := mk_pds 0 0 false false false false (digits h0)).
  assert (Hst0 : run_state h 0 st0).
  { unfold run_state, st0. cbn. split_and!; try reflexivity; [exact Hl0 | lia | ].
    right. right. split; reflexivity. }
  pose proof (hpd_digit_ok h 0 Hok) as Hd0.
  assert (Hstop : forall st, parse_digits_loop tail st = digits_left st tail).
  { intros st. apply parse_digits_loop_stop. reflexivity. }
  (* The digits loop stops at the exponent. *)
  assert (Hloop : exists stf A,
            parse_digits_loop ((ch "0" + hpd_digit h 0) :: (frac ++ tail)) st0
            = digits_left stf tail
            /\ pds_saw_digits stf = true
            /\ run_state h A stf /\ num_digits h <= A
            /\ (if negb (pds_saw_dot stf) then i32 (pds_nd stf)
                else pds_dp stf) = 1).
  { destruct (parse_digits_run h Hcan 1 0 st0 (frac ++ tail) ltac:(lia) Hst0)
      as (st1 & Hrun1 & Hst1 & Edp1 & Edot1 & Esd1 & _).
    cbn [digit_chars app] in Hrun1. rewrite Hrun1.
    change (0 + Z.of_nat 1) with 1 in Hst1.
    destruct st1 as [nd1 dp1 sd1 snz1 sdot1 tr1 ds1].
    cbn [pds_dp pds_saw_dot pds_saw_digits st0] in Edp1, Edot1, Esd1.
    subst dp1 sdot1. rewrite (Esd1 ltac:(lia)) in *.
    pose proof Hst1 as (End1 & Hl1 & Hds1 & Etr1 & Hlead1).
    cbn [pds_nd pds_digits pds_truncated pds_saw_dot pds_saw_digits
         pds_saw_non_zero_digits] in End1, Hl1, Hds1, Etr1, Hlead1.
    unfold frac. destruct (Z.ltb_spec 0 precision) as [Hp|Hp].
    - destruct (parse_digits_run h Hcan (Z.to_nat precision) 1
                  (mk_pds nd1 (i32 nd1) true snz1 true tr1 ds1) tail
                  ltac:(lia))
        as (stf & Hrun & Hstf & Edp & Edot & Esd & _).
      { split_and!; cbn [pds_nd pds_digits pds_truncated pds_saw_dot
                         pds_saw_digits pds_saw_non_zero_digits];
          [exact End1 | exact Hl1 | exact Hds1 | exact Etr1 | ].
        left. reflexivity. }
      exists stf, (1 + Z.of_nat (Z.to_nat precision)).
      split_and!.
      + cbn [app parse_digits_loop].
        assert (Esep : forall c,
                  c = (if comma then ch "," else ch ".") ->
                  (c =? ch "_") = false
                  /\ ((c =? ch ".") || (c =? ch ",")) = true).
        { intros c ->. destruct comma; split; reflexivity. }
        destruct (Esep _ eq_refl) as [Es1 Es2]. rewrite Es1, Es2.
        rewrite Hrun. apply Hstop.
      + apply Esd. lia.
      + exact Hstf.
      + lia.
      + rewrite Edot. cbn [pds_saw_dot negb]. rewrite Edp. cbn [pds_dp].
        rewrite End1. reflexivity.
    - exists (mk_pds nd1 0 true snz1 false tr1 ds1), 1.
      split_and!.
      + cbn [app]. apply Hstop.
      + reflexivity.
      + exact Hst1.
      + lia.
      + cbn [pds_saw_dot negb pds_nd]. rewrite End1. reflexivity. }
  destruct Hloop as (stf & A & Hrun & Hsd & Hstf & HA & Efinal).
  assert (Hexp : parse_exponent tail
                   (if negb (pds_saw_dot stf) then i32 (pds_nd stf)
                    else pds_dp stf)
                 = Some (decimal_point h, [])).
  { rewrite Efinal. unfold tail.
    rewrite parse_exponent_chars by lia. do 2 f_equal. lia. }
  assert (Hc : ch "0" + hpd_digit h 0 <> ch "_"
               /\ ch "0" + hpd_digit h 0 <> ch "+"
               /\ ch "0" + hpd_digit h 0 <> ch "-").
  { change (ch "0") with 48. change (ch "_") with 95.
    change (ch "+") with 43. change (ch "-") with 45. lia. }
  destruct Hc as (Hc1 & Hc2 & Hc3).
  rewrite Htext.
  rewrite (parse_sign_digits_exponent h0 sg (negative h) _ _ tail stf
             (decimal_point h) Hsg Hc1 Hc2 Hc3 Hrun Hsd Hexp).
  destruct Hstf as (End & Hlf & Hdsf & Etrf & _).
  assert (Hndf : num_digits h <= pds_nd stf <= 800) by lia.
  destruct (Z.eqb_spec (pds_nd stf) 0) as [E0|_]; [lia | ].
  unfold HPD__DECIMAL_POINT__RANGE.
  assert (Eclamp : (if decimal_point h <? Z.opp 2047 then Z.opp 2047 - 1
                    else if 2047 <? decimal_point h then 2047 + 1
                    else decimal_point h) = decimal_point h).
  { destruct (Z.ltb_spec (decimal_point h) (Z.opp 2047)); [lia | ].
    destruct (Z.ltb_spec 2047 (decimal_point h)); [lia | reflexivity]. }
  rewrite Eclamp.
  eexists. split; [reflexivity | ].
  unfold high_prec_dec__trim.
  cbn [num_digits decimal_point negative truncated digits set_num_digits].
  assert (Etrim : trim_loop (Z.to_nat (pds_nd stf)) (pds_digits stf)
                  = Z.to_nat (num_digits h)).
  { apply trim_loop_to.
    - right. rewrite Z2Nat.id by lia. rewrite Hdsf by lia.
      rewrite hpd_digit_in by lia.
      destruct Htrim as [Hz|Hnz]; [lia | exact Hnz].
    - lia.
    - intros i Hi. rewrite Hdsf by lia. apply hpd_digit_out. lia. }
  rewrite Etrim.
  split_and!; [lia | reflexivity | reflexivity | exact Etrf | ].
  unfold hpd_active_digits.
  cbn [num_digits digits set_num_digits]. rewrite Nat2Z.id.
  apply take_digit_get_ext; [lia | lia | ].
  intros i Hi. rewrite Hdsf by lia. apply hpd_digit_in. lia.
Qed.

Lemma scientific_round_trip_witness :
  let h := high_prec_dec__assign hpd_stack 12500 true in
  let text := scientific_text h 3 true true in
  text = bytes_of_string "-1,250e+04"
  /\ exists h' : high_prec_dec,
       high_prec_dec__parse (Some hpd_stack) text = (None, Some h')
       /\ num_digits h' = num_digits h
       /\ decimal_point h' = decimal_point h
       /\ negative h' = negative h
       /\ truncated h' = false
       /\ hpd_active_digits h' = hpd_active_digits h.
Proof.
  intros h text.
  assert (Hcan : hpd_canonical h).
  { destruct (assign_inv hpd_stack 12500 true eq_refl ltac:(lia)) as [Hwf Hinv].
    split_and!; [exact Hwf | exact Hinv | vm_compute; reflexivity
                | vm_compute; discriminate]. }
  split; [vm_compute; reflexivity | ].
  exact (proj2 (scientific_round_trip h hpd_stack 3
                  (Z.lor RENDER_NUMBER_XXX__LEADING_PLUS_SIGN
                     RENDER_NUMBER_FXX__DECIMAL_SEPARATOR_IS_A_COMMA)
                  Hcan eq_refl
                  ltac:(vm_compute; split; discriminate)
                  ltac:(vm_compute; discriminate)
                  ltac:(lia))).
Defined.

(** ** A single leading zero *)

(** After the separator every digit is read: the loop goes on to what
    follows the digits. *)
Lemma parse_digits_loop_fraction (frac rest : list Z) :
  Forall is_digit frac ->
  forall st,
    pds_saw_dot st = true ->
    exists st',
      parse_digits_loop (frac ++ rest) st = parse_digits_loop rest st'
      /\ pds_saw_dot st' = true
      /\ (pds_saw_digits st = true -> pds_saw_digits st' = true).
Proof.
  induction 1 as [|c frac Hc _ IH]; intros st Hdot.
  - exists st. split_and!; [reflexivity | exact Hdot | tauto].
  - destruct st as [nd dp sd snz sdot tr ds]. cbn [pds_saw_dot] in Hdot.
    subst sdot. unfold is_digit in Hc.
    change (ch "0") with 48 in Hc. change (ch "9") with 57 in Hc.
    cbn [app parse_digits_loop].
    assert (E1 : (c =? ch "_") = false)
      by (apply Z.eqb_neq; change (ch "_") with 95; lia).
    assert (E2 : ((c =? ch ".") || (c =? ch ",")) = false).
    { apply orb_false_iff. split; apply Z.eqb_neq;
        [change (ch ".") with 46 | change (ch ",") with 44]; lia. }
    rewrite E1, E2. cbn [negb andb].
    assert (Hnext : forall st1,
              pds_saw_dot st1 = true -> pds_saw_digits st1 = true ->
              exists st',
                parse_digits_loop (frac ++ rest) st1 = parse_digits_loop rest st'
                /\ pds_saw_dot st' = true
                /\ (sd = true -> pds_saw_digits st' = true)).
    { intros st1 H1 H2. destruct (IH st1 H1) as (st' & E & Hd & Hs).
      exists st'. split_and!; [exact E | exact Hd | intros _; apply Hs, H2]. }
    destruct (Z.eqb_spec (ch "0") c) as [E0|N0].
    + destruct (nd =? 0); [apply Hnext; reflexivity | ].
      destruct (nd <? HPD__DIGITS_PRECISION); apply Hnext; reflexivity.
    + assert (E3 : (ch "0" <? c) && (c <=? ch "9") = true).
      { apply andb_true_iff. split; [apply Z.ltb_lt | apply Z.leb_le];
          change (ch "0") with 48 in *; change (ch "9") with 57; lia. }
      rewrite E3.
      destruct (nd <? HPD__DIGITS_PRECISION); apply Hnext; reflexivity.
Qed.

(** The digits loop stops at the end of the input and at an exponent. *)
Lemma parse_digits_loop_exponent (ex : list Z) (st : parse_digits_state) :
  (ex = [] \/ exists e q, ex = e :: q /\ (e = ch "E" \/ e = ch "e")) ->
  parse_digits_loop ex st = digits_left st ex.
Proof.
  intros [-> | (e & q & -> & [-> | ->])]; destruct st; reflexivity.
Qed.

Lemma parse_exp_loop_digits (ds : list Z) :
  Forall is_digit ds ->
  forall exp saw,
    exists exp',
      parse_exp_loop ds exp saw = (exp', saw || negb (is_nil ds), []).
Proof.
  induction 1 as [|c ds Hc _ IH]; intros exp saw.
  - exists exp. cbn. rewrite orb_false_r. reflexivity.
  - unfold is_digit in Hc. cbn [parse_exp_loop].
    assert (E1 : (c =? ch "_") = false).
    { apply Z.eqb_neq. change (ch "0") with 48 in Hc.
      change (ch "9") with 57 in Hc. change (ch "_") with 95. lia. }
    assert (E2 : (ch "0" <=? c) && (c <=? ch "9") = true)
      by (apply andb_true_iff; split; apply Z.leb_le; lia).
    rewrite E1, E2. cbv zeta.
    destruct (IH (if exp <? HPD__DECIMAL_POINT__RANGE + HPD__DIGITS_PRECISION
                  then i32 (10 * exp + i32 (c - ch "0")) else exp) true)
      as (exp' & E).
    exists exp'. rewrite E. cbn [is_nil negb orb]. rewrite orb_true_r.
    reflexivity.
Qed.

(** An exponent with at least one digit is read to the end of the input. *)
Lemma parse_exponent_accepts (ex : list Z) (dp : Z) :
  (ex = []
   \/ exists e sg2 neg2 ds,
        ex = e :: sg2 ++ ds /\ (e = ch "E" \/ e = ch "e")
        /\ sign_token sg2 neg2 /\ Forall is_digit ds /\ ds <> []) ->
  exists dpe, parse_exponent ex dp = Some (dpe, []).
Proof.
  intros [-> | (e & sg2 & neg2 & ds & -> & He & Hsg & Hds & Hne)].
  - exists dp. reflexivity.
  - assert (Ee : ((e =? ch "E") || (e =? ch "e")) = true).
    { destruct He as [-> | ->]; reflexivity. }
    cbn [parse_exponent]. rewrite Ee.
    destruct ds as [|d ds]; [contradiction | ].
    pose proof (Forall_inv Hds) as Hd. unfold is_digit in Hd.
    change (ch "0") with 48 in Hd. change (ch "9") with 57 in Hd.
    assert (Hfin : forall sign,
              exists dpe,
                (let '(exp, saw_exp_digits, p5) :=
                   parse_exp_loop (d :: ds) 0 false in
                 if negb saw_exp_digits then None
                 else Some (i32 (dp + i32 (sign * exp)), p5))
                = Some (dpe, [])).
    { intros sign.
      destruct (parse_exp_loop_digits (d :: ds) Hds 0 false) as (exp' & E).
      rewrite E. cbn [is_nil negb orb]. eexists. reflexivity. }
    destruct Hsg; cbn [app].
    + rewrite skip_underscores_cons by (change (ch "_") with 95; lia).
      assert (E1 : (d =? ch "+") = false)
        by (apply Z.eqb_neq; change (ch "+") with 43; lia).
      assert (E2 : (d =? ch "-") = false)
        by (apply Z.eqb_neq; change (ch "-") with 45; lia).
      rewrite E1, E2. apply (Hfin 1).
    + rewrite skip_underscores_cons by discriminate.
      rewrite Z.eqb_refl. apply (Hfin 1).
    + rewrite skip_underscores_cons by discriminate.
      change (ch "-" =? ch "+") with false. rewrite Z.eqb_refl.
      apply (Hfin (-1)).
Qed.

(** [parse_number_f64] returns a null status for what
    [high_prec_dec__parse] accepts. *)
Lemma parse_number_f64_accepts (s : list Z) (h : high_prec_dec) :
  high_prec_dec__parse (Some hpd_stack) s = (None, Some h) ->
  result_status (parse_number_f64 s) = None.
Proof.
  intros E. unfold parse_number_f64. rewrite E.
  destruct ((num_digits h =? 0) || (decimal_point h <? -326));
    [reflexivity | ].
  destruct (310 <? decimal_point h); [reflexivity | ].
  destruct (result_status (medium_prec_bin__parse_number_f64 _ h false))
    eqn:Em; [ | exact Em].
  apply parse_number_f64_slow_status.
Qed.

(** What [parse] makes of an input with a single leading zero, in terms of
    the state in which the digits loop stops. *)
Lemma parse_single_zero (h0 : high_prec_dec) (s : list Z) (neg : bool) :
  single_zero_input s neg ->
  exists stf dpe,
    high_prec_dec__parse (Some h0) s
    = (None,
       Some (high_prec_dec__trim
               (mk_hpd (pds_nd stf)
                  (if pds_nd stf =? 0 then 0
                   else if dpe <? - HPD__DECIMAL_POINT__RANGE
                        then - HPD__DECIMAL_POINT__RANGE - 1
                   else if HPD__DECIMAL_POINT__RANGE <? dpe
                        then HPD__DECIMAL_POINT__RANGE + 1
                   else dpe)
                  neg (pds_truncated stf) (pds_digits stf)))).
Proof.
  intros (sg & mid & ex & Es & Hsg & Hmid & Hex).
  rewrite <- high_prec_dec__parse_underscores, Es.
  set (st0 := mk_pds 0 0 false false false false (digits h0)).
  assert (Hstop : forall st, parse_digits_loop ex st = digits_left st ex).
  { intros st. apply parse_digits_loop_exponent.
    destruct Hex as [-> | (e & sg2 & neg2 & ds & -> & He & _)];
      [left; reflexivity | right; eauto]. }
  assert (Hloop : exists stf,
            parse_digits_loop (ch "0" :: mid ++ ex) st0 = digits_left stf ex
            /\ pds_saw_digits stf = true).
  { unfold st0. cbn [parse_digits_loop].
    change (ch "0" =? ch "_") with false.
    change ((ch "0" =? ch ".") || (ch "0" =? ch ",")) with false.
    cbv iota. rewrite Z.eqb_refl. cbn [negb andb]. rewrite Z.eqb_refl.
    destruct Hmid as [-> | (sep & frac & -> & Hsep & Hfrac)].
    - eexists. split; [apply Hstop | reflexivity].
    - cbn [app parse_digits_loop].
      assert (Esep : (sep =? ch "_") = false
                     /\ ((sep =? ch ".") || (sep =? ch ",")) = true).
      { destruct Hsep as [-> | ->]; split; reflexivity. }
      destruct Esep as [E1 E2]. rewrite E1, E2.
      destruct (parse_digits_loop_fraction frac ex Hfrac
                  (mk_pds 0 (i32 0) true false true false (digits h0))
                  eq_refl)
        as (stf & E & _ & Hsd).
      exists stf. rewrite E. split; [apply Hstop | apply Hsd; reflexivity]. }
  destruct Hloop as (stf & Hrun & Hsd).
  destruct (parse_exponent_accepts ex
              (if negb (pds_saw_dot stf) then i32 (pds_nd stf)
               else pds_dp stf) Hex) as (dpe & Hexp).
  exists stf, dpe.
  apply (parse_sign_digits_exponent h0 sg neg (ch "0") (mid ++ ex) ex stf dpe
           Hsg); try discriminate; assumption.
Qed.

Lemma single_zero_input_example :
  single_zero_input (bytes_of_string "-0_,05_e+1") true.
Proof.
  exists [ch "-"], (bytes_of_string ",05"), (bytes_of_string "e+1").
  split_and!.
  - reflexivity.
  - constructor.
  - right. exists (ch ","), (bytes_of_string "05").
    split_and!; [reflexivity | right; reflexivity | ].
    repeat constructor; discriminate.
  - right. exists (ch "e"), [ch "+"], false, [ch "1"].
    split_and!; [reflexivity | right; reflexivity | constructor | | discriminate].
    repeat constructor; discriminate.
Qed.

(** C7. An input whose integer part starts with the digit 0 followed by
    another digit is rejected with the bad argument status and the value
    0.0. A single leading 0 is accepted: every input that is, underscores
    aside, an optional sign, the digit 0, then the end of the input or a
    separator ([.] or [,]) with any digits, with or without an exponent
    after it, is read by [high_prec_dec__parse] with a null status and the
    sign of the input, and [parse_number_f64] returns a null status for it.
    The digit 0 alone gives the zero of the sign; "0.5" parses to 0.5, and
    "7,5", with a comma as the separator, to 7.5. *)
Theorem leading_zeroes_are_rejected :
  (forall s : list Z,
      leading_zero_input s ->
      parse_number_f64 s = mk_result_f64 (Some error__bad_argument) 0)
  /\ (forall (s : list Z) (neg : bool),
         single_zero_input s neg ->
         result_status (parse_number_f64 s) = None
         /\ exists h : high_prec_dec,
              high_prec_dec__parse (Some hpd_stack) s = (None, Some h)
              /\ negative h = neg)
  /\ (forall (s sg : list Z) (neg : bool),
         remove_underscores s = sg ++ [ch "0"] -> sign_token sg neg ->
         parse_number_f64 s
         = mk_result_f64 None (if neg then 0x8000000000000000 else 0))
  /\ parse_number_f64 (bytes_of_string "0.5") = mk_result_f64 None f64_0_5
  /\ parse_number_f64 (bytes_of_string "7,5") = mk_result_f64 None f64_7_5.
Proof.
  split_and!.
  - apply parse_number_f64_leading_zero.
  - intros s neg Hs.
    destruct (parse_single_zero hpd_stack s neg Hs) as (stf & dpe & E).
    split; [eapply parse_number_f64_accepts, E | ].
    eexists. split; [exact E | reflexivity].
  - intros s sg neg Es Hsg.
    assert (E : high_prec_dec__parse (Some hpd_stack) s
                = (None, Some (mk_hpd 0 0 neg false (digits hpd_stack)))).
    { rewrite <- high_prec_dec__parse_underscores, Es.
      destruct Hsg; vm_compute; reflexivity. }
    unfold parse_number_f64. rewrite E. reflexivity.
  - vm_compute. reflexivity.
  - vm_compute. reflexivity.
Qed.

Lemma leading_zeroes_are_rejected_witness :
  (leading_zero_input (bytes_of_string "007")
   /\ parse_number_f64 (bytes_of_string "007")
      = mk_result_f64 (Some error__bad_argument) 0)
  /\ (single_zero_input (bytes_of_string "-0_,05_e+1") true
      /\ result_status (parse_number_f64 (bytes_of_string "-0_,05_e+1"))
         = None).
Proof.
  split; split.
  - exact leading_zero_input_007.
  - exact (proj1 leading_zeroes_are_rejected _ leading_zero_input_007).
  - exact single_zero_input_example.
  - exact (proj1 (proj1 (proj2 leading_zeroes_are_rejected) _ _
                    single_zero_input_example)).
Defined.

(** ** The rounded integer is the nearest integer *)

(** The digits from position [n] on, as a remainder. *)
Lemma prefix_value_split (h : high_prec_dec) (n : nat) :
  hpd_digits_ok h ->
  forall m : nat,
    exists T,
      hpd_prefix_value h (n + m)
      = hpd_prefix_value h n * 10 ^ Z.of_nat m + T
      /\ 0 <= T < 10 ^ Z.of_nat m
      /\ ((0 < m)%nat -> hpd_digit h (Z.of_nat (n + m) - 1) <> 0 -> 0 < T).
Proof.
  intros Hok. induction m as [|m IH].
  - exists 0. rewrite Nat.add_0_r. change (10 ^ Z.of_nat 0) with 1.
    split_and!; lia.
  - destruct IH as (T & E & HT & _).
    pose proof (hpd_digit_range h (Z.of_nat (n + m)) Hok) as Hd.
    exists (10 * T + hpd_digit h (Z.of_nat (n + m))).
    replace (n + S m)%nat with (S (n + m)) by lia.
    cbn [hpd_prefix_value]. rewrite E.
    rewrite Nat2Z.inj_succ, Z.pow_succ_r by lia.
    split_and!; try lia.
    intros _ Hnz.
    replace (Z.of_nat (S (n + m)) - 1) with (Z.of_nat (n + m)) in Hnz by lia.
    lia.
Qed.

Lemma odd_prefix_value (h : high_prec_dec) (n : nat) :
  Z.odd (hpd_prefix_value h n) = Z.odd (hpd_digit h (Z.of_nat n - 1)).
Proof.
  destruct n as [|n]; [reflexivity | ].
  cbn [hpd_prefix_value].
  replace (Z.of_nat (S n) - 1) with (Z.of_nat n) by lia.
  rewrite Z.add_comm.
  replace (10 * hpd_prefix_value h n) with (2 * (5 * hpd_prefix_value h n))
    by lia.
  apply Z.odd_add_mul_2.
Qed.

(** C4 (amended). [rounded_integer] returns 0 when the decimal has no
    digits or a negative decimal point, and [UINT64_MAX] when it has digits
    and its decimal point is above 18. Otherwise, for a decimal point from 0
    to 18 and a trimmed decimal (no trailing zero digit, as every function
    on decimals leaves it), it returns the number that the decimal holds,
    [V * 10^(decimal_point - num_digits)] for the digits [V], rounded to the
    nearest integer without any wrap around: an exact half goes to the
    even neighbour, or up when the truncated flag tells that digits after
    the last one were dropped. *)
Theorem rounded_integer_spec (h : high_prec_dec) :
  hpd_digits_ok h ->
  ((num_digits h = 0 \/ decimal_point h < 0) ->
     high_prec_dec__rounded_integer h = 0)
  /\ (num_digits h <> 0 -> 18 < decimal_point h ->
     high_prec_dec__rounded_integer h = UINT64_MAX)
  /\ (num_digits h <> 0 -> 0 <= decimal_point h <= 18 ->
      hpd_wf h -> hpd_trimmed h ->
      let V := digits_value (hpd_active_digits h) in
      let N := V * 10 ^ Z.max (decimal_point h - num_digits h) 0 in
      let D := 10 ^ Z.max (num_digits h - decimal_point h) 0 in
      high_prec_dec__rounded_integer h
      = if truncated h then round_half_up N D else round_half_even N D).
Proof.
  intros Hok.
  destruct (rounded_integer_prefix h Hok) as (H0 & Hmax & Hmid).
  split; [exact H0 | split; [exact Hmax | ]].
  intros Hnz Hdp Hwf Htrim V N D.
  rewrite (Hmid Hnz Hdp). clear H0 Hmax Hmid.
  pose proof Hwf as [Hlen Hnd]. unfold HPD__DIGITS_PRECISION in Hnd.
  set (P := hpd_prefix_value h (Z.to_nat (decimal_point h))).
  destruct (Z.le_gt_cases (num_digits h) (decimal_point h)) as [Hge|Hlt].
  - (* No digit after the decimal point: the number is an integer. *)
    assert (EP : P = N).
    { unfold P, N, V.
      replace (Z.to_nat (decimal_point h))
        with (Z.to_nat (num_digits h)
              + Z.to_nat (decimal_point h - num_digits h))%nat by lia.
      rewrite prefix_value_beyond by exact Hwf.
      replace (Z.max (decimal_point h - num_digits h) 0)
        with (Z.of_nat (Z.to_nat (decimal_point h - num_digits h))) by lia.
      reflexivity. }
    assert (ED : D = 1).
    { unfold D. replace (Z.max (num_digits h - decimal_point h) 0) with 0 by lia.
      reflexivity. }
    assert (Eup : hpd_rounds_up h (decimal_point h) = false).
    { unfold hpd_rounds_up.
      destruct (Z.ltb_spec (decimal_point h) (num_digits h)); [lia | reflexivity]. }
    rewrite Eup, EP, ED. unfold round_half_up, round_half_even.
    rewrite Z.mod_1_r, Z.div_1_r.
    change (2 * 0 <? 1) with true. cbv iota.
    destruct (truncated h); lia.
  - (* The digits after the decimal point decide. *)
    set (m := Z.to_nat (num_digits h - decimal_point h - 1)).
    destruct (prefix_value_split h (S (Z.to_nat (decimal_point h))) Hok m)
      as (T & E & HT & Hpos).
    replace (S (Z.to_nat (decimal_point h)) + m)%nat
      with (Z.to_nat (num_digits h)) in E, Hpos by (unfold m; lia).
    rewrite prefix_value_take in E by (try exact Hwf; lia).
    fold (hpd_active_digits h) in E. fold V in E.
    cbn [hpd_prefix_value] in E. fold P in E.
    rewrite Z2Nat.id in E, Hpos by lia.
    set (d := hpd_digit h (decimal_point h)) in *.
    pose proof (hpd_digit_range h (decimal_point h) Hok) as Hd. fold d in Hd.
    set (X := 10 ^ Z.of_nat m) in *.
    assert (HX : 0 < X) by (apply Z.pow_pos_nonneg; lia).
    assert (EN : N = V).
    { unfold N. replace (Z.max (decimal_point h - num_digits h) 0) with 0 by lia.
      change (10 ^ 0) with 1. lia. }
    assert (ED : D = 10 * X).
    { unfold D, X.
      replace (Z.max (num_digits h - decimal_point h) 0)
        with (Z.succ (Z.of_nat m)) by (unfold m; lia).
      rewrite Z.pow_succ_r by lia. reflexivity. }
    assert (Hr : 0 <= d * X + T < 10 * X) by nia.
    assert (Eq : N / D = P).
    { symmetry. apply Z.div_unique with (d * X + T); [lia | ]. nia. }
    assert (Er : N mod D = d * X + T).
    { symmetry. apply Z.mod_unique with P; [lia | ]. nia. }
    assert (Hlast : (0 < m)%nat -> 0 < T).
    { intros Hm. apply Hpos; [exact Hm | ].
      unfold hpd_digit.
      destruct (Z.leb_spec 0 (num_digits h - 1)); [ | lia].
      destruct (Z.ltb_spec (num_digits h - 1) (num_digits h)); [ | lia].
      cbn [andb]. destruct Htrim as [Hz|Hl]; [lia | exact Hl]. }
    unfold round_half_up, round_half_even. cbv zeta. rewrite Eq, Er, ED.
    unfold hpd_rounds_up. cbv zeta. fold d.
    destruct (Z.ltb_spec (decimal_point h) (num_digits h)); [ | lia].
    destruct (Z.ltb_spec d 5) as [H5|H5].
    { assert (Hlow : 2 * (d * X + T) < 10 * X) by nia.
      destruct (Z.ltb_spec (2 * (d * X + T)) (10 * X)); [ | lia].
      destruct (truncated h); lia. }
    destruct (Z.ltb_spec 5 d) as [H6|H6].
    { assert (Hhigh : 10 * X < 2 * (d * X + T)) by nia.
      destruct (Z.ltb_spec (2 * (d * X + T)) (10 * X)); [lia | ].
      destruct (Z.ltb_spec (10 * X) (2 * (d * X + T))); [ | lia].
      destruct (truncated h); lia. }
    assert (E5 : d = 5) by lia. rewrite E5 in *.
    destruct (Z.eqb_spec (decimal_point h + 1) (num_digits h)) as [Elast|Nlast].
    + (* An exact half. *)
      assert (Em : m = 0%nat) by (unfold m; lia).
      assert (ET : T = 0).
      { unfold X in HT. rewrite Em in HT. change (10 ^ Z.of_nat 0) with 1 in HT.
        lia. }
      rewrite ET, Z.add_0_r.
      destruct (Z.ltb_spec (2 * (5 * X)) (10 * X)); [lia | ].
      destruct (Z.ltb_spec (10 * X) (2 * (5 * X))); [lia | ].
      destruct (truncated h); cbn [orb]; [lia | ].
      unfold P. rewrite <- Z.negb_odd, odd_prefix_value.
      rewrite Z2Nat.id by lia.
      destruct (Z.odd (hpd_digit h (decimal_point h - 1))); cbn [negb]; lia.
    + (* Above the half: the last digit is not zero. *)
      assert (0 < T) by (apply Hlast; unfold m; lia).
      destruct (Z.ltb_spec (2 * (5 * X + T)) (10 * X)); [lia | ].
      destruct (Z.ltb_spec (10 * X) (2 * (5 * X + T))); [ | lia].
      destruct (truncated h); lia.
Qed.

Lemma rounded_integer_spec_witness :
  let h := set_decimal_point (high_prec_dec__assign hpd_stack 125 false) 2 in
  high_prec_dec__rounded_integer h = round_half_even 125 10
  /\ round_half_even 125 10 = 12.
Proof.
  intros h.
  destruct (assign_inv hpd_stack 125 false eq_refl ltac:(lia))
    as [Hwf [Htrim Hok]].
  split; [ | reflexivity].
  destruct (rounded_integer_spec h Hok) as (_ & _ & H).
  exact (H ltac:(vm_compute; discriminate)
           ltac:(vm_compute; split; discriminate) Hwf Htrim).
Defined.

(** The trimmed form matters: with a trailing zero digit the code takes
    12.50 for more than a half above 12. *)
Example rounded_integer_untrimmed :
  let h := mk_hpd 4 2 false false ([1; 2; 5; 0] ++ replicate 796 0) in
  hpd_wf h /\ hpd_digits_ok h /\ ~ hpd_trimmed h
  /\ high_prec_dec__rounded_integer h = 13
  /\ high_prec_dec__rounded_integer (high_prec_dec__trim h) = 12.
Proof.
  intros h. split_and!.
  - split; [reflexivity | vm_compute; split; discriminate].
  - intros i Hi. cbn in Hi.
    assert (i = 0 \/ i = 1 \/ i = 2 \/ i = 3) as [-> | [-> | [-> | ->]]] by lia;
      vm_compute; split; discriminate.
  - intros [Hz | Hl]; [discriminate | apply Hl; reflexivity].
  - reflexivity.
  - reflexivity.
Qed.
